(* ===== verification/_CoqProject ===== *)
-Q . S2P
Prelude.v
GoStrings.v
GoStrconv.v
GoNet.v
Macmap.v
Dhcp.v
GoOs.v
Config.v
GoPath.v
Pxe.v
Tftp.v
Saving.v
Reload.v
Netboot.v
ReloadSteps.v
Smb.v
NatRules.v
Startup.v
Wifi.v
Supervisor.v
Status.v
Sampler.v
Ctrl.v
Wait.v
Mount.v
NetSetup.v
Usbnet.v
Cli.v
Tracking.v
Sockets.v
Daemon.v
