(* ===== verification/Prelude.v ===== *)
(** * gokrazy-router: a verification development

    A model of the home router daemon of this repository and of its two
    companion programs, with the theorems that make it correct.  The code is Go;
    the definitions are pure functions on explicit states, follow the functions
    of the code one by one and keep their names.

    ** The program and the files

    The daemon (cmd/gokrazy-router) loads a JSON configuration, merges a TOML
    file of extras into it, sets up bridges, NAT and isolation, starts hostapd,
    a DHCP server for every scope, optionally Samba and a TFTP server, watches
    the clients through counter rules of the packet filter, and serves a status
    page and a reload API.

    - Prelude: outcomes (a call returns, panics or, in the model only, runs out
      of fuel), results with errors, the monad [io] of state, recorded effects
      and errors, the iteration order of maps, tactics and shared lemmas.
    - GoStrings, GoStrconv, GoNet, GoOs, GoPath: what the program uses of Go's
      strings, strconv, net, os and path/filepath: bytes and runes, Fields and
      TrimSpace, Atoi and the formatting of integers, IP and MAC addresses and
      their text, prefixes, ExpandEnv and durations, Clean, Join, Base and Dir.
    - Macmap (pkg/macmap): the MAC-to-VLAN file: parsing, look-up, merging, the
      accept file of hostapd.
    - Dhcp (pkg/dhcp/dhcp.go): the DHCP server: [Server] with leases and
      reservations, [allocate], the reaper, the handler and its replies; the
      step relation [step] and [reachable].
    - Config (pkg/config/config.go): the configuration; the maps and the array
      that copies of a Config share live in an explicit [heap]; [ApplyExtras],
      [ExtrasFromConfig], the editing of the extras file, [ExpandEnv].
    - Pxe and Tftp (pkg/pxe/pxe.go): request parsing, choice of the image, the
      jail of the file names over a file system with links; transfers over a
      network that loses, repeats and reorders, and the reader.
    - Reload (cmd/gokrazy-router/main.go, the reloader): the snapshot of the
      configuration, the extras file on the [Disk], which is created when it is
      missing, the DHCP options, [Reload], the restart check, the HTTP handler; a
      relation of reloads interleaved with requests.
    - ReloadSteps: the same reload at the grain of its calls, beside the traffic of
      the servers, and its linearization: it acts as one step of Reload.
    - Netboot: the composition of Config, Reload, Dhcp, Pxe and Tftp as a client
      sees it, from an entry of the extras file to the last byte it receives.
    - Smb (pkg/smb): validation, the generated smb.conf, users and processes.
    - NatRules (pkg/nat): the tables, chains and rules it requests; the rule set
      that the kernel has after the requests, a transaction per Flush; and,
      through the class of the packet filter, what it does to packets.
    - Startup: the loops of main that install NAT and isolation and create the
      DHCP servers; what each scope of the configuration asks for ([serves]).
    - Wifi (pkg/wifi): hostapd's files, the supervisor, the events in its
      output, the stations in its replies.  Supervisor: the goroutine of the
      supervisor beside Stop and the processes.  Ctrl: the control socket, Stop.
    - Status (pkg/status): the table of clients, the counter rules, samples and
      the status; a kernel that keeps rules is its environment, and what a reading
      of its counters answers may depend on everything before it, earlier
      readings included, so that counters move between two readings.  Sampler: the
      creation of the monitor and its goroutine beside the other calls.
    - Wait: the polling loops.  Mount (pkg/mount): the disk, over the documented
      usage of mount(8).  NetSetup (pkg/vlan, pkg/netsetup): bridges, over the
      class [Netlink], whose lookups fail for a missing link or otherwise.  Sockets: how
      the DHCP and TFTP servers open their sockets, and Run of the DHCP server.
      Saving: Encode and Save of the extras and of the mapping file.
    - Tracking: the callbacks that connect Dhcp and Wifi with Status, delivered
      in any order.  Daemon: the whole of main from the disk to the signal.
    - Usbnet (cmd/milkv-usbnet): GPIO registers, LED, USB gadget, boot log and
      main of the program for the Milk-V board.
    - Cli (cmd/router-cli): the command line client.

    ** What the theorems show

    - DHCP: no two clients ever hold live leases of one address; [allocate]
      always returns and is one of four specified cases; it gives up exactly
      when the pool is taken; the handler never panics and sends only correct
      offers and acknowledgements; the state keeps its types.
    - Configuration and reload: [ApplyExtras] puts the reservations into the LAN
      and the VLANs, the other settings into every scope, and changes nothing
      outside its configuration; what a reload leaves depends only on the base
      configuration and the extras file, unless this is missing: then it is made
      from the live configuration; the base is never written; reloads and
      requests in any interleaving are runs of the DHCP component; the API
      reloads for authorized POST requests only, and touches no other file.
    - Netboot: after a reload the image that the extras file gives a client is
      the boot file it is offered, and the file the TFTP server sends it; a
      reservation of the file is the address it gets, and nobody else has it.  A
      reload beside the traffic ends as the one-step reload; a client that asks
      meanwhile may get the new general file before its own image.
    - TFTP: a transfer ends and, over a network that loses, repeats and reorders
      packets that live for at most 32768 others, delivers a prefix of the file,
      and all of it whenever a side believes so; a client that answers gets the
      file; names
      and links never lead out of the root, also while the file system changes;
      one transfer per client and file; the parser inverts the RFC's encoding.
    - Network: the rules that the kernel has installed masquerade and drop exactly
      the packets that the configuration names; bridges end up as configured, as
      long as lookups of ports are reliable, and a second run changes nothing;
      main serves each scope as it is configured, masquerades the routed WiFi
      network, and stops SMB, the access point, the monitor and the disk, while
      the other servers end with the process; the polling loops end; the
      supervisor runs at most one hostapd and after a stop makes a few more steps,
      until it has returned or waits for a hostapd that still runs; the sockets do
      not leak descriptors.
    - Status: while no flush fails, each connected client owns exactly one rule
      per chain; a disconnection moves the counters it reads into the history;
      rates are differences of readings; clients are shown under the scope that
      leased their address; the sampler keeps all this in every interleaving and
      changes nothing after its end.
    - Files and processes: smb.conf holds no injected line and commands run with
      the validated values of the configuration as their arguments; the disk is
      mounted once, as configured, and unmounted; exported MAC maps are read back
      as the old entries and one new entry per client, and saved files loaded;
      the extras commands save exactly their edits.
    - The board: a pin is one bit of a register; the blinks of the LED, the boot
      log and the commands tell the stage that the program reached.

    The Examples next to the theorems evaluate the definitions on inputs where
    the code does not do what it means to do.

    ** Conventions, bounds and fuel

    Machine integers are Z, with the wrap-around written where the code can
    reach it (block numbers, counters, bit rates, registers); bytes are Z with
    [is_byte]; strings are byte strings.  A map is a gmap; a loop over a map
    visits it in the order of [MapOrder], for every instance.  Clock readings
    are arguments ([readings] of Dhcp, the clocks of Wait), non-decreasing where
    a theorem needs it.  Loops that are not structural take fuel: the scan of
    the pool its number of addresses, a transfer one round more than the file
    has blocks, a wait for an acknowledgement the packets still to come, a
    polling loop the time-out by the interval plus one; theorems show that these
    suffice, and OutOfFuel does not occur.  Mutexes appear as the grain of the
    steps: a critical section is one step, and what others do between two of
    them is an argument or an interleaving.

    What is not under src/ is a parameter: the TOML library, the DHCP packet
    library, netlink and nftables (classes with laws and a reference instance);
    so are the kernel, the file system, processes and the clock, and of the
    standard library JSON, HTTP, floating-point rounding and text/tabwriter.

    ** Not modelled

    Log messages and the list of services that is only logged; the JSON form of
    the status and the format of its times; the packets that the serve loop of
    the DHCP library takes apart; the command line flags of the daemon; the tests. *)

From stdpp Require Export base gmap sets list strings pretty.
From stdpp Require Export sorting.
From stdpp Require Import options.
From Stdlib Require Export ZArith Lia.
From Stdlib Require Import Ascii.

(** ** Outcomes of Go code

    A call returns, panics at run time (an index out of range), or, in this
    model only, exhausts the fuel given to one of its loops.  Theorems of the
    components show that the last case does not occur with the fuel the
    definitions pass. *)
Inductive outcome (A : Type) : Type :=
  | Ret (a : A)
  | Panic
  | OutOfFuel.
Arguments Ret {A} a.
Arguments Panic {A}.
Arguments OutOfFuel {A}.

#[export] Instance outcome_ret : MRet outcome := λ A, Ret.
#[export] Instance outcome_bind : MBind outcome := λ A B k m,
  match m with
  | Ret a => k a
  | Panic => Panic
  | OutOfFuel => OutOfFuel
  end.

Lemma outcome_bind_Ret {A B} (m : outcome A) (k : A → outcome B) b :
  (m ≫= k) = Ret b ↔ ∃ a, m = Ret a ∧ k a = Ret b.
Proof. destruct m; cbn; naive_solver. Qed.

(** A Go function that returns a value and an [error]: the value is used only
    when the error is nil. *)
Abbreviation result := sum.
Abbreviation Ok := inr.
Abbreviation Err := inl.

#[export] Instance result_ret {E} : MRet (result E) := λ A a, Ok a.
#[export] Instance result_bind {E} : MBind (result E) := λ A B k m,
  match m with
  | Ok a => k a
  | Err e => Err e
  end.

Lemma result_bind_Ok {E A B} (m : result E A) (k : A → result E B) b :
  (m ≫= k) = Ok b ↔ ∃ a, m = Ok a ∧ k a = Ok b.
Proof. destruct m; cbn; naive_solver. Qed.

(** ** State, effects and errors

    Code that changes a state [S] and may fail; the state also records what
    was asked of the operating system.  An error keeps the changes made before
    it. *)
Definition io (S E A : Type) : Type := S → S * result E A.

#[export] Instance io_ret {S E} : MRet (io S E) := λ A a s, (s, Ok a).
#[export] Instance io_bind {S E} : MBind (io S E) := λ A B k m s,
  match m s with
  | (s, Ok a) => k a s
  | (s, Err e) => (s, Err e)
  end.

Definition throw {S E A} (e : E) : io S E A := λ s, (s, Err e).

(** Fail with [e] unless [ok]. *)
Definition guard_or {S E} (ok : bool) (e : E) : io S E unit := if ok then mret () else throw e.

(** Pass on a failure under another name. *)
Definition or_else_throw {S E E' A} (f : E → E') (m : io S E A) : io S E' A := λ s,
  match m s with
  | (s, Ok a) => (s, Ok a)
  | (s, Err e) => (s, Err (f e))
  end.

(** Ask the operating system for something, and record it; the answer may depend
    on all that was asked before. *)
Definition perform {T E} (e : T) (ok : list T → bool) (err : E) : io (list T) E unit := λ t,
  (t ++ [e], if ok t then Ok () else Err err).

Lemma bind_ok {S E A B} (m : io S E A) (k : A → io S E B) w w' b :
  (m ≫= k) w = (w', Ok b) → ∃ w1 a, m w = (w1, Ok a) ∧ k a w1 = (w', Ok b).
Proof.
  unfold mbind, io_bind. destruct (m w) as [w1 [e|a]]; [done|]. intros H. by exists w1, a.
Qed.

(** Run the primitives of the monad. *)
Ltac io_unfold :=
  unfold mbind, io_bind, mret, io_ret, throw; cbn beta iota zeta delta [fst snd].

(** ** The iteration order of Go maps

    [for k, v := range m] visits every entry once, in an order the language
    leaves open.  The definitions iterate over [map_range m], and every theorem
    holds for every instance. *)
Class MapOrder := {
  map_range : ∀ {K : Type} `{Countable K} {V : Type}, gmap K V → list (K * V);
  map_range_perm : ∀ {K : Type} `{Countable K} {V : Type} (m : gmap K V),
    map_range m ≡ₚ map_to_list m
}.

(** One possible order, used to evaluate the definitions. *)
Definition canonical_order : MapOrder := {|
  map_range := λ K _ _ V m, map_to_list m;
  map_range_perm := λ K _ _ V m, Permutation_refl _
|}.

(** The opposite order, to show where a result depends on the order. *)
Definition reversed_order : MapOrder := {|
  map_range := λ K _ _ V m, reverse (map_to_list m);
  map_range_perm := λ K _ _ V m, reverse_Permutation _
|}.

Section map_order.
Context `{MO : MapOrder} `{Countable K} {V : Type}.
Implicit Types m : gmap K V.

Lemma elem_of_map_range m k v : (k, v) ∈ map_range m ↔ m !! k = Some v.
Proof. rewrite map_range_perm. apply elem_of_map_to_list. Qed.

Lemma NoDup_map_range m : NoDup (map_range m).*1.
Proof. rewrite map_range_perm. apply NoDup_fst_map_to_list. Qed.

Lemma NoDup_map_range_entries m : NoDup (map_range m).
Proof. rewrite map_range_perm. apply NoDup_map_to_list. Qed.
End map_order.

(** ** Runs of concurrent components

    A component with goroutines is a function that gives the next state for an
    event, or none when the event cannot happen; a run is a list of events. *)
Section runs.
Context {St Ev : Type} (step : St → Ev → option St).

Fixpoint run_steps (s : St) (es : list Ev) : option St :=
  match es with
  | [] => Some s
  | e :: es => s ← step s e; run_steps s es
  end.

Lemma run_steps_app s es es' : run_steps s (es ++ es') = s ← run_steps s es; run_steps s es'.
Proof.
  induction es as [|e es IH] in s |- *; [done|]. cbn. destruct (step s e) as [q|]; [|done]. apply IH.
Qed.

(** An invariant of the steps, over the events that have happened. *)
Lemma run_steps_ind (I : list Ev → St → Prop) s0 es s :
  I [] s0 → (∀ pre s e s', I pre s → step s e = Some s' → I (pre ++ [e]) s') →
  run_steps s0 es = Some s → I es s.
Proof.
  intros H0 Hs. revert s. induction es as [|e es IH] using rev_ind; intros s H.
  { by injection H as <-. }
  rewrite run_steps_app in H. destruct (run_steps s0 es) as [q|] eqn:E; [|done]. cbn in H.
  destruct (step q e) as [q'|] eqn:Eq; [|done]. injection H as <-. eapply Hs; [by apply IH|done].
Qed.
End runs.

(** ** Automation shared by the components *)
Create HintDb gorouter discriminated.

Ltac split_and_all := repeat match goal with H : _ ∧ _ |- _ => destruct H end.

(** Case analysis on the condition of the first [if] of the goal. *)
Ltac case_if :=
  match goal with
  | |- context [if ?b then _ else _] => destruct b eqn:?
  end.
Ltac case_if_in H :=
  match type of H with
  | context [if ?b then _ else _] => destruct b eqn:?
  end.

(** All the conditions of the goal and of the hypotheses. *)
Ltac case_all :=
  repeat match goal with
  | |- context [if ?b then _ else _] => destruct b eqn:?
  | H : context [if ?b then _ else _] |- _ => destruct b eqn:?
  end.

(** Turn the boolean tests of the code into propositions. *)
Ltac to_prop :=
  repeat match goal with
  | H : bool_decide _ = true |- _ => apply bool_decide_eq_true in H
  | H : bool_decide _ = false |- _ => apply bool_decide_eq_false in H
  | H : _ && _ = true |- _ => apply andb_true_iff in H; destruct H
  | H : _ || _ = false |- _ => apply orb_false_iff in H; destruct H
  | H : negb _ = true |- _ => apply negb_true_iff in H
  | H : negb _ = false |- _ => apply negb_false_iff in H
  | H : (_ =? _)%Z = true |- _ => apply Z.eqb_eq in H
  | H : (_ =? _)%Z = false |- _ => apply Z.eqb_neq in H
  | H : (_ <? _)%Z = true |- _ => apply Z.ltb_lt in H
  | H : (_ <? _)%Z = false |- _ => apply Z.ltb_ge in H
  | H : (_ <=? _)%Z = true |- _ => apply Z.leb_le in H
  | H : (_ <=? _)%Z = false |- _ => apply Z.leb_gt in H
  | H : (_ <? _)%nat = true |- _ => apply Nat.ltb_lt in H
  | H : (_ <? _)%nat = false |- _ => apply Nat.ltb_ge in H
  | H : (_ <=? _)%nat = true |- _ => apply Nat.leb_le in H
  | H : (_ <=? _)%nat = false |- _ => apply Nat.leb_gt in H
  | H : (_ =? _)%nat = true |- _ => apply Nat.eqb_eq in H
  | H : (_ =? _)%nat = false |- _ => apply Nat.eqb_neq in H
  end.

(** ** Generic lemmas *)

(** Folding insertions over the entries of a map: a later entry wins. *)
Definition fold_insert {A} `{Countable K} {V} (f : A → option (K * V))
    (l : list A) (m : gmap K V) : gmap K V :=
  fold_left (λ acc a, match f a with Some (k, v) => <[k := v]> acc | None => acc end) l m.

Section fold_insert.
Context {A : Type} `{Countable K} {V : Type} (f : A → option (K * V)).

Lemma fold_insert_lookup l (m : gmap K V) k :
  fold_insert f l m !! k = m !! k ∨
  ∃ a v, a ∈ l ∧ f a = Some (k, v) ∧ fold_insert f l m !! k = Some v.
Proof.
  revert m; induction l as [|a l IH]; intros m; [by left|].
  change (fold_insert f (a :: l) m) with
    (fold_insert f l (match f a with Some (k0, v) => <[k0 := v]> m | None => m end)).
  destruct (IH (match f a with Some (k0, v) => <[k0 := v]> m | None => m end))
    as [->|(a' & v & ? & ? & ->)]; last (right; exists a', v; set_solver).
  destruct (f a) as [[k' v']|] eqn:Hf; [|by left].
  destruct (decide (k' = k)) as [->|Hne].
  - right. exists a, v'. rewrite lookup_insert_eq. set_solver.
  - left. by rewrite lookup_insert_ne.
Qed.

Lemma fold_insert_lookup_none l (m : gmap K V) k :
  (∀ a v, a ∈ l → f a ≠ Some (k, v)) → fold_insert f l m !! k = m !! k.
Proof.
  intros Hno. destruct (fold_insert_lookup l m k) as [?|(a & v & ? & ? & _)]; [done|].
  by destruct (Hno a v).
Qed.

Lemma fold_insert_snoc l a (m : gmap K V) :
  fold_insert f (l ++ [a]) m =
  match f a with
  | Some (k, v) => <[k := v]> (fold_insert f l m)
  | None => fold_insert f l m
  end.
Proof. unfold fold_insert. by rewrite fold_left_app. Qed.

(** Every key written by some entry is bound to the value of such an entry. *)
Lemma fold_insert_lookup_some l (m : gmap K V) k :
  (∃ a v, a ∈ l ∧ f a = Some (k, v)) →
  ∃ a v, a ∈ l ∧ f a = Some (k, v) ∧ fold_insert f l m !! k = Some v.
Proof.
  induction l as [|a l IH] using rev_ind; intros (b & w & Hb & Hf).
  { by apply not_elem_of_nil in Hb. }
  rewrite fold_insert_snoc. destruct (f a) as [[k' v']|] eqn:Ha.
  - destruct (decide (k' = k)) as [->|Hne].
    + exists a, v'. rewrite lookup_insert_eq. set_solver.
    + rewrite lookup_insert_ne by done.
      destruct IH as (a' & v & ? & ? & ?); [set_solver|].
      exists a', v. set_solver.
  - destruct IH as (a' & v & ? & ? & ?); [set_solver|].
    exists a', v. set_solver.
Qed.
End fold_insert.

(** Deleting the keys of the entries a test selects. *)
Lemma fold_delete_lookup `{Countable K} {V} (f : K * V → bool) l (m : gmap K V) k :
  fold_left (λ m e, if f e then delete e.1 m else m) l m !! k =
  if existsb (λ e, bool_decide (e.1 = k) && f e) l then None else m !! k.
Proof.
  revert m; induction l as [|e l IH]; intros m; [done|]. cbn. rewrite IH.
  destruct (existsb _ l); [by rewrite orb_true_r|]. rewrite orb_false_r.
  destruct (f e); [|by rewrite andb_false_r]. rewrite andb_true_r.
  case_bool_decide as E; [by rewrite E, lookup_delete_eq|by apply lookup_delete_ne].
Qed.

(** Deleting from a map the entries of the map itself that a test selects keeps
    exactly the others, in every iteration order. *)
Lemma fold_delete_filter `{MapOrder} `{Countable K} {V} (f : K * V → bool) (m : gmap K V) :
  fold_left (λ m e, if f e then delete e.1 m else m) (map_range m) m =
  filter (λ e, f e = false) m.
Proof.
  apply map_eq. intros k. rewrite fold_delete_lookup, map_lookup_filter.
  destruct (existsb _ _) eqn:E.
  - apply existsb_exists in E as ([k' v] & Hin & [Hk Hf]%andb_true_iff).
    apply list_elem_of_In, elem_of_map_range in Hin. apply bool_decide_eq_true in Hk.
    cbn in Hk. subst k'. rewrite Hin. cbn. by rewrite option_guard_False by congruence.
  - destruct (m !! k) as [v|] eqn:Hv; [|done]. cbn. rewrite option_guard_True; [done|].
    destruct (f (k, v)) eqn:Hf; [|done].
    assert (existsb (λ e, bool_decide (e.1 = k) && f e) (map_range m) = true); [|congruence].
    apply existsb_exists. exists (k, v). rewrite <-list_elem_of_In, elem_of_map_range.
    split; [done|]. cbn. by rewrite bool_decide_true.
Qed.

Lemma Forall2_impl_in {A B} (P Q : A → B → Prop) l k :
  Forall2 P l k → (∀ x y, x ∈ l → y ∈ k → P x y → Q x y) → Forall2 Q l k.
Proof.
  induction 1 as [|x y l k Hxy _ IH]; intros HPQ; constructor; [set_solver|].
  apply IH. set_solver.
Qed.

Lemma Forall2_compose {A B C} (P : A → B → Prop) (Q : B → C → Prop) (R : A → C → Prop) l k j :
  Forall2 P l k → Forall2 Q k j → (∀ x y z, P x y → Q y z → R x z) → Forall2 R l j.
Proof.
  intros H. revert j; induction H as [|x y l k Hxy _ IH]; intros j Hj HR;
    inversion Hj; subst; constructor; eauto.
Qed.

(** Inserting the entries of a map one by one, in any order, when each entry is
    stored under its own key. *)
Lemma fold_insert_own_keys `{MapOrder} `{Countable K} {V W} (f : K → V → option W)
    (g : K * V → option (K * W)) (m : gmap K V) (acc : gmap K W) k :
  (∀ k v, m !! k = Some v → g (k, v) = (λ w, (k, w)) <$> f k v) →
  fold_insert g (map_range m) acc !! k =
  match m !! k ≫= f k with Some v => Some v | None => acc !! k end.
Proof.
  intros Hg. destruct (m !! k ≫= f k) as [v|] eqn:E.
  - destruct (fold_insert_lookup_some g (map_range m) acc k) as ([k' x] & w & Hin & Hf & ->).
    + apply bind_Some in E as (x & Hx & Hf). exists (k, x), v.
      rewrite elem_of_map_range, Hg by done. by rewrite Hf.
    + apply elem_of_map_range in Hin. rewrite Hg in Hf by done.
      apply fmap_Some in Hf as (y & Hy & [= -> ->]). rewrite Hin in E. cbn in E. congruence.
  - apply fold_insert_lookup_none. intros [k' x] w Hin Hf. apply elem_of_map_range in Hin.
    rewrite Hg in Hf by done. apply fmap_Some in Hf as (y & Hy & [= -> ->]).
    rewrite Hin in E. cbn in E. congruence.
Qed.

Lemma elem_of_concat {A} (x : A) (ls : list (list A)) : x ∈ concat ls ↔ ∃ l, l ∈ ls ∧ x ∈ l.
Proof.
  rewrite list_elem_of_In, in_concat.
  split; intros (l & H1 & H2); exists l; split; by apply list_elem_of_In.
Qed.

Lemma existsb_true {A} (f : A → bool) l : existsb f l = true ↔ ∃ x, x ∈ l ∧ f x = true.
Proof.
  rewrite existsb_exists. split; intros (x & H & ?); exists x; split; try done; by apply list_elem_of_In.
Qed.

(** Images without duplicates determine the elements. *)
Lemma NoDup_map_eq {A B} (f : A → B) l x y :
  NoDup (map f l) → x ∈ l → y ∈ l → f x = f y → x = y.
Proof.
  induction l as [|z l IH]; [set_solver|]. cbn. intros [Hz Hl]%NoDup_cons Hx Hy E.
  apply elem_of_cons in Hx as [->|Hx], Hy as [->|Hy]; [done| | |by apply IH].
  - destruct Hz. rewrite E. by apply list_elem_of_fmap_2.
  - destruct Hz. rewrite <-E. by apply list_elem_of_fmap_2.
Qed.

Lemma filter_unique {A B} `{EqDecision B} (f : A → B) l x :
  NoDup (map f l) → x ∈ l → filter (λ y, f y = f x) l = [x].
Proof.
  induction l as [|z l IH]; [set_solver|]. cbn [map]. intros [Hz Hl]%NoDup_cons Hx.
  rewrite filter_cons. apply elem_of_cons in Hx as [<-|Hx].
  - rewrite decide_True by done. f_equal.
    destruct (filter _ l) as [|y k] eqn:E; [done|]. exfalso. apply Hz.
    assert (y ∈ filter (λ y, f y = f x) l) as [<- Hy]%list_elem_of_filter by (rewrite E; set_solver).
    by apply list_elem_of_fmap_2.
  - rewrite decide_False; [by apply IH|]. intros E. apply Hz. rewrite E. by apply list_elem_of_fmap_2.
Qed.
