(* ===== verification/GoStrings.v ===== *)
(** * Go strings

    The parts of packages strings, strconv, unicode/utf8 and sort that the
    router uses.  A Go string is a sequence of bytes, modelled by [string]
    (a sequence of 8-bit [ascii]); a [[]byte] is a [list Z] of values in
    [0, 255].  The tables of package unicode are an interface
    ([GoUnicode]); everything on ASCII text is concrete. *)

From S2P Require Import Prelude.
From Stdlib Require Import Ascii.
Open Scope Z_scope.

(** ** Bytes *)

Definition byte_val (c : ascii) : Z := Z.of_N (N_of_ascii c).
Definition chr (z : Z) : ascii := ascii_of_N (Z.to_N z).

Fixpoint to_bytes (s : string) : list Z :=
  match s with
  | "" => []
  | String c s => byte_val c :: to_bytes s
  end.

Fixpoint of_bytes (l : list Z) : string :=
  match l with
  | [] => ""
  | b :: l => String (chr b) (of_bytes l)
  end.

Definition is_byte (z : Z) : Prop := 0 ≤ z < 256.

(** The strings of one byte that have no literal: new line, carriage return
    and NUL. *)
Definition nl : string := of_bytes [10].
Definition nul : string := of_bytes [0].

Fixpoint str_take (n : nat) (s : string) : string :=
  match n, s with
  | S n, String c s => String c (str_take n s)
  | _, _ => ""
  end.

Fixpoint str_drop (n : nat) (s : string) : string :=
  match n, s with
  | S n, String _ s => str_drop n s
  | _, _ => s
  end.

(** ** Prefixes, suffixes, substrings *)

Fixpoint has_prefix (p s : string) : bool :=
  match p, s with
  | "", _ => true
  | String a p, String b s => Ascii.eqb a b && has_prefix p s
  | _, _ => false
  end.

Definition has_suffix (s suf : string) : bool :=
  (String.length suf <=? String.length s)%nat &&
  String.eqb (str_drop (String.length s - String.length suf) s) suf.

Definition trim_prefix (s p : string) : string :=
  if has_prefix p s then str_drop (String.length p) s else s.

Definition trim_suffix (s suf : string) : string :=
  if has_suffix s suf then str_take (String.length s - String.length suf) s else s.

Fixpoint contains (s sub : string) : bool :=
  has_prefix sub s ||
  match s with
  | "" => false
  | String _ s => contains s sub
  end.

Fixpoint contains_char (c : ascii) (s : string) : bool :=
  match s with
  | "" => false
  | String a s => Ascii.eqb a c || contains_char c s
  end.

(** [strings.Count] and [strings.ReplaceAll] for one-byte strings. *)
Fixpoint count_char (c : ascii) (s : string) : nat :=
  match s with
  | "" => 0
  | String a s => (if Ascii.eqb a c then 1 else 0) + count_char c s
  end%nat.

Fixpoint replace_char (a b : ascii) (s : string) : string :=
  match s with
  | "" => ""
  | String c s => String (if Ascii.eqb c a then b else c) (replace_char a b s)
  end.

(** [strings.Split] for a one-byte separator, and [strings.Join]. *)
Fixpoint split_on (c : ascii) (s : string) : list string :=
  match s with
  | "" => [""]
  | String a s =>
      if Ascii.eqb a c then "" :: split_on c s
      else match split_on c s with
           | x :: xs => String a x :: xs
           | [] => [String a ""]
           end
  end.

Fixpoint join (sep : string) (l : list string) : string :=
  match l with
  | [] => ""
  | [x] => x
  | x :: l => x +:+ sep +:+ join sep l
  end.

(** [strings.Cut] for a one-byte separator: the parts around its first
    occurrence. *)
Fixpoint cut_char (c : ascii) (s : string) : option (string * string) :=
  match s with
  | "" => None
  | String a s =>
      if Ascii.eqb a c then Some ("", s)
      else match cut_char c s with
           | Some (x, y) => Some (String a x, y)
           | None => None
           end
  end.

(** ** UTF-8 *)

Definition rune_error : Z := 65533.

Definition in_range (lo hi z : Z) : bool := (lo <=? z) && (z <=? hi).

(** [utf8.DecodeRune]: the rune and its width; an invalid encoding gives
    [(RuneError, 1)]. *)
Definition decode_rune (l : list Z) : Z * nat :=
  let cont := in_range 128 191 in
  match l with
  | [] => (rune_error, 0%nat)
  | b0 :: r =>
      if b0 <? 128 then (b0, 1%nat)
      else if in_range 194 223 b0 then
        match r with
        | b1 :: _ => if cont b1 then ((b0 - 192) * 64 + (b1 - 128), 2%nat) else (rune_error, 1%nat)
        | _ => (rune_error, 1%nat)
        end
      else if in_range 224 239 b0 then
        let lo := if b0 =? 224 then 160 else 128 in
        let hi := if b0 =? 237 then 159 else 191 in
        match r with
        | b1 :: b2 :: _ =>
            if in_range lo hi b1 && cont b2
            then ((b0 - 224) * 4096 + (b1 - 128) * 64 + (b2 - 128), 3%nat)
            else (rune_error, 1%nat)
        | _ => (rune_error, 1%nat)
        end
      else if in_range 240 244 b0 then
        let lo := if b0 =? 240 then 144 else 128 in
        let hi := if b0 =? 244 then 143 else 191 in
        match r with
        | b1 :: b2 :: b3 :: _ =>
            if in_range lo hi b1 && cont b2 && cont b3
            then ((b0 - 240) * 262144 + (b1 - 128) * 4096 + (b2 - 128) * 64 + (b3 - 128), 4%nat)
            else (rune_error, 1%nat)
        | _ => (rune_error, 1%nat)
        end
      else (rune_error, 1%nat)
  end.

(** [utf8.AppendRune]: surrogates and values out of range are encoded as
    RuneError. *)
Definition encode_rune (r : Z) : list Z :=
  let enc3 r := [224 + r / 4096; 128 + (r / 64) mod 64; 128 + r mod 64] in
  if (r <? 0) || (1114111 <? r) || in_range 55296 57343 r then enc3 rune_error
  else if r <? 128 then [r]
  else if r <? 2048 then [192 + r / 64; 128 + r mod 64]
  else if r <? 65536 then enc3 r
  else [240 + r / 262144; 128 + (r / 4096) mod 64; 128 + (r / 64) mod 64; 128 + r mod 64].

(** The (index, rune) pairs a [for i, r := range s] loop visits.  [skip] counts
    the bytes of the current rune still to pass. *)
Fixpoint range_runes_from (i : nat) (skip : nat) (l : list Z) : list (nat * Z) :=
  match l with
  | [] => []
  | b :: l' =>
      match skip with
      | S k => range_runes_from (S i) k l'
      | O => let '(r, w) := decode_rune l in (i, r) :: range_runes_from (S i) (w - 1) l'
      end
  end.
Definition range_runes (s : string) : list (nat * Z) := range_runes_from 0 0 (to_bytes s).

Definition is_ascii (s : string) : bool := forallb (λ b, b <? 128) (to_bytes s).

(** ** Case and white space *)

(** [unicode.ToLower] on the runes outside ASCII. *)
Class GoUnicode := rune_lower_table : Z → Z.

Definition ascii_lower (b : Z) : Z := if in_range 65 90 b then b + 32 else b.

Section unicode.
Context `{GoUnicode}.

Definition rune_lower (r : Z) : Z :=
  if r <? 128 then ascii_lower r else rune_lower_table r.

(** [strings.ToLower]: byte by byte for an ASCII string, else
    [strings.Map(unicode.ToLower, s)], which replaces invalid bytes by the
    encoding of RuneError. *)
Definition to_lower (s : string) : string :=
  if is_ascii s then of_bytes (map ascii_lower (to_bytes s))
  else of_bytes (concat (map (λ ir, encode_rune (rune_lower ir.2)) (range_runes s))).
End unicode.

(** [unicode.IsSpace]. *)
Definition is_space (r : Z) : bool :=
  in_range 9 13 r || (r =? 32) || (r =? 133) || (r =? 160) || (r =? 5760)
  || in_range 8192 8202 r || (r =? 8232) || (r =? 8233) || (r =? 8239)
  || (r =? 8287) || (r =? 12288).

(** [utf8.DecodeLastRune]: at most three bytes are inspected before the last
    one, up to the first that starts a rune. *)
Definition rune_start (b : Z) : bool := negb (in_range 128 191 b).

Fixpoint last_start (n : nat) (rev_l : list Z) : nat :=
  match n, rev_l with
  | S n, b :: r => if rune_start b then 0%nat else S (last_start n r)
  | _, _ => 0%nat
  end.

Definition decode_last_rune (l : list Z) : Z * nat :=
  match reverse l with
  | [] => (rune_error, 0%nat)
  | b :: r =>
      if b <? 128 then (b, 1%nat)
      else
        let back := S (last_start 3 r) in
        let start := (length l - 1 - back)%nat in
        let '(r, w) := decode_rune (drop start l) in
        if (start + w =? length l)%nat then (r, w) else (rune_error, 1%nat)
  end.

Fixpoint trim_left_space (fuel : nat) (l : list Z) : list Z :=
  match fuel with
  | O => l
  | S fuel =>
      match l with
      | [] => []
      | _ => let '(r, w) := decode_rune l in
             if is_space r then trim_left_space fuel (drop w l) else l
      end
  end.

Fixpoint trim_right_space (fuel : nat) (l : list Z) : list Z :=
  match fuel with
  | O => l
  | S fuel =>
      match l with
      | [] => []
      | _ => let '(r, w) := decode_last_rune l in
             if is_space r then trim_right_space fuel (take (length l - w) l) else l
      end
  end.

(** [strings.TrimSpace]; each step removes at least one byte. *)
Definition trim_space (s : string) : string :=
  let l := to_bytes s in
  let l' := trim_left_space (length l) l in
  of_bytes (trim_right_space (length l') l').

(** [strings.Fields]: the maximal runs of non-space runes. *)
Fixpoint fields_from (cur : list Z) (skip : nat) (l : list Z) : list string :=
  let emit rest := match cur with [] => rest | _ => of_bytes cur :: rest end in
  match l with
  | [] => emit []
  | b :: l' =>
      match skip with
      | S k => fields_from (cur ++ [b]) k l'
      | O => let '(r, w) := decode_rune l in
             if is_space r then emit (fields_skip (w - 1) l')
             else fields_from (cur ++ [b]) (w - 1) l'
      end
  end
with fields_skip (skip : nat) (l : list Z) : list string :=
  match l with
  | [] => []
  | b :: l' =>
      match skip with
      | S k => fields_skip k l'
      | O => let '(r, w) := decode_rune l in
             if is_space r then fields_skip (w - 1) l'
             else fields_from [b] (w - 1) l'
      end
  end.
Definition fields (s : string) : list string := fields_skip 0 (to_bytes s).

(** [sort.Strings]: the byte-wise order. *)
Definition sort_strings (l : list string) : list string := merge_sort String.le l.

(** ** Lemmas: bytes *)

Lemma str_app_cons c s t : String c s +:+ t = String c (s +:+ t).
Proof. reflexivity. Qed.

Lemma str_app_nil_l t : "" +:+ t = t.
Proof. reflexivity. Qed.

Lemma byte_val_range c : is_byte (byte_val c).
Proof.
  unfold byte_val, is_byte. pose proof (N_ascii_bounded c). lia.
Qed.

Lemma chr_byte_val c : chr (byte_val c) = c.
Proof. unfold chr, byte_val. by rewrite N2Z.id, ascii_N_embedding. Qed.

Lemma byte_val_chr z : is_byte z → byte_val (chr z) = z.
Proof.
  intros [??]. unfold chr, byte_val. rewrite N_ascii_embedding by lia. lia.
Qed.

Lemma of_bytes_to_bytes s : of_bytes (to_bytes s) = s.
Proof. induction s; cbn; [done|]. by rewrite chr_byte_val, IHs. Qed.

Lemma to_bytes_of_bytes l : Forall is_byte l → to_bytes (of_bytes l) = l.
Proof. induction 1; cbn; [done|]. by rewrite byte_val_chr, IHForall by done. Qed.

Lemma to_bytes_byte s : Forall is_byte (to_bytes s).
Proof. induction s; cbn; constructor; auto using byte_val_range. Qed.

Lemma to_bytes_app s t : to_bytes (s +:+ t) = to_bytes s ++ to_bytes t.
Proof. induction s as [|c s IH]; [done|]. rewrite str_app_cons; cbn. by rewrite IH. Qed.

Lemma of_bytes_app l k : of_bytes (l ++ k) = of_bytes l +:+ of_bytes k.
Proof. induction l as [|c l IH]; cbn; [done|]. by rewrite IH. Qed.

Lemma length_to_bytes s : length (to_bytes s) = String.length s.
Proof. induction s; cbn; congruence. Qed.

Lemma to_bytes_inj s t : to_bytes s = to_bytes t → s = t.
Proof. intros E. by rewrite <-(of_bytes_to_bytes s), E, of_bytes_to_bytes. Qed.

(** ** Lemmas: append, length, prefixes *)

Lemma str_app_nil_r s : s +:+ "" = s.
Proof. induction s as [|c s IH]; [done|]. by rewrite str_app_cons, IH. Qed.

Lemma str_app_assoc a b c : (a +:+ b) +:+ c = a +:+ b +:+ c.
Proof. apply to_bytes_inj. by rewrite !to_bytes_app, assoc by apply _. Qed.

Lemma str_app_inj_l s t u : s +:+ t = s +:+ u → t = u.
Proof. induction s as [|c s IH]; [done|]. rewrite !str_app_cons. intros [= E]. auto. Qed.

Lemma str_app_inj_r s t u : s +:+ u = t +:+ u → s = t.
Proof.
  intros E. apply to_bytes_inj. apply (f_equal to_bytes) in E.
  rewrite !to_bytes_app in E. by apply app_inv_tail in E.
Qed.

Lemma length_str_app s t :
  String.length (s +:+ t) = (String.length s + String.length t)%nat.
Proof. rewrite <-!length_to_bytes, to_bytes_app. apply length_app. Qed.

Lemma str_drop_app s t : str_drop (String.length s) (s +:+ t) = t.
Proof. induction s as [|c s IH]; [done|apply IH]. Qed.

Lemma str_take_app s t : str_take (String.length s) (s +:+ t) = s.
Proof. induction s as [|c s IH]; [by destruct t|]. rewrite str_app_cons; cbn. by rewrite IH. Qed.

Lemma str_take_drop n s : str_take n s +:+ str_drop n s = s.
Proof. revert n; induction s as [|c s IH]; intros [|n]; cbn; [done..|]. by rewrite str_app_cons, IH. Qed.

Lemma has_prefix_spec p s : has_prefix p s = true ↔ ∃ t, s = p +:+ t.
Proof.
  revert s; induction p as [|a p IH]; intros s.
  { split; [intros _; by exists s|done]. }
  destruct s as [|b s]; simpl; [naive_solver|].
  rewrite andb_true_iff, IH, Ascii.eqb_eq. setoid_rewrite str_app_cons. naive_solver.
Qed.

Lemma has_suffix_spec s suf : has_suffix s suf = true ↔ ∃ t, s = t +:+ suf.
Proof.
  unfold has_suffix. rewrite andb_true_iff, Nat.leb_le, String.eqb_eq. split.
  - intros [Hle E].
    exists (str_take (String.length s - String.length suf) s). rewrite <-E at 2.
    by rewrite str_take_drop.
  - intros [t ->]. rewrite length_str_app. split; [lia|].
    replace (_ + _ - _)%nat with (String.length t) by lia. apply str_drop_app.
Qed.

Lemma trim_suffix_app t suf : trim_suffix (t +:+ suf) suf = t.
Proof.
  unfold trim_suffix. rewrite (proj2 (has_suffix_spec _ _)) by eauto.
  rewrite length_str_app.
  replace (_ + _ - _)%nat with (String.length t) by lia. apply str_take_app.
Qed.

Lemma trim_prefix_app p t : trim_prefix (p +:+ t) p = t.
Proof.
  unfold trim_prefix. rewrite (proj2 (has_prefix_spec _ _)) by eauto.
  apply str_drop_app.
Qed.

(** ** Lemmas: split and join *)

Lemma split_on_ne c s : split_on c s ≠ [].
Proof. destruct s as [|a s]; cbn; [done|]. by repeat case_match. Qed.

Lemma join_cons sep x y l : join sep (x :: y :: l) = x +:+ sep +:+ join sep (y :: l).
Proof. reflexivity. Qed.

Lemma join_split_on c s : join (String c "") (split_on c s) = s.
Proof.
  induction s as [|a s IH]; [done|]. cbn [split_on].
  pose proof (split_on_ne c s) as Hne.
  destruct (Ascii.eqb_spec a c) as [->|Hac].
  - destruct (split_on c s) as [|x l]; [done|].
    by rewrite join_cons, str_app_nil_l, str_app_cons, str_app_nil_l, IH.
  - destruct (split_on c s) as [|x [|y l]]; [done|cbn in *; by rewrite IH|].
    by rewrite join_cons, str_app_cons, <-join_cons, IH.
Qed.

Lemma split_on_no_sep c s : contains_char c s = false → split_on c s = [s].
Proof.
  induction s as [|a s IH]; [done|]; cbn. intros [-> ?]%orb_false_iff.
  by rewrite IH.
Qed.

Lemma split_on_app c s t :
  contains_char c s = false → split_on c (s +:+ String c t) = s :: split_on c t.
Proof.
  induction s as [|a s IH].
  - intros _. rewrite str_app_nil_l. cbn. by rewrite Ascii.eqb_refl.
  - intros [Ha ?]%orb_false_iff. rewrite str_app_cons. cbn. by rewrite Ha, IH.
Qed.

Lemma split_on_join c l :
  l ≠ [] → Forall (λ s, contains_char c s = false) l →
  split_on c (join (String c "") l) = l.
Proof.
  intros Hne Hl. induction Hl as [|x l Hx Hl IH]; [done|].
  destruct l as [|y l]; [by apply split_on_no_sep|].
  rewrite join_cons, str_app_cons, str_app_nil_l, split_on_app by done. by rewrite IH.
Qed.

Lemma split_on_parts c s : Forall (λ x, contains_char c x = false) (split_on c s).
Proof.
  induction s as [|a s IH]; cbn; [by constructor|].
  destruct (Ascii.eqb a c) eqn:E; [by constructor|].
  destruct (split_on c s); [|inversion IH; subst];
    (constructor; [cbn; by rewrite E|done]).
Qed.

Lemma contains_char_app c s t :
  contains_char c (s +:+ t) = contains_char c s || contains_char c t.
Proof. induction s as [|a s IH]; [done|]. rewrite str_app_cons; cbn. by rewrite IH, orb_assoc. Qed.

Lemma cut_char_app c x y :
  contains_char c x = false → cut_char c (x +:+ String c y) = Some (x, y).
Proof.
  induction x as [|b x IH]; rewrite ?str_app_nil_l, ?str_app_cons; cbn.
  - intros _. by rewrite Ascii.eqb_refl.
  - intros [Hb ?]%orb_false_iff. by rewrite Hb, IH.
Qed.

Lemma cut_char_Some c s x y :
  cut_char c s = Some (x, y) → s = x +:+ String c y ∧ contains_char c x = false.
Proof.
  revert x; induction s as [|a s IH]; intros x; cbn; [done|].
  destruct (Ascii.eqb_spec a c) as [->|Hne]; [by intros [= <- <-]|].
  destruct (cut_char c s) as [[x' y']|]; [|done]. intros [= <- <-].
  destruct (IH x') as [-> Hx]; [done|]. split; [done|]. cbn.
  rewrite Hx. by destruct (Ascii.eqb_spec a c).
Qed.

(** ** Lemmas: white space and case on visible ASCII text *)

Definition visible (b : Z) : Prop := 33 ≤ b ≤ 126.

Lemma decode_rune_ascii b l : b < 128 → decode_rune (b :: l) = (b, 1%nat).
Proof. intros ?. cbn. by rewrite (proj2 (Z.ltb_lt _ _)). Qed.

Lemma is_space_visible b : visible b → is_space b = false.
Proof.
  unfold visible, is_space, in_range. intros [??].
  repeat (apply orb_false_iff; split); try lia;
    (apply andb_false_iff; rewrite ?Z.leb_gt; lia).
Qed.

Lemma decode_last_rune_ascii l b : b < 128 → decode_last_rune (l ++ [b]) = (b, 1%nat).
Proof.
  intros ?. unfold decode_last_rune. rewrite reverse_snoc.
  by rewrite (proj2 (Z.ltb_lt _ _)).
Qed.

Lemma trim_left_space_visible n b l :
  visible b → trim_left_space n (b :: l) = b :: l.
Proof.
  intros Hb. destruct n as [|n]; [done|]. cbn [trim_left_space].
  rewrite decode_rune_ascii by (unfold visible in *; lia). rewrite is_space_visible by done. done.
Qed.

Lemma trim_right_space_visible n l b :
  visible b → trim_right_space n (l ++ [b]) = l ++ [b].
Proof.
  intros Hb. destruct n as [|n]; [done|]. cbn [trim_right_space].
  rewrite decode_last_rune_ascii by (unfold visible in *; lia). rewrite is_space_visible by done.
  by destruct l.
Qed.

Lemma trim_space_visible s : Forall visible (to_bytes s) → trim_space s = s.
Proof.
  intros Hv. unfold trim_space. trans (of_bytes (to_bytes s)); [|apply of_bytes_to_bytes].
  revert Hv; destruct (to_bytes s) as [|b l]; [done|]; intros Hv.
  rewrite trim_left_space_visible by (apply Forall_cons in Hv; tauto).
  destruct (decide (b :: l = [])) as [?|Hne]; [done|].
  destruct (exists_last Hne) as (l' & b' & E). rewrite E in *.
  rewrite trim_right_space_visible; [done|].
  apply Forall_app in Hv as [_ Hv]. apply Forall_cons in Hv. tauto.
Qed.

Lemma ascii_lower_idem b : ascii_lower (ascii_lower b) = ascii_lower b.
Proof.
  unfold ascii_lower, in_range.
  destruct (65 <=? b) eqn:?, (b <=? 90) eqn:?; cbn; to_prop;
    repeat case_if; to_prop; lia.
Qed.

Lemma ascii_lower_byte b : is_byte b → is_byte (ascii_lower b).
Proof.
  unfold is_byte, ascii_lower, in_range. intros [??]. case_if; to_prop; lia.
Qed.

Lemma ascii_lower_ascii b : (ascii_lower b <? 128) = (b <? 128).
Proof.
  unfold ascii_lower, in_range. case_if; [|done]. to_prop.
  rewrite (proj2 (Z.ltb_lt (b + 32) _)), (proj2 (Z.ltb_lt b _)) by lia. done.
Qed.

Section to_lower.
Context `{GoUnicode}.

Lemma to_bytes_lower l :
  Forall is_byte l → to_bytes (of_bytes (map ascii_lower l)) = map ascii_lower l.
Proof.
  intros Hl. apply to_bytes_of_bytes. apply Forall_map.
  eapply Forall_impl; [done|]. intros b. apply ascii_lower_byte.
Qed.

Lemma to_lower_ascii s :
  is_ascii s = true → to_lower s = of_bytes (map ascii_lower (to_bytes s)).
Proof. intros Hs. unfold to_lower. by rewrite Hs. Qed.

Lemma is_ascii_to_lower s : is_ascii s = true → is_ascii (to_lower s) = true.
Proof.
  intros Hs. rewrite to_lower_ascii by done. unfold is_ascii in *.
  rewrite to_bytes_lower by apply to_bytes_byte.
  induction (to_bytes s) as [|b l IH]; [done|]; cbn in *.
  apply andb_true_iff in Hs as [Hb ?]. by rewrite ascii_lower_ascii, Hb, IH.
Qed.

Lemma to_lower_idem s : is_ascii s = true → to_lower (to_lower s) = to_lower s.
Proof.
  intros Hs. rewrite (to_lower_ascii (to_lower s)) by by apply is_ascii_to_lower.
  rewrite to_lower_ascii by done. rewrite to_bytes_lower by apply to_bytes_byte.
  rewrite map_map. f_equal. apply map_ext. apply ascii_lower_idem.
Qed.

(** Lower-case visible text, the form of a canonical MAC address, is left
    alone by the normalization [ToLower (TrimSpace (ReplaceAll mac "-" ":"))]. *)
Lemma to_lower_id s :
  Forall (λ b, visible b ∧ ¬ 65 ≤ b ≤ 90) (to_bytes s) → to_lower s = s.
Proof.
  intros Hs. rewrite to_lower_ascii.
  - rewrite <-(of_bytes_to_bytes s) at 2. f_equal.
    induction Hs as [|b l [? Hb] _ IH]; [done|]; cbn. rewrite IH. f_equal.
    unfold ascii_lower, in_range. case_if; [|done]. to_prop. lia.
  - unfold is_ascii. induction Hs as [|b l [[??] _] _ IH]; [done|]; cbn.
    rewrite IH. rewrite (proj2 (Z.ltb_lt b 128)) by lia. done.
Qed.
End to_lower.

Lemma replace_char_id a b s : contains_char a s = false → replace_char a b s = s.
Proof.
  induction s as [|c s IH]; [done|]; cbn. intros [-> ?]%orb_false_iff. by rewrite IH.
Qed.

Lemma contains_char_replace a b s : a ≠ b → contains_char a (replace_char a b s) = false.
Proof.
  intros Hab. induction s as [|c s IH]; [done|]; cbn. rewrite IH, orb_false_r.
  destruct (Ascii.eqb_spec c a) as [->|?].
  - by destruct (Ascii.eqb_spec b a); [congruence|].
  - by destruct (Ascii.eqb_spec c a).
Qed.

(** A case table that changes only ASCII letters, used to evaluate the
    definitions. *)
Definition ascii_unicode : GoUnicode := λ r, r.

(** ** Lemmas: loops over runes *)

(** A rune that starts with a byte outside ASCII is outside ASCII, and so are
    the other bytes it takes. *)
Lemma decode_rune_high b l r w :
  128 ≤ b → decode_rune (b :: l) = (r, w) →
  128 ≤ r ∧ Forall (λ x, 128 ≤ x) (take (w - 1) l).
Proof.
  intros Hb. unfold decode_rune, rune_error. rewrite (proj2 (Z.ltb_ge _ _)) by done.
  unfold in_range. repeat case_match; intros [= <- <-]; cbn;
    repeat match goal with
    | H : _ && _ = true |- _ => apply andb_true_iff in H as [? ?]
    | H : (_ <=? _) = true |- _ => apply Z.leb_le in H
    | H : (_ =? _) = true |- _ => apply Z.eqb_eq in H
    | H : (_ =? _) = false |- _ => apply Z.eqb_neq in H
    end; (split; [lia|repeat (constructor; try lia)]).
Qed.

(** Every ASCII byte of a string is visited. *)
Lemma range_runes_from_byte b l i skip :
  b < 128 → Forall (λ x, 128 ≤ x) (take skip l) → b ∈ l →
  ∃ j, (j, b) ∈ range_runes_from i skip l.
Proof.
  intros Hb. induction l as [|x l IH] in i, skip |- *; intros Hs Hin; [set_solver|].
  cbn [range_runes_from]. destruct skip as [|k].
  - destruct (decode_rune (x :: l)) as [r w] eqn:E.
    destruct (decide (x < 128)) as [Hx|Hx].
    + rewrite decode_rune_ascii in E by done. injection E as <- <-.
      apply elem_of_cons in Hin as [->|Hin]; [eexists; by left|].
      destruct (IH (S i) 0%nat) as [j Hj]; [constructor|done|]. exists j. by right.
    + apply decode_rune_high in E as [_ Hw]; [|lia].
      apply elem_of_cons in Hin as [->|Hin]; [lia|].
      destruct (IH (S i) (w - 1)%nat) as [j Hj]; [done|done|]. exists j. by right.
  - cbn in Hs. apply Forall_cons in Hs as [Hx Hs].
    apply elem_of_cons in Hin as [->|Hin]; [lia|]. by apply IH.
Qed.

Lemma range_runes_byte b s : b < 128 → b ∈ to_bytes s → ∃ j, (j, b) ∈ range_runes s.
Proof. intros Hb. apply range_runes_from_byte; [done|constructor]. Qed.

(** A loop that sees ASCII runes only sees the bytes. *)
Lemma range_runes_from_ascii i l :
  Forall (λ ir, ir.2 < 128) (range_runes_from i 0 l) →
  range_runes_from i 0 l = zip (seq i (length l)) l.
Proof.
  induction l as [|b l IH] in i |- *; [done|]. cbn [range_runes_from length seq zip zip_with].
  destruct (decode_rune (b :: l)) as [r w] eqn:E. intros [Hr Hl]%Forall_cons. cbn in Hr.
  destruct (decide (b < 128)) as [Hb|Hb].
  - rewrite decode_rune_ascii in E by done. injection E as <- <-. f_equal. by apply IH.
  - apply decode_rune_high in E as [? _]; lia.
Qed.

Lemma contains_char_bytes c s : contains_char c s = true ↔ byte_val c ∈ to_bytes s.
Proof.
  induction s as [|a s IH]; cbn; [set_solver|]. rewrite orb_true_iff, IH, elem_of_cons.
  assert (Ascii.eqb a c = true ↔ byte_val c = byte_val a) as ->; [|done].
  rewrite Ascii.eqb_eq. split; [by intros ->|]. intros E.
  by rewrite <-(chr_byte_val a), <-(chr_byte_val c), E.
Qed.

(** ** Lemmas: fields *)

Lemma fields_from_visible l r cur :
  Forall visible l → fields_from cur 0 (l ++ r) = fields_from (cur ++ l) 0 r.
Proof.
  induction l as [|b l IH] in cur |- *; intros Hl; [by rewrite app_nil_r|].
  apply Forall_cons in Hl as [Hb Hl]. cbn [app fields_from].
  rewrite decode_rune_ascii by (unfold visible in *; lia). rewrite is_space_visible by done.
  cbn. rewrite IH by done. by rewrite <-app_assoc.
Qed.

(** Words of visible characters joined by spaces are its fields. *)
Lemma fields_join l :
  Forall (λ s, s ≠ "" ∧ Forall visible (to_bytes s)) l → fields (join " " l) = l.
Proof.
  intros Hl. unfold fields. induction Hl as [|x l [Hx Hv] Hl IH]; [done|].
  assert (∀ r, fields_skip 0 (to_bytes x ++ r) = fields_from (to_bytes x) 0 r) as Hf.
  { intros r. destruct (to_bytes x) as [|b k] eqn:E.
    - destruct Hx. by rewrite <-(of_bytes_to_bytes x), E.
    - apply Forall_cons in Hv as [Hb Hk]. cbn [app fields_skip].
      rewrite decode_rune_ascii by (unfold visible in *; lia). rewrite is_space_visible by done.
      cbn. by rewrite fields_from_visible. }
  assert (to_bytes x ≠ []) as Hne.
  { intros E. destruct Hx. by rewrite <-(of_bytes_to_bytes x), E. }
  destruct l as [|y l].
  - cbn [join]. rewrite <-(app_nil_r (to_bytes x)), Hf. cbn.
    destruct (to_bytes x) eqn:E; [done|]. by rewrite <-E, of_bytes_to_bytes.
  - rewrite join_cons, !to_bytes_app, Hf. cbn [to_bytes app fields_from].
    change (byte_val " ") with 32. rewrite decode_rune_ascii by lia. cbn [is_space].
    replace (is_space 32) with true by reflexivity. cbn [Nat.sub].
    destruct (to_bytes x) eqn:E; [done|]. rewrite <-E, of_bytes_to_bytes.
    f_equal. exact IH.
Qed.

(** ** Lemmas: the first rune of a trimmed string *)

(** A space is a complete encoding, so what follows it does not matter. *)
Lemma decode_rune_space l x :
  is_space (decode_rune l).1 = true → decode_rune (l ++ x) = decode_rune l.
Proof.
  destruct l as [|a [|b [|c [|d l]]]]; cbn [app]; [done|..|done]; unfold decode_rune;
    repeat case_match; cbn [fst]; try done; intros H; by vm_compute in H.
Qed.

Definition nonspace_first (l : list Z) : Prop := l ≠ [] ∧ is_space (decode_rune l).1 = false.

Lemma nonspace_first_prefix l x : nonspace_first (l ++ x) → l ≠ [] → nonspace_first l.
Proof.
  intros [_ H] Hl. split; [done|]. destruct (is_space (decode_rune l).1) eqn:E; [|done].
  rewrite decode_rune_space in H by done. congruence.
Qed.

Lemma decode_rune_width b l : (1 ≤ (decode_rune (b :: l)).2)%nat.
Proof. unfold decode_rune. repeat case_match; cbn; lia. Qed.

Lemma trim_left_space_first n l :
  (length l ≤ n)%nat → trim_left_space n l = [] ∨ nonspace_first (trim_left_space n l).
Proof.
  induction n as [|n IH] in l |- *; intros Hn; cbn [trim_left_space].
  { left. destruct l; [done|cbn in Hn; lia]. }
  destruct l as [|b l]; [by left|]. pose proof (decode_rune_width b l) as Hw.
  destruct (decode_rune (b :: l)) as [r w] eqn:E. cbn in Hw. destruct (is_space r) eqn:Es.
  - apply IH. rewrite length_drop. cbn in *. lia.
  - right. split; [done|]. by rewrite E.
Qed.

Lemma decode_last_rune_space l :
  l ≠ [] → is_space (decode_last_rune l).1 = true →
  (1 ≤ (decode_last_rune l).2 ≤ length l)%nat ∧
  ((decode_last_rune l).2 = length l → is_space (decode_rune l).1 = true).
Proof.
  intros Hl. unfold decode_last_rune. destruct (reverse l) as [|b r] eqn:Er.
  { destruct Hl. by rewrite <-(reverse_involutive l), Er. }
  assert (l = reverse r ++ [b]) as El.
  { by rewrite <-(reverse_involutive l), Er, reverse_cons. }
  destruct (Z.ltb_spec b 128).
  - cbn. intros Hs. rewrite El, length_app, length_reverse. cbn. split; [lia|].
    intros Hlen. destruct r; [|cbn in Hlen; lia].
    change (reverse [] ++ [b]) with [b]. by rewrite decode_rune_ascii.
  - set (start := (_ - _)%nat). destruct (decode_rune (drop start l)) as [x w] eqn:Ed.
    destruct (Nat.eqb_spec (start + w) (length l)) as [Hw|]; [|done]. cbn. intros Hs.
    split; [|intros ->; by replace start with 0%nat in Ed by lia; rewrite drop_0 in Ed; rewrite Ed].
    split; [|lia]. destruct (drop start l) as [|y k] eqn:Edr; [by injection Ed as <- <-|].
    pose proof (decode_rune_width y k). rewrite Ed in *. done.
Qed.

Lemma trim_right_space_first n l :
  nonspace_first l → nonspace_first (trim_right_space n l) ∧ ∃ x, l = trim_right_space n l ++ x.
Proof.
  induction n as [|n IH] in l |- *; intros Hl; cbn [trim_right_space].
  { split; [done|]. exists []. by rewrite app_nil_r. }
  destruct l as [|b l]; [by destruct Hl|]. set (k := b :: l) in *.
  pose proof (decode_last_rune_space k (proj1 Hl)) as Hd.
  destruct (decode_last_rune k) as [r w]. cbn [fst snd] in Hd. destruct (is_space r).
  - destruct (Hd eq_refl) as [Hw He].
    assert (w ≠ length k) as Hne. { intros E. pose proof (proj2 Hl) as Hf. by rewrite (He E) in Hf. }
    destruct (IH (take (length k - w) k)) as [H1 [x Hx]].
    + eapply (nonspace_first_prefix _ (drop (length k - w) k)); [by rewrite take_drop|].
      intros E. apply (f_equal length) in E. rewrite length_take in E. cbn in *. lia.
    + split; [done|]. exists (x ++ drop (length k - w) k).
      by rewrite app_assoc, <-Hx, take_drop.
  - split; [done|]. exists []. by rewrite app_nil_r.
Qed.

Lemma to_bytes_of_bytes_sub l x s : to_bytes s = l ++ x → to_bytes (of_bytes l) = l.
Proof.
  intros E. apply to_bytes_of_bytes. pose proof (to_bytes_byte s) as H. rewrite E in H.
  by apply Forall_app in H as [? _].
Qed.

Lemma trim_left_space_suffix n l : ∃ x, l = x ++ trim_left_space n l.
Proof.
  induction n as [|n IH] in l |- *; cbn [trim_left_space]; [by exists []|].
  destruct l as [|b l]; [by exists []|]. destruct (decode_rune (b :: l)) as [r w].
  destruct (is_space r); [|by exists []]. destruct (IH (drop w (b :: l))) as [x Hx].
  exists (take w (b :: l) ++ x). by rewrite <-app_assoc, <-Hx, take_drop.
Qed.

(** A trimmed string is empty or does not begin with a space. *)
Lemma trim_space_first s : trim_space s = "" ∨ nonspace_first (to_bytes (trim_space s)).
Proof.
  unfold trim_space. set (l := to_bytes s).
  destruct (trim_left_space_first (length l) l (le_n _)) as [->|Hl]; [by left|right].
  destruct (trim_left_space_suffix (length l) l) as [x Hx].
  set (l' := trim_left_space (length l) l) in *.
  destruct (trim_right_space_first (length l') l' Hl) as [H [y Hy]].
  rewrite to_bytes_of_bytes; [done|].
  pose proof (to_bytes_byte s) as Hb. fold l in Hb. rewrite Hx, Hy in Hb.
  by apply Forall_app in Hb as [_ [? _]%Forall_app].
Qed.

(** Trimming keeps a string that does not begin with a space from vanishing. *)
Lemma trim_space_nonspace s : nonspace_first (to_bytes s) → trim_space s ≠ "".
Proof.
  intros Hs. unfold trim_space. set (l := to_bytes s) in *.
  assert (trim_left_space (length l) l = l) as ->.
  { destruct l as [|b l]; [done|]. cbn [length trim_left_space]. destruct Hs as [_ Hs].
    destruct (decode_rune (b :: l)) as [r w]. cbn in Hs. by rewrite Hs. }
  destruct (trim_right_space_first (length l) l Hs) as [[H _] _]. intros E. apply H.
  destruct (trim_right_space (length l) l); [done|]. by cbn in E.
Qed.

Lemma fields_from_ne cur k l : cur ≠ [] → fields_from cur k l ≠ [].
Proof.
  induction l as [|b l IH] in cur, k |- *; intros Hc; cbn [fields_from].
  { by destruct cur. }
  destruct k as [|k]; [|apply IH; by destruct cur].
  destruct (decode_rune (b :: l)) as [r w]. destruct (is_space r).
  - by destruct cur.
  - apply IH. by destruct cur.
Qed.

Lemma fields_nonspace s : nonspace_first (to_bytes s) → fields s ≠ [].
Proof.
  intros [Hne Hs]. unfold fields. destruct (to_bytes s) as [|b l]; [done|]. cbn [fields_skip].
  destruct (decode_rune (b :: l)) as [r w]. cbn in Hs. rewrite Hs. by apply fields_from_ne.
Qed.
