(* ===== verification/GoStrconv.v ===== *)
(** * Decimal numbers: packages strconv and fmt's %d

    [itoa] prints, [atoi] parses with the range of Go's [int], whose width is
    32 bits on the router's ARM board and 64 bits on amd64. *)

From S2P Require Import Prelude GoStrings.
From Stdlib Require Import Ascii.
Open Scope Z_scope.

Class GoInt := {
  int_bits : Z;
  int_bits_ok : int_bits = 32 ∨ int_bits = 64
}.
Definition int32_arch : GoInt := {| int_bits := 32; int_bits_ok := or_introl eq_refl |}.
Definition int64_arch : GoInt := {| int_bits := 64; int_bits_ok := or_intror eq_refl |}.

Definition int_max `{GoInt} : Z := 2 ^ (int_bits - 1) - 1.
Definition int_min `{GoInt} : Z := - 2 ^ (int_bits - 1).

(** [strconv.Itoa], [strconv.FormatInt(_, 10)], [fmt]'s [%d]. *)
Definition itoa (z : Z) : string := pretty z.

Definition is_digit (b : Z) : bool := in_range 48 57 b.

Fixpoint digits_value (acc : Z) (l : list Z) : option Z :=
  match l with
  | [] => Some acc
  | b :: l => if is_digit b then digits_value (acc * 10 + (b - 48)) l else None
  end.

Inductive num_error := ErrSyntax | ErrRange.

(** [strconv.Atoi]: an optional sign and at least one digit.  The value that
    accompanies an error is 0 for a syntax error and the nearest representable
    integer for a range error. *)
Definition atoi `{GoInt} (s : string) : Z * option num_error :=
  let '(neg, l) :=
    match to_bytes s with
    | b :: l => if b =? 45 then (true, l) else if b =? 43 then (false, l) else (false, b :: l)
    | [] => (false, [])
    end in
  match l with
  | [] => (0, Some ErrSyntax)
  | _ =>
      match digits_value 0 l with
      | None => (0, Some ErrSyntax)
      | Some v =>
          let v := if (neg : bool) then - v else v in
          if int_max <? v then (int_max, Some ErrRange)
          else if v <? int_min then (int_min, Some ErrRange)
          else (v, None)
      end
  end.

(** ** Lemmas *)

Lemma pretty_N_char_byte n :
  (n < 10)%N → byte_val (pretty_N_char n) = 48 + Z.of_N n.
Proof.
  intros Hn.
  assert (n = 0 ∨ n = 1 ∨ n = 2 ∨ n = 3 ∨ n = 4 ∨ n = 5 ∨ n = 6 ∨ n = 7 ∨ n = 8 ∨ n = 9)%N
    as Hc by lia.
  by destruct_or! Hc; subst.
Qed.

Lemma is_digit_pretty n : (n < 10)%N → is_digit (byte_val (pretty_N_char n)) = true.
Proof.
  intros Hn. rewrite pretty_N_char_byte by done. unfold is_digit, in_range.
  apply andb_true_iff. rewrite !Z.leb_le. lia.
Qed.

Lemma digits_value_pretty_go n s :
  digits_value 0 (to_bytes (pretty_N_go n s)) = digits_value (Z.of_N n) (to_bytes s).
Proof.
  revert s; induction (N.lt_wf_0 n) as [n _ IH]; intros s.
  destruct (decide (n = 0)%N) as [->|Hn]; [by rewrite pretty_N_go_0|].
  rewrite pretty_N_go_step by lia. rewrite IH by (apply N.div_lt; lia).
  cbn [to_bytes digits_value].
  assert (n `mod` 10 < 10)%N by (apply N.mod_lt; lia).
  rewrite is_digit_pretty, pretty_N_char_byte by done. f_equal.
  pose proof (N.div_mod n 10 ltac:(lia)). lia.
Qed.

Lemma digits_value_itoa z : 0 ≤ z → digits_value 0 (to_bytes (itoa z)) = Some z.
Proof.
  intros Hz. unfold itoa. destruct z as [|p|p]; [done| |lia].
  unfold pretty, pretty_Z, pretty, pretty_positive, pretty, pretty_N.
  case_decide as Hp; [done|]. by rewrite digits_value_pretty_go.
Qed.

Lemma pretty_go_digits n s :
  Forall (λ b, is_digit b = true) (to_bytes s) →
  Forall (λ b, is_digit b = true) (to_bytes (pretty_N_go n s)).
Proof.
  revert s; induction (N.lt_wf_0 n) as [n _ IH]; intros s Hs.
  destruct (decide (n = 0)%N) as [->|Hn]; [by rewrite pretty_N_go_0|].
  rewrite pretty_N_go_step by lia. apply IH; [apply N.div_lt; lia|].
  constructor; [|done]. apply is_digit_pretty, N.mod_lt. lia.
Qed.

Lemma itoa_digits z : 0 ≤ z → Forall (λ b, is_digit b = true) (to_bytes (itoa z)).
Proof.
  intros Hz. unfold itoa. destruct z as [|p|p]; [by repeat constructor| |lia].
  unfold pretty, pretty_Z, pretty, pretty_positive, pretty, pretty_N.
  case_decide as Hp; [done|]. by apply pretty_go_digits.
Qed.

Lemma itoa_ne z : itoa z ≠ "".
Proof.
  destruct (decide (0 ≤ z)) as [Hz|Hz].
  - intros E. pose proof (digits_value_itoa z Hz) as Hd. rewrite E in Hd.
    injection Hd as <-. discriminate E.
  - unfold itoa. destruct z as [|p|p]; [lia..|]. discriminate.
Qed.

Lemma itoa_inj x y : itoa x = itoa y → x = y.
Proof. apply (inj (R := eq) pretty). Qed.

Lemma is_digit_range b : is_digit b = true ↔ 48 ≤ b ≤ 57.
Proof. unfold is_digit, in_range. rewrite andb_true_iff, !Z.leb_le. done. Qed.

Lemma int_max_ge `{GoInt} : 2147483647 ≤ int_max.
Proof. unfold int_max. destruct int_bits_ok as [-> | ->]; cbn; lia. Qed.

Lemma int_min_le `{GoInt} : int_min ≤ -2147483648.
Proof. unfold int_min. destruct int_bits_ok as [-> | ->]; cbn; lia. Qed.

(** Printing and parsing agree on the non-negative values of [int]. *)
Lemma atoi_itoa `{GoInt} z : 0 ≤ z ≤ int_max → atoi (itoa z) = (z, None).
Proof.
  intros [Hz ?]. unfold atoi.
  pose proof (itoa_digits z Hz) as Hd. pose proof (digits_value_itoa z Hz) as Hv.
  assert (to_bytes (itoa z) ≠ []) as Hne.
  { intros E. apply (itoa_ne z). by apply to_bytes_inj. }
  destruct (to_bytes (itoa z)) as [|b l]; [done|]. inversion Hd as [|?? Hb _]; subst.
  apply is_digit_range in Hb.
  rewrite (proj2 (Z.eqb_neq b 45)), (proj2 (Z.eqb_neq b 43)) by lia. rewrite Hv.
  pose proof int_min_le.
  rewrite (proj2 (Z.ltb_ge int_max z)), (proj2 (Z.ltb_ge z int_min)) by lia. done.
Qed.
