(* ===== verification/GoNet.v ===== *)
(** * Package net: addresses, networks and hardware addresses

    A [net.IP], [net.IPMask] or [net.HardwareAddr] is a byte slice, modelled
    by [list Z]; the nil slice is the empty list.  Parsing follows net/netip,
    for IPv4 and IPv6 texts. *)

From S2P Require Import Prelude GoStrings GoStrconv.
From Stdlib Require Import Ascii.
Open Scope Z_scope.

Abbreviation IP := (list Z).
Abbreviation IPMask := (list Z).
Abbreviation HardwareAddr := (list Z).

Definition v4InV6Prefix : list Z := [0;0;0;0;0;0;0;0;0;0;255;255].

(** [net.IPv4zero] and [net.IPv4bcast] are 16 bytes long. *)
Definition IPv4zero : IP := v4InV6Prefix ++ [0;0;0;0].
Definition IPv4bcast : IP := v4InV6Prefix ++ [255;255;255;255].

(** ** net/netip parsing *)

(** [parseIPv4Fields]: [prev] is the previous byte, [fs] the fields complete so
    far, [v] and [dig] the value and length of the current one. *)
Fixpoint parse_ipv4_fields (prev : option Z) (fs : list Z) (v : Z) (dig : nat) (l : list Z)
    : option (list Z) :=
  match l with
  | [] => if (length fs <? 3)%nat then None else Some (fs ++ [v])
  | c :: l' =>
      if is_digit c then
        if (dig =? 1)%nat && (v =? 0) then None
        else let v' := v * 10 + (c - 48) in
             if 255 <? v' then None else parse_ipv4_fields (Some c) fs v' (S dig) l'
      else if c =? 46 then
        if match prev with None => true | Some p => p =? 46 end
           || match l' with [] => true | _ => false end
        then None
        else if (length fs =? 3)%nat then None
        else parse_ipv4_fields (Some c) (fs ++ [v]) 0 0%nat l'
      else None
  end.

Definition hex_value (c : Z) : option Z :=
  if is_digit c then Some (c - 48)
  else if in_range 97 102 c then Some (c - 87)
  else if in_range 65 70 c then Some (c - 55)
  else None.

(** One group of hex digits: the value, the number of digits, the rest; a fifth
    digit is an error. *)
Fixpoint hex_group (off : nat) (acc : Z) (l : list Z) : option (Z * nat * list Z) :=
  match l with
  | [] => Some (acc, off, [])
  | c :: l' =>
      match hex_value c with
      | None => Some (acc, off, l)
      | Some d => if (3 <? off)%nat then None else hex_group (S off) (acc * 16 + d) l'
      end
  end.

(** The loop of [parseIPv6]: [ip] is the part of the address read so far, [ell]
    the position of the ellipsis; at most eight groups are read. *)
Fixpoint ipv6_groups (fuel : nat) (ip : list Z) (ell : option nat) (s : list Z)
    : option (list Z * option nat * list Z) :=
  match fuel with
  | O => Some (ip, ell, s)
  | S fuel =>
      match hex_group 0 0 s with
      | None => None
      | Some (acc, off, rest) =>
          if (off =? 0)%nat then None
          else if match rest with c :: _ => c =? 46 | [] => false end then
            if (match ell with None => true | Some _ => false end) && negb (length ip =? 12)%nat
               || (16 <? length ip + 4)%nat
            then None
            else match parse_ipv4_fields None [] 0 0%nat s with
                 | None => None
                 | Some fs => Some (ip ++ fs, ell, [])
                 end
          else
            let ip := ip ++ [acc / 256; acc mod 256] in
            match rest with
            | [] => Some (ip, ell, [])
            | c :: s1 =>
                if negb (c =? 58) then None
                else match s1 with
                     | [] => None
                     | c1 :: s2 =>
                         if c1 =? 58 then
                           match ell with
                           | Some _ => None
                           | None =>
                               match s2 with
                               | [] => Some (ip, Some (length ip), [])
                               | _ => ipv6_groups fuel ip (Some (length ip)) s2
                               end
                           end
                         else ipv6_groups fuel ip ell s1
                     end
            end
      end
  end.

Definition ipv6_finish (r : option (list Z * option nat * list Z)) : option (list Z) :=
  match r with
  | Some (ip, ell, []) =>
      if (length ip <? 16)%nat then
        match ell with
        | None => None
        | Some e => Some (take e ip ++ replicate (16 - length ip) 0 ++ drop e ip)
        end
      else match ell with Some _ => None | None => Some ip end
  | _ => None
  end.

Definition parse_ipv6 (s : list Z) : option (list Z) :=
  match s with
  | a :: b :: s' =>
      if (a =? 58) && (b =? 58) then
        match s' with
        | [] => Some (replicate 16 0)
        | _ => ipv6_finish (ipv6_groups 8 [] (Some 0%nat) s')
        end
      else ipv6_finish (ipv6_groups 8 [] None s)
  | _ => ipv6_finish (ipv6_groups 8 [] None s)
  end.

(** [netip.ParseAddr], for addresses without a zone (every caller rejects a
    zone): 4 bytes for an IPv4 text, 16 for an IPv6 text. *)
Fixpoint addr_kind (l : list Z) : option Z :=
  match l with
  | [] => None
  | c :: l => if (c =? 46) || (c =? 58) || (c =? 37) then Some c else addr_kind l
  end.

Definition parse_addr (s : string) : option (list Z) :=
  let l := to_bytes s in
  match addr_kind l with
  | Some c =>
      if c =? 46 then parse_ipv4_fields None [] 0 0%nat l
      else if c =? 58 then (if existsb (λ c, c =? 37) l then None else parse_ipv6 l)
      else None
  | None => None
  end.

Definition as16 (a : list Z) : IP := if (length a =? 4)%nat then v4InV6Prefix ++ a else a.

(** [net.ParseIP]. *)
Definition ParseIP (s : string) : IP :=
  match parse_addr s with
  | Some a => as16 a
  | None => []
  end.

(** ** Addresses *)

Definition list_eqb (a b : list Z) : bool := bool_decide (a = b).

Definition To4 (ip : IP) : IP :=
  if (length ip =? 4)%nat then ip
  else if (length ip =? 16)%nat && list_eqb (take 12 ip) v4InV6Prefix then drop 12 ip
  else [].

Definition IP_Equal (ip x : IP) : bool :=
  if (length ip =? length x)%nat then list_eqb ip x
  else if (length ip =? 4)%nat && (length x =? 16)%nat then
    list_eqb (take 12 x) v4InV6Prefix && list_eqb ip (drop 12 x)
  else if (length ip =? 16)%nat && (length x =? 4)%nat then
    list_eqb (take 12 ip) v4InV6Prefix && list_eqb (drop 12 ip) x
  else false.

Definition IP_Mask (ip : IP) (mask : IPMask) : IP :=
  let mask := if (length mask =? 16)%nat && (length ip =? 4)%nat
                 && list_eqb (take 12 mask) (replicate 12 255)
              then drop 12 mask else mask in
  let ip := if (length mask =? 4)%nat && (length ip =? 16)%nat
               && list_eqb (take 12 ip) v4InV6Prefix
            then drop 12 ip else ip in
  if (length ip =? length mask)%nat then zip_with Z.land ip mask else [].

Record IPNet := { net_IP : IP; net_Mask : IPMask }.

(** [networkNumberAndMask]. *)
Definition networkNumberAndMask (n : IPNet) : IP * IPMask :=
  let ip4 := To4 (net_IP n) in
  let ip := match ip4 with [] => net_IP n | _ => ip4 end in
  if match ip4 with [] => negb (length (net_IP n) =? 16)%nat | _ => false end then ([], [])
  else
    let m := net_Mask n in
    if (length m =? 4)%nat then (if (length ip =? 4)%nat then (ip, m) else ([], []))
    else if (length m =? 16)%nat then (if (length ip =? 4)%nat then (ip, drop 12 m) else (ip, m))
    else ([], []).

Definition IPNet_Contains (n : IPNet) (ip : IP) : bool :=
  let '(nn, m) := networkNumberAndMask n in
  let ip := match To4 ip with [] => ip | x => x end in
  (length ip =? length nn)%nat &&
  list_eqb (zip_with Z.land nn m) (zip_with Z.land ip m).

(** [net.CIDRMask]: the inner bytes of a prefix of [n] bits. *)
Fixpoint cidr_bytes (l : nat) (n : Z) : IPMask :=
  match l with
  | O => []
  | S l => if 8 <=? n then 255 :: cidr_bytes l (n - 8)
           else (255 - Z.shiftr 255 n) :: cidr_bytes l 0
  end.
Definition CIDRMask (ones bits : Z) : IPMask :=
  if negb ((bits =? 32) || (bits =? 128)) then []
  else if (ones <? 0) || (bits <? ones) then []
  else cidr_bytes (Z.to_nat (bits / 8)) ones.

(** [net.dtoi] on a whole string: at most [0xFFFFFF], no sign. *)
Fixpoint dtoi (n : Z) (l : list Z) : option Z :=
  match l with
  | [] => Some n
  | c :: l => if is_digit c then
                let n := n * 10 + (c - 48) in
                if 16777215 <=? n then None else dtoi n l
              else None
  end.

(** [net.ParseCIDR]; the error carries no information the router uses. *)
Definition ParseCIDR (s : string) : option (IP * IPNet) :=
  match cut_char "/" s with
  | None => None
  | Some (addr, mask) =>
      match parse_addr addr, (match to_bytes mask with [] => None | l => dtoi 0 l end) with
      | Some a, Some n =>
          let bits := 8 * Z.of_nat (length a) in
          if bits <? n then None
          else let m := CIDRMask n bits in
               Some (as16 a, {| net_IP := IP_Mask (as16 a) m; net_Mask := m |})
      | _, _ => None
      end
  end.

Definition hex_digit (z : Z) : Z := if z <? 10 then 48 + z else 87 + z.

(** ** Printing *)

Fixpoint hex_go (fuel : nat) (z : Z) (acc : list Z) : list Z :=
  match fuel with
  | O => acc
  | S fuel => let acc := hex_digit (z mod 16) :: acc in
              if z / 16 =? 0 then acc else hex_go fuel (z / 16) acc
  end.

Fixpoint groups16 (l : list Z) : list Z :=
  match l with
  | a :: b :: l => a * 256 + b :: groups16 l
  | _ => []
  end.

Fixpoint zero_run (l : list Z) : nat :=
  match l with
  | g :: l => if g =? 0 then S (zero_run l) else O
  | [] => O
  end.

(** The longest run of at least two zero groups, the first one of that
    length. *)
Fixpoint longest_zero_run (i : nat) (best : nat * nat) (l : list Z) : nat * nat :=
  match l with
  | [] => best
  | _ :: l' =>
      let r := zero_run l in
      longest_zero_run (S i)
        (if (2 <=? r)%nat && (best.2 <? r)%nat then (i, r) else best) l'
  end.

Definition v6_groups (l : list Z) : string :=
  join ":" (map (λ g, of_bytes (hex_go 4 g [])) l).

Definition string6 (ip : list Z) : string :=
  let g := groups16 ip in
  let '(start, run) := longest_zero_run 0 (0%nat, 0%nat) g in
  if (run =? 0)%nat then v6_groups g
  else v6_groups (take start g) +:+ "::" +:+ v6_groups (drop (start + run) g).

Definition dotted (ip : IP) : string := join "." (map itoa ip).

(** [IP.String]. *)
Definition IP_String (ip : IP) : string :=
  match ip with
  | [] => "<nil>"
  | _ =>
      if (length ip =? 4)%nat || (length ip =? 16)%nat then
        match To4 ip with
        | [] => string6 ip
        | p4 => dotted p4
        end
      else "?" +:+ of_bytes (concat (map (λ b, [hex_digit (b / 16); hex_digit (b mod 16)]) ip))
  end.

(** ** Hardware addresses *)

Definition hex_byte (b : Z) : string := of_bytes [hex_digit (b / 16); hex_digit (b mod 16)].

(** [HardwareAddr.String]. *)
Definition HardwareAddr_String (hw : HardwareAddr) : string := join ":" (map hex_byte hw).

(** [xtoi2]: two hex digits, then the end or the byte [e]. *)
Definition xtoi2 (l : list Z) (e : Z) : option Z :=
  match l with
  | a :: b :: rest =>
      if match rest with c :: _ => negb (c =? e) | [] => false end then None
      else match hex_value a, hex_value b with
           | Some x, Some y => Some (x * 16 + y)
           | _, _ => None
           end
  | _ => None
  end.

(** The two loops of [net.ParseMAC]: groups of two digits, groups of four. *)
Fixpoint mac_bytes (n : nat) (e : Z) (l : list Z) : option HardwareAddr :=
  match n with
  | O => Some []
  | S n => b ← xtoi2 l e; r ← mac_bytes n e (drop 3 l); Some (b :: r)
  end.

Fixpoint mac_words (n : nat) (l : list Z) : option HardwareAddr :=
  match n with
  | O => Some []
  | S n => b ← xtoi2 (take 2 l) 0; c ← xtoi2 (drop 2 l) 46;
           r ← mac_words n (drop 5 l); Some (b :: c :: r)
  end.

Definition mac_len (n : Z) : bool := (n =? 6) || (n =? 8) || (n =? 20).

Definition ParseMAC (s : string) : option HardwareAddr :=
  let l := to_bytes s in
  let len := Z.of_nat (length l) in
  if len <? 14 then None
  else
    let c2 := default 0 (l !! 2%nat) in
    let c4 := default 0 (l !! 4%nat) in
    if (c2 =? 58) || (c2 =? 45) then
      if negb ((len + 1) mod 3 =? 0) then None
      else let n := (len + 1) / 3 in
           if mac_len n then mac_bytes (Z.to_nat n) c2 l else None
    else if c4 =? 46 then
      if negb ((len + 1) mod 5 =? 0) then None
      else let n := 2 * (len + 1) / 5 in
           if mac_len n then mac_words (Z.to_nat (n / 2)) l else None
    else None.

(** ** Socket addresses *)

Record UDPAddr := { udp_IP : IP; udp_Port : Z; udp_Zone : string }.

(** [net.JoinHostPort] and [UDPAddr.String]. *)
Definition JoinHostPort (host port : string) : string :=
  if contains_char ":" host then "[" +:+ host +:+ "]:" +:+ port
  else host +:+ ":" +:+ port.

Definition UDPAddr_String (a : UDPAddr) : string :=
  let ip := match udp_IP a with [] => "" | ip => IP_String ip end in
  let host := if String.eqb (udp_Zone a) "" then ip else ip +:+ "%" +:+ udp_Zone a in
  JoinHostPort host (itoa (udp_Port a)).

(** ** Lemmas: IPv4 *)

Lemma list_eqb_eq a b : list_eqb a b = true ↔ a = b.
Proof. unfold list_eqb. apply bool_decide_eq_true. Qed.

Lemma list_eqb_refl a : list_eqb a a = true.
Proof. by apply list_eqb_eq. Qed.

Lemma To4_v4 ip : length ip = 4%nat → To4 ip = ip.
Proof. intros H. unfold To4. by rewrite H. Qed.

Lemma To4_v4in6 ip : length ip = 4%nat → To4 (v4InV6Prefix ++ ip) = ip.
Proof.
  intros H. unfold To4. rewrite length_app, H. simpl.
  destruct ip as [|a [|b [|c [|d [|]]]]]; done.
Qed.

Lemma To4_length ip : To4 ip ≠ [] → length (To4 ip) = 4%nat.
Proof.
  unfold To4. destruct (Nat.eqb_spec (length ip) 4); [done|].
  destruct (Nat.eqb_spec (length ip) 16); cbn; [|done].
  case_if; [|done]. intros _. rewrite length_drop. lia.
Qed.

Lemma To4_byte ip : Forall is_byte ip → Forall is_byte (To4 ip).
Proof. intros H. unfold To4. repeat case_if; auto using Forall_drop. Qed.

Lemma IP_Equal_v4 a b :
  length a = 4%nat → length b = 4%nat → IP_Equal a b = true ↔ a = b.
Proof. intros Ha Hb. unfold IP_Equal. rewrite Ha, Hb. apply list_eqb_eq. Qed.

Lemma IP_Equal_refl a : IP_Equal a a = true.
Proof. unfold IP_Equal. by rewrite Nat.eqb_refl, list_eqb_refl. Qed.

Definition octet_text_ok (a : Z) : bool :=
  match to_bytes (itoa a) with
  | [x] => (x =? 48 + a) && (a <? 10)
  | [x; y] => in_range 49 57 x && in_range 48 57 y && (a =? (x - 48) * 10 + (y - 48))
  | [x; y; z] => in_range 49 57 x && in_range 48 57 y && in_range 48 57 z
      && (a =? (x - 48) * 100 + (y - 48) * 10 + (z - 48))
  | _ => false
  end.

(** The decimal text of an octet has one to three digits and no leading
    zero. *)
Lemma itoa_octet a :
  is_byte a →
  (to_bytes (itoa a) = [48 + a] ∧ a < 10) ∨
  (∃ x y, to_bytes (itoa a) = [48 + x; 48 + y] ∧ 1 ≤ x < 10 ∧ 0 ≤ y < 10 ∧ a = x * 10 + y) ∨
  (∃ x y z, to_bytes (itoa a) = [48 + x; 48 + y; 48 + z] ∧ 1 ≤ x < 10 ∧ 0 ≤ y < 10 ∧
     0 ≤ z < 10 ∧ a = x * 100 + y * 10 + z).
Proof.
  intros [H0 H1].
  pose proof (proj1 (forallb_forall octet_text_ok (seqZ 0 256)) ltac:(by vm_compute) a) as Hall.
  unfold octet_text_ok in Hall.
  specialize (Hall ltac:(apply list_elem_of_In, elem_of_seqZ; lia)).
  destruct (to_bytes (itoa a)) as [|x [|y [|z [|]]]]; try done; unfold in_range in Hall; to_prop.
  - left. split; [f_equal; lia|lia].
  - right; left. exists (x - 48), (y - 48). split; [repeat f_equal; lia|lia].
  - right; right. exists (x - 48), (y - 48), (z - 48). split; [repeat f_equal; lia|lia].
Qed.

Lemma parse_ipv4_digit p fs v dig x l :
  0 ≤ x < 10 → (dig = 1%nat → v ≠ 0) → v * 10 + x ≤ 255 →
  parse_ipv4_fields p fs v dig (48 + x :: l) =
  parse_ipv4_fields (Some (48 + x)) fs (v * 10 + x) (S dig) l.
Proof.
  intros Hx Hv Hle. cbn [parse_ipv4_fields].
  rewrite (proj2 (is_digit_range (48 + x))) by lia.
  replace (48 + x - 48) with x by lia.
  rewrite (proj2 (Z.ltb_ge 255 _)) by lia.
  destruct (Nat.eqb_spec dig 1); [|done].
  by rewrite (proj2 (Z.eqb_neq v 0)) by auto.
Qed.

Lemma parse_ipv4_octet p fs a l :
  is_byte a → ∃ q dig, q ≠ 46 ∧
  parse_ipv4_fields p fs 0 0%nat (to_bytes (itoa a) ++ l) =
  parse_ipv4_fields (Some q) fs a dig l.
Proof.
  intros Ha. destruct (itoa_octet a Ha) as [[-> ?]|[(x & y & -> & ? & ? & ->)|
    (x & y & z & -> & ? & ? & ? & ->)]]; destruct Ha; cbn [app];
    repeat (rewrite parse_ipv4_digit by lia); (do 2 eexists; split; [|f_equal; lia]); lia.
Qed.

Lemma parse_ipv4_dot q fs v dig c l :
  q ≠ 46 → length fs ≠ 3%nat →
  parse_ipv4_fields (Some q) fs v dig (46 :: c :: l) =
  parse_ipv4_fields (Some 46) (fs ++ [v]) 0 0%nat (c :: l).
Proof.
  intros Hq Hfs. cbn [parse_ipv4_fields]. change (is_digit 46) with false. cbv iota.
  rewrite (proj2 (Z.eqb_neq q 46)) by done.
  by rewrite (proj2 (Nat.eqb_neq _ _)) by done.
Qed.

Lemma itoa_bytes_ne z : to_bytes (itoa z) ≠ [].
Proof. intros E. apply (itoa_ne z). by apply to_bytes_inj. Qed.

Lemma parse_ipv4_fields_dotted a b c d :
  is_byte a → is_byte b → is_byte c → is_byte d →
  parse_ipv4_fields None [] 0 0%nat (to_bytes (dotted [a; b; c; d])) = Some [a; b; c; d].
Proof.
  intros Ha Hb Hc Hd. unfold dotted. cbn [map]. rewrite !join_cons. cbn [join].
  rewrite !to_bytes_app. change (to_bytes ".") with [46]. cbn [app].
  assert (∀ p fs a c l, is_byte a → length fs ≠ 3%nat →
    parse_ipv4_fields p fs 0 0%nat (to_bytes (itoa a) ++ 46 :: to_bytes (itoa c) ++ l) =
    parse_ipv4_fields (Some 46) (fs ++ [a]) 0 0%nat (to_bytes (itoa c) ++ l)) as Hstep.
  { intros p fs x y l Hx Hlen.
    destruct (parse_ipv4_octet p fs x (46 :: to_bytes (itoa y) ++ l) Hx) as (q & dig & Hq & ->).
    pose proof (itoa_bytes_ne y). destruct (to_bytes (itoa y)); [done|]. by apply parse_ipv4_dot. }
  rewrite !Hstep by done. rewrite <-(app_nil_r (to_bytes (itoa d))).
  rewrite Hstep by done.
  destruct (parse_ipv4_octet (Some 46) (([a] ++ [b]) ++ [c]) d [] Hd) as (q & dig & _ & E).
  cbn [app] in *. by rewrite E.
Qed.

Lemma addr_kind_digits l r :
  Forall (λ b, is_digit b = true) l → addr_kind (l ++ 46 :: r) = Some 46.
Proof.
  induction 1 as [|b l Hb _ IH]; [done|]. cbn. apply is_digit_range in Hb.
  rewrite (proj2 (Z.eqb_neq b 46)), (proj2 (Z.eqb_neq b 58)), (proj2 (Z.eqb_neq b 37)) by lia.
  done.
Qed.

(** An IPv4 address survives printing and parsing. *)
Lemma parse_addr_dotted ip :
  length ip = 4%nat → Forall is_byte ip → parse_addr (dotted ip) = Some ip.
Proof.
  intros Hlen Hb. destruct ip as [|a [|b [|c [|d [|]]]]]; try done.
  rewrite !Forall_cons in Hb. destruct_and! Hb.
  unfold parse_addr. rewrite parse_ipv4_fields_dotted by done.
  assert (addr_kind (to_bytes (dotted [a; b; c; d])) = Some 46) as ->; [|done].
  unfold dotted. cbn [map]. rewrite join_cons, !to_bytes_app.
  apply addr_kind_digits, itoa_digits. by unfold is_byte in *; lia.
Qed.

Lemma IP_String_v4 ip : length ip = 4%nat → IP_String ip = dotted ip.
Proof.
  intros Hlen. unfold IP_String. rewrite To4_v4 by done. rewrite Hlen.
  destruct ip; [done|]. done.
Qed.

Lemma ParseIP_IP_String ip :
  length ip = 4%nat → Forall is_byte ip → To4 (ParseIP (IP_String ip)) = ip.
Proof.
  intros Hlen Hb. rewrite IP_String_v4 by done. unfold ParseIP.
  rewrite parse_addr_dotted by done. unfold as16. rewrite Hlen. cbn [Nat.eqb].
  by apply To4_v4in6.
Qed.

Lemma IP_String_inj_v4 ip ip' :
  length ip = 4%nat → length ip' = 4%nat → Forall is_byte ip → Forall is_byte ip' →
  IP_String ip = IP_String ip' → ip = ip'.
Proof.
  intros ???? E. rewrite <-(ParseIP_IP_String ip), <-(ParseIP_IP_String ip') by done.
  by rewrite E.
Qed.

(** ** Lemmas: parsed addresses are made of bytes *)

Lemma parse_ipv4_fields_bytes p fs v dig l r :
  Forall is_byte fs → is_byte v → parse_ipv4_fields p fs v dig l = Some r →
  Forall is_byte r ∧ length r = 4%nat ∨ (length fs > 3)%nat.
Proof.
  revert p fs v dig; induction l as [|c l IH]; intros p fs v dig Hfs Hv; cbn.
  - case_if; [done|]. intros [= <-]. to_prop. rewrite length_app; cbn.
    destruct (decide (length fs = 3%nat)); [|right; lia].
    left. split; [|lia]. apply Forall_app. auto.
  - destruct (is_digit c) eqn:Hc.
    + case_if; [done|]. case_if; [done|]. apply IH; [done|]. to_prop.
      apply is_digit_range in Hc. unfold is_byte in *. lia.
    + destruct (c =? 46); [|done]. case_if; [done|]. case_if; [done|]. intros E.
      apply IH in E; [|apply Forall_app; auto|unfold is_byte; lia].
      rewrite length_app in E; cbn in E. to_prop. destruct E; [by left|right; lia].
Qed.

Lemma parse_ipv4_bytes l r :
  parse_ipv4_fields None [] 0 0%nat l = Some r → Forall is_byte r ∧ length r = 4%nat.
Proof.
  intros E. apply parse_ipv4_fields_bytes in E; [|done|unfold is_byte; lia].
  destruct E; [done|cbn in *; lia].
Qed.

Lemma hex_value_range c d : hex_value c = Some d → 0 ≤ d < 16.
Proof.
  unfold hex_value, is_digit, in_range. repeat case_if; intros [= <-]; to_prop; lia.
Qed.

Lemma hex_group_range off acc l v n rest :
  0 ≤ acc < 16 ^ Z.of_nat off → (off ≤ 4)%nat →
  hex_group off acc l = Some (v, n, rest) → 0 ≤ v < 65536.
Proof.
  revert off acc; induction l as [|c l IH]; intros off acc Ha Ho; cbn [hex_group].
  - intros [= <- <- <-]. assert (16 ^ Z.of_nat off ≤ 16 ^ 4) by (apply Z.pow_le_mono_r; lia).
    change (16 ^ 4) with 65536 in *. lia.
  - destruct (hex_value c) as [d|] eqn:Hd.
    + case_if; [done|]. to_prop. apply IH; [|lia].
      apply hex_value_range in Hd. rewrite Nat2Z.inj_succ, Z.pow_succ_r by lia. lia.
    + intros [= <- <- <-].
      assert (16 ^ Z.of_nat off ≤ 16 ^ 4) by (apply Z.pow_le_mono_r; lia).
      change (16 ^ 4) with 65536 in *. lia.
Qed.

Lemma ipv6_groups_bytes fuel ip ell s ip' ell' s' :
  Forall is_byte ip → (length ip + 2 * fuel = 16)%nat →
  ipv6_groups fuel ip ell s = Some (ip', ell', s') →
  Forall is_byte ip' ∧ (length ip' ≤ 16)%nat.
Proof.
  revert ip ell s; induction fuel as [|fuel IH]; intros ip ell s Hip Hlen; cbn [ipv6_groups].
  { intros [= <- <- <-]. split; [done|lia]. }
  destruct (hex_group 0 0 s) as [[[acc off] rest]|] eqn:Hg; [|done].
  case_if; [done|]. apply hex_group_range in Hg; [|cbn; lia..].
  assert (Forall is_byte (ip ++ [acc / 256; acc `mod` 256])) as Hip2.
  { apply Forall_app. split; [done|]. repeat constructor;
      try (apply Z.div_pos; lia); try (apply Z.div_lt_upper_bound; lia);
      apply Z.mod_pos_bound; lia. }
  assert (length (ip ++ [acc / 256; acc `mod` 256]) = (length ip + 2)%nat) as Hl2
    by (rewrite length_app; done).
  case_if.
  - case_if; [done|]. destruct (parse_ipv4_fields None [] 0 0%nat s) as [fs|] eqn:Hfs; [|done].
    intros [= <- <- <-]. apply parse_ipv4_bytes in Hfs as [? Hfl].
    to_prop.
    rewrite length_app. split; [apply Forall_app; auto|lia].
  - destruct rest as [|c s1]; [intros [= <- <- <-]; split; [done|lia]|].
    case_if; [done|]. destruct s1 as [|c1 s2]; [done|]. case_if.
    + destruct ell; [done|]. destruct s2; [intros [= <- <- <-]; split; [done|lia]|].
      apply IH; [done|lia].
    + apply IH; [done|lia].
Qed.

Lemma ipv6_finish_bytes r ip :
  (∀ ip' ell s, r = Some (ip', ell, s) → Forall is_byte ip' ∧ (length ip' ≤ 16)%nat) →
  ipv6_finish r = Some ip → Forall is_byte ip ∧ length ip = 16%nat.
Proof.
  intros Hr. destruct r as [[[ip' ell] s]|]; [|done].
  destruct (Hr _ _ _ eq_refl) as [Hb Hl]. destruct s; [|done]. cbn [ipv6_finish]. case_if.
  - destruct ell as [e|]; [|done]. intros [= <-]. to_prop. split.
    + rewrite !Forall_app. split_and!; [by apply Forall_take| |by apply Forall_drop].
      apply Forall_replicate. unfold is_byte. lia.
    + rewrite !length_app, length_replicate, length_take, length_drop. lia.
  - to_prop. destruct ell; [done|]. intros [= <-]. split; [done|lia].
Qed.

Lemma parse_ipv6_bytes l r : parse_ipv6 l = Some r → Forall is_byte r ∧ length r = 16%nat.
Proof.
  unfold parse_ipv6.
  assert (∀ ell s, ipv6_finish (ipv6_groups 8 [] ell s) = Some r →
    Forall is_byte r ∧ length r = 16%nat) as Hgo.
  { intros ell s. apply ipv6_finish_bytes. intros ip' ell' s'. by apply ipv6_groups_bytes. }
  destruct l as [|a [|b s]]; eauto. case_if; eauto.
  destruct s; eauto. intros [= <-]. by vm_compute; repeat constructor.
Qed.

Lemma parse_addr_bytes s a :
  parse_addr s = Some a → Forall is_byte a ∧ (length a = 4%nat ∨ length a = 16%nat).
Proof.
  unfold parse_addr. destruct (addr_kind _); [|done]. repeat case_if; try done.
  - intros [??]%parse_ipv4_bytes. auto.
  - intros [??]%parse_ipv6_bytes. auto.
Qed.

Lemma ParseIP_To4_bytes s :
  Forall is_byte (To4 (ParseIP s)) ∧ (To4 (ParseIP s) = [] ∨ length (To4 (ParseIP s)) = 4%nat).
Proof.
  split.
  - apply To4_byte. unfold ParseIP. destruct (parse_addr s) eqn:E; [|constructor].
    apply parse_addr_bytes in E as [? _]. unfold as16. case_if; [|done].
    apply Forall_app. split; [|done]. by repeat constructor.
  - destruct (decide (To4 (ParseIP s) = [])); [by left|right]. by apply To4_length.
Qed.

Lemma ParseCIDR_inv s ip n :
  ParseCIDR s = Some (ip, n) →
  ∃ addr mask a k, s = addr +:+ String "/" mask ∧ parse_addr addr = Some a ∧
    0 ≤ k ≤ 8 * Z.of_nat (length a) ∧ ip = as16 a ∧
    net_Mask n = CIDRMask k (8 * Z.of_nat (length a)) ∧
    net_IP n = IP_Mask ip (net_Mask n).
Proof.
  unfold ParseCIDR. destruct (cut_char "/" s) as [[addr mask]|] eqn:Hc; [|done].
  apply cut_char_Some in Hc as [-> _].
  destruct (parse_addr addr) as [a|] eqn:Ha; [|done].
  assert (∀ l n k, 0 ≤ n → dtoi n l = Some k → 0 ≤ k) as Hd.
  { induction l as [|c l IH]; cbn; [intros; simplify_eq; lia|]. intros m k Hm.
    destruct (is_digit c) eqn:Hdig; [|done]. case_if; [done|]. apply IH.
    apply is_digit_range in Hdig. lia. }
  destruct (match to_bytes mask with [] => None | l => dtoi 0 l end) as [k|] eqn:Hk; [|done].
  case_if; [done|]. intros [= <- <-]. to_prop. exists addr, mask, a, k.
  split_and!; try done. destruct (to_bytes mask); [done|]. by eapply Hd in Hk.
Qed.

(** ** Lemmas: the canonical text of a hardware address *)

Definition mac_text_byte (b : Z) : Prop := 48 ≤ b ≤ 57 ∨ 97 ≤ b ≤ 102 ∨ b = 58.

Lemma hex_digit_range z :
  0 ≤ z < 16 → 48 ≤ hex_digit z ≤ 57 ∨ 97 ≤ hex_digit z ≤ 102.
Proof. unfold hex_digit. intros ?. case_if; to_prop; lia. Qed.

Lemma hex_value_digit z : 0 ≤ z < 16 → hex_value (hex_digit z) = Some z.
Proof.
  intros Hz. unfold hex_digit, hex_value, is_digit, in_range.
  destruct (z <? 10) eqn:?; to_prop.
  - rewrite (proj2 (Z.leb_le 48 _)), (proj2 (Z.leb_le _ 57)) by lia. cbn. f_equal. lia.
  - rewrite (proj2 (Z.leb_gt (87 + z) 57)), andb_false_r by lia.
    rewrite (proj2 (Z.leb_le 97 _)), (proj2 (Z.leb_le _ 102)) by lia. cbn. f_equal. lia.
Qed.

Lemma to_bytes_hex_byte b :
  is_byte b → to_bytes (hex_byte b) = [hex_digit (b / 16); hex_digit (b mod 16)].
Proof.
  intros [??]. apply to_bytes_of_bytes.
  assert (0 ≤ b / 16 < 16) by (split; [apply Z.div_pos|apply Z.div_lt_upper_bound]; lia).
  assert (0 ≤ b mod 16 < 16) by (apply Z.mod_pos_bound; lia).
  pose proof (hex_digit_range (b / 16)). pose proof (hex_digit_range (b mod 16)).
  repeat constructor; unfold is_byte; lia.
Qed.

Lemma HardwareAddr_String_text hw :
  Forall is_byte hw → Forall mac_text_byte (to_bytes (HardwareAddr_String hw)).
Proof.
  unfold HardwareAddr_String. induction 1 as [|b hw Hb Hhw IH]; [constructor|].
  assert (Forall mac_text_byte (to_bytes (hex_byte b))) as Hh.
  { rewrite to_bytes_hex_byte by done. destruct Hb.
    assert (0 ≤ b / 16 < 16) by (split; [apply Z.div_pos|apply Z.div_lt_upper_bound]; lia).
    assert (0 ≤ b mod 16 < 16) by (apply Z.mod_pos_bound; lia).
    pose proof (hex_digit_range (b / 16)). pose proof (hex_digit_range (b mod 16)).
    rewrite !Forall_cons, Forall_nil. unfold mac_text_byte. lia. }
  destruct hw as [|c hw]; cbn [map]; [done|]. rewrite join_cons, !to_bytes_app.
  apply Forall_app; split; [done|]. apply Forall_app; split; [|done].
  constructor; [right; by right|constructor].
Qed.

(** The text of a hardware address is a fixed point of the normalization
    [ToLower (TrimSpace (ReplaceAll mac "-" ":"))]. *)
Lemma contains_char_text (P : Z → Prop) c s :
  Forall P (to_bytes s) → ¬ P (byte_val c) → contains_char c s = false.
Proof.
  intros Hs Hc. induction s as [|a s IH]; [done|]; cbn in *.
  apply Forall_cons in Hs as [Ha Hs]. rewrite IH by done.
  destruct (Ascii.eqb_spec a c) as [->|]; [done|done].
Qed.

Lemma normalize_mac_text `{GoUnicode} s :
  Forall mac_text_byte (to_bytes s) →
  to_lower (trim_space (replace_char "-" ":" s)) = s.
Proof.
  intros Hs. rewrite replace_char_id.
  2:{ eapply contains_char_text; [done|]. unfold mac_text_byte. vm_compute; intuition congruence. }
  rewrite trim_space_visible; [apply to_lower_id|];
    (eapply Forall_impl; [exact Hs|]); unfold mac_text_byte, visible; lia.
Qed.

(** ** Lemmas: parsing the text of a hardware address *)

Lemma xtoi2_hex b e rest :
  is_byte b → (match rest with c :: _ => c = e | [] => True end) →
  xtoi2 (to_bytes (hex_byte b) ++ rest) e = Some b.
Proof.
  intros Hb Hr. rewrite to_bytes_hex_byte by done. destruct Hb.
  assert (0 ≤ b / 16 < 16) by (split; [apply Z.div_pos|apply Z.div_lt_upper_bound]; lia).
  assert (0 ≤ b mod 16 < 16) by (apply Z.mod_pos_bound; lia).
  cbn [app xtoi2]. rewrite !hex_value_digit by done.
  assert (match rest with c :: _ => negb (c =? e) | [] => false end = false) as ->.
  { destruct rest; [done|]. subst. by rewrite Z.eqb_refl. }
  f_equal. rewrite (Z.div_mod b 16) at 3 by lia. lia.
Qed.

Lemma to_bytes_mac b hw :
  to_bytes (HardwareAddr_String (b :: hw)) =
    to_bytes (hex_byte b) ++ match hw with [] => [] | _ => 58 :: to_bytes (HardwareAddr_String hw) end.
Proof.
  destruct hw as [|c hw]; [by rewrite app_nil_r|].
  unfold HardwareAddr_String. cbn [map]. by rewrite join_cons, !to_bytes_app.
Qed.

Lemma length_hex_byte b : is_byte b → length (to_bytes (hex_byte b)) = 2%nat.
Proof. intros Hb. by rewrite to_bytes_hex_byte. Qed.

Lemma mac_bytes_String hw : Forall is_byte hw →
  mac_bytes (length hw) 58 (to_bytes (HardwareAddr_String hw)) = Some hw.
Proof.
  induction 1 as [|b hw Hb Hhw IH]; [done|]. rewrite to_bytes_mac.
  assert (∀ l, mac_bytes (length (b :: hw)) 58 l =
    (x ← xtoi2 l 58; r ← mac_bytes (length hw) 58 (drop 3 l); Some (x :: r))) as -> by done.
  rewrite xtoi2_hex by (first [done|by destruct hw]). cbn [mbind option_bind].
  rewrite to_bytes_hex_byte by done. destruct hw as [|c hw]; [done|]. cbn [app drop]. by rewrite drop_0, IH.
Qed.

Lemma length_mac_String hw : Forall is_byte hw → hw ≠ [] →
  Z.of_nat (length (to_bytes (HardwareAddr_String hw))) = 3 * Z.of_nat (length hw) - 1.
Proof.
  intros Hhw. induction Hhw as [|b hw Hb Hhw IH]; [done|]. intros _.
  rewrite to_bytes_mac, length_app, length_hex_byte by done.
  destruct hw as [|c hw]; [done|]. specialize (IH ltac:(done)). cbn [length] in *. lia.
Qed.

(** The text of a hardware address of a valid length parses to the address. *)
Lemma ParseMAC_String hw :
  Forall is_byte hw → mac_len (Z.of_nat (length hw)) = true → ParseMAC (HardwareAddr_String hw) = Some hw.
Proof.
  intros Hhw Hl. assert (6 ≤ Z.of_nat (length hw)) as H6.
  { unfold mac_len in Hl. rewrite !orb_true_iff, !Z.eqb_eq in Hl. lia. }
  assert (hw ≠ []) as Hne by (intros ->; cbn in H6; lia).
  pose proof (length_mac_String hw Hhw Hne) as Hlen. unfold ParseMAC. rewrite Hlen.
  rewrite (proj2 (Z.ltb_ge _ _)) by lia.
  assert (to_bytes (HardwareAddr_String hw) !! 2%nat = Some 58) as ->.
  { destruct hw as [|b [|c hw]]; [done|cbn in H6; lia|]. rewrite to_bytes_mac.
    apply Forall_cons in Hhw as [Hb _]. by rewrite to_bytes_hex_byte. }
  cbn [default from_option id]. rewrite Z.eqb_refl. cbn [orb].
  replace (3 * Z.of_nat (length hw) - 1 + 1) with (Z.of_nat (length hw) * 3) by lia.
  rewrite Z.mod_mul, Z.div_mul, Hl, Nat2Z.id by lia. cbn. by apply mac_bytes_String.
Qed.

Lemma mac_bytes_length n e l hw : mac_bytes n e l = Some hw → length hw = n.
Proof.
  induction n as [|n IH] in l, hw |- *; cbn; [by intros [= <-]|].
  destruct (xtoi2 l e) as [b|]; [|done]. cbn. destruct (mac_bytes n e (drop 3 l)) as [r|] eqn:E; [|done].
  intros [= <-]. cbn. by rewrite (IH _ _ E).
Qed.

Lemma mac_words_length n l hw : mac_words n l = Some hw → length hw = (2 * n)%nat.
Proof.
  induction n as [|n IH] in l, hw |- *; cbn; [by intros [= <-]|].
  destruct (xtoi2 (take 2 l) 0) as [b|]; [|done]. cbn. destruct (xtoi2 (drop 2 l) 46) as [c|]; [|done]. cbn.
  destruct (mac_words n (drop 5 l)) as [r|] eqn:E; [|done]. intros [= <-]. cbn. rewrite (IH _ _ E). lia.
Qed.

Lemma ParseMAC_length s hw : ParseMAC s = Some hw → mac_len (Z.of_nat (length hw)) = true.
Proof.
  unfold ParseMAC. repeat case_match; try done; intros E; to_prop;
    match goal with H : mac_len ?n = true |- _ => pose proof H as Hm; unfold mac_len in Hm;
      rewrite !orb_true_iff, !Z.eqb_eq in Hm end.
  - apply mac_bytes_length in E. rewrite E. by rewrite Z2Nat.id by lia.
  - apply mac_words_length in E. rewrite E.
    match goal with H : mac_len ?n = true |- _ => replace (Z.of_nat (2 * Z.to_nat (n / 2))) with n; [done|] end.
    destruct Hm as [[-> | ->] | ->]; reflexivity.
Qed.
