(* ===== verification/Macmap.v ===== *)
(** * pkg/macmap: the MAC-to-VLAN mapping file

    The mapping file, its validation, lookup, merge and the files generated
    from it.  The TOML library is a parameter ([toml_unmarshal]); reading the
    file is the parameter [read_file]. *)

From Stdlib Require Import Ascii.
From S2P Require Import Prelude GoStrings GoStrconv GoNet.
Open Scope Z_scope.

(** ** Data *)

Record Client := {
  c_MAC : string;
  c_VLAN : Z;
  c_Name : string;
  c_Hostname : string
}.

Record MapFile := {
  mf_DefaultVLAN : Z;
  mf_Clients : list Client
}.

Inductive macmap_error :=
  | ErrReadFile (path : string)
  | ErrTOML
  | ErrInvalidMAC (i : nat) (mac : string)
  | ErrDuplicateMAC (mac : string) (i : nat)
  | ErrVLANRange (i : nat) (mac : string) (vlan : Z)
  | ErrDefaultVLANRange (vlan : Z).

#[export] Instance Client_eq_dec : EqDecision Client.
Proof. solve_decision. Defined.

(** ** Sorting *)

(** The inner loop of [sortInts]: [for j > 0 && a[j-1] > a[j]] swap. *)
Fixpoint sift (j : nat) (a : list Z) : list Z :=
  match j with
  | O => a
  | S j' =>
      match a !! j', a !! j with
      | Some u, Some v => if v <? u then sift j' (<[j' := v]> (<[j := u]> a)) else a
      | _, _ => a
      end
  end.

Definition sortInts (a : list Z) : list Z :=
  fold_left (λ a i, sift i a) (seq 1 (length a - 1)) a.

(** ** Operations *)

Section macmap.
Context `{U : GoUnicode} `{MO : MapOrder}.

Definition normalizeMAC (s : string) : option string :=
  match ParseMAC s with
  | None => None
  | Some hw => Some (to_lower (HardwareAddr_String hw))
  end.

Definition set_MAC (c : Client) (mac : string) : Client :=
  {| c_MAC := mac; c_VLAN := c_VLAN c; c_Name := c_Name c; c_Hostname := c_Hostname c |}.

(** The normalization loop of [Parse]. *)
Fixpoint normalize_clients (i : nat) (cs : list Client) : result macmap_error (list Client) :=
  match cs with
  | [] => Ok []
  | c :: cs =>
      match normalizeMAC (c_MAC c) with
      | None => Err (ErrInvalidMAC i (c_MAC c))
      | Some mac =>
          match normalize_clients (S i) cs with
          | Err e => Err e
          | Ok cs => Ok (set_MAC c mac :: cs)
          end
      end
  end.

Definition vlan_in_range (v : Z) : bool := negb ((v <? 0) || (4094 <? v)).

(** The loop of [validate]; [macs] is the set of addresses seen so far. *)
Fixpoint validate_clients (i : nat) (macs : gset string) (cs : list Client)
    : option macmap_error :=
  match cs with
  | [] => None
  | c :: cs =>
      if bool_decide (c_MAC c ∈ macs) then Some (ErrDuplicateMAC (c_MAC c) i)
      else if negb (vlan_in_range (c_VLAN c)) then Some (ErrVLANRange i (c_MAC c) (c_VLAN c))
      else validate_clients (S i) ({[c_MAC c]} ∪ macs) cs
  end.

Definition validate (mf : MapFile) : option macmap_error :=
  match validate_clients 0 ∅ (mf_Clients mf) with
  | Some e => Some e
  | None =>
      if negb (vlan_in_range (mf_DefaultVLAN mf))
      then Some (ErrDefaultVLANRange (mf_DefaultVLAN mf)) else None
  end.

Section files.
Variable toml_unmarshal : string → option MapFile.
Variable read_file : string → option string.

Definition Parse (data : string) : result macmap_error MapFile :=
  match toml_unmarshal data with
  | None => Err ErrTOML
  | Some mf =>
      match normalize_clients 0 (mf_Clients mf) with
      | Err e => Err e
      | Ok cs =>
          let mf := {| mf_DefaultVLAN := mf_DefaultVLAN mf; mf_Clients := cs |} in
          match validate mf with
          | Some e => Err e
          | None => Ok mf
          end
      end
  end.

Definition Load (path : string) : result macmap_error MapFile :=
  match read_file path with
  | None => Err (ErrReadFile path)
  | Some data => Parse data
  end.
End files.

Fixpoint lookup_clients (mac : string) (d : Z) (cs : list Client) : Z :=
  match cs with
  | [] => d
  | c :: cs => if String.eqb (c_MAC c) mac then c_VLAN c else lookup_clients mac d cs
  end.

Definition Lookup (mf : MapFile) (mac : string) : Z :=
  lookup_clients (to_lower mac) (mf_DefaultVLAN mf) (mf_Clients mf).

(** [VLANs]: the keys of the [seen] map, in iteration order, then sorted. *)
Definition seen_vlans (mf : MapFile) : gmap Z bool :=
  fold_left (λ m c, <[c_VLAN c := true]> m) (mf_Clients mf) {[mf_DefaultVLAN mf := true]}.

Definition VLANs (mf : MapFile) : list Z := sortInts (map fst (map_range (seen_vlans mf))).

Definition ClientsByVLAN (mf : MapFile) : gmap Z (list Client) :=
  fold_left (λ m c, <[c_VLAN c := default [] (m !! c_VLAN c) ++ [c]]> m) (mf_Clients mf) ∅.

(** The second loop of [Merge]. *)
Definition merge_step (st : list Client * gset string) (c : Client) : list Client * gset string :=
  let '(cs, existing) := st in
  let mac := to_lower (c_MAC c) in
  if bool_decide (mac ∈ existing) then (cs, existing)
  else (cs ++ [c], {[mac]} ∪ existing).

Definition Merge (mf other : MapFile) : MapFile :=
  let existing := list_to_set (map c_MAC (mf_Clients mf)) in
  {| mf_DefaultVLAN := mf_DefaultVLAN mf;
     mf_Clients := (fold_left merge_step (mf_Clients other) (mf_Clients mf, existing)).1 |}.

Definition accept_line (c : Client) : string :=
  c_MAC c +:+ " " +:+ itoa (c_VLAN c) +:+ nl.

Definition HostapdAcceptMACFile (mf : MapFile) : string :=
  fold_left (λ b c, if 0 <? c_VLAN c then b +:+ accept_line c else b) (mf_Clients mf) "".
End macmap.

(** ** Sorting is correct *)

Lemma sift_spec p x r :
  StronglySorted Z.le p →
  ∃ q, sift (length p) (p ++ x :: r) = q ++ r ∧ q ≡ₚ p ++ [x] ∧ StronglySorted Z.le q.
Proof.
  revert r; induction p as [|u p IH] using rev_ind; intros r Hp.
  { exists [x]. split_and!; [done|done|]. repeat constructor. }
  apply StronglySorted_app in Hp as (Hle & Hp & _).
  rewrite length_app, Nat.add_comm. cbn [sift length Nat.add].
  rewrite <-(assoc_L (++)). cbn [app].
  rewrite list_lookup_middle by done.
  rewrite (lookup_app_r p), Nat.sub_succ_l, Nat.sub_diag by lia. cbn [lookup list_lookup].
  destruct (x <? u) eqn:Hxu.
  - rewrite (insert_app_r_alt p), Nat.sub_succ_l, Nat.sub_diag by lia. cbn.
    rewrite (insert_app_r_alt p), Nat.sub_diag by lia. cbn.
    destruct (IH (u :: r) Hp) as (q & -> & Hq & Hsq). exists (q ++ [u]).
    rewrite <-(assoc_L (++)). split_and!; [done|rewrite Hq; solve_Permutation|].
    apply StronglySorted_app. split_and!; [|done|repeat constructor].
    intros a b Ha ->%list_elem_of_singleton. rewrite Hq in Ha. to_prop.
    apply elem_of_app in Ha as [Ha| ->%list_elem_of_singleton]; [|lia].
    apply Hle; set_solver.
  - exists (p ++ [u; x]). rewrite <-!(assoc_L (++)). split_and!; [done|done|].
    apply StronglySorted_app. to_prop. split_and!; [|done|].
    + intros a b Ha Hb. assert (a ≤ u) by (apply Hle; set_solver).
      apply elem_of_cons in Hb as [-> | ->%list_elem_of_singleton]; lia.
    + repeat constructor. lia.
Qed.

Lemma sortInts_prefix n a :
  (n ≤ length a)%nat →
  ∃ q, fold_left (λ a i, sift i a) (seq 1 (n - 1)) a = q ++ drop n a ∧
    q ≡ₚ take n a ∧ StronglySorted Z.le q.
Proof.
  induction n as [|n IH]; intros Hn.
  { exists []. cbn. split_and!; [done|done|constructor]. }
  destruct n as [|n].
  { exists (take 1 a). cbn [seq Nat.sub fold_left]. rewrite take_drop. split_and!; [done|done|].
    destruct a; repeat constructor. }
  destruct IH as (q & E & Hq & Hs); [lia|].
  replace (S (S n) - 1)%nat with (S n - 1 + 1)%nat by lia.
  rewrite seq_app, fold_left_app, E. cbn [seq fold_left].
  destruct (lookup_lt_is_Some_2 a (S n)) as [x Hx]; [lia|].
  rewrite (drop_S a x (S n)) by done.
  replace (1 + (S n - 1))%nat with (length q).
  2:{ apply Permutation_length in Hq. rewrite Hq, length_take. lia. }
  destruct (sift_spec q x (drop (S (S n)) a) Hs) as (q' & -> & Hq' & Hs').
  exists q'. split_and!; [done| |done]. rewrite Hq', Hq.
  by rewrite <-take_S_r.
Qed.

Lemma sortInts_spec a : sortInts a ≡ₚ a ∧ StronglySorted Z.le (sortInts a).
Proof.
  destruct (sortInts_prefix (length a) a) as (q & E & Hq & Hs); [done|].
  unfold sortInts. rewrite E, drop_all, app_nil_r. rewrite take_ge in Hq by done. done.
Qed.

Lemma StronglySorted_le_lt l : StronglySorted Z.le l → NoDup l → StronglySorted Z.lt l.
Proof.
  induction 1 as [|x l Hs IH Hx]; intros Hnd; [constructor|].
  apply NoDup_cons in Hnd as [Hxl Hnd]. constructor; [auto|].
  rewrite Forall_forall in *. intros y Hy. specialize (Hx y Hy).
  assert (x ≠ y) by (by intros ->). lia.
Qed.

(** ** Validation *)

Lemma vlan_in_range_spec v : vlan_in_range v = true ↔ 0 ≤ v ≤ 4094.
Proof. unfold vlan_in_range. rewrite negb_true_iff, orb_false_iff, !Z.ltb_ge. lia. Qed.

Lemma validate_clients_None i macs cs :
  validate_clients i macs cs = None ↔
  NoDup (map c_MAC cs) ∧ (∀ c, c ∈ cs → c_MAC c ∉ macs) ∧
  Forall (λ c, 0 ≤ c_VLAN c ≤ 4094) cs.
Proof.
  revert i macs; induction cs as [|c cs IH]; intros i macs; cbn.
  { split; [intros _|done]. split_and!; [constructor|set_solver|constructor]. }
  rewrite NoDup_cons, Forall_cons. case_bool_decide as Hc.
  { split; [done|]. intros (_ & Hn & _). destruct (Hn c); [set_solver|done]. }
  destruct (vlan_in_range (c_VLAN c)) eqn:Hv; cbn.
  - apply vlan_in_range_spec in Hv. rewrite IH. split.
    + intros (Hnd & Hnot & Hr). split_and!; try done; try lia.
      * intros (c' & E & Hc')%list_elem_of_fmap. apply (Hnot c' Hc'). set_solver.
      * intros c' [-> | Hc']%elem_of_cons; [done|]. specialize (Hnot c' Hc'). set_solver.
    + intros ((Hcin & Hnd) & Hnot & _ & Hr). split_and!; try done.
      intros c' Hc' [E%elem_of_singleton|Hin]%elem_of_union.
      * apply Hcin. rewrite <-E. by apply list_elem_of_fmap_2.
      * apply (Hnot c'); [set_solver|done].
  - split; [done|]. intros (_ & _ & Hr & _). apply vlan_in_range_spec in Hr. congruence.
Qed.

Lemma validate_None mf :
  validate mf = None ↔
  NoDup (map c_MAC (mf_Clients mf)) ∧ Forall (λ c, 0 ≤ c_VLAN c ≤ 4094) (mf_Clients mf) ∧
  0 ≤ mf_DefaultVLAN mf ≤ 4094.
Proof.
  unfold validate. rewrite <-vlan_in_range_spec.
  destruct (validate_clients 0 ∅ (mf_Clients mf)) eqn:E.
  - split; [done|]. intros (H1 & H2 & _).
    assert (validate_clients 0 ∅ (mf_Clients mf) = None); [|congruence].
    apply validate_clients_None. set_solver.
  - apply validate_clients_None in E as (? & _ & ?).
    destruct (vlan_in_range _); cbn; naive_solver.
Qed.

Section lemmas.
Context `{U : GoUnicode}.

Lemma xtoi2_byte l e b : xtoi2 l e = Some b → is_byte b.
Proof.
  unfold xtoi2. destruct l as [|x [|y r]]; [done..|].
  destruct (match r with [] => _ | _ => _ end); [done|].
  destruct (hex_value x) eqn:Hx, (hex_value y) eqn:Hy; try done. intros [= <-].
  apply hex_value_range in Hx, Hy. unfold is_byte. lia.
Qed.

Lemma ParseMAC_bytes s hw : ParseMAC s = Some hw → Forall is_byte hw.
Proof.
  assert (∀ n e l hw, mac_bytes n e l = Some hw → Forall is_byte hw) as H1.
  { induction n as [|n IH]; cbn; intros e l hw' E; [by simplify_eq|].
    apply bind_Some in E as (b & Hb & E). apply bind_Some in E as (r & Hr & [= <-]).
    constructor; eauto using xtoi2_byte. }
  assert (∀ n l hw, mac_words n l = Some hw → Forall is_byte hw) as H2.
  { induction n as [|n IH]; cbn; intros l hw' E; [by simplify_eq|].
    apply bind_Some in E as (b & Hb & E). apply bind_Some in E as (c & Hc & E).
    apply bind_Some in E as (r & Hr & [= <-]).
    constructor; [|constructor]; eauto using xtoi2_byte. }
  unfold ParseMAC. repeat case_if; try done; eauto.
Qed.

(** A normalized address is the canonical text of some hardware address. *)
Definition canonical_mac (s : string) : Prop :=
  ∃ hw, Forall is_byte hw ∧ s = HardwareAddr_String hw.

Lemma canonical_mac_lower s : canonical_mac s → to_lower s = s.
Proof.
  intros (hw & Hhw & ->). apply to_lower_id.
  eapply Forall_impl; [by apply HardwareAddr_String_text|].
  unfold mac_text_byte, visible. lia.
Qed.

Lemma normalizeMAC_canonical s m : normalizeMAC s = Some m → canonical_mac m.
Proof.
  unfold normalizeMAC. destruct (ParseMAC s) as [hw|] eqn:E; [|done]. intros [= <-].
  apply ParseMAC_bytes in E. exists hw. split; [done|].
  apply canonical_mac_lower. by exists hw.
Qed.

(** Normal addresses are their own normal form. *)
Lemma normalizeMAC_String hw :
  Forall is_byte hw → mac_len (Z.of_nat (length hw)) = true →
  normalizeMAC (HardwareAddr_String hw) = Some (HardwareAddr_String hw).
Proof.
  intros Hb Hl. unfold normalizeMAC. rewrite ParseMAC_String by done. f_equal.
  apply canonical_mac_lower. by exists hw.
Qed.

Lemma normalizeMAC_idem s m : normalizeMAC s = Some m → normalizeMAC m = Some m.
Proof.
  intros E. pose proof (normalizeMAC_canonical _ _ E) as Hc. unfold normalizeMAC in E.
  destruct (ParseMAC s) as [hw|] eqn:Ep; [|done]. injection E as <-.
  pose proof (ParseMAC_bytes _ _ Ep) as Hb. rewrite canonical_mac_lower by (by exists hw).
  apply normalizeMAC_String; [done|]. by eapply ParseMAC_length.
Qed.

Lemma normalize_clients_Ok i raw cs :
  normalize_clients i raw = Ok cs ↔
  Forall2 (λ c c', ∃ m, normalizeMAC (c_MAC c) = Some m ∧ c' = set_MAC c m) raw cs.
Proof.
  revert i cs; induction raw as [|c raw IH]; intros i cs; cbn.
  { split; [intros [= <-]; constructor|]. by intros ->%Forall2_nil_inv_l. }
  split.
  - destruct (normalizeMAC (c_MAC c)) as [m|] eqn:Hm; [|done].
    destruct (normalize_clients (S i) raw) as [e|cs'] eqn:Hr; [done|]. intros [= <-].
    apply IH in Hr. constructor; eauto.
  - intros (c' & k & (m & -> & ->) & Hk & ->)%Forall2_cons_inv_l.
    by rewrite (proj2 (IH (S i) k) Hk).
Qed.

Lemma lookup_clients_In mac d cs c :
  NoDup (map c_MAC cs) → c ∈ cs → c_MAC c = mac → lookup_clients mac d cs = c_VLAN c.
Proof.
  induction cs as [|c' cs IH]; cbn; [by intros _ ?%not_elem_of_nil|].
  rewrite NoDup_cons. intros [Hn Hnd] [-> | Hc]%elem_of_cons E.
  - rewrite E. by rewrite String.eqb_refl.
  - destruct (String.eqb_spec (c_MAC c') mac) as [E'|]; [|auto].
    destruct Hn. rewrite E', <-E. by apply list_elem_of_fmap_2.
Qed.

Lemma lookup_clients_not_In mac d cs :
  mac ∉ map c_MAC cs → lookup_clients mac d cs = d.
Proof.
  induction cs as [|c cs IH]; cbn; [done|]. rewrite not_elem_of_cons. intros [Hne Hn].
  destruct (String.eqb_spec (c_MAC c) mac); [congruence|auto].
Qed.

(** The merge loop: [existing] stays the set of the addresses collected. *)
Lemma merge_fold_spec other cs existing :
  Forall (λ c, to_lower (c_MAC c) = c_MAC c) other →
  existing = list_to_set (map c_MAC cs) → NoDup (map c_MAC cs) →
  let out := fold_left merge_step other (cs, existing) in
  NoDup (map c_MAC out.1) ∧
  (∃ added, out.1 = cs ++ added ∧ added `sublist_of` other) ∧
  (∀ m, m ∈ map c_MAC out.1 ↔ m ∈ map c_MAC cs ∨ m ∈ map c_MAC other).
Proof.
  revert cs existing; induction other as [|c other IH]; intros cs ex Hlow -> Hnd; cbn.
  { split_and!; [done| |set_solver]. exists []. by rewrite app_nil_r. }
  apply Forall_cons in Hlow as [Hc Hlow]. rewrite Hc. case_bool_decide as Hin.
  - destruct (IH cs _ Hlow eq_refl Hnd) as (Hnd' & (added & E & Hs) & Hm).
    split_and!; [done| |].
    + exists added. split; [done|]. by apply sublist_cons.
    + intros m. rewrite Hm. apply elem_of_list_to_set in Hin. set_solver.
  - rewrite elem_of_list_to_set in Hin.
    destruct (IH (cs ++ [c]) ({[c_MAC c]} ∪ list_to_set (map c_MAC cs)) Hlow)
      as (Hnd' & (added & E & Hs) & Hm).
    + rewrite map_app, list_to_set_app_L. cbn. set_solver.
    + rewrite map_app. apply NoDup_app. split_and!; [done| |cbn; apply NoDup_singleton].
      intros m Hm ->%list_elem_of_singleton. done.
    + split_and!; [done| |].
      * exists (c :: added). rewrite E, <-(assoc_L (++)). split; [done|]. by apply sublist_skip.
      * intros m. rewrite Hm, map_app. set_solver.
Qed.

Lemma seen_vlans_dom mf v :
  is_Some (seen_vlans mf !! v) ↔
  v = mf_DefaultVLAN mf ∨ ∃ c, c ∈ mf_Clients mf ∧ c_VLAN c = v.
Proof.
  unfold seen_vlans. induction (mf_Clients mf) as [|c cs IH] using rev_ind; cbn.
  { rewrite lookup_singleton_is_Some. set_solver. }
  rewrite fold_left_app. cbn. rewrite lookup_insert_is_Some', IH. set_solver.
Qed.
End lemmas.

(** ** The mapping file is correct *)

(** The specification of a successful [Parse]: every address is replaced by its
    normal form, the normal forms are pairwise distinct, every VLAN is a
    12-bit VLAN id, and nothing else changes. *)
Definition parsed_from `{U : GoUnicode} (raw mf : MapFile) : Prop :=
  mf_DefaultVLAN mf = mf_DefaultVLAN raw ∧
  Forall2 (λ c c', ∃ m, normalizeMAC (c_MAC c) = Some m ∧ c' = set_MAC c m)
    (mf_Clients raw) (mf_Clients mf) ∧
  NoDup (map c_MAC (mf_Clients mf)) ∧
  Forall (λ c, 0 ≤ c_VLAN c ≤ 4094) (mf_Clients mf) ∧
  0 ≤ mf_DefaultVLAN mf ≤ 4094.

(** How a reader of the accept file takes one line apart. *)
Definition parse_accept_line `{GI : GoInt} (line : string) : option (string * Z) :=
  match cut_char " "%char line with
  | Some (mac, num) => match atoi num with (v, None) => Some (mac, v) | _ => None end
  | None => None
  end.

Section parsed.
Context `{U : GoUnicode}.
Variable toml_unmarshal : string → option MapFile.

Lemma Parse_parsed data mf :
  Parse toml_unmarshal data = Ok mf ↔
  ∃ raw, toml_unmarshal data = Some raw ∧ parsed_from raw mf.
Proof.
  unfold Parse, parsed_from. destruct (toml_unmarshal data) as [raw|]; [|naive_solver].
  destruct (normalize_clients 0 (mf_Clients raw)) as [e|cs] eqn:En.
  { split; [done|]. intros (raw' & [= <-] & _ & Hn & _).
    apply (normalize_clients_Ok 0) in Hn. congruence. }
  set (m0 := {| mf_DefaultVLAN := _; mf_Clients := cs |}). split.
  - destruct (validate m0) eqn:Ev; [done|]. intros [= <-].
    apply validate_None in Ev as (? & ? & ?). apply normalize_clients_Ok in En. eauto 10.
  - intros (raw' & [= <-] & Hd & Hn & Hnd & Hr & Hdr). apply (normalize_clients_Ok 0) in Hn.
    assert (m0 = mf) as -> by (destruct mf; unfold m0; cbn in *; congruence).
    by rewrite (proj2 (validate_None mf)).
Qed.

Lemma parsed_canonical raw mf :
  parsed_from raw mf → Forall (λ c, canonical_mac (c_MAC c)) (mf_Clients mf).
Proof.
  intros (_ & Hn & _). apply Forall_forall. intros c' Hc'.
  apply list_elem_of_lookup in Hc' as [i Hi].
  destruct (Forall2_lookup_r _ _ _ _ _ Hn Hi) as (c & _ & m & Hm & ->).
  by eapply normalizeMAC_canonical.
Qed.

Lemma normal_parsed mf :
  Forall (λ c, normalizeMAC (c_MAC c) = Some (c_MAC c)) (mf_Clients mf) →
  NoDup (map c_MAC (mf_Clients mf)) →
  Forall (λ c, 0 ≤ c_VLAN c ≤ 4094) (mf_Clients mf) → 0 ≤ mf_DefaultVLAN mf ≤ 4094 →
  parsed_from mf mf.
Proof.
  intros Hn Hd Hv Hdef. split; [done|]. split; [|by split]. clear Hd Hv Hdef.
  induction Hn as [|c cs Hc Hcs IH]; constructor; [|done]. exists (c_MAC c). split; [done|by destruct c].
Qed.

Lemma parsed_normal raw mf : parsed_from raw mf →
  Forall (λ c, normalizeMAC (c_MAC c) = Some (c_MAC c)) (mf_Clients mf).
Proof.
  intros (_ & Hn & _). apply Forall_forall. intros c' [i Hi]%list_elem_of_lookup.
  destruct (Forall2_lookup_r _ _ _ _ _ Hn Hi) as (c & _ & m & Hm & ->). cbn. by eapply normalizeMAC_idem.
Qed.

Lemma parsed_lower raw mf :
  parsed_from raw mf → Forall (λ c, to_lower (c_MAC c) = c_MAC c) (mf_Clients mf).
Proof.
  intros H. eapply Forall_impl; [by eapply parsed_canonical|]. intros c.
  apply canonical_mac_lower.
Qed.
End parsed.

Lemma VLANs_perm `{MO : MapOrder} mf :
  VLANs mf ≡ₚ map fst (map_range (seen_vlans mf)).
Proof. apply sortInts_spec. Qed.

Lemma ClientsByVLAN_lookup mf v :
  default [] (ClientsByVLAN mf !! v) = filter (λ c, c_VLAN c = v) (mf_Clients mf) ∧
  (is_Some (ClientsByVLAN mf !! v) ↔ ∃ c, c ∈ mf_Clients mf ∧ c_VLAN c = v).
Proof.
  unfold ClientsByVLAN. induction (mf_Clients mf) as [|c cs [IH1 IH2]] using rev_ind; cbn.
  { rewrite lookup_empty. split; [done|]. split; [by intros []|set_solver]. }
  rewrite fold_left_app, filter_app. cbn.
  case_decide as Hv.
  - subst v. rewrite lookup_insert_eq. cbn. rewrite IH1. split; [done|]. set_solver.
  - rewrite lookup_insert_ne by done. rewrite app_nil_r, IH1, IH2. set_solver.
Qed.

(** The accept file is the concatenation of the lines of the clients that have
    a VLAN. *)
Lemma HostapdAcceptMACFile_lines mf :
  HostapdAcceptMACFile mf =
  join "" (map accept_line (filter (λ c, 0 < c_VLAN c) (mf_Clients mf))).
Proof.
  unfold HostapdAcceptMACFile.
  assert (∀ cs b, fold_left (λ b c, if 0 <? c_VLAN c then b +:+ accept_line c else b) cs b =
    b +:+ join "" (map accept_line (filter (λ c, 0 < c_VLAN c) cs))) as H; [|apply H].
  induction cs as [|c cs IH]; intros b; cbn [fold_left]; [by rewrite str_app_nil_r|].
  rewrite IH, filter_cons. case_decide as Hv.
  - apply Z.ltb_lt in Hv. rewrite Hv, str_app_assoc. cbn [map].
    destruct (map accept_line _) eqn:E; [cbn; by rewrite str_app_nil_r|]. by rewrite join_cons.
  - apply Z.ltb_nlt in Hv. by rewrite Hv.
Qed.

Lemma accept_lines_parse `{GI : GoInt} cs :
  Forall (λ c, canonical_mac (c_MAC c) ∧ c_VLAN c ≤ int_max) cs →
  let lines := filter (λ c, 0 < c_VLAN c) cs in
  split_on "010"%char (join "" (map accept_line lines)) =
    map (λ c, c_MAC c +:+ " " +:+ itoa (c_VLAN c)) lines ++ [""] ∧
  Forall (λ c, parse_accept_line (c_MAC c +:+ " " +:+ itoa (c_VLAN c)) =
               Some (c_MAC c, c_VLAN c)) lines.
Proof.
  induction 1 as [|c cs [Hc Hv] Hcs [IH1 IH2]]; cbn zeta; [done|].
  rewrite filter_cons. case_decide as Hpos; [|done].
  assert (Forall (mac_text_byte) (to_bytes (c_MAC c))) as Ht.
  { destruct Hc as (hw & Hhw & ->). by apply HardwareAddr_String_text. }
  assert (∀ a, (¬ mac_text_byte (byte_val a)) → contains_char a (c_MAC c) = false) as Hno.
  { intros a. by apply contains_char_text. }
  split.
  - set (k := filter _ cs) in *.
    assert (join "" (map accept_line (c :: k)) =
      (c_MAC c +:+ " " +:+ itoa (c_VLAN c)) +:+ nl +:+ join "" (map accept_line k)) as ->.
    { cbn [map]. destruct (map accept_line k) eqn:E; [|rewrite join_cons];
        unfold accept_line; cbn [join]; by rewrite ?str_app_assoc, ?str_app_nil_r, ?str_app_nil_l. }
    change (nl +:+ join "" ?l) with (String "010" (join "" l)). rewrite split_on_app.
    { cbn [map app]. by rewrite IH1. }
    rewrite !contains_char_app, Hno by (unfold mac_text_byte; vm_compute; intuition congruence).
    cbn. apply (contains_char_text (λ b, is_digit b = true)); [|done].
    apply itoa_digits; lia.
  - constructor; [|done]. unfold parse_accept_line.
    change (" " +:+ ?n) with (String " " n). rewrite cut_char_app, atoi_itoa; [done|lia|].
    apply Hno. unfold mac_text_byte; vm_compute; intuition congruence.
Qed.

(** ** The properties of the component *)

(** C22: [Parse] accepts exactly the data whose TOML document has only valid MAC
    addresses, pairwise distinct after normalization, and only VLAN ids between
    0 and 4094; the file it returns is then that document with every address
    replaced by its normal form. *)
Theorem Parse_correct `{U : GoUnicode} toml_unmarshal data mf :
  Parse toml_unmarshal data = Ok mf ↔
  ∃ raw, toml_unmarshal data = Some raw ∧ parsed_from raw mf.
Proof. apply Parse_parsed. Qed.

(** in a file [Parse] returned, [Lookup] finds the VLAN of every client
    under every spelling whose lower case is the client's address, in
    particular under the normal form of the address the document gave, and
    returns the default VLAN for every other string. *)
Theorem Parse_Lookup `{U : GoUnicode} toml_unmarshal data mf :
  Parse toml_unmarshal data = Ok mf →
  (∀ c s, c ∈ mf_Clients mf → to_lower s = c_MAC c → Lookup mf s = c_VLAN c) ∧
  (∀ raw c m, toml_unmarshal data = Some raw → c ∈ mf_Clients raw →
     normalizeMAC (c_MAC c) = Some m → Lookup mf m = c_VLAN c) ∧
  (∀ s, to_lower s ∉ map c_MAC (mf_Clients mf) → Lookup mf s = mf_DefaultVLAN mf).
Proof.
  intros (raw & Hraw & Hp)%Parse_parsed.
  pose proof Hp as (_ & Hn & Hnd & _). unfold Lookup. split_and!.
  - intros c s Hc Hs. by apply lookup_clients_In.
  - intros raw' c m Hraw' Hc Hm. assert (raw' = raw) as -> by congruence.
    apply list_elem_of_lookup in Hc as [i Hi].
    destruct (Forall2_lookup_l _ _ _ _ _ Hn Hi) as (c' & Hc' & m' & Hm' & E).
    assert (m' = m) as -> by congruence. apply list_elem_of_lookup_2 in Hc'.
    rewrite (lookup_clients_In _ _ _ c'); [by rewrite E|done..|].
    rewrite E; cbn. symmetry. eapply canonical_mac_lower, normalizeMAC_canonical, Hm.
  - intros s Hs. by apply lookup_clients_not_In.
Qed.

Lemma elem_of_VLANs `{MO : MapOrder} mf v :
  v ∈ VLANs mf ↔ v = mf_DefaultVLAN mf ∨ ∃ c, c ∈ mf_Clients mf ∧ c_VLAN c = v.
Proof.
  rewrite VLANs_perm, <-seen_vlans_dom. split.
  - intros ((k & b) & -> & Hk%elem_of_map_range)%list_elem_of_fmap. by exists b.
  - intros [b Hb]. apply list_elem_of_fmap. exists (v, b). by rewrite elem_of_map_range.
Qed.

(** [VLANs] lists exactly the default VLAN and the VLANs of the clients,
    in strictly increasing order, whatever order Go iterates the map in. *)
Theorem VLANs_correct `{MO : MapOrder} mf :
  StronglySorted Z.lt (VLANs mf) ∧
  ∀ v, v ∈ VLANs mf ↔ v = mf_DefaultVLAN mf ∨ ∃ c, c ∈ mf_Clients mf ∧ c_VLAN c = v.
Proof.
  split; [|apply elem_of_VLANs].
  apply StronglySorted_le_lt; [apply sortInts_spec|]. rewrite VLANs_perm. apply NoDup_map_range.
Qed.

(** merging a parsed file into a parsed file keeps every existing client in
    its place and with its VLAN, appends some of the other file's clients in
    their order, and gives exactly the union of the two address sets, without
    duplicates. *)
Theorem Merge_correct `{U : GoUnicode} toml_unmarshal d1 d2 mf other :
  Parse toml_unmarshal d1 = Ok mf → Parse toml_unmarshal d2 = Ok other →
  NoDup (map c_MAC (mf_Clients (Merge mf other))) ∧
  (∃ added, mf_Clients (Merge mf other) = mf_Clients mf ++ added ∧
            added `sublist_of` mf_Clients other) ∧
  (∀ m, m ∈ map c_MAC (mf_Clients (Merge mf other)) ↔
        m ∈ map c_MAC (mf_Clients mf) ∨ m ∈ map c_MAC (mf_Clients other)) ∧
  (∀ s, to_lower s ∈ map c_MAC (mf_Clients mf) →
        Lookup (Merge mf other) s = Lookup mf s).
Proof.
  intros (raw1 & _ & Hp1)%Parse_parsed (raw2 & _ & Hp2)%Parse_parsed.
  apply parsed_lower in Hp2. destruct Hp1 as (_ & _ & Hnd & _).
  destruct (merge_fold_spec (mf_Clients other) (mf_Clients mf) _ Hp2 eq_refl Hnd)
    as (Hnd' & (added & E & Hs) & Hm).
  unfold Merge; cbn [mf_Clients mf_DefaultVLAN]. split_and!; [done|by exists added|done|].
  intros s (c & Hc & Hin)%list_elem_of_fmap. unfold Lookup. cbn [mf_Clients mf_DefaultVLAN].
  rewrite !(lookup_clients_In _ _ _ c); try done. rewrite E. set_solver.
Qed.

(** reading the generated accept file line by line gives back exactly the
    clients with a VLAN, in order, each with its address and VLAN. *)
Theorem HostapdAcceptMACFile_roundtrip `{U : GoUnicode} `{GI : GoInt} toml_unmarshal data mf :
  Parse toml_unmarshal data = Ok mf →
  ∃ lines, split_on "010"%char (HostapdAcceptMACFile mf) = lines ++ [""] ∧
    omap parse_accept_line lines =
      map (λ c, (c_MAC c, c_VLAN c)) (filter (λ c, 0 < c_VLAN c) (mf_Clients mf)) ∧
    length lines = length (filter (λ c, 0 < c_VLAN c) (mf_Clients mf)).
Proof.
  intros (raw & _ & Hp)%Parse_parsed. rewrite HostapdAcceptMACFile_lines.
  destruct (accept_lines_parse (mf_Clients mf)) as [E Hl].
  { pose proof (parsed_canonical _ _ Hp) as Hc. destruct Hp as (_ & _ & _ & Hv & _).
    pose proof int_max_ge. rewrite Forall_forall in *. intros c Hin.
    specialize (Hc c Hin). specialize (Hv c Hin). cbn in Hv. split; [done|lia]. }
  eexists. split_and!; [exact E| |by rewrite length_map].
  clear E. induction Hl as [|c l Hc Hl IH]; [done|]. cbn. by rewrite Hc, IH.
Qed.

(** ** Concrete files *)

Definition sample_doc : MapFile := {|
  mf_DefaultVLAN := 30;
  mf_Clients := [
    {| c_MAC := "AA-BB-CC-DD-EE-FF"; c_VLAN := 10; c_Name := "laptop"; c_Hostname := "" |};
    {| c_MAC := "11:22:33:44:55:66"; c_VLAN := 0; c_Name := "thermostat"; c_Hostname := "tado" |} ]
|}.

Definition sample_doc2 : MapFile := {|
  mf_DefaultVLAN := 1;
  mf_Clients := [
    {| c_MAC := "aabb.ccdd.eeff"; c_VLAN := 7; c_Name := ""; c_Hostname := "" |};
    {| c_MAC := "11:22:33:44:55:77"; c_VLAN := 4094; c_Name := ""; c_Hostname := "" |} ]
|}.

Definition sample_unmarshal (data : string) : option MapFile :=
  if String.eqb data "one" then Some sample_doc
  else if String.eqb data "two" then Some sample_doc2 else None.

Definition or_default (r : result macmap_error MapFile) : MapFile :=
  match r with Ok mf => mf | Err _ => sample_doc end.

Definition sample_file (data : string) : MapFile :=
  or_default (Parse (U := ascii_unicode) sample_unmarshal data).

Lemma Parse_Lookup_witness :
  Lookup (U := ascii_unicode) (sample_file "one") "Aa:bb:CC:dd:ee:FF" = 10 ∧
  Lookup (U := ascii_unicode) (sample_file "one") "aa:bb:cc:dd:ee:00" = 30.
Proof.
  destruct (Parse_Lookup (U := ascii_unicode) sample_unmarshal "one" (sample_file "one"))
    as (H1 & _ & H3); [vm_compute; reflexivity|].
  split.
  - rewrite (H1 {| c_MAC := "aa:bb:cc:dd:ee:ff"; c_VLAN := 10; c_Name := "laptop";
                  c_Hostname := "" |}); [reflexivity| |vm_compute; reflexivity].
    assert (mf_Clients (sample_file "one") !! 0%nat =
      Some {| c_MAC := "aa:bb:cc:dd:ee:ff"; c_VLAN := 10; c_Name := "laptop";
              c_Hostname := "" |}) as E by (vm_compute; reflexivity).
    by eapply list_elem_of_lookup_2.
  - rewrite H3; [vm_compute; reflexivity|].
    apply (bool_decide_eq_true_1 (_ ∉ _)). vm_compute. reflexivity.
Defined.

Lemma Merge_correct_witness :
  NoDup (map c_MAC (mf_Clients (Merge (U := ascii_unicode) (sample_file "one") (sample_file "two")))) ∧
  map c_MAC (mf_Clients (Merge (U := ascii_unicode) (sample_file "one") (sample_file "two"))) =
    ["aa:bb:cc:dd:ee:ff"; "11:22:33:44:55:66"; "11:22:33:44:55:77"].
Proof.
  destruct (Merge_correct (U := ascii_unicode) sample_unmarshal "one" "two"
    (sample_file "one") (sample_file "two")) as (H & _); [vm_compute; reflexivity..|].
  split; [exact H|vm_compute; reflexivity].
Defined.

Lemma HostapdAcceptMACFile_roundtrip_witness :
  ∃ lines, split_on "010"%char (HostapdAcceptMACFile (sample_file "one")) = lines ++ [""] ∧
    length lines = 1%nat.
Proof.
  destruct (HostapdAcceptMACFile_roundtrip (U := ascii_unicode) (GI := int64_arch)
    sample_unmarshal "one" (sample_file "one")) as (lines & E & _ & Hl);
    [vm_compute; reflexivity|].
  exists lines. split; [exact E|]. rewrite Hl. vm_compute. reflexivity.
Defined.

(** [Merge] compares lower-cased addresses but appends the client unchanged, so
    a client of a file that [Parse] did not normalize becomes unreachable. *)
Example Merge_unnormalized :
  let other := {| mf_DefaultVLAN := 0; mf_Clients :=
    [{| c_MAC := "DE:AD:BE:EF:00:01"; c_VLAN := 20; c_Name := ""; c_Hostname := "" |}] |} in
  Lookup (U := ascii_unicode) (Merge (U := ascii_unicode) (sample_file "one") other)
    "DE:AD:BE:EF:00:01" = 30.
Proof. vm_compute. reflexivity. Qed.
