(* ===== verification/Dhcp.v ===== *)
(** * pkg/dhcp: the DHCPv4 server

    One server per LAN interface hands out addresses of one pool.  The state
    behind the mutex is part of the record [Server]; a critical section is one
    step.  [time.Now] is read through [readings], one value for every call the
    code makes.  The messages of the DHCP library are data here: a request is
    what the code reads of it, a reply is the list of modifiers the code passes
    to [NewReplyFromRequest]; the packet the library builds from them is a
    parameter ([new_reply]).  Callbacks and packets sent are [event]s. *)

From Stdlib Require Import Ascii.
From S2P Require Import Prelude GoStrings GoStrconv GoNet.
Open Scope Z_scope.

(** ** State *)

(** Times and durations are in nanoseconds. *)
Definition second : Z := 1000000000.

Record lease := { l_IP : IP; l_Expires : Z }.

Record Reservation := { r_IP : string; r_PXEBootFile : string }.

Record Server := {
  s_iface : string;
  s_serverIP : IP;
  s_mask : IPMask;
  s_rangeStart : IP;
  s_rangeEnd : IP;
  s_dns : list IP;
  s_lease : Z;
  s_router : IP;
  s_leases : gmap string lease;
  s_nextIP : IP;
  s_reservations : gmap string IP;
  s_pxeBootServer : IP;
  s_pxeBootFile : string;
  s_macPXEBootFiles : gmap string string;
  s_ipxeBootFile : string;
  s_uefiBootFile : string;
  s_legacyBootFile : string;
  s_onLease : bool;
  s_onLeaseExpired : bool
}.

Inductive new_error :=
  | ErrServerAddr (addr : string)
  | ErrDNS (d : string)
  | ErrRange.

Definition dupIP (ip : IP) : IP := ip.

(** [incIP]: [carry] runs over the bytes from the last one to the first. *)
Fixpoint inc_carry (rev_ip : list Z) : list Z :=
  match rev_ip with
  | [] => []
  | b :: r => let b' := (b + 1) mod 256 in
              if negb (b' =? 0) then b' :: r else b' :: inc_carry r
  end.
Definition incIP (ip : IP) : IP := reverse (inc_carry (reverse (dupIP ip))).

(** [ipGreater] indexes the result of [To4], which is nil for an address that
    is not IPv4: the index is then out of range. *)
Fixpoint greater_from (n : nat) (i : nat) (a b : IP) : outcome bool :=
  match n with
  | O => Ret false
  | S n =>
      match a !! i, b !! i with
      | Some x, Some y =>
          if y <? x then Ret true
          else if x <? y then Ret false
          else greater_from n (S i) a b
      | _, _ => Panic
      end
  end.
Definition ipGreater (a b : IP) : outcome bool := greater_from 4 0 (To4 a) (To4 b).

Fixpoint parse_dns (dns : list string) : result new_error (list IP) :=
  match dns with
  | [] => Ok []
  | d :: dns =>
      match ParseIP d with
      | [] => Err (ErrDNS d)
      | ip => match parse_dns dns with Ok l => Ok (To4 ip :: l) | Err e => Err e end
      end
  end.

Definition New (iface serverAddr rangeStart rangeEnd : string) (dns : list string)
    (leaseDur : Z) : result new_error Server :=
  match ParseCIDR serverAddr with
  | None => Err (ErrServerAddr serverAddr)
  | Some (sIP, sNet) =>
      match parse_dns dns with
      | Err e => Err e
      | Ok parsedDNS =>
          match To4 (ParseIP rangeStart), To4 (ParseIP rangeEnd) with
          | [], _ | _, [] => Err ErrRange
          | rs, re => Ok {|
              s_iface := iface; s_serverIP := To4 sIP; s_mask := net_Mask sNet;
              s_rangeStart := rs; s_rangeEnd := re; s_dns := parsedDNS;
              s_lease := leaseDur; s_router := To4 sIP; s_leases := ∅;
              s_nextIP := dupIP rs; s_reservations := ∅; s_pxeBootServer := [];
              s_pxeBootFile := ""; s_macPXEBootFiles := ∅; s_ipxeBootFile := "";
              s_uefiBootFile := ""; s_legacyBootFile := "";
              s_onLease := false; s_onLeaseExpired := false |}
          end
      end
  end.

(** ** Field updates *)

Definition set_pool (s : Server) (leases : gmap string lease) (nextIP : IP) : Server := {|
  s_iface := s_iface s; s_serverIP := s_serverIP s; s_mask := s_mask s;
  s_rangeStart := s_rangeStart s; s_rangeEnd := s_rangeEnd s; s_dns := s_dns s;
  s_lease := s_lease s; s_router := s_router s; s_leases := leases; s_nextIP := nextIP;
  s_reservations := s_reservations s; s_pxeBootServer := s_pxeBootServer s;
  s_pxeBootFile := s_pxeBootFile s; s_macPXEBootFiles := s_macPXEBootFiles s;
  s_ipxeBootFile := s_ipxeBootFile s; s_uefiBootFile := s_uefiBootFile s;
  s_legacyBootFile := s_legacyBootFile s; s_onLease := s_onLease s;
  s_onLeaseExpired := s_onLeaseExpired s |}.

Definition set_leases (s : Server) (leases : gmap string lease) : Server :=
  set_pool s leases (s_nextIP s).

Definition set_reservations (s : Server) (reservations : gmap string IP) : Server := {|
  s_iface := s_iface s; s_serverIP := s_serverIP s; s_mask := s_mask s;
  s_rangeStart := s_rangeStart s; s_rangeEnd := s_rangeEnd s; s_dns := s_dns s;
  s_lease := s_lease s; s_router := s_router s; s_leases := s_leases s;
  s_nextIP := s_nextIP s;
  s_reservations := reservations; s_pxeBootServer := s_pxeBootServer s;
  s_pxeBootFile := s_pxeBootFile s; s_macPXEBootFiles := s_macPXEBootFiles s;
  s_ipxeBootFile := s_ipxeBootFile s; s_uefiBootFile := s_uefiBootFile s;
  s_legacyBootFile := s_legacyBootFile s; s_onLease := s_onLease s;
  s_onLeaseExpired := s_onLeaseExpired s |}.

(** The boot options and the callbacks. *)
Definition set_boot (s : Server) (server : IP) (file : string) (macs : gmap string string)
    (ipxe uefi legacy : string) : Server := {|
  s_iface := s_iface s; s_serverIP := s_serverIP s; s_mask := s_mask s;
  s_rangeStart := s_rangeStart s; s_rangeEnd := s_rangeEnd s; s_dns := s_dns s;
  s_lease := s_lease s; s_router := s_router s; s_leases := s_leases s;
  s_nextIP := s_nextIP s; s_reservations := s_reservations s;
  s_pxeBootServer := server; s_pxeBootFile := file; s_macPXEBootFiles := macs;
  s_ipxeBootFile := ipxe; s_uefiBootFile := uefi; s_legacyBootFile := legacy;
  s_onLease := s_onLease s; s_onLeaseExpired := s_onLeaseExpired s |}.

Definition set_callbacks (s : Server) (onLease onLeaseExpired : bool) : Server := {|
  s_iface := s_iface s; s_serverIP := s_serverIP s; s_mask := s_mask s;
  s_rangeStart := s_rangeStart s; s_rangeEnd := s_rangeEnd s; s_dns := s_dns s;
  s_lease := s_lease s; s_router := s_router s; s_leases := s_leases s;
  s_nextIP := s_nextIP s; s_reservations := s_reservations s;
  s_pxeBootServer := s_pxeBootServer s; s_pxeBootFile := s_pxeBootFile s;
  s_macPXEBootFiles := s_macPXEBootFiles s; s_ipxeBootFile := s_ipxeBootFile s;
  s_uefiBootFile := s_uefiBootFile s; s_legacyBootFile := s_legacyBootFile s;
  s_onLease := onLease; s_onLeaseExpired := onLeaseExpired |}.

(** ** Clock readings and events *)

(** The calls of [time.Now] in one run of [allocate]: the test of the client's
    own lease, the test of the [j]-th lease while the [k]-th address is
    probed, and the expiry of the new lease. *)
Record readings := {
  at_lookup : Z;
  at_probe : nat → nat → Z;
  at_grant : Z
}.

(** The clock does not run backwards. *)
Definition monotone (r : readings) : Prop :=
  at_lookup r ≤ at_grant r ∧
  ∀ k j, at_lookup r ≤ at_probe r k j ≤ at_grant r.

(** All the readings show the same time. *)
Definition instant (t : Z) : readings :=
  {| at_lookup := t; at_probe := λ _ _, t; at_grant := t |}.

Inductive modifier :=
  | WithMessageType (t : Z)
  | WithServerIP (ip : IP)
  | WithYourIP (ip : IP)
  | OptSubnetMask (m : IPMask)
  | OptRouter (ip : IP)
  | OptDNS (ips : list IP)
  | OptIPAddressLeaseTime (d : Z)
  | OptServerIdentifier (ip : IP)
  | OptTFTPServerName (name : string)
  | OptBootFileName (file : string).

(** [net.Addr]: a UDP address or another kind of address. *)
Inductive Addr :=
  | AddrUDP (a : UDPAddr)
  | AddrOther (id : nat).

(** What the code reads of a [dhcpv4.DHCPv4]; [q_Options] is
    [req.Options.Get]. *)
Record Request := {
  q_OpCode : Z;
  q_MessageType : Z;
  q_ClientHWAddr : HardwareAddr;
  q_Options : Z → list Z
}.

(** The constants of RFC 2131, 2132, 3004 and 4578. *)
Definition OpcodeBootRequest : Z := 1.
Definition MessageTypeDiscover : Z := 1.
Definition MessageTypeOffer : Z := 2.
Definition MessageTypeRequest : Z := 3.
Definition MessageTypeAck : Z := 5.
Definition OptionUserClassInformation : Z := 77.
Definition OptionClientSystemArchitectureType : Z := 93.

Inductive event :=
  | EvLease (ip : IP) (mac : string)          (* go s.onLease(ip, mac) *)
  | EvLeaseExpired (ip : IP) (mac : string)   (* s.onLeaseExpired(ip, mac) *)
  | EvSend (mods : list modifier) (packet : string) (dst : Addr).

(** ** Operations *)

Definition OnLease (s : Server) (cb : bool) : Server := set_callbacks s cb (s_onLeaseExpired s).
Definition OnLeaseExpired (s : Server) (cb : bool) : Server := set_callbacks s (s_onLease s) cb.

Section server.
Context `{U : GoUnicode} `{MO : MapOrder}.

Definition normalizeMAC (mac : string) : string :=
  to_lower (trim_space (replace_char "-" ":" mac)).

Definition subnet (s : Server) : IPNet :=
  {| net_IP := IP_Mask (s_serverIP s) (s_mask s); net_Mask := s_mask s |}.

(** The body of the loop of [SetReservations]: the entry it writes, if any. *)
Definition reservation_entry (s : Server) (e : string * string) : option (string * IP) :=
  let '(mac, ip) := e in
  match To4 (ParseIP ip) with
  | [] => None
  | parsed =>
      if negb (IPNet_Contains (subnet s) parsed) then None
      else Some (normalizeMAC mac, parsed)
  end.

Definition SetReservations (s : Server) (reservations : gmap string string) : Server :=
  set_reservations s (fold_insert (reservation_entry s) (map_range reservations) ∅).

Definition SetPXEOptions (s : Server) (bootServer bootFile : string) : Server :=
  let server := if negb (String.eqb bootServer "") then To4 (ParseIP bootServer) else [] in
  set_boot s server bootFile (s_macPXEBootFiles s)
    (s_ipxeBootFile s) (s_uefiBootFile s) (s_legacyBootFile s).

Definition SetMacPXEBootFiles (s : Server) (m : gmap string string) : Server :=
  let files := fold_insert (λ e, Some (normalizeMAC e.1, e.2)) (map_range m) ∅ in
  set_boot s (s_pxeBootServer s) (s_pxeBootFile s) files
    (s_ipxeBootFile s) (s_uefiBootFile s) (s_legacyBootFile s).

Definition SetIPXEBootFile (s : Server) (file : string) : Server :=
  set_boot s (s_pxeBootServer s) (s_pxeBootFile s) (s_macPXEBootFiles s)
    file (s_uefiBootFile s) (s_legacyBootFile s).

Definition SetUEFIBootFile (s : Server) (file : string) : Server :=
  set_boot s (s_pxeBootServer s) (s_pxeBootFile s) (s_macPXEBootFiles s)
    (s_ipxeBootFile s) file (s_legacyBootFile s).

Definition SetLegacyBootFile (s : Server) (file : string) : Server :=
  set_boot s (s_pxeBootServer s) (s_pxeBootFile s) (s_macPXEBootFiles s)
    (s_ipxeBootFile s) (s_uefiBootFile s) file.

(** The interval of the ticker of [reapExpiredLeases]; Go's integer division
    truncates toward zero. *)
Definition reap_interval (s : Server) : Z :=
  let interval := Z.quot (s_lease s) 4 in
  if interval <? 30 * second then 30 * second else interval.

(** One tick of [reapExpiredLeases]: [now] is read once, under the mutex. *)
Definition reap (s : Server) (now : Z) : Server * list event :=
  let expired := filter (λ e, l_Expires e.2 < now) (map_range (s_leases s)) in
  let leases := fold_left (λ m e, delete e.1 m) expired (s_leases s) in
  let events := if s_onLeaseExpired s
                then map (λ e, EvLeaseExpired (dupIP (l_IP e.2)) e.1) expired else [] in
  (set_leases s leases, events).

(** The loop over the leases: [j] counts the calls of [time.Now] made so far. *)
Fixpoint any_lease_live (now : nat → Z) (j : nat) (ip : IP) (l : list (string * lease)) : bool :=
  match l with
  | [] => false
  | (_, e) :: l =>
      if IP_Equal (l_IP e) ip then
        if now j <? l_Expires e then true else any_lease_live now (S j) ip l
      else any_lease_live now j ip l
  end.

Definition isLeasedOrReserved (s : Server) (now : nat → Z) (ip : IP) : bool :=
  if existsb (λ e, IP_Equal e.2 ip) (map_range (s_reservations s)) then true
  else any_lease_live now 0 ip (map_range (s_leases s)).

Definition clearLeasesForIP (leases : gmap string lease) (ip : IP) : gmap string lease :=
  fold_left (λ m e, if IP_Equal (l_IP e.2) ip then delete e.1 m else m)
    (map_range leases) leases.

(** The successor of an address in the pool. *)
Definition next_ip (s : Server) (ip : IP) : outcome IP :=
  g ← ipGreater (incIP ip) (s_rangeEnd s);
  Ret (if g : bool then dupIP (s_rangeStart s) else incIP ip).

(** The scan of [allocate]; [k] counts the addresses probed so far. *)
Fixpoint scan (fuel k : nat) (s : Server) (now : nat → nat → Z) (start ip : IP)
    : outcome (option IP) :=
  match fuel with
  | O => OutOfFuel
  | S fuel =>
      if negb (isLeasedOrReserved s (now k) ip) then Ret (Some ip)
      else
        next ← next_ip s ip;
        if IP_Equal next start then Ret None
        else scan fuel (S k) s now start next
  end.

(** The big-endian value of an address. *)
Definition ip_value (ip : IP) : Z := fold_left (λ v b, v * 256 + b) ip 0.

Definition max_ip : Z := 4294967295.

(** The number of addresses the scan can visit. *)
Definition pool_size (s : Server) : Z :=
  let a := ip_value (s_rangeStart s) in
  let z := ip_value (s_rangeEnd s) in
  if a <=? z then if z =? max_ip then max_ip + 1 else z - a + 1
  else if a =? max_ip then z + 2 else 1.

(** The part of [allocate] after the two early returns. *)
Definition allocate_new (s : Server) (r : readings) (mac : string)
    : outcome (Server * option IP * list event) :=
  let start := dupIP (s_nextIP s) in
  found ← scan (Z.to_nat (pool_size s)) 0 s (at_probe r) start start;
  match found with
  | None => Ret (s, None, [])
  | Some ip =>
      let leases := <[mac := {| l_IP := dupIP ip; l_Expires := at_grant r + s_lease s |}]>
                      (s_leases s) in
      nextIP ← next_ip s ip;
      Ret (set_pool s leases nextIP, Some ip,
           if s_onLease s then [EvLease (dupIP ip) mac] else [])
  end.

(** [allocate]: the state after the critical section, the address and the
    callback spawned. *)
Definition allocate (s : Server) (r : readings) (mac : string)
    : outcome (Server * option IP * list event) :=
  let normalized := normalizeMAC mac in
  match s_reservations s !! normalized with
  | Some reserved =>
      let leases := <[mac := {| l_IP := dupIP reserved; l_Expires := at_grant r + s_lease s |}]>
                      (clearLeasesForIP (s_leases s) reserved) in
      Ret (set_leases s leases, Some reserved,
           if s_onLease s then [EvLease (dupIP reserved) mac] else [])
  | None =>
      match s_leases s !! mac with
      | Some l =>
          if at_lookup r <? l_Expires l then Ret (s, Some (l_IP l), [])
          else allocate_new s r mac
      | None => allocate_new s r mac
      end
  end.

(** ** Replies *)

Definition isIPXEClient (req : Request) : bool :=
  let uc := q_Options req OptionUserClassInformation in
  (0 <? length uc)%nat && contains (to_lower (of_bytes uc)) "ipxe".

Definition isUEFIClient (req : Request) : bool :=
  match q_Options req OptionClientSystemArchitectureType with
  | a :: b :: _ => let v := Z.lor (Z.shiftl a 8) b in (v =? 7) || (v =? 9)
  | _ => false
  end.

(** The boot file [replyOptions] selects, from the state it reads. *)
Definition select_boot_file (s : Server) (mac : string) (req : Request) : string :=
  if negb (String.eqb (s_ipxeBootFile s) "") && isIPXEClient req then s_ipxeBootFile s
  else match s_macPXEBootFiles s !! normalizeMAC mac with
       | Some macFile => macFile
       | None =>
           if negb (String.eqb (s_uefiBootFile s) "") && isUEFIClient req then s_uefiBootFile s
           else if negb (String.eqb (s_legacyBootFile s) "") then s_legacyBootFile s
           else s_pxeBootFile s
       end.

Definition replyOptions (s : Server) (mac : string) (req : Request) : list modifier :=
  let bootFile := select_boot_file s mac req in
  match s_pxeBootServer s with [] => [] | ip => [OptTFTPServerName (IP_String ip)] end ++
  (if negb (String.eqb bootFile "") then [OptBootFileName bootFile] else []).

Definition reply_modifiers (s : Server) (msgType : Z) (ip : IP) : list modifier :=
  [WithMessageType msgType; WithServerIP (s_serverIP s); WithYourIP ip;
   OptSubnetMask (s_mask s); OptRouter (s_router s); OptDNS (s_dns s);
   OptIPAddressLeaseTime (s_lease s); OptServerIdentifier (s_serverIP s)].

(** Clients without an address send from 0.0.0.0 and are answered by
    broadcast. *)
Definition reply_dst (peer : Addr) : Addr :=
  match peer with
  | AddrUDP a =>
      if match udp_IP a with [] => true | _ => false end
         || IP_Equal (To4 (udp_IP a)) IPv4zero
      then AddrUDP {| udp_IP := IPv4bcast; udp_Port := 68; udp_Zone := "" |}
      else peer
  | AddrOther _ => peer
  end.

(** [handler].  [others] is what other goroutines do to the server between the
    critical section of [allocate] and the one of [replyOptions]; [new_reply]
    is [dhcpv4.NewReplyFromRequest] followed by [ToBytes], [None] for its
    error. *)
Definition handler (new_reply : Request → list modifier → option string)
    (others : Server → Server) (s : Server) (r : readings) (peer : Addr) (req : Request)
    : outcome (Server * list event) :=
  if negb (q_OpCode req =? OpcodeBootRequest) then Ret (s, [])
  else
    let mac := HardwareAddr_String (q_ClientHWAddr req) in
    let answer msgType :=
      res ← allocate s r mac;
      let '(s, ip, evs) := res in
      match ip with
      | None => Ret (s, evs)
      | Some ip =>
          let s' := others s in
          let mods := reply_modifiers s msgType ip ++ replyOptions s' mac req in
          match new_reply req mods with
          | None => Ret (s', evs)
          | Some packet => Ret (s', evs ++ [EvSend mods packet (reply_dst peer)])
          end
      end in
    if q_MessageType req =? MessageTypeDiscover then answer MessageTypeOffer
    else if q_MessageType req =? MessageTypeRequest then answer MessageTypeAck
    else Ret (s, []).
End server.

(** ** Addresses as numbers *)

Definition v4 (ip : IP) : Prop := length ip = 4%nat ∧ Forall is_byte ip.

Lemma v4_inv ip :
  v4 ip → ∃ a b c d, ip = [a; b; c; d] ∧ is_byte a ∧ is_byte b ∧ is_byte c ∧ is_byte d.
Proof.
  intros [Hl Hb]. destruct ip as [|a [|b [|c [|d [|]]]]]; try done.
  rewrite !Forall_cons in Hb. destruct_and! Hb. by exists a, b, c, d.
Qed.

Lemma ip_value_4 a b c d :
  ip_value [a; b; c; d] = a * 16777216 + b * 65536 + c * 256 + d.
Proof. unfold ip_value. cbn [fold_left]. lia. Qed.

Lemma ip_value_range ip : v4 ip → 0 ≤ ip_value ip ≤ max_ip.
Proof.
  intros (a & b & c & d & -> & Ha & Hb & Hc & Hd)%v4_inv. rewrite ip_value_4.
  unfold is_byte, max_ip in *. lia.
Qed.

Lemma ip_value_inj a b : v4 a → v4 b → ip_value a = ip_value b → a = b.
Proof.
  intros (a1 & a2 & a3 & a4 & -> & ? & ? & ? & ?)%v4_inv
    (b1 & b2 & b3 & b4 & -> & ? & ? & ? & ?)%v4_inv.
  rewrite !ip_value_4. unfold is_byte in *. intros E.
  assert (a1 = b1 ∧ a2 = b2 ∧ a3 = b3 ∧ a4 = b4) as (-> & -> & -> & ->); [lia|done].
Qed.

Lemma v4_To4 ip : v4 ip → To4 ip = ip.
Proof. intros [? _]. by apply To4_v4. Qed.

Lemma v4_Equal a b : v4 a → v4 b → IP_Equal a b = true ↔ a = b.
Proof. intros [? _] [? _]. by apply IP_Equal_v4. Qed.

Lemma v4_Equal_false a b : v4 a → v4 b → IP_Equal a b = false ↔ a ≠ b.
Proof. intros Ha Hb. rewrite <-(v4_Equal a b) by done. by rewrite not_true_iff_false. Qed.

Lemma v4_parsed s : To4 (ParseIP s) ≠ [] → v4 (To4 (ParseIP s)).
Proof. intros H. split; [by apply To4_length|by apply ParseIP_To4_bytes]. Qed.

(** The carry chain of [incIP], least significant byte first. *)
Fixpoint le_value (l : list Z) : Z :=
  match l with
  | [] => 0
  | b :: l => b + 256 * le_value l
  end.

Lemma le_value_range l : Forall is_byte l → 0 ≤ le_value l < 256 ^ Z.of_nat (length l).
Proof.
  induction 1 as [|b l Hb Hl IH]; cbn [le_value length]; [done|].
  rewrite Nat2Z.inj_succ, Z.pow_succ_r by lia. unfold is_byte in Hb. lia.
Qed.

Lemma inc_carry_spec l :
  Forall is_byte l →
  length (inc_carry l) = length l ∧ Forall is_byte (inc_carry l) ∧
  le_value (inc_carry l) = (le_value l + 1) mod 256 ^ Z.of_nat (length l).
Proof.
  induction 1 as [|b l Hb Hl (IH1 & IH2 & IH3)]; [done|].
  pose proof (le_value_range l Hl) as Hr. unfold is_byte in Hb.
  cbn [inc_carry length le_value]. rewrite Nat2Z.inj_succ, Z.pow_succ_r by lia.
  destruct (decide (b = 255)) as [->|Hne].
  - change ((255 + 1) mod 256) with 0. cbn [negb Z.eqb]. cbv iota. cbn [length le_value].
    split_and!; [by f_equal|constructor; [unfold is_byte; lia|done]|].
    rewrite IH3, Z.add_0_l.
    replace (255 + 256 * le_value l + 1) with (256 * (le_value l + 1)) by lia.
    by rewrite Zmult_mod_distr_l.
  - rewrite Z.mod_small by lia. rewrite (proj2 (Z.eqb_neq (b + 1) 0)) by lia. cbn.
    split_and!; [done|constructor; [unfold is_byte; lia|done]|].
    rewrite Z.mod_small by lia. lia.
Qed.

Lemma ip_value_reverse l : ip_value l = le_value (reverse l).
Proof.
  unfold ip_value. induction l as [|b l IH] using rev_ind; [done|].
  rewrite fold_left_app, reverse_app. cbn [fold_left reverse rev_append app le_value].
  change (reverse [b] ++ reverse l) with (b :: reverse l). cbn [le_value]. rewrite <-IH. lia.
Qed.

Lemma incIP_spec ip :
  v4 ip → v4 (incIP ip) ∧ ip_value (incIP ip) = (ip_value ip + 1) mod (max_ip + 1).
Proof.
  intros [Hl Hb]. unfold incIP, dupIP.
  destruct (inc_carry_spec (reverse ip)) as (H1 & H2 & H3); [by apply Forall_reverse|].
  rewrite length_reverse, Hl in H1, H3. split.
  - split; [by rewrite length_reverse|by apply Forall_reverse].
  - by rewrite !ip_value_reverse, reverse_involutive, H3.
Qed.

Lemma ipGreater_spec a b : v4 a → v4 b → ipGreater a b = Ret (ip_value b <? ip_value a).
Proof.
  intros Ha Hb. unfold ipGreater. rewrite !v4_To4 by done.
  apply v4_inv in Ha as (a1 & a2 & a3 & a4 & -> & ? & ? & ? & ?).
  apply v4_inv in Hb as (b1 & b2 & b3 & b4 & -> & ? & ? & ? & ?).
  rewrite !ip_value_4. unfold is_byte in *. cbn.
  repeat case_if; to_prop; f_equal; symmetry; first [apply Z.ltb_lt; lia | apply Z.ltb_ge; lia].
Qed.

(** ** The pool as a cycle *)

(** The [k]-th address of the scan that starts at [rangeStart]. *)
Definition pool_at (s : Server) (k : Z) : Z :=
  (ip_value (s_rangeStart s) + k) mod (max_ip + 1).

Definition at_index (s : Server) (ip : IP) (k : Z) : Prop :=
  v4 ip ∧ ip_value ip = pool_at s k.

(** The addresses a scan can visit. *)
Definition in_pool (s : Server) (ip : IP) : Prop :=
  ∃ k, 0 ≤ k < pool_size s ∧ at_index s ip k.

Lemma mod_cases a n : 0 ≤ a < 2 * n → a mod n = if n <=? a then a - n else a.
Proof.
  intros H. destruct (n <=? a) eqn:E; to_prop; [|apply Z.mod_small; lia].
  symmetry. apply (Z.mod_unique a n 1); lia.
Qed.

Section pool.
Context (s : Server) (Hstart : v4 (s_rangeStart s)) (Hend : v4 (s_rangeEnd s)).

Lemma pool_size_range : 1 ≤ pool_size s ≤ max_ip + 1.
Proof.
  pose proof (ip_value_range _ Hstart). pose proof (ip_value_range _ Hend).
  unfold pool_size. repeat case_if; to_prop; lia.
Qed.

Lemma pool_at_inj j k :
  0 ≤ j < pool_size s → 0 ≤ k < pool_size s → pool_at s j = pool_at s k → j = k.
Proof.
  intros Hj Hk. pose proof pool_size_range. pose proof (ip_value_range _ Hstart).
  unfold pool_at. rewrite !mod_cases by lia. case_all; to_prop; lia.
Qed.

Lemma next_ip_spec ip k :
  0 ≤ k < pool_size s → at_index s ip k →
  ∃ n, next_ip s ip = Ret n ∧ at_index s n ((k + 1) mod pool_size s).
Proof.
  intros Hk [Hip Hv]. destruct (incIP_spec ip Hip) as [Hi Hiv].
  unfold next_ip. rewrite ipGreater_spec by done. cbn [mbind outcome_bind].
  eexists. split; [reflexivity|]. unfold at_index, dupIP.
  split; [by case_if|].
  pose proof pool_size_range as Hn. pose proof (ip_value_range _ Hstart) as H1.
  pose proof (ip_value_range _ Hend) as H2. unfold pool_at in *.
  rewrite mod_cases in Hv by lia.
  rewrite mod_cases in Hiv by (pose proof (ip_value_range _ Hip); lia).
  rewrite (mod_cases (k + 1)) by lia. rewrite mod_cases by (case_all; to_prop; lia).
  unfold pool_size in *. case_all; to_prop; lia.
Qed.

Lemma in_pool_range ip :
  ip_value (s_rangeStart s) ≤ ip_value (s_rangeEnd s) < max_ip →
  in_pool s ip ↔ v4 ip ∧ ip_value (s_rangeStart s) ≤ ip_value ip ≤ ip_value (s_rangeEnd s).
Proof.
  intros Hr. pose proof (ip_value_range _ Hstart).
  assert (pool_size s = ip_value (s_rangeEnd s) - ip_value (s_rangeStart s) + 1) as Hn.
  { unfold pool_size. repeat case_if; to_prop; lia. }
  unfold in_pool, at_index, pool_at. rewrite Hn. split.
  - intros (k & Hk & Hip & ->). rewrite Z.mod_small by lia. split; [done|lia].
  - intros [Hip Hb]. exists (ip_value ip - ip_value (s_rangeStart s)).
    split_and!; [lia..|done|]. rewrite Z.mod_small by lia. lia.
Qed.
End pool.

(** ** What the scan tests *)

Section probe.
Context `{MO : MapOrder} (s : Server).
Hypothesis Hleases : ∀ m l, s_leases s !! m = Some l → v4 (l_IP l).
Hypothesis Hres : ∀ m ip, s_reservations s !! m = Some ip → v4 ip.

Lemma any_lease_live_true now j ip l :
  any_lease_live now j ip l = true →
  ∃ e i, e ∈ l ∧ IP_Equal (l_IP e.2) ip = true ∧ now i < l_Expires e.2.
Proof.
  revert j; induction l as [|[m e] l IH]; intros j; cbn; [done|].
  destruct (IP_Equal (l_IP e) ip) eqn:He.
  - destruct (now j <? l_Expires e) eqn:Hn.
    + to_prop. intros _. exists (m, e), j. set_solver.
    + intros (e' & i & ? & ?)%IH. exists e', i. set_solver.
  - intros (e' & i & ? & ?)%IH. exists e', i. set_solver.
Qed.

Lemma any_lease_live_false now j ip l :
  any_lease_live now j ip l = false →
  ∀ e, e ∈ l → IP_Equal (l_IP e.2) ip = true → ∃ i, l_Expires e.2 ≤ now i.
Proof.
  revert j; induction l as [|[m e] l IH]; intros j; cbn; [set_solver|].
  destruct (IP_Equal (l_IP e) ip) eqn:He.
  - destruct (now j <? l_Expires e) eqn:Hn; [done|]. to_prop.
    intros Hl e' [-> |Hin]%elem_of_cons Heq; [by exists j|eauto].
  - intros Hl e' [-> |Hin]%elem_of_cons Heq; [cbn in *; congruence|eauto].
Qed.

Lemma isLeasedOrReserved_true now ip :
  v4 ip → isLeasedOrReserved s now ip = true →
  (∃ m, s_reservations s !! m = Some ip) ∨
  (∃ m l i, s_leases s !! m = Some l ∧ l_IP l = ip ∧ now i < l_Expires l).
Proof.
  intros Hip. unfold isLeasedOrReserved. case_if.
  - intros _. left. apply existsb_exists in Heqb as ([m x] & Hin & Heq).
    apply list_elem_of_In, elem_of_map_range in Hin. cbn in Heq.
    apply v4_Equal in Heq as ->; eauto.
  - intros ([m l] & i & Hin & Heq & Hi)%any_lease_live_true. right.
    apply elem_of_map_range in Hin. cbn in *. apply v4_Equal in Heq; eauto 10.
Qed.

Lemma isLeasedOrReserved_false now ip :
  v4 ip → isLeasedOrReserved s now ip = false →
  (∀ m, s_reservations s !! m ≠ Some ip) ∧
  (∀ m l, s_leases s !! m = Some l → l_IP l = ip → ∃ i, l_Expires l ≤ now i).
Proof.
  intros Hip. unfold isLeasedOrReserved. case_if; [done|]. intros Hl. split.
  - intros m Hm. assert (existsb (λ e, IP_Equal e.2 ip) (map_range (s_reservations s)) = true);
      [|congruence]. apply existsb_exists. exists (m, ip). split; [|apply IP_Equal_refl].
    by apply list_elem_of_In, elem_of_map_range.
  - intros m l Hm <-. eapply (any_lease_live_false now 0 (l_IP l) _ Hl (m, l));
      [by apply elem_of_map_range|apply IP_Equal_refl].
Qed.
End probe.

(** ** The invariant *)

Record wf (s : Server) : Prop := {
  wf_start : v4 (s_rangeStart s);
  wf_end : v4 (s_rangeEnd s);
  wf_next : in_pool s (s_nextIP s);
  wf_leases : ∀ m l, s_leases s !! m = Some l → v4 (l_IP l);
  wf_res : ∀ m ip, s_reservations s !! m = Some ip → v4 ip
}.
#[export] Hint Resolve wf_start wf_end wf_next wf_leases wf_res : gorouter.

(** At [now], no two clients hold live leases of the same address. *)
Definition unique_live (s : Server) (now : Z) : Prop :=
  ∀ m1 m2 l1 l2, m1 ≠ m2 → s_leases s !! m1 = Some l1 → s_leases s !! m2 = Some l2 →
    now < l_Expires l1 → now < l_Expires l2 → l_IP l1 ≠ l_IP l2.

(** The scan ends within the fuel [allocate] gives it: it finds a free address
    of the pool, or it has found every address of the pool taken. *)
Lemma scan_spec `{MO : MapOrder} s now start p fuel k cur :
  wf s → 0 ≤ p < pool_size s → at_index s start p →
  Z.of_nat k < pool_size s → Z.of_nat fuel = pool_size s - Z.of_nat k →
  at_index s cur ((p + Z.of_nat k) mod pool_size s) →
  (∃ ip k', scan fuel k s now start cur = Ret (Some ip) ∧ in_pool s ip ∧
            isLeasedOrReserved s (now k') ip = false) ∨
  (scan fuel k s now start cur = Ret None ∧
   ∀ j ip, Z.of_nat k ≤ j < pool_size s → at_index s ip ((p + j) mod pool_size s) →
     ∃ k', isLeasedOrReserved s (now k') ip = true).
Proof.
  intros Hwf Hp Hs. revert k cur; induction fuel as [|fuel IH]; intros k cur Hk Hf Hc; [lia|].
  pose proof (pool_size_range s (wf_start s Hwf) (wf_end s Hwf)) as Hn. cbn [scan].
  assert (∀ i, 0 ≤ i mod pool_size s < pool_size s) as Hm by (intros; apply Z.mod_pos_bound; lia).
  destruct (isLeasedOrReserved s (now k) cur) eqn:Hl; cbn [negb].
  2:{ left. exists cur, k. split_and!; [done| |done]. eexists; split; [|exact Hc]. apply Hm. }
  destruct (next_ip_spec s (wf_start s Hwf) (wf_end s Hwf) cur _ (Hm _) Hc) as (n & -> & Hi).
  cbn [mbind outcome_bind]. rewrite Z.add_mod_idemp_l in Hi by lia.
  assert (∀ ip, at_index s ip ((p + Z.of_nat k) mod pool_size s) → ip = cur) as Huniq.
  { intros ip [Hv E]. destruct Hc as [Hv' E']. apply ip_value_inj; [done..|congruence]. }
  destruct (decide (Z.of_nat k + 1 = pool_size s)) as [Hlast|Hmore].
  - assert (n = start) as ->.
    { apply ip_value_inj; [apply Hi|apply Hs|]. destruct Hi as [_ ->], Hs as [_ ->].
      f_equal. rewrite mod_cases by lia. case_if; to_prop; lia. }
    rewrite IP_Equal_refl. right. split; [done|]. intros j ip Hj Hip.
    assert (j = Z.of_nat k) as -> by lia. rewrite (Huniq ip Hip). by exists k.
  - assert (IP_Equal n start = false) as ->.
    { apply v4_Equal_false; [apply Hi|apply Hs|]. intros ->.
      assert ((p + Z.of_nat k + 1) mod pool_size s = p) as E.
      { apply (pool_at_inj s (wf_start s Hwf) (wf_end s Hwf)); [apply Hm|done|].
        destruct Hi as [_ <-], Hs as [_ <-]. done. }
      rewrite mod_cases in E by lia. case_if_in E; to_prop; lia. }
    destruct (IH (S k) n) as [(ip & k' & ? & ? & ?)|[HN Hall]]; [lia|lia| | |].
    + by replace (p + Z.of_nat (S k)) with (p + Z.of_nat k + 1) by lia.
    + left. by exists ip, k'.
    + right. split; [done|]. intros j ip Hj Hip.
      destruct (decide (j = Z.of_nat k)) as [->|]; [rewrite (Huniq ip Hip); by exists k|].
      apply (Hall j ip); [lia|done].
Qed.

(** ** The specification of [allocate] *)

(** Deleting the leases of an address. *)
Lemma clearLeasesForIP_filter `{MO : MapOrder} leases ip :
  clearLeasesForIP leases ip = filter (λ e, IP_Equal (l_IP e.2) ip = false) leases.
Proof. apply (fold_delete_filter (λ e, IP_Equal (l_IP e.2) ip)). Qed.

Definition granted (s : Server) (r : readings) (ip : IP) : lease :=
  {| l_IP := ip; l_Expires := at_grant r + s_lease s |}.

Definition lease_event (s : Server) (ip : IP) (mac : string) : list event :=
  if s_onLease s then [EvLease ip mac] else [].

(** Nobody can hold [ip] after the scan: it is not reserved, and every lease of
    it was seen expired. *)
Definition free_at (s : Server) (r : readings) (ip : IP) : Prop :=
  (∀ m, s_reservations s !! m ≠ Some ip) ∧
  ∀ m l, s_leases s !! m = Some l → l_IP l = ip → ∃ k j, l_Expires l ≤ at_probe r k j.

Definition taken_at (s : Server) (r : readings) (ip : IP) : Prop :=
  (∃ m, s_reservations s !! m = Some ip) ∨
  ∃ m l k j, s_leases s !! m = Some l ∧ l_IP l = ip ∧ at_probe r k j < l_Expires l.

Definition no_live_lease (s : Server) (r : readings) (mac : string) : Prop :=
  ∀ l, s_leases s !! mac = Some l → l_Expires l ≤ at_lookup r.

Inductive alloc_spec `{U : GoUnicode} (s : Server) (r : readings) (mac : string)
    : Server → option IP → list event → Prop :=
  | alloc_reserved ip :
      s_reservations s !! normalizeMAC mac = Some ip →
      alloc_spec s r mac
        (set_leases s (<[mac := granted s r ip]> (filter (λ e, l_IP e.2 ≠ ip) (s_leases s))))
        (Some ip) (lease_event s ip mac)
  | alloc_held l :
      s_reservations s !! normalizeMAC mac = None →
      s_leases s !! mac = Some l → at_lookup r < l_Expires l →
      alloc_spec s r mac s (Some (l_IP l)) []
  | alloc_free ip next :
      s_reservations s !! normalizeMAC mac = None → no_live_lease s r mac →
      in_pool s ip → free_at s r ip → next_ip s ip = Ret next → in_pool s next →
      alloc_spec s r mac (set_pool s (<[mac := granted s r ip]> (s_leases s)) next)
        (Some ip) (lease_event s ip mac)
  | alloc_full :
      s_reservations s !! normalizeMAC mac = None → no_live_lease s r mac →
      (∀ ip, in_pool s ip → taken_at s r ip) →
      alloc_spec s r mac s None [].

Section allocate.
Context `{U : GoUnicode} `{MO : MapOrder}.

Lemma allocate_new_spec s r mac :
  wf s → s_reservations s !! normalizeMAC mac = None → no_live_lease s r mac →
  ∃ s' o evs, allocate_new s r mac = Ret (s', o, evs) ∧ alloc_spec s r mac s' o evs.
Proof.
  intros Hwf Hres Hno. pose proof (wf_next s Hwf) as (p & Hp & Hi).
  pose proof (pool_size_range s (wf_start s Hwf) (wf_end s Hwf)) as Hn.
  unfold allocate_new, dupIP.
  destruct (scan_spec s (at_probe r) (s_nextIP s) p (Z.to_nat (pool_size s)) 0 (s_nextIP s))
    as [(ip & k & -> & Hin & Hfree)|[-> Hall]]; try lia; try done.
  { by rewrite Z.add_0_r, Z.mod_small by lia. }
  - destruct Hin as (i & Hi1 & Hi2). cbn [mbind outcome_bind].
    destruct (next_ip_spec s (wf_start s Hwf) (wf_end s Hwf) ip i Hi1 Hi2) as (n & En & Hn2).
    rewrite En. cbn [mbind outcome_bind]. do 3 eexists. split; [reflexivity|].
    apply (alloc_free s r mac ip n); try done; [by exists i| |].
    + apply isLeasedOrReserved_false in Hfree as [H1 H2]; [|by eauto with gorouter..|apply Hi2].
      split; [done|]. intros m l Hl Hip. destruct (H2 m l Hl Hip) as [j ?]. by exists k, j.
    + eexists. split; [|exact Hn2]. apply Z.mod_pos_bound. lia.
  - do 3 eexists. split; [reflexivity|]. apply alloc_full; try done.
    intros ip (i & Hi1 & Hi2).
    destruct (Hall ((i - p) mod pool_size s) ip) as [k Hk].
    { pose proof (Z.mod_pos_bound (i - p) (pool_size s)). lia. }
    { rewrite Z.add_mod_idemp_r by lia. replace (p + (i - p)) with i by lia.
      by rewrite Z.mod_small by lia. }
    apply isLeasedOrReserved_true in Hk as [Hm|(m & l & j & ? & ? & ?)];
      [by left| |by eauto with gorouter..|apply Hi2].
    right. by exists m, l, k, j.
Qed.

Lemma allocate_spec s r mac :
  wf s → ∃ s' o evs, allocate s r mac = Ret (s', o, evs) ∧ alloc_spec s r mac s' o evs.
Proof.
  intros Hwf. unfold allocate, dupIP.
  destruct (s_reservations s !! normalizeMAC mac) as [ip|] eqn:Hres.
  - do 3 eexists. split; [reflexivity|].
    rewrite clearLeasesForIP_filter.
    replace (filter (λ e, IP_Equal (l_IP e.2) ip = false) (s_leases s))
      with (filter (λ e : string * lease, l_IP e.2 ≠ ip) (s_leases s)).
    { by apply (alloc_reserved s r mac ip). }
    apply map_filter_ext. intros m l Hl. cbn.
    by rewrite (v4_Equal_false (l_IP l) ip) by eauto with gorouter.
  - destruct (s_leases s !! mac) as [l|] eqn:Hl.
    + case_if; to_prop.
      * do 3 eexists. split; [reflexivity|]. by eapply alloc_held.
      * apply allocate_new_spec; [done..|]. intros l' Hl'. congruence.
    + apply allocate_new_spec; [done..|]. intros l' Hl'. congruence.
Qed.

(** ** Preservation of the invariant *)

Lemma wf_set_pool s leases next :
  wf s → (∀ m l, leases !! m = Some l → v4 (l_IP l)) → in_pool s next →
  wf (set_pool s leases next).
Proof. intros [] ??. by split. Qed.

Lemma in_pool_v4 s ip : in_pool s ip → v4 ip.
Proof. by intros (k & _ & ? & _). Qed.

Lemma alloc_spec_wf s r mac s' o evs : wf s → alloc_spec s r mac s' o evs → wf s'.
Proof.
  intros Hwf [ip Hres|l|ip n _ _ Hip _ _ Hn|]; try done.
  - apply wf_set_pool; [done| |by apply wf_next].
    intros m l [[_ <-]|[_ Hl]]%lookup_insert_Some; cbn; [by eapply wf_res|].
    apply map_lookup_filter_Some in Hl as [Hl _]. by eapply wf_leases.
  - apply wf_set_pool; [done| |done].
    intros m l [[_ <-]|[_ Hl]]%lookup_insert_Some; cbn; [by eapply in_pool_v4|].
    by eapply wf_leases.
Qed.

Lemma unique_live_mono s t t' : t ≤ t' → unique_live s t → unique_live s t'.
Proof. intros Ht H m1 m2 l1 l2 ?????. apply (H m1 m2 l1 l2); auto; lia. Qed.

(** A lease table of addresses nobody else holds, extended with one of them. *)
Lemma unique_live_insert (leases : gmap string lease) mac (l0 : lease) t :
  (∀ m1 m2 l1 l2, m1 ≠ m2 → leases !! m1 = Some l1 → leases !! m2 = Some l2 →
     t < l_Expires l1 → t < l_Expires l2 → l_IP l1 ≠ l_IP l2) →
  (∀ m l, leases !! m = Some l → t < l_Expires l → l_IP l ≠ l_IP l0) →
  ∀ m1 m2 l1 l2, m1 ≠ m2 →
    <[mac := l0]> leases !! m1 = Some l1 → <[mac := l0]> leases !! m2 = Some l2 →
    t < l_Expires l1 → t < l_Expires l2 → l_IP l1 ≠ l_IP l2.
Proof.
  intros Hu Hnew m1 m2 l1 l2 Hne.
  intros [[<- <-]|[? H1]]%lookup_insert_Some [[? <-]|[? H2]]%lookup_insert_Some ??; try done.
  - intros E. by apply (Hnew m2 l2).
  - by apply (Hnew m1 l1).
  - by apply (Hu m1 m2 l1 l2).
Qed.

Lemma alloc_spec_unique s r mac s' o evs t :
  monotone r → t ≤ at_lookup r → unique_live s t → alloc_spec s r mac s' o evs →
  unique_live s' (at_grant r).
Proof.
  intros [Hm1 Hm2] Ht Hu Hs.
  assert (unique_live s (at_grant r)) as Hg by (eapply unique_live_mono; [|done]; lia).
  destruct Hs as [ip Hres|l|ip n _ _ Hip [_ Hfree] _ _|]; try done.
  - refine (unique_live_insert _ mac (granted s r ip) _ _ _).
    + intros m1 m2 l1 l2 ? [? _]%map_lookup_filter_Some [? _]%map_lookup_filter_Some ??.
      by apply (Hg m1 m2 l1 l2).
    + by intros m l [_ ?]%map_lookup_filter_Some _.
  - refine (unique_live_insert _ mac (granted s r ip) _ _ _); [done|].
    intros m l Hl Hlt E.
    destruct (Hfree m l Hl E) as (k & j & ?). specialize (Hm2 k j). lia.
Qed.

Lemma SetReservations_lookup s raw m ip :
  s_reservations (SetReservations s raw) !! m = Some ip →
  ∃ mac txt, raw !! mac = Some txt ∧ m = normalizeMAC mac ∧ To4 (ParseIP txt) = ip ∧
    v4 ip ∧ IPNet_Contains (subnet s) ip = true.
Proof.
  cbn [s_reservations SetReservations set_reservations].
  destruct (fold_insert_lookup (reservation_entry s) (map_range raw) ∅ m)
    as [->|([mac txt] & ip' & Hin & Hf & ->)]; [by rewrite lookup_empty|].
  intros [= ->]. apply elem_of_map_range in Hin. unfold reservation_entry in Hf.
  pose proof (v4_parsed txt) as Hv.
  destruct (To4 (ParseIP txt)) as [|x l] eqn:E; [done|].
  destruct (IPNet_Contains (subnet s) (x :: l)) eqn:Hc; [|done].
  simplify_eq/=. exists mac, txt. split_and!; auto.
Qed.

Lemma SetReservations_bound s raw mac txt :
  raw !! mac = Some txt → To4 (ParseIP txt) ≠ [] →
  IPNet_Contains (subnet s) (To4 (ParseIP txt)) = true →
  is_Some (s_reservations (SetReservations s raw) !! normalizeMAC mac).
Proof.
  intros Hraw Hv Hc. cbn [s_reservations SetReservations set_reservations].
  destruct (fold_insert_lookup_some (reservation_entry s) (map_range raw) ∅ (normalizeMAC mac))
    as (a & v & _ & _ & ->); [|by eexists].
  exists (mac, txt), (To4 (ParseIP txt)). rewrite elem_of_map_range. split; [done|].
  unfold reservation_entry. destruct (To4 (ParseIP txt)); [done|]. by rewrite Hc.
Qed.

Lemma reap_leases s now :
  s_leases (reap s now).1 = filter (λ e, now ≤ l_Expires e.2) (s_leases s).
Proof.
  cbn [reap fst set_leases set_pool s_leases].
  assert (∀ l (m : gmap string lease),
    fold_left (λ m e, delete e.1 m) (filter (λ e, l_Expires e.2 < now) l) m =
    fold_left (λ m e, if bool_decide (l_Expires e.2 < now) then delete e.1 m else m) l m) as ->.
  { induction l as [|e l IH]; intros m; [done|]. rewrite filter_cons. cbn [fold_left].
    case_decide; [rewrite bool_decide_true by done|rewrite bool_decide_false by done]; apply IH. }
  rewrite (fold_delete_filter (λ e : string * lease, bool_decide (l_Expires e.2 < now))).
  apply map_filter_ext. intros m l _. rewrite bool_decide_eq_false. cbn. lia.
Qed.

End allocate.

(** ** Reachable states *)

(** What other goroutines can do to a server, each in one critical section.
    The second component is the latest clock reading; the iteration order of
    the maps may differ at every step. *)
Inductive step `{U : GoUnicode} : Server * Z → Server * Z → Prop :=
  | step_allocate (MO : MapOrder) s t r mac s' o evs :
      monotone r → t ≤ at_lookup r → allocate s r mac = Ret (s', o, evs) →
      step (s, t) (s', at_grant r)
  | step_reap (MO : MapOrder) s t now :
      t ≤ now → step (s, t) ((reap s now).1, now)
  | step_SetReservations (MO : MapOrder) s t m :
      step (s, t) (SetReservations s m, t)
  | step_SetPXEOptions s t server file :
      step (s, t) (SetPXEOptions s server file, t)
  | step_SetMacPXEBootFiles (MO : MapOrder) s t m :
      step (s, t) (SetMacPXEBootFiles s m, t)
  | step_SetIPXEBootFile s t file : step (s, t) (SetIPXEBootFile s file, t)
  | step_SetUEFIBootFile s t file : step (s, t) (SetUEFIBootFile s file, t)
  | step_SetLegacyBootFile s t file : step (s, t) (SetLegacyBootFile s file, t)
  | step_OnLease s t cb : step (s, t) (OnLease s cb, t)
  | step_OnLeaseExpired s t cb : step (s, t) (OnLeaseExpired s cb, t).

(** The states of a server that [New] made at time [t0]. *)
Definition reachable `{U : GoUnicode} (s0 : Server) (t0 : Z) (s : Server) (t : Z) : Prop :=
  (∃ iface addr rs re dns d, New iface addr rs re dns d = Ok s0) ∧ rtc step (s0, t0) (s, t).

(** What never changes after [New]. *)
Definition same_config (s s' : Server) : Prop :=
  s_iface s' = s_iface s ∧ s_serverIP s' = s_serverIP s ∧ s_mask s' = s_mask s ∧
  s_rangeStart s' = s_rangeStart s ∧ s_rangeEnd s' = s_rangeEnd s ∧ s_dns s' = s_dns s ∧
  s_lease s' = s_lease s ∧ s_router s' = s_router s.

Section reachable.
Context `{U : GoUnicode}.

Lemma New_wf iface addr rs re dns d s :
  New iface addr rs re dns d = Ok s →
  wf s ∧ s_leases s = ∅ ∧ s_nextIP s = s_rangeStart s.
Proof.
  unfold New, dupIP. destruct (ParseCIDR addr) as [[sIP sNet]|]; [|done].
  destruct (parse_dns dns) as [e|l]; [done|].
  pose proof (v4_parsed rs) as H1. pose proof (v4_parsed re) as H2.
  destruct (To4 (ParseIP rs)) as [|a x]; [done|]. destruct (To4 (ParseIP re)) as [|b y]; [done|].
  assert (v4 (a :: x)) as Hv1 by auto. assert (v4 (b :: y)) as Hv2 by auto.
  intros [= <-]. split; [|done]. split; cbn; try done.
  - set (s := Build_Server _ _ _ _ _ _ _ _ _ _ _ _ _ _ _ _ _ _ _). exists 0.
    pose proof (pool_size_range s Hv1 Hv2). split; [lia|]. split; [done|].
    unfold pool_at. pose proof (ip_value_range _ Hv1). rewrite Z.add_0_r.
    change (s_rangeStart s) with (a :: x). rewrite Z.mod_small; [done|lia].
Qed.

Lemma allocate_inv `{MO : MapOrder} s r mac s' o evs :
  wf s → allocate s r mac = Ret (s', o, evs) → alloc_spec s r mac s' o evs.
Proof.
  intros Hwf E. destruct (allocate_spec s r mac Hwf) as (? & ? & ? & E' & H). congruence.
Qed.

Lemma alloc_spec_config s r mac s' o evs :
  alloc_spec s r mac s' o evs → same_config s s'.
Proof. by intros []. Qed.

Lemma step_inv s t s' t' :
  step (s, t) (s', t') → wf s ∧ unique_live s t →
  wf s' ∧ unique_live s' t' ∧ t ≤ t' ∧ same_config s s'.
Proof.
  intros Hstep [Hwf Hu].
  assert (∀ f, wf f → s_leases f = s_leases s → same_config s f →
    wf f ∧ unique_live f t ∧ t ≤ t ∧ same_config s f) as Hset.
  { intros f Hf E Hc. split_and!; [done| |lia|done]. unfold unique_live. by rewrite E. }
  inversion Hstep as [MO ??? mac ? o evs Hm Ht Ha| | | | | | | | |]; subst; clear Hstep;
    try (apply Hset; [by destruct Hwf|done|done]).
  - apply allocate_inv in Ha; [|done]. split_and!.
    + by eapply alloc_spec_wf.
    + by eapply alloc_spec_unique.
    + destruct Hm as [? _]. lia.
    + by eapply alloc_spec_config.
  - split_and!; [| |done|done].
    + apply wf_set_pool; [done| |by apply wf_next]. intros m l Hl.
      assert (s_leases (reap s t').1 !! m = Some l) as Hl' by done.
      rewrite reap_leases in Hl'. apply map_lookup_filter_Some in Hl' as [? _].
      by eapply wf_leases.
    + change (unique_live (reap s t').1 t'). unfold unique_live. rewrite reap_leases.
      intros m1 m2 l1 l2 ? [? _]%map_lookup_filter_Some [? _]%map_lookup_filter_Some ??.
      apply (Hu m1 m2 l1 l2); auto; lia.
  - apply Hset; [|done|done]. destruct Hwf; split; try done.
    intros k ip Hk. apply SetReservations_lookup in Hk. naive_solver.
Qed.

Lemma rtc_inv x y :
  rtc step x y → wf x.1 ∧ unique_live x.1 x.2 →
  wf y.1 ∧ unique_live y.1 y.2 ∧ x.2 ≤ y.2 ∧ same_config x.1 y.1.
Proof.
  induction 1 as [[s t]|[s t] [s1 t1] [s2 t2] Hs Hr IH]; cbn [fst snd] in *; intros Hi.
  { destruct Hi. by split_and!. }
  destruct (step_inv _ _ _ _ Hs Hi) as (Hwf & Hu & Ht & Hc).
  destruct (IH (conj Hwf Hu)) as (? & ? & ? & Hc'). split_and!; [done|done|lia|].
  unfold same_config in *. split_and_all. split_and!; congruence.
Qed.

Lemma reachable_inv s0 t0 s t :
  reachable s0 t0 s t → wf s ∧ unique_live s t ∧ t0 ≤ t ∧ same_config s0 s.
Proof.
  intros [(iface & addr & rs & re & dns & d & H0) Hr].
  destruct (New_wf _ _ _ _ _ _ _ H0) as (Hwf & Hl & _).
  apply (rtc_inv _ _ Hr). split; [done|]. unfold unique_live. cbn. by rewrite Hl.
Qed.
End reachable.

(** ** The properties of the component *)

(** C1: whatever the clients ask, however the maps are iterated and whenever the
    settings change, a server made by [New] never has two clients with live
    leases of the same address. *)
Theorem no_duplicate_leases `{U : GoUnicode} s0 t0 s t :
  reachable s0 t0 s t → unique_live s t.
Proof. by intros (_ & ? & _)%reachable_inv. Qed.

(** C2: in every reachable state [allocate] returns, without panic and within
    the fuel the model gives its scan, and what it does is one of the four
    cases of [alloc_spec]: the client's reservation, its own live lease, a free
    address of the pool, or nil because the whole pool is taken. *)
Theorem allocate_refines `{U : GoUnicode} `{MO : MapOrder} s0 t0 s t r mac :
  reachable s0 t0 s t →
  ∃ s' o evs, allocate s r mac = Ret (s', o, evs) ∧ alloc_spec s r mac s' o evs.
Proof. intros (Hwf & _)%reachable_inv. by apply allocate_spec. Qed.

(** while a client holds a live lease, an address handed to another client
    differs from it, unless the address is reserved for that other client. *)
Theorem allocate_exclusive `{U : GoUnicode} `{MO : MapOrder} s0 t0 s t r m1 m2 l1 s' ip evs :
  reachable s0 t0 s t → monotone r → t ≤ at_lookup r → m1 ≠ m2 →
  s_leases s !! m1 = Some l1 → at_grant r < l_Expires l1 →
  allocate s r m2 = Ret (s', Some ip, evs) →
  ip ≠ l_IP l1 ∨ s_reservations s !! normalizeMAC m2 = Some ip.
Proof.
  intros (Hwf & Hu & _)%reachable_inv [Hm1 Hm2] Ht Hne Hl1 Hlive Ha.
  apply allocate_inv in Ha; [|done].
  inversion Ha as [ip' Hr|l _ Hl Hll|ip' n _ _ _ [_ Hf] _ _|]; subst; [by right|left|left].
  - intros E. apply (Hu m1 m2 l1 l); auto; lia.
  - intros ->. destruct (Hf m1 l1 Hl1 eq_refl) as (k & j & ?). specialize (Hm2 k j). lia.
Qed.

(** C3: [allocate] fails only when it must.  If it returns nil, the client has
    neither reservation nor live lease, and every address of the pool was
    reserved or under a lease live when the call began.  If some address of the
    pool is not reserved and every lease of it has expired before the call,
    [allocate] returns an address. *)
Theorem allocate_complete `{U : GoUnicode} `{MO : MapOrder} s0 t0 s t r mac :
  reachable s0 t0 s t → monotone r →
  (∀ s' evs, allocate s r mac = Ret (s', None, evs) →
     s' = s ∧ evs = [] ∧ s_reservations s !! normalizeMAC mac = None ∧
     no_live_lease s r mac ∧
     ∀ ip, in_pool s ip →
       (∃ m, s_reservations s !! m = Some ip) ∨
       ∃ m l, s_leases s !! m = Some l ∧ l_IP l = ip ∧ at_lookup r < l_Expires l) ∧
  (∀ ip, in_pool s ip → (∀ m, s_reservations s !! m ≠ Some ip) →
     (∀ m l, s_leases s !! m = Some l → l_IP l = ip → l_Expires l ≤ at_lookup r) →
     ∃ s' ip' evs, allocate s r mac = Ret (s', Some ip', evs)).
Proof.
  intros (Hwf & _)%reachable_inv [Hm1 Hm2]. split.
  - intros s' evs Ha. apply allocate_inv in Ha; [|done].
    inversion Ha as [| | |Hr Hl Hall]; subst. split_and!; try done. intros ip Hip.
    destruct (Hall ip Hip) as [?|(m & l & k & j & ? & ? & ?)]; [by left|right].
    exists m, l. specialize (Hm2 k j). split_and!; [done|done|lia].
  - intros ip Hip Hnr Hnl.
    destruct (allocate_spec s r mac Hwf) as (s' & o & evs & -> & Ha).
    destruct o as [ip'|]; [by eauto|]. inversion Ha as [| | |Hr Hl Hall]; subst.
    destruct (Hall ip Hip) as [[m ?]|(m & l & k & j & Hml & E & ?)]; [by destruct (Hnr m)|].
    specialize (Hnl m l Hml E). specialize (Hm2 k j). lia.
Qed.

(** when the configured range is in order and stops short of the broadcast
    address, a client without reservation and without live lease is given an
    address of the range that is reserved for nobody, and the client's new
    lease of it runs for the full lease time. *)
Theorem allocate_in_range `{U : GoUnicode} `{MO : MapOrder} s0 t0 s t r mac s' ip evs :
  reachable s0 t0 s t →
  ip_value (s_rangeStart s0) ≤ ip_value (s_rangeEnd s0) < max_ip →
  s_reservations s !! normalizeMAC mac = None → no_live_lease s r mac →
  allocate s r mac = Ret (s', Some ip, evs) →
  ip_value (s_rangeStart s0) ≤ ip_value ip ≤ ip_value (s_rangeEnd s0) ∧
  (∀ m, s_reservations s !! m ≠ Some ip) ∧
  s_leases s' !! mac = Some {| l_IP := ip; l_Expires := at_grant r + s_lease s0 |} ∧
  evs = lease_event s ip mac.
Proof.
  intros (Hwf & _ & _ & Hc)%reachable_inv Hr Hnr Hnl Ha.
  apply allocate_inv in Ha; [|done].
  assert (s_rangeStart s = s_rangeStart s0 ∧ s_rangeEnd s = s_rangeEnd s0 ∧
    s_lease s = s_lease s0) as (Es & Ee & El) by (unfold same_config in Hc; tauto).
  inversion Ha as [|l _ Hl Hll|ip' n _ _ Hip [Hf _] _ _|]; subst; [congruence| |].
  { specialize (Hnl l Hl). lia. }
  apply in_pool_range in Hip as [_ Hip]; [|by eauto with gorouter..|by rewrite Es, Ee].
  rewrite Es, Ee in Hip. split_and!; try done; try lia.
  cbn. rewrite lookup_insert_eq. unfold granted. by rewrite El.
Qed.

(** C5: the state keeps its types.  Whatever happens to a server that [New]
    made, the bounds of its pool are four bytes each, the next address to try
    lies in the pool, every lease and every reservation holds an address of four
    bytes, and what the configuration fixed (the interface, the address, the
    mask, the pool, the DNS servers, the lease time and the router) is as [New]
    left it. *)
Theorem reachable_wf `{U : GoUnicode} s0 t0 s t :
  reachable s0 t0 s t → wf s ∧ same_config s0 s ∧ t0 ≤ t.
Proof. by intros (? & _ & ? & ?)%reachable_inv. Qed.

(** on IPv4 addresses [incIP] adds one modulo 2^32 and [ipGreater] compares
    the addresses as numbers. *)
Theorem ip_arithmetic a b :
  v4 a → v4 b →
  v4 (incIP a) ∧ ip_value (incIP a) = (ip_value a + 1) mod 2 ^ 32 ∧
  ipGreater a b = Ret (ip_value b <? ip_value a).
Proof.
  intros Ha Hb. destruct (incIP_spec a Ha) as [H1 H2].
  split_and!; [done|exact H2|by apply ipGreater_spec].
Qed.

(** [SetReservations] keeps exactly the reservations with an IPv4 address of
    the server's subnet, under the normalized MAC address, whatever order the
    map is iterated in; nothing else of the server changes. *)
Theorem SetReservations_correct `{U : GoUnicode} `{MO : MapOrder} s raw :
  (∀ m ip, s_reservations (SetReservations s raw) !! m = Some ip →
     ∃ mac txt, raw !! mac = Some txt ∧ m = normalizeMAC mac ∧ To4 (ParseIP txt) = ip ∧
       v4 ip ∧ IPNet_Contains (subnet s) ip = true) ∧
  (∀ mac txt, raw !! mac = Some txt → To4 (ParseIP txt) ≠ [] →
     IPNet_Contains (subnet s) (To4 (ParseIP txt)) = true →
     (∀ mac' txt', raw !! mac' = Some txt' → normalizeMAC mac' = normalizeMAC mac → mac' = mac) →
     s_reservations (SetReservations s raw) !! normalizeMAC mac = Some (To4 (ParseIP txt))) ∧
  s_leases (SetReservations s raw) = s_leases s ∧
  s_nextIP (SetReservations s raw) = s_nextIP s ∧ same_config s (SetReservations s raw).
Proof.
  split_and!; try done.
  - intros m ip. apply SetReservations_lookup.
  - intros mac txt Hraw Hv Hc Huniq.
    destruct (SetReservations_bound s raw mac txt Hraw Hv Hc) as [ip Hip].
    rewrite Hip. apply SetReservations_lookup in Hip as (mac' & txt' & Hraw' & Hn & <- & _).
    rewrite (Huniq mac' txt' Hraw' (eq_sym Hn)) in Hraw'. by simplify_eq.
Qed.

(** a tick of the reaper removes exactly the leases that have expired and
    calls the callback, if one is registered, exactly once for each of them. *)
Theorem reap_correct `{MO : MapOrder} s now :
  let '(s', evs) := reap s now in
  s_leases s' = filter (λ e, now ≤ l_Expires e.2) (s_leases s) ∧
  s_nextIP s' = s_nextIP s ∧ s_reservations s' = s_reservations s ∧ same_config s s' ∧
  (s_onLeaseExpired s = false → evs = []) ∧
  (s_onLeaseExpired s = true → NoDup evs ∧ ∀ ev, ev ∈ evs ↔
     ∃ m l, s_leases s !! m = Some l ∧ l_Expires l < now ∧ ev = EvLeaseExpired (l_IP l) m).
Proof.
  cbn [reap]. split_and!; try done.
  - apply reap_leases.
  - by intros ->.
  - intros ->. unfold dupIP. split.
    + apply NoDup_fmap_2_strong.
      * intros [m l] [m' l'] [_ H1]%list_elem_of_filter [_ H2]%list_elem_of_filter [= _ ->].
        apply elem_of_map_range in H1, H2. congruence.
      * apply NoDup_filter, NoDup_map_range_entries.
    + intros ev. rewrite list_elem_of_fmap. split.
      * intros ([m l] & -> & [? Hin]%list_elem_of_filter). apply elem_of_map_range in Hin.
        by exists m, l.
      * intros (m & l & ? & ? & ->). exists (m, l).
        rewrite list_elem_of_filter, elem_of_map_range. done.
Qed.

(** The address a client is answered at. *)
Definition no_address (peer : Addr) : Prop :=
  ∃ a, peer = AddrUDP a ∧ (udp_IP a = [] ∨ To4 (udp_IP a) = [0; 0; 0; 0]).

Lemma reply_dst_spec peer :
  (no_address peer ∧
   reply_dst peer = AddrUDP {| udp_IP := IPv4bcast; udp_Port := 68; udp_Zone := "" |}) ∨
  (¬ no_address peer ∧ reply_dst peer = peer).
Proof.
  unfold reply_dst, no_address. destruct peer as [a|i]; [|right; naive_solver].
  assert (IP_Equal (To4 (udp_IP a)) IPv4zero = true ↔ To4 (udp_IP a) = [0; 0; 0; 0]) as Hz.
  { pose proof (To4_length (udp_IP a)) as Hl. destruct (To4 (udp_IP a)) as [|x y] eqn:E; [done|].
    rewrite <-E in *. unfold IP_Equal. rewrite Hl by (by rewrite E). cbn -[To4 list_eqb].
    apply list_eqb_eq. }
  destruct (udp_IP a) as [|x l] eqn:E; cbn [orb].
  { left. split; [|done]. exists a. auto. }
  destruct (IP_Equal (To4 (x :: l)) IPv4zero).
  - left. split; [|done]. exists a. rewrite E. split; [done|right]. by apply Hz.
  - right. split; [|done]. intros (a' & [= <-] & [H|H]); rewrite E in H; [done|].
    apply Hz in H. done.
Qed.

Lemma alloc_spec_holds `{U : GoUnicode} s r mac s' ip evs :
  alloc_spec s r mac s' (Some ip) evs →
  (∃ l, s_leases s' !! mac = Some l ∧ l_IP l = ip) ∧ (∀ m p d, EvSend m p d ∉ evs).
Proof.
  intros H. split.
  - inversion H; subst; cbn; rewrite ?lookup_insert_eq; eexists; done.
  - unfold lease_event in *. intros m p d Hin. inversion H; subst; revert Hin;
      unfold lease_event; try case_if; set_solver.
Qed.

(** What every packet among the events [evs] of a request is an answer to. *)
Definition answers `{U : GoUnicode} `{MO : MapOrder} (s : Server) (r : readings)
    (new_reply : Request → list modifier → option string) (others : Server → Server)
    (peer : Addr) (req : Request) (s' : Server) (evs : list event) : Prop :=
  let mac := HardwareAddr_String (q_ClientHWAddr req) in
  ∀ mods packet dst, EvSend mods packet dst ∈ evs →
    q_OpCode req = OpcodeBootRequest ∧
    ∃ s1 ip l evs1, allocate s r mac = Ret (s1, Some ip, evs1) ∧ s' = others s1 ∧
      evs = evs1 ++ [EvSend mods packet dst] ∧ (∀ m p d, EvSend m p d ∉ evs1) ∧
      s_leases s1 !! mac = Some l ∧ l_IP l = ip ∧
      new_reply req mods = Some packet ∧
      (∃ ty, mods = reply_modifiers s1 ty ip ++ replyOptions s' mac req ∧
         (q_MessageType req = MessageTypeDiscover ∧ ty = MessageTypeOffer ∨
          q_MessageType req = MessageTypeRequest ∧ ty = MessageTypeAck)) ∧
      (no_address peer ∧
         dst = AddrUDP {| udp_IP := IPv4bcast; udp_Port := 68; udp_Zone := "" |} ∨
       ¬ no_address peer ∧ dst = peer).


Section spelling.
Context `{U : GoUnicode} `{MO : MapOrder}.

(** The text of an address is its own normal form. *)
Lemma normalizeMAC_hw hw :
  Forall is_byte hw → normalizeMAC (HardwareAddr_String hw) = HardwareAddr_String hw.
Proof. intros Hhw. unfold normalizeMAC. by apply normalize_mac_text, HardwareAddr_String_text. Qed.

(** No two keys of a map are spellings of the address [hw] unless they are equal:
    the entry of [mac] is the only one for it. *)
Definition only_spelling {V} (m : gmap string V) (mac : string) (hw : HardwareAddr) : Prop :=
  normalizeMAC mac = HardwareAddr_String hw ∧
  ∀ mac' v, m !! mac' = Some v → normalizeMAC mac' = normalizeMAC mac → mac' = mac.

Lemma reserved_lookup s raw mac txt hw :
  raw !! mac = Some txt → only_spelling raw mac hw → Forall is_byte hw →
  To4 (ParseIP txt) ≠ [] → IPNet_Contains (subnet s) (To4 (ParseIP txt)) = true →
  s_reservations (SetReservations s raw) !! normalizeMAC (HardwareAddr_String hw) =
    Some (To4 (ParseIP txt)).
Proof.
  intros Hraw [Hn Huniq] Hhw Hv Hc. rewrite normalizeMAC_hw, <-Hn by done.
  destruct (SetReservations_bound s raw mac txt Hraw Hv Hc) as [ip Hip]. rewrite Hip.
  apply SetReservations_lookup in Hip as (mac' & txt' & Hraw' & Hn' & <- & _).
  rewrite (Huniq mac' txt' Hraw' (eq_sym Hn')) in Hraw'. by simplify_eq.
Qed.

Lemma mac_file_lookup s files mac file hw :
  files !! mac = Some file → only_spelling files mac hw → Forall is_byte hw →
  s_macPXEBootFiles (SetMacPXEBootFiles s files) !! normalizeMAC (HardwareAddr_String hw) = Some file.
Proof.
  intros Hf [Hn Huniq] Hhw. rewrite normalizeMAC_hw, <-Hn by done.
  cbn [SetMacPXEBootFiles set_boot s_macPXEBootFiles].
  destruct (fold_insert_lookup_some (λ e : string * string, Some (normalizeMAC e.1, e.2))
    (map_range files) ∅ (normalizeMAC mac)) as ([m x] & v & Hin & E & ->).
  { exists (mac, file), file. by rewrite elem_of_map_range. }
  cbn in E. apply elem_of_map_range in Hin. injection E as Em ->.
  rewrite (Huniq m v Hin Em) in Hin. congruence.
Qed.

(** What a server with a boot file for the address tells its client. *)
Lemma mac_file_options s hw file req f :
  s_macPXEBootFiles s !! normalizeMAC (HardwareAddr_String hw) = Some file → file ≠ "" →
  OptBootFileName f ∈ replyOptions s (HardwareAddr_String hw) req ↔
  f = if negb (String.eqb (s_ipxeBootFile s) "") && isIPXEClient req
      then s_ipxeBootFile s else file.
Proof.
  intros Hl Hne. unfold replyOptions, select_boot_file. rewrite Hl, elem_of_app.
  destruct (_ && _) eqn:Ei.
  - apply andb_true_iff in Ei as [-> _]. case_match; set_solver.
  - destruct (String.eqb_spec file ""); [done|]. cbn. case_match; set_solver.
Qed.
End spelling.

(** a static reservation written in any spelling of a client's MAC address
    is honoured: the client is given exactly that address for the full lease
    time, and no other client keeps a lease of it. *)
Theorem reservation_honoured `{U : GoUnicode} `{MO : MapOrder} s0 t0 s t r raw mac txt hw :
  reachable s0 t0 s t →
  raw !! mac = Some txt → normalizeMAC mac = HardwareAddr_String hw →
  (∀ mac' txt', raw !! mac' = Some txt' → normalizeMAC mac' = normalizeMAC mac → mac' = mac) →
  Forall is_byte hw → To4 (ParseIP txt) ≠ [] →
  IPNet_Contains (subnet s) (To4 (ParseIP txt)) = true →
  ∃ s', allocate (SetReservations s raw) r (HardwareAddr_String hw) =
      Ret (s', Some (To4 (ParseIP txt)),
           lease_event s (To4 (ParseIP txt)) (HardwareAddr_String hw)) ∧
    ∀ m l, s_leases s' !! m = Some l → l_IP l = To4 (ParseIP txt) →
      m = HardwareAddr_String hw ∧ l_Expires l = at_grant r + s_lease s.
Proof.
  intros Hreach Hraw Hn Huniq Hhw Hv Hc.
  assert (wf (SetReservations s raw)) as Hwf.
  { destruct Hreach as [HN Hr]. apply (reachable_inv s0 t0 _ t). split; [done|].
    eapply rtc_r; [exact Hr|]. constructor. }
  pose proof (reserved_lookup s raw mac txt hw Hraw (conj Hn Huniq) Hhw Hv Hc) as Hres.
  destruct (allocate_spec (SetReservations s raw) r (HardwareAddr_String hw) Hwf)
    as (s' & o & evs & -> & Ha).
  inversion Ha as [ip Hip| | |]; subst; try congruence.
  assert (ip = To4 (ParseIP txt)) as -> by congruence. eexists. split; [done|].
  intros m l Hl E. cbn [set_leases set_pool s_leases] in Hl.
  apply lookup_insert_Some in Hl as [[<- <-]|[_ [_ Hf]%map_lookup_filter_Some]]; [done|].
  by destruct (Hf E).
Qed.

(** a boot file assigned to any spelling of a client's MAC address is the
    one the client is offered in option 67, whatever its architecture; only a
    client that already runs iPXE gets the iPXE boot file instead. *)
Theorem mac_boot_file_served `{U : GoUnicode} `{MO : MapOrder} s files mac file hw req :
  files !! mac = Some file → normalizeMAC mac = HardwareAddr_String hw →
  (∀ mac' f, files !! mac' = Some f → normalizeMAC mac' = normalizeMAC mac → mac' = mac) →
  Forall is_byte hw → file ≠ "" →
  (∀ f, OptBootFileName f ∈ replyOptions (SetMacPXEBootFiles s files) (HardwareAddr_String hw) req ↔
     f = if negb (String.eqb (s_ipxeBootFile s) "") && isIPXEClient req
         then s_ipxeBootFile s else file).
Proof.
  intros Hf Hn Huniq Hhw Hne f.
  apply (mac_file_options (SetMacPXEBootFiles s files)); [by apply (mac_file_lookup s files mac)|done].
Qed.

(** a REQUEST from a client whose lease is still live is acknowledged with
    the same address and changes nothing in the server: in particular the lease
    keeps its old expiry time, although the acknowledgement announces the full
    lease time again. *)
Theorem renewal_keeps_expiry `{U : GoUnicode} `{MO : MapOrder} s r new_reply peer req l packet :
  let mac := HardwareAddr_String (q_ClientHWAddr req) in
  q_OpCode req = OpcodeBootRequest → q_MessageType req = MessageTypeRequest →
  s_reservations s !! normalizeMAC mac = None →
  s_leases s !! mac = Some l → at_lookup r < l_Expires l →
  (∀ mods, new_reply req mods = Some packet) →
  ∃ mods, handler new_reply (λ s, s) s r peer req =
      Ret (s, [EvSend mods packet (reply_dst peer)]) ∧
    WithMessageType MessageTypeAck ∈ mods ∧ WithYourIP (l_IP l) ∈ mods ∧
    OptIPAddressLeaseTime (s_lease s) ∈ mods.
Proof.
  intros mac Ho Ht Hr Hl Hlive Hp. unfold handler. fold mac. rewrite Ho, Ht. cbn -[mac].
  unfold allocate. rewrite Hr, Hl, (proj2 (Z.ltb_lt _ _) Hlive). cbn -[mac].
  rewrite Hp. eexists. split; [reflexivity|]. set_solver.
Qed.

(** ** A concrete server *)

Definition fallback_server : Server := {|
  s_iface := ""; s_serverIP := []; s_mask := []; s_rangeStart := [0;0;0;0];
  s_rangeEnd := [0;0;0;0]; s_dns := []; s_lease := 0; s_router := []; s_leases := ∅;
  s_nextIP := [0;0;0;0]; s_reservations := ∅; s_pxeBootServer := []; s_pxeBootFile := "";
  s_macPXEBootFiles := ∅; s_ipxeBootFile := ""; s_uefiBootFile := ""; s_legacyBootFile := "";
  s_onLease := false; s_onLeaseExpired := false |}.

(** A server with the range 10.0.0.100 to 10.0.0.[last] and leases of an
    hour. *)
Definition demo_server (last : string) : Server :=
  match New "lan" "10.0.0.1/24" "10.0.0.100" ("10.0.0." +:+ last) ["1.1.1.1"] (3600 * second) with
  | Ok s => s
  | Err _ => fallback_server
  end.

Section demo.
Let U : GoUnicode := ascii_unicode.
Let MO : MapOrder := canonical_order.
#[local] Existing Instance U.
#[local] Existing Instance MO.

Definition demo_hw (n : Z) : HardwareAddr := [2; 0; 0; 0; 0; n].
Definition demo_peer : Addr := AddrUDP {| udp_IP := [0;0;0;0]; udp_Port := 68; udp_Zone := "" |}.
Definition demo_request (hw : HardwareAddr) : Request := {|
  q_OpCode := OpcodeBootRequest; q_MessageType := MessageTypeRequest;
  q_ClientHWAddr := hw; q_Options := λ _, [] |}.

(** One REQUEST served at time [t]. *)
Definition demo_serve (s : Server) (t : Z) (hw : HardwareAddr) : Server * list event :=
  match handler (λ _ _, Some "packet") (λ s, s) s (instant t) demo_peer (demo_request hw) with
  | Ret r => r
  | _ => (s, [])
  end.

Definition demo_run (s : Server) (t : Z) (mac : string) : Server :=
  match allocate s (instant t) mac with Ret (s', _, _) => s' | _ => s end.

(** What an acknowledgement promises: an address and a lease time. *)
Definition promised (evs : list event) : list (IP * Z) :=
  omap (λ ev, match ev with
    | EvSend [WithMessageType ty; _; WithYourIP ip; _; _; _; OptIPAddressLeaseTime d; _] _ _ =>
        if ty =? MessageTypeAck then Some (ip, d) else None
    | _ => None
    end) evs.

Lemma monotone_instant t : monotone (instant t).
Proof. split; cbn; [lia|intros; lia]. Qed.

Lemma demo_reachable last t :
  New "lan" "10.0.0.1/24" "10.0.0.100" ("10.0.0." +:+ last) ["1.1.1.1"] (3600 * second) =
    Ok (demo_server last) →
  reachable (demo_server last) t (demo_server last) t.
Proof. intros H. split; [by do 6 eexists|constructor]. Qed.

Lemma reachable_run s0 t0 s t t' mac :
  reachable s0 t0 s t → t ≤ t' → reachable s0 t0 (demo_run s t' mac) t'.
Proof.
  intros Hr Ht. pose proof (reachable_inv _ _ _ _ Hr) as (Hwf & _).
  destruct (allocate_spec s (instant t') mac Hwf) as (s' & o & evs & E & _).
  unfold demo_run. rewrite E. destruct Hr as [HN Hr]. split; [done|].
  eapply rtc_r; [exact Hr|]. eapply (step_allocate MO s t (instant t') mac s' o evs);
    [apply monotone_instant|done|done].
Qed.
End demo.

(** renewing does not extend a lease, and the address is then handed to a
    second client while the first has been promised it: with a pool of one
    address, client 1 is acknowledged 10.0.0.100 for an hour at second 3000,
    and client 2 is acknowledged the same address at second 3601. *)
Example renewed_lease_conflict :
  let s0 := demo_server "100" in
  let s1 := (demo_serve s0 0 (demo_hw 1)).1 in
  let '(s2, evs2) := demo_serve s1 (3000 * second) (demo_hw 1) in
  let '(s3, evs3) := demo_serve s2 (3601 * second) (demo_hw 2) in
  promised evs2 = [([10; 0; 0; 100], 3600 * second)] ∧
  promised evs3 = [([10; 0; 0; 100], 3600 * second)] ∧
  3601 * second < 3000 * second + 3600 * second.
Proof. vm_compute. done. Qed.

Lemma no_duplicate_leases_witness :
  let s := demo_run (demo_run (demo_server "101") 5 "a") 7 "b" in
  size (s_leases s) = 2%nat ∧ unique_live s 7.
Proof.
  split; [vm_compute; reflexivity|].
  apply (no_duplicate_leases (U := ascii_unicode) (demo_server "101") 0).
  eapply reachable_run; [eapply reachable_run; [apply demo_reachable|]|];
    [vm_compute; reflexivity|lia|lia].
Defined.

Lemma reachable_wf_witness :
  let s := demo_run (demo_server "101") 5 "a" in
  reachable (U := ascii_unicode) (demo_server "101") 0 s 5 ∧ wf s ∧ s_nextIP s = [10; 0; 0; 101].
Proof.
  assert (reachable (U := ascii_unicode) (demo_server "101") 0 (demo_run (demo_server "101") 5 "a") 5) as H.
  { apply (reachable_run (demo_server "101") 0 (demo_server "101") 0 5 "a"); [by apply demo_reachable|lia]. }
  split; [exact H|]. split; [|by vm_compute].
  destruct (reachable_wf (U := ascii_unicode) _ _ _ _ H) as [Hwf _]. exact Hwf.
Defined.

Lemma allocate_refines_witness :
  ∃ s' o evs,
    allocate (U := ascii_unicode) (MO := canonical_order) (demo_server "101") (instant 3) "a" =
      Ret (s', o, evs) ∧
    alloc_spec (U := ascii_unicode) (demo_server "101") (instant 3) "a" s' o evs.
Proof.
  apply (allocate_refines (U := ascii_unicode) (MO := canonical_order) (demo_server "101") 0 _ 0).
  apply demo_reachable. vm_compute; reflexivity.
Defined.

Lemma allocate_exclusive_witness :
  ∃ s' evs,
    allocate (U := ascii_unicode) (MO := canonical_order)
      (demo_run (demo_server "101") 5 "a") (instant 7) "b" = Ret (s', Some [10;0;0;101], evs) ∧
    ([10;0;0;101] ≠ [10;0;0;100] ∨
     s_reservations (demo_run (demo_server "101") 5 "a") !! normalizeMAC (U := ascii_unicode) "b"
       = Some [10;0;0;101]).
Proof.
  destruct (allocate (U := ascii_unicode) (MO := canonical_order)
      (demo_run (demo_server "101") 5 "a") (instant 7) "b") as [[[s' o] evs]| |] eqn:E;
    [|vm_compute in E; discriminate..].
  assert (o = Some [10;0;0;101]) as -> by (vm_compute in E; congruence).
  exists s', evs. split; [reflexivity|].
  eapply (allocate_exclusive (U := ascii_unicode) (MO := canonical_order) (demo_server "101") 0
    (demo_run (demo_server "101") 5 "a") 5 (instant 7) "a" "b"
    {| l_IP := [10;0;0;100]; l_Expires := 5 + 3600 * second |} s' [10;0;0;101] evs).
  - eapply reachable_run; [apply demo_reachable; vm_compute; reflexivity|lia].
  - apply monotone_instant.
  - cbn; lia.
  - discriminate.
  - vm_compute; reflexivity.
  - vm_compute; reflexivity.
  - exact E.
Defined.

Lemma allocate_complete_witness :
  ∃ s' ip evs,
    allocate (U := ascii_unicode) (MO := canonical_order)
      (demo_run (demo_server "100") 5 "a") (instant (4000 * second)) "b" = Ret (s', Some ip, evs).
Proof.
  assert (s_leases (demo_run (demo_server "100") 5 "a") =
    {["a" := {| l_IP := [10;0;0;100]; l_Expires := 5 + 3600 * second |}]}) as El
    by (vm_compute; reflexivity).
  assert (s_reservations (demo_run (demo_server "100") 5 "a") = ∅) as Er
    by (vm_compute; reflexivity).
  eapply (allocate_complete (U := ascii_unicode) (MO := canonical_order) (demo_server "100") 0
    (demo_run (demo_server "100") 5 "a") 5 (instant (4000 * second)) "b") with (ip := [10;0;0;100]).
  - eapply reachable_run; [apply demo_reachable; vm_compute; reflexivity|lia].
  - apply monotone_instant.
  - exists 0. split; [vm_compute; split; congruence|].
    split; [|vm_compute; reflexivity].
    split; [reflexivity|]. repeat constructor; unfold is_byte; lia.
  - intros m. by rewrite Er, lookup_empty.
  - intros m l Hl _. rewrite El in Hl. apply lookup_singleton_Some in Hl as [_ <-].
    vm_compute. congruence.
Defined.

Lemma allocate_in_range_witness :
  ∃ s' evs,
    allocate (U := ascii_unicode) (MO := canonical_order) (demo_server "101") (instant 3) "a" =
      Ret (s', Some [10;0;0;100], evs) ∧
    s_leases s' !! "a" = Some {| l_IP := [10;0;0;100]; l_Expires := 3 + s_lease (demo_server "101") |}.
Proof.
  destruct (allocate (U := ascii_unicode) (MO := canonical_order) (demo_server "101") (instant 3) "a")
    as [[[s' o] evs]| |] eqn:E; [|vm_compute in E; discriminate..].
  assert (o = Some [10;0;0;100]) as -> by (vm_compute in E; congruence).
  exists s', evs. split; [reflexivity|].
  eapply (allocate_in_range (U := ascii_unicode) (MO := canonical_order) (demo_server "101") 0
    (demo_server "101") 0 (instant 3) "a" s' [10;0;0;100] evs).
  - apply demo_reachable. vm_compute; reflexivity.
  - vm_compute. split; congruence.
  - vm_compute; reflexivity.
  - intros l Hl. vm_compute in Hl. discriminate.
  - exact E.
Defined.

Lemma ip_arithmetic_witness :
  ip_value (incIP [10; 0; 255; 255]) = (ip_value [10; 0; 255; 255] + 1) mod 2 ^ 32 ∧
  incIP [10; 0; 255; 255] = [10; 1; 0; 0].
Proof.
  assert (v4 [10; 0; 255; 255]) as H.
  { split; [reflexivity|]. repeat constructor; unfold is_byte; lia. }
  destruct (ip_arithmetic [10; 0; 255; 255] [10; 0; 255; 255] H H) as (_ & E & _).
  split; [exact E|reflexivity].
Defined.


Lemma reservation_honoured_witness :
  ∃ s' evs,
    allocate (U := ascii_unicode) (MO := canonical_order)
      (SetReservations (U := ascii_unicode) (MO := canonical_order) (demo_server "101")
         {["02-00-00-00-00-0A" := "10.0.0.7"]})
      (instant 3) (HardwareAddr_String (demo_hw 10)) = Ret (s', Some [10; 0; 0; 7], evs).
Proof.
  destruct (reservation_honoured (U := ascii_unicode) (MO := canonical_order) (demo_server "101") 0
    (demo_server "101") 0 (instant 3) {["02-00-00-00-00-0A" := "10.0.0.7"]}
    "02-00-00-00-00-0A" "10.0.0.7" (demo_hw 10)) as (s' & E & _).
  - apply demo_reachable. vm_compute; reflexivity.
  - reflexivity.
  - vm_compute; reflexivity.
  - intros mac' txt' [<- _]%lookup_singleton_Some _. reflexivity.
  - repeat constructor; unfold is_byte; lia.
  - vm_compute; discriminate.
  - vm_compute; reflexivity.
  - exists s'. eexists. exact E.
Defined.

Lemma mac_boot_file_served_witness :
  OptBootFileName "pi4.efi" ∈
    replyOptions (U := ascii_unicode)
      (SetMacPXEBootFiles (U := ascii_unicode) (MO := canonical_order) (demo_server "101")
         {["02-00-00-00-00-0A" := "pi4.efi"]})
      (HardwareAddr_String (demo_hw 10)) (demo_request (demo_hw 10)).
Proof.
  apply (mac_boot_file_served (U := ascii_unicode) (MO := canonical_order) (demo_server "101")
    {["02-00-00-00-00-0A" := "pi4.efi"]} "02-00-00-00-00-0A" "pi4.efi" (demo_hw 10)).
  - reflexivity.
  - vm_compute; reflexivity.
  - intros mac' f [<- _]%lookup_singleton_Some _. reflexivity.
  - repeat constructor; unfold is_byte; lia.
  - discriminate.
  - vm_compute; reflexivity.
Defined.

Lemma renewal_keeps_expiry_witness :
  ∃ mods,
    handler (U := ascii_unicode) (MO := canonical_order) (λ _ _, Some "packet") (λ s, s)
      (demo_run (demo_server "101") 5 (HardwareAddr_String (demo_hw 1))) (instant 9) demo_peer
      (demo_request (demo_hw 1)) =
      Ret (demo_run (demo_server "101") 5 (HardwareAddr_String (demo_hw 1)),
           [EvSend mods "packet" (reply_dst demo_peer)]).
Proof.
  destruct (renewal_keeps_expiry (U := ascii_unicode) (MO := canonical_order)
    (demo_run (demo_server "101") 5 (HardwareAddr_String (demo_hw 1))) (instant 9)
    (λ _ _, Some "packet") demo_peer (demo_request (demo_hw 1))
    {| l_IP := [10;0;0;100]; l_Expires := 5 + 3600 * second |} "packet") as (mods & E & _);
    [reflexivity|reflexivity|vm_compute; reflexivity..|intros; reflexivity|].
  exists mods. exact E.
Defined.
