(* ===== verification/GoOs.v ===== *)
(** * Packages time and os

    [time.ParseDuration] and [os.Expand], as far as the configuration uses
    them.  The floating-point product that [ParseDuration] computes for the
    digits after a decimal point is an interface ([GoFloat]). *)

From Stdlib Require Import Ascii.
From S2P Require Import Prelude GoStrings GoStrconv.
Open Scope Z_scope.

(** ** time.ParseDuration *)

(** [float_product f unit scale] is [uint64(float64(f) * (float64(unit) / scale))]. *)
Class GoFloat := float_product : Z → Z → Z → Z.

(** The exact product, which is the floating-point one for short fractions. *)
Definition exact_float : GoFloat := λ f unit scale, f * unit / scale.

Definition two63 : Z := 9223372036854775808.

Definition unit_map (u : string) : option Z :=
  if String.eqb u "ns" then Some 1
  else if String.eqb u "us" then Some 1000
  else if String.eqb u (of_bytes [194; 181; 115]) then Some 1000
  else if String.eqb u (of_bytes [206; 188; 115]) then Some 1000
  else if String.eqb u "ms" then Some 1000000
  else if String.eqb u "s" then Some 1000000000
  else if String.eqb u "m" then Some 60000000000
  else if String.eqb u "h" then Some 3600000000000
  else None.

(** [leadingInt]: the value, the rest; an error on overflow. *)
Fixpoint leading_int (x : Z) (l : list Z) : option (Z * list Z) :=
  match l with
  | c :: l' =>
      if is_digit c then
        if two63 / 10 <? x then None
        else let x := x * 10 + (c - 48) in
             if two63 <? x then None else leading_int x l'
      else Some (x, l)
  | [] => Some (x, [])
  end.

(** [leadingFraction]: the value, the scale, the rest. *)
Fixpoint leading_fraction (x scale : Z) (overflow : bool) (l : list Z) : Z * Z * list Z :=
  match l with
  | c :: l' =>
      if is_digit c then
        if overflow then leading_fraction x scale true l'
        else if (two63 - 1) / 10 <? x then leading_fraction x scale true l'
        else let y := x * 10 + (c - 48) in
             if two63 <? y then leading_fraction x scale true l'
             else leading_fraction y (scale * 10) false l'
      else (x, scale, l)
  | [] => (x, scale, [])
  end.

Fixpoint take_unit (l : list Z) : list Z * list Z :=
  match l with
  | c :: l' =>
      if (c =? 46) || is_digit c then ([], l)
      else let '(u, r) := take_unit l' in (c :: u, r)
  | [] => ([], [])
  end.

Section duration.
Context `{F : GoFloat}.

(** One round of the loop: the nanoseconds it adds and the rest. *)
Definition duration_part (l : list Z) : option (Z * list Z) :=
  match l with
  | [] => None
  | c :: _ =>
      if negb ((c =? 46) || is_digit c) then None
      else match leading_int 0 l with
           | None => None
           | Some (v, l1) =>
               let pre := negb (length l1 =? length l)%nat in
               let '(f, scale, post, l2) :=
                 match l1 with
                 | c1 :: l1' =>
                     if c1 =? 46 then
                       let '(f, scale, r) := leading_fraction 0 1 false l1' in
                       (f, scale, negb (length r =? length l1')%nat, r)
                     else (0, 1, false, l1)
                 | [] => (0, 1, false, l1)
                 end in
               if negb pre && negb post then None
               else
                 let '(u, r) := take_unit l2 in
                 match u with
                 | [] => None
                 | _ =>
                     match unit_map (of_bytes u) with
                     | None => None
                     | Some unit =>
                         if two63 / unit <? v then None
                         else
                           let v := v * unit in
                           let v := if 0 <? f then v + float_product f unit scale else v in
                           if (0 <? f) && (two63 <? v) then None else Some (v, r)
                     end
                 end
           end
  end.

(** The loop of [ParseDuration]; every round consumes at least one byte. *)
Fixpoint duration_sum (fuel : nat) (d : Z) (l : list Z) : option Z :=
  match l with
  | [] => Some d
  | _ =>
      match fuel with
      | O => None
      | S fuel =>
          match duration_part l with
          | None => None
          | Some (v, r) =>
              let d := d + v in
              if two63 <? d then None else duration_sum fuel d r
          end
      end
  end.

(** [None] for an error. *)
Definition ParseDuration (s : string) : option Z :=
  let l := to_bytes s in
  let '(neg, l) :=
    match l with
    | c :: l' => if (c =? 45) || (c =? 43) then (c =? 45, l') else (false, l)
    | [] => (false, l)
    end in
  if bool_decide (l = [48]) then Some 0
  else match l with
  | [] => None
  | _ =>
      match duration_sum (length l) 0 l with
      | None => None
      | Some d => if neg then Some (- d) else if two63 - 1 <? d then None else Some d
      end
  end.
End duration.

(** ** os.Expand *)

Definition is_shell_special (c : Z) : bool :=
  existsb (Z.eqb c) [42; 35; 36; 64; 33; 63; 45] || is_digit c.

Definition is_alpha_num (c : Z) : bool :=
  (c =? 95) || is_digit c || in_range 97 122 c || in_range 65 90 c.

(** The position of the first byte that is not a letter, digit or underscore. *)
Fixpoint span_alpha_num (l : list Z) : nat :=
  match l with
  | c :: l => if is_alpha_num c then S (span_alpha_num l) else O
  | [] => O
  end.

(** The position of the first closing brace. *)
Fixpoint closing_brace (l : list Z) : option nat :=
  match l with
  | c :: l => if c =? 125 then Some O else option_map S (closing_brace l)
  | [] => None
  end.

(** [getShellName], on a non-empty text: the name and the number of bytes. *)
Definition shell_name (l : list Z) : list Z * nat :=
  match l with
  | [] => ([], 0%nat)
  | c :: r =>
      if c =? 123 then
        match r with
        | x :: y :: _ =>
            if is_shell_special x && (y =? 125) then ([x], 3%nat)
            else match closing_brace r with
                 | Some O => ([], 2%nat)
                 | Some i => (take i r, S (S i))
                 | None => ([], 1%nat)
                 end
        | _ => match closing_brace r with
               | Some O => ([], 2%nat)
               | Some i => (take i r, S (S i))
               | None => ([], 1%nat)
               end
        end
      else if is_shell_special c then ([c], 1%nat)
      else let i := span_alpha_num l in (take i l, i)
  end.

(** [os.Expand]; [skip] counts the bytes of a name already consumed. *)
Fixpoint expand_from (env : string → string) (skip : nat) (l : list Z) : list Z :=
  match l with
  | [] => []
  | c :: l' =>
      match skip with
      | S k => expand_from env k l'
      | O =>
          if (c =? 36) && match l' with [] => false | _ => true end then
            let '(name, w) := shell_name l' in
            match name with
            | [] => if (w =? 0)%nat then c :: expand_from env 0 l' else expand_from env w l'
            | _ => to_bytes (env (of_bytes name)) ++ expand_from env w l'
            end
          else c :: expand_from env 0 l'
      end
  end.

Definition Expand (s : string) (env : string → string) : string :=
  of_bytes (expand_from env 0 (to_bytes s)).

(** ** Lemmas *)

Lemma Expand_no_dollar s env : contains_char "$" s = false → Expand s env = s.
Proof.
  intros H. unfold Expand. rewrite <-(of_bytes_to_bytes s) at 2. f_equal.
  induction s as [|a s IH]; [done|]. cbn in H |- *. apply orb_false_iff in H as [Ha Hs].
  destruct (Z.eqb_spec (byte_val a) 36) as [E|Hne]; cbn; [|by rewrite IH].
  exfalso. assert (a = "$"%char) as ->; [|done].
  rewrite <-(chr_byte_val a), E. reflexivity.
Qed.

Lemma digits_value_mono x l v :
  0 ≤ x → digits_value x l = Some v → x ≤ v.
Proof.
  revert x; induction l as [|c l IH]; intros x Hx; cbn.
  - intros [= <-]. lia.
  - destruct (is_digit c) eqn:Hc; [|done]. apply is_digit_range in Hc.
    intros H. apply IH in H; lia.
Qed.

Lemma leading_int_digits x l r v :
  0 ≤ x → digits_value x l = Some v → v ≤ two63 / 10 →
  match r with c :: _ => is_digit c = false | [] => True end →
  leading_int x (l ++ r) = Some (v, r).
Proof.
  intros Hx Hv Hle Hr. revert x Hx Hv; induction l as [|c l IH]; intros x Hx; cbn [digits_value].
  - intros [= <-]. destruct r as [|c r]; [done|]. cbn. by rewrite Hr.
  - destruct (is_digit c) eqn:Hc; [|done]. intros Hv. cbn [app leading_int]. rewrite Hc.
    pose proof (proj1 (is_digit_range c) Hc).
    assert (x * 10 + (c - 48) ≤ v) by (eapply digits_value_mono; [|done]; lia).
    assert (two63 / 10 < two63) by reflexivity.
    rewrite (proj2 (Z.ltb_ge _ _)), (proj2 (Z.ltb_ge _ _)) by lia. apply IH; [lia|done].
Qed.

(** A whole number of a unit is read as that many units. *)
Lemma ParseDuration_units `{GoFloat} n u unit :
  0 ≤ n → unit_map u = Some unit → 0 < unit → n * unit < two63 → n ≤ two63 / 10 →
  take_unit (to_bytes u) = (to_bytes u, []) → to_bytes u ≠ [] →
  ParseDuration (itoa n +:+ u) = Some (n * unit).
Proof.
  intros Hn Hu Hunit Hlt Hle Htu Hne. unfold ParseDuration. rewrite to_bytes_app.
  pose proof (itoa_digits n Hn) as Hd. pose proof (digits_value_itoa n Hn) as Hv.
  assert (to_bytes (itoa n) ≠ []) as Hine by (intros E; apply (itoa_ne n); by apply to_bytes_inj).
  rewrite <-(of_bytes_to_bytes u) in Hu. generalize dependent (to_bytes u). intros ud Hu Htu Hne.
  assert (match ud with c :: _ => is_digit c = false ∧ (c =? 46) = false | [] => True end) as Hhead.
  { destruct ud as [|c r]; [done|]. cbn in Htu.
    destruct ((c =? 46) || is_digit c) eqn:E; [done|]. by apply orb_false_iff in E as [-> ->]. }
  destruct (to_bytes (itoa n)) as [|b l] eqn:El; [done|].
  assert (is_digit b = true) as Hb by (by inversion Hd).
  pose proof (proj1 (is_digit_range b) Hb) as Hbr. cbn [app].
  rewrite (proj2 (Z.eqb_neq b 45)), (proj2 (Z.eqb_neq b 43)) by lia. cbn [orb].
  assert (duration_part (b :: l ++ ud) = Some (n * unit, [])) as Hpart.
  { unfold duration_part. rewrite Hb, orb_true_r. cbn [negb].
    change (b :: l ++ ud) with ((b :: l) ++ ud).
    rewrite (leading_int_digits 0 (b :: l) ud n);
      [|done|done|done|destruct ud; [done|by destruct Hhead]].
    destruct ud as [|c r]; [done|]. destruct Hhead as [Hc1 Hc2]. rewrite Hc2.
    rewrite (proj2 (Nat.eqb_neq _ _)) by (rewrite length_app; cbn; lia). cbn [negb andb].
    rewrite Htu, Hu. cbn [Z.ltb Z.compare andb].
    rewrite (proj2 (Z.ltb_ge _ _)); [done|]. apply Z.div_le_lower_bound; lia. }
  assert (∀ k, duration_sum (S k) 0 (b :: l ++ ud) = Some (n * unit)) as Hsum.
  { intros k. cbn [duration_sum]. rewrite Hpart, Z.add_0_l.
    rewrite (proj2 (Z.ltb_ge _ _)) by lia. by destruct k. }
  rewrite bool_decide_false.
  2:{ intros [= -> [-> E]%app_eq_nil]. done. }
  cbn [length]. rewrite Hsum. cbn [negb].
  by rewrite (proj2 (Z.ltb_ge _ _)) by lia.
Qed.
