(* ===== verification/Config.v ===== *)
(** * pkg/config: the configuration and the extras file

    A [Config] shares its reservation maps, the map of PXE images and the array
    behind [VLANs] with every copy of the struct, and [ApplyExtras] writes to
    them in place.  They live in a [heap]; the structs themselves are values.
    A slice of strings is never written in place and is a value too, and so is
    the content of an [ExtrasConfig], which no other object shares.  JSON and
    TOML decoding and the file system are parameters. *)

From Stdlib Require Import Ascii.
From S2P Require Import Prelude GoStrings GoStrconv GoNet GoOs.
Open Scope Z_scope.

(** ** Data *)

(** A location of the heap. *)
Abbreviation loc := nat.

Record DHCPConfig := {
  d_Enabled : bool;
  d_RangeStart : string;
  d_RangeEnd : string;
  d_LeaseDuration : string;
  d_DNS : list string;
  d_Reservations : option loc;
  d_PXEBootServer : string;
  d_PXEBootFile : string
}.

Record WANConfig := { w_Interface : string; w_Mode : string }.

Record LANConfig := {
  lan_Bridge : string;
  lan_Interfaces : list string;
  lan_Address : string;
  lan_DHCP : DHCPConfig
}.

Record VLANConfig := {
  v_ID : Z;
  v_Name : string;
  v_Ports : list string;
  v_Address : string;
  v_DHCP : DHCPConfig;
  v_NAT : bool;
  v_Isolated : bool
}.

Record NATConfig := { n_Enabled : bool; n_OutInterface : string }.

Record WiFiConfig := {
  wi_Enabled : bool;
  wi_Interface : string;
  wi_Bridge : string;
  wi_Address : string;
  wi_DHCP : DHCPConfig;
  wi_MacMapFile : string;
  wi_DefaultVLAN : Z;
  wi_SSID : string;
  wi_Passphrase : string;
  wi_Channel : Z;
  wi_HWMode : string;
  wi_HTCapab : string;
  wi_CountryCode : string;
  wi_WPA : Z
}.

Record AdminAPIConfig := {
  a_Listen : string;
  a_Token : string;
  a_AllowUnauthenticatedReload : bool
}.

Record MountConfig := {
  mo_Enabled : bool;
  mo_Device : string;
  mo_FsType : string;
  mo_Target : string;
  mo_Options : string
}.

Record SMBConfig := {
  sm_Enabled : bool;
  sm_BinPath : string;
  sm_Listen : string;
  sm_ShareName : string;
  sm_SharePath : string;
  sm_User : string;
  sm_Password : string;
  sm_UsePortableServer : bool
}.

Record PXEConfig := {
  p_Enabled : bool;
  p_Listen : string;
  p_BindInterface : string;
  p_TFTPRoot : string;
  p_DefaultImage : string;
  p_MacImages : option loc;
  p_BootFile : string;
  p_LegacyBootFile : string;
  p_UEFIBootFile : string;
  p_IPXEScript : string
}.

Record ServicesConfig := {
  sv_Mount : MountConfig;
  sv_SMB : SMBConfig;
  sv_PXE : PXEConfig;
  sv_ExtrasFile : string;
  sv_AdminAPI : AdminAPIConfig
}.

(** The nil slice of VLANs is a location that holds the empty array. *)
Record Config := {
  cf_WAN : WANConfig;
  cf_LAN : LANConfig;
  cf_VLANs : loc;
  cf_NAT : NATConfig;
  cf_WiFi : WiFiConfig;
  cf_Services : ServicesConfig;
  cf_DNS : list string
}.

Record SMBUser := { u_Name : string; u_Password : string }.

Record ExtrasConfig := {
  e_Reservations : option (gmap string string);
  e_MacImages : option (gmap string string);
  e_DefaultImage : string;
  e_PXEBootFile : string;
  e_LegacyBootFile : string;
  e_UEFIBootFile : string;
  e_IPXEScript : string;
  e_SMBUsers : list SMBUser;
  e_VLANAddresses : option (gmap Z string);
  e_DNS : list string
}.

Record heap := {
  h_maps : gmap loc (gmap string string);
  h_arrays : gmap loc (list VLANConfig);
  h_next : loc
}.

(** ** The heap *)

(** The entries of a map; the nil map has none. *)
Definition view (h : heap) (m : option loc) : gmap string string :=
  match m with Some l => default ∅ (h_maps h !! l) | None => ∅ end.

Definition array (h : heap) (l : loc) : list VLANConfig := default [] (h_arrays h !! l).

Definition VLANs (h : heap) (c : Config) : list VLANConfig := array h (cf_VLANs c).

Definition alloc_map (h : heap) (m : gmap string string) : heap * loc :=
  ({| h_maps := <[h_next h := m]> (h_maps h); h_arrays := h_arrays h; h_next := S (h_next h) |},
   h_next h).

Definition alloc_array (h : heap) (a : list VLANConfig) : heap * loc :=
  ({| h_maps := h_maps h; h_arrays := <[h_next h := a]> (h_arrays h); h_next := S (h_next h) |},
   h_next h).

Definition write_map (h : heap) (l : loc) (m : gmap string string) : heap :=
  {| h_maps := <[l := m]> (h_maps h); h_arrays := h_arrays h; h_next := h_next h |}.

Definition write_array (h : heap) (l : loc) (a : list VLANConfig) : heap :=
  {| h_maps := h_maps h; h_arrays := <[l := a]> (h_arrays h); h_next := h_next h |}.

Definition empty_heap : heap := {| h_maps := ∅; h_arrays := ∅; h_next := 0%nat |}.

(** ** Field updates *)

Definition set_Reservations (d : DHCPConfig) (m : option loc) : DHCPConfig := {|
  d_Enabled := d_Enabled d; d_RangeStart := d_RangeStart d; d_RangeEnd := d_RangeEnd d;
  d_LeaseDuration := d_LeaseDuration d; d_DNS := d_DNS d; d_Reservations := m;
  d_PXEBootServer := d_PXEBootServer d; d_PXEBootFile := d_PXEBootFile d |}.

Definition set_PXEBootFile (d : DHCPConfig) (f : string) : DHCPConfig := {|
  d_Enabled := d_Enabled d; d_RangeStart := d_RangeStart d; d_RangeEnd := d_RangeEnd d;
  d_LeaseDuration := d_LeaseDuration d; d_DNS := d_DNS d; d_Reservations := d_Reservations d;
  d_PXEBootServer := d_PXEBootServer d; d_PXEBootFile := f |}.

Definition set_DNS (d : DHCPConfig) (dns : list string) : DHCPConfig := {|
  d_Enabled := d_Enabled d; d_RangeStart := d_RangeStart d; d_RangeEnd := d_RangeEnd d;
  d_LeaseDuration := d_LeaseDuration d; d_DNS := dns; d_Reservations := d_Reservations d;
  d_PXEBootServer := d_PXEBootServer d; d_PXEBootFile := d_PXEBootFile d |}.

Definition set_LAN_DHCP (l : LANConfig) (d : DHCPConfig) : LANConfig := {|
  lan_Bridge := lan_Bridge l; lan_Interfaces := lan_Interfaces l;
  lan_Address := lan_Address l; lan_DHCP := d |}.

Definition set_VLAN (v : VLANConfig) (addr : string) (d : DHCPConfig) : VLANConfig := {|
  v_ID := v_ID v; v_Name := v_Name v; v_Ports := v_Ports v; v_Address := addr; v_DHCP := d;
  v_NAT := v_NAT v; v_Isolated := v_Isolated v |}.
Definition set_VLAN_DHCP (v : VLANConfig) (d : DHCPConfig) : VLANConfig :=
  set_VLAN v (v_Address v) d.

Definition set_WiFi_DHCP (w : WiFiConfig) (d : DHCPConfig) : WiFiConfig := {|
  wi_Enabled := wi_Enabled w; wi_Interface := wi_Interface w; wi_Bridge := wi_Bridge w;
  wi_Address := wi_Address w; wi_DHCP := d; wi_MacMapFile := wi_MacMapFile w;
  wi_DefaultVLAN := wi_DefaultVLAN w; wi_SSID := wi_SSID w; wi_Passphrase := wi_Passphrase w;
  wi_Channel := wi_Channel w; wi_HWMode := wi_HWMode w; wi_HTCapab := wi_HTCapab w;
  wi_CountryCode := wi_CountryCode w; wi_WPA := wi_WPA w |}.

Definition set_PXE (s : ServicesConfig) (p : PXEConfig) : ServicesConfig := {|
  sv_Mount := sv_Mount s; sv_SMB := sv_SMB s; sv_PXE := p;
  sv_ExtrasFile := sv_ExtrasFile s; sv_AdminAPI := sv_AdminAPI s |}.

Definition set_LAN (c : Config) (l : LANConfig) : Config := {|
  cf_WAN := cf_WAN c; cf_LAN := l; cf_VLANs := cf_VLANs c; cf_NAT := cf_NAT c;
  cf_WiFi := cf_WiFi c; cf_Services := cf_Services c; cf_DNS := cf_DNS c |}.

Definition set_VLANs (c : Config) (l : loc) : Config := {|
  cf_WAN := cf_WAN c; cf_LAN := cf_LAN c; cf_VLANs := l; cf_NAT := cf_NAT c;
  cf_WiFi := cf_WiFi c; cf_Services := cf_Services c; cf_DNS := cf_DNS c |}.

Definition set_WiFi (c : Config) (w : WiFiConfig) : Config := {|
  cf_WAN := cf_WAN c; cf_LAN := cf_LAN c; cf_VLANs := cf_VLANs c; cf_NAT := cf_NAT c;
  cf_WiFi := w; cf_Services := cf_Services c; cf_DNS := cf_DNS c |}.

Definition set_Services (c : Config) (s : ServicesConfig) : Config := {|
  cf_WAN := cf_WAN c; cf_LAN := cf_LAN c; cf_VLANs := cf_VLANs c; cf_NAT := cf_NAT c;
  cf_WiFi := cf_WiFi c; cf_Services := s; cf_DNS := cf_DNS c |}.

(** ** Operations of the extras file *)

(** What [os.IsNotExist] tells of an error of the file system. *)
Inductive file_error := NotExist | OtherError.

Inductive config_error :=
  | ErrNotModified
  | ErrOpen (e : file_error)
  | ErrDecode.

Definition set_e_Reservations (e : ExtrasConfig) (m : gmap string string) : ExtrasConfig := {|
  e_Reservations := Some m; e_MacImages := e_MacImages e; e_DefaultImage := e_DefaultImage e;
  e_PXEBootFile := e_PXEBootFile e; e_LegacyBootFile := e_LegacyBootFile e;
  e_UEFIBootFile := e_UEFIBootFile e; e_IPXEScript := e_IPXEScript e;
  e_SMBUsers := e_SMBUsers e; e_VLANAddresses := e_VLANAddresses e; e_DNS := e_DNS e |}.

Definition set_e_MacImages (e : ExtrasConfig) (m : gmap string string) : ExtrasConfig := {|
  e_Reservations := e_Reservations e; e_MacImages := Some m; e_DefaultImage := e_DefaultImage e;
  e_PXEBootFile := e_PXEBootFile e; e_LegacyBootFile := e_LegacyBootFile e;
  e_UEFIBootFile := e_UEFIBootFile e; e_IPXEScript := e_IPXEScript e;
  e_SMBUsers := e_SMBUsers e; e_VLANAddresses := e_VLANAddresses e; e_DNS := e_DNS e |}.

Section config.
Context `{U : GoUnicode} `{MO : MapOrder} `{F : GoFloat}.

Definition normalizeMAC (mac : string) : string :=
  to_lower (trim_space (replace_char "-" ":" mac)).

(** The value of a missing key is the empty string. *)
Definition get (m : gmap string string) (k : string) : string := default "" (m !! k).

(** The four editing methods return the new value with a nil error, or the
    value they leave behind with [ErrNotModified]: the two setters create the
    map first. *)
Definition SetReservation (e : ExtrasConfig) (mac ip : string)
    : ExtrasConfig * option config_error :=
  let mac := normalizeMAC mac in
  let m := default ∅ (e_Reservations e) in
  if String.eqb (get m mac) ip then (set_e_Reservations e m, Some ErrNotModified)
  else (set_e_Reservations e (<[mac := ip]> m), None).

Definition RemoveReservation (e : ExtrasConfig) (mac : string)
    : ExtrasConfig * option config_error :=
  let mac := normalizeMAC mac in
  match e_Reservations e with
  | None => (e, Some ErrNotModified)
  | Some m =>
      match m !! mac with
      | None => (e, Some ErrNotModified)
      | Some _ => (set_e_Reservations e (delete mac m), None)
      end
  end.

Definition SetMacImage (e : ExtrasConfig) (mac image : string)
    : ExtrasConfig * option config_error :=
  let mac := normalizeMAC mac in
  let m := default ∅ (e_MacImages e) in
  if String.eqb (get m mac) image then (set_e_MacImages e m, Some ErrNotModified)
  else (set_e_MacImages e (<[mac := image]> m), None).

Definition RemoveMacImage (e : ExtrasConfig) (mac : string)
    : ExtrasConfig * option config_error :=
  let mac := normalizeMAC mac in
  match e_MacImages e with
  | None => (e, Some ErrNotModified)
  | Some m =>
      match m !! mac with
      | None => (e, Some ErrNotModified)
      | Some _ => (set_e_MacImages e (delete mac m), None)
      end
  end.

Definition ParseLeaseDuration (d : DHCPConfig) : Z :=
  match ParseDuration (d_LeaseDuration d) with
  | None => 12 * 3600 * 1000000000
  | Some dur => dur
  end.

(** ** Loading *)

Section load.
Variable read_file : string → result file_error string.
(** The JSON decoder allocates the maps and the array of the new [Config]. *)
Variable decode_json : string → heap → option (heap * Config).
Variable decode_toml : string → option ExtrasConfig.

Definition Load (h : heap) (path : string) : result config_error (heap * Config) :=
  match read_file path with
  | Err e => Err (ErrOpen e)
  | Ok data => match decode_json data h with Some r => Ok r | None => Err ErrDecode end
  end.

Definition LoadExtras (path : string) : result config_error ExtrasConfig :=
  match read_file path with
  | Err e => Err (ErrOpen e)
  | Ok data => match decode_toml data with Some e => Ok e | None => Err ErrDecode end
  end.
End load.

(** ** ExpandEnv *)

Definition expand_mount (e : string → string) (m : MountConfig) : MountConfig := {|
  mo_Enabled := mo_Enabled m; mo_Device := e (mo_Device m); mo_FsType := e (mo_FsType m);
  mo_Target := e (mo_Target m); mo_Options := e (mo_Options m) |}.

Definition expand_smb (e : string → string) (s : SMBConfig) : SMBConfig := {|
  sm_Enabled := sm_Enabled s; sm_BinPath := e (sm_BinPath s); sm_Listen := e (sm_Listen s);
  sm_ShareName := e (sm_ShareName s); sm_SharePath := e (sm_SharePath s);
  sm_User := e (sm_User s); sm_Password := e (sm_Password s);
  sm_UsePortableServer := sm_UsePortableServer s |}.

Definition expand_pxe (e : string → string) (p : PXEConfig) : PXEConfig := {|
  p_Enabled := p_Enabled p; p_Listen := e (p_Listen p); p_BindInterface := p_BindInterface p;
  p_TFTPRoot := e (p_TFTPRoot p); p_DefaultImage := e (p_DefaultImage p);
  p_MacImages := p_MacImages p; p_BootFile := e (p_BootFile p);
  p_LegacyBootFile := e (p_LegacyBootFile p); p_UEFIBootFile := e (p_UEFIBootFile p);
  p_IPXEScript := e (p_IPXEScript p) |}.

Definition expand_admin (e : string → string) (a : AdminAPIConfig) : AdminAPIConfig := {|
  a_Listen := e (a_Listen a); a_Token := e (a_Token a);
  a_AllowUnauthenticatedReload := a_AllowUnauthenticatedReload a |}.

(** The loop over [MacImages] rewrites every value in place. *)
Definition expand_images (e : string → string) (h : heap) (m : option loc) : heap :=
  match m with
  | None => h
  | Some l => write_map h l (fold_left (λ acc kv, <[kv.1 := e kv.2]> acc)
                               (map_range (view h m)) (view h m))
  end.

Definition ExpandEnv (env : string → string) (h : heap) (c : Config) : heap * Config :=
  let e s := Expand s env in
  let s := cf_Services c in
  (expand_images e h (p_MacImages (sv_PXE s)),
   set_Services c {|
     sv_Mount := expand_mount e (sv_Mount s); sv_SMB := expand_smb e (sv_SMB s);
     sv_PXE := expand_pxe e (sv_PXE s); sv_ExtrasFile := e (sv_ExtrasFile s);
     sv_AdminAPI := expand_admin e (sv_AdminAPI s) |}).

(** ** ApplyExtras *)

Definition cloneStringMap (m : option (gmap string string)) : gmap string string :=
  match m with
  | None => ∅
  | Some m => fold_insert (λ e, Some (normalizeMAC e.1, e.2)) (map_range m) ∅
  end.

Definition in_subnet (cidr : string) (ip : IP) : bool :=
  match ParseCIDR cidr with
  | Some (_, n) => IPNet_Contains n ip
  | None => false
  end.

(** Write one reservation of a scope, creating the map if it is nil. *)
Definition put_reservation (h : heap) (d : DHCPConfig) (mac ip : string) : heap * DHCPConfig :=
  let '(h, l) := match d_Reservations d with
                 | Some l => (h, l)
                 | None => alloc_map h ∅
                 end in
  (write_map h l (<[normalizeMAC mac := ip]> (view h (Some l))), set_Reservations d (Some l)).

Fixpoint put_vlans (h : heap) (vs : list VLANConfig) (parsed : IP) (mac ip : string)
    : heap * list VLANConfig :=
  match vs with
  | [] => (h, [])
  | v :: vs =>
      let '(h, v) :=
        if in_subnet (v_Address v) parsed
        then let '(h, d) := put_reservation h (v_DHCP v) mac ip in (h, set_VLAN_DHCP v d)
        else (h, v) in
      let '(h, vs) := put_vlans h vs parsed mac ip in
      (h, v :: vs)
  end.

(** The body of the first loop of [ApplyExtras]. *)
Definition apply_reservation (st : heap * Config) (e : string * string) : heap * Config :=
  let '(h, c) := st in
  let '(mac, ip) := e in
  match To4 (ParseIP ip) with
  | [] => (h, c)
  | parsed =>
      let '(h, c) :=
        if negb (String.eqb (lan_Address (cf_LAN c)) "") && in_subnet (lan_Address (cf_LAN c)) parsed
        then let '(h, d) := put_reservation h (lan_DHCP (cf_LAN c)) mac ip in
             (h, set_LAN c (set_LAN_DHCP (cf_LAN c) d))
        else (h, c) in
      let '(h, vs) := put_vlans h (VLANs h c) parsed mac ip in
      (write_array h (cf_VLANs c) vs, c)
  end.

(** The loop that looks for the first VLAN with an id. *)
Fixpoint set_address (id : Z) (addr : string) (vs : list VLANConfig) : list VLANConfig :=
  match vs with
  | [] => []
  | v :: vs =>
      if v_ID v =? id then set_VLAN v addr (v_DHCP v) :: vs
      else v :: set_address id addr vs
  end.

(** The PXE fields that the extras replace. *)
Definition override_pxe (p : PXEConfig) (images : loc) (e : ExtrasConfig) : PXEConfig := {|
  p_Enabled := p_Enabled p; p_Listen := p_Listen p; p_BindInterface := p_BindInterface p;
  p_TFTPRoot := p_TFTPRoot p; p_DefaultImage := e_DefaultImage e; p_MacImages := Some images;
  p_BootFile := p_BootFile p; p_LegacyBootFile := e_LegacyBootFile e;
  p_UEFIBootFile := e_UEFIBootFile e; p_IPXEScript := e_IPXEScript e |}.

(** Update the DHCP section of every scope. *)
Definition map_scopes (f : DHCPConfig → DHCPConfig) (st : heap * Config) : heap * Config :=
  let '(h, c) := st in
  let h := write_array h (cf_VLANs c) (map (λ v, set_VLAN_DHCP v (f (v_DHCP v))) (VLANs h c)) in
  let c := set_WiFi c (set_WiFi_DHCP (cf_WiFi c) (f (wi_DHCP (cf_WiFi c)))) in
  (h, set_LAN c (set_LAN_DHCP (cf_LAN c) (f (lan_DHCP (cf_LAN c))))).

Definition apply_addresses (h : heap) (c : Config) (addrs : option (gmap Z string)) : heap :=
  write_array h (cf_VLANs c)
    (fold_left (λ vs e, set_address e.1 e.2 vs) (map_range (default ∅ addrs)) (VLANs h c)).

Definition ApplyExtras (h : heap) (c : Config) (extras : option ExtrasConfig) : heap * Config :=
  match extras with
  | None => (h, c)
  | Some e =>
      let '(h, c) := fold_left apply_reservation (map_range (default ∅ (e_Reservations e))) (h, c) in
      let '(h, images) := alloc_map h (cloneStringMap (e_MacImages e)) in
      let c := set_Services c (set_PXE (cf_Services c)
                 (override_pxe (sv_PXE (cf_Services c)) images e)) in
      let '(h, c) := map_scopes (λ d, set_PXEBootFile d (e_PXEBootFile e)) (h, c) in
      let h := apply_addresses h c (e_VLANAddresses e) in
      match e_DNS e with
      | [] => (h, c)
      | dns => map_scopes (λ d, set_DNS d dns) (h, c)
      end
  end.

(** ** ExtrasFromConfig *)

(** Copy the entries of a map into another one. *)
Definition copy_entries (acc m : gmap string string) : gmap string string :=
  fold_insert Some (map_range m) acc.

Definition ExtrasFromConfig (h : heap) (c : Config) : ExtrasConfig :=
  let vs := VLANs h c in
  let res := fold_left (λ acc v, copy_entries acc (view h (d_Reservations (v_DHCP v)))) vs ∅ in
  let res := copy_entries res (view h (d_Reservations (lan_DHCP (cf_LAN c)))) in
  let res := copy_entries res (view h (d_Reservations (wi_DHCP (cf_WiFi c)))) in
  let p := sv_PXE (cf_Services c) in
  {| e_Reservations := Some res;
     e_MacImages := Some (copy_entries ∅ (view h (p_MacImages p)));
     e_DefaultImage := p_DefaultImage p;
     e_PXEBootFile := p_BootFile p;
     e_LegacyBootFile := p_LegacyBootFile p;
     e_UEFIBootFile := p_UEFIBootFile p;
     e_IPXEScript := p_IPXEScript p;
     e_SMBUsers := [];
     e_VLANAddresses := Some (fold_left (λ m v, <[v_ID v := v_Address v]> m) vs ∅);
     e_DNS := [] |}.
End config.

(** ** Default *)

Definition zero_DHCP : DHCPConfig := {|
  d_Enabled := false; d_RangeStart := ""; d_RangeEnd := ""; d_LeaseDuration := "";
  d_DNS := []; d_Reservations := None; d_PXEBootServer := ""; d_PXEBootFile := "" |}.

Definition zero_WiFi : WiFiConfig := {|
  wi_Enabled := false; wi_Interface := ""; wi_Bridge := ""; wi_Address := "";
  wi_DHCP := zero_DHCP; wi_MacMapFile := ""; wi_DefaultVLAN := 0; wi_SSID := "";
  wi_Passphrase := ""; wi_Channel := 0; wi_HWMode := ""; wi_HTCapab := "";
  wi_CountryCode := ""; wi_WPA := 0 |}.

Definition zero_Services : ServicesConfig := {|
  sv_Mount := {| mo_Enabled := false; mo_Device := ""; mo_FsType := ""; mo_Target := "";
                 mo_Options := "" |};
  sv_SMB := {| sm_Enabled := false; sm_BinPath := ""; sm_Listen := ""; sm_ShareName := "";
               sm_SharePath := ""; sm_User := ""; sm_Password := "";
               sm_UsePortableServer := false |};
  sv_PXE := {| p_Enabled := false; p_Listen := ""; p_BindInterface := ""; p_TFTPRoot := "";
               p_DefaultImage := ""; p_MacImages := None; p_BootFile := "";
               p_LegacyBootFile := ""; p_UEFIBootFile := ""; p_IPXEScript := "" |};
  sv_ExtrasFile := "";
  sv_AdminAPI := {| a_Listen := ""; a_Token := ""; a_AllowUnauthenticatedReload := false |} |}.

Definition Default (h : heap) : heap * Config :=
  let '(h, vlans) := alloc_array h [] in
  (h, {| cf_WAN := {| w_Interface := "wan"; w_Mode := "dhcp" |};
         cf_DNS := ["1.1.1.1"; "8.8.8.8"];
         cf_LAN := {|
           lan_Bridge := "br-lan";
           lan_Interfaces := ["lan1"; "lan2"; "lan3"; "lan4"];
           lan_Address := "10.0.0.1/24";
           lan_DHCP := {|
             d_Enabled := true; d_RangeStart := "10.0.0.100"; d_RangeEnd := "10.0.0.250";
             d_LeaseDuration := "12h"; d_DNS := []; d_Reservations := None;
             d_PXEBootServer := ""; d_PXEBootFile := "" |} |};
         cf_VLANs := vlans;
         cf_NAT := {| n_Enabled := true; n_OutInterface := "wan" |};
         cf_WiFi := zero_WiFi;
         cf_Services := zero_Services |}).

(** ** Separation

    The maps of a configuration are not shared with each other nor with the
    maps [rest] of another one. *)

Definition sep (h : heap) (ms : list (option loc)) : Prop :=
  NoDup (omap id ms) ∧ Forall (λ l, (l < h_next h)%nat) (omap id ms).

#[export] Instance omap_id_Permutation :
  Proper ((≡ₚ) ==> (≡ₚ)) (omap (M := list) (@id (option loc))).
Proof.
  intros l k H. induction H as [|x l k H IH|x y l|l k m _ IH1 _ IH2]; cbn; [done| | |].
  - destruct x; cbn; by rewrite IH.
  - destruct x, y; cbn; first [reflexivity | apply perm_swap].
  - by etrans.
Qed.

#[export] Instance sep_Permutation h : Proper ((≡ₚ) ==> iff) (sep h).
Proof. intros l k E. unfold sep. by rewrite E. Qed.

Lemma sep_cons h m ms :
  sep h (m :: ms) ↔
  sep h ms ∧ match m with Some l => (l < h_next h)%nat ∧ l ∉ omap id ms | None => True end.
Proof. unfold sep. destruct m; cbn; rewrite ?NoDup_cons, ?Forall_cons; naive_solver. Qed.

Lemma sep_mono h h' ms : (h_next h ≤ h_next h')%nat → sep h ms → sep h' ms.
Proof.
  intros Hle [Hnd Hb]. split; [done|]. eapply Forall_impl; [exact Hb|]. cbn. lia.
Qed.

(** The maps of [rest] are left alone. *)
Definition same_views (h h' : heap) (rest : list (option loc)) : Prop :=
  ∀ m, m ∈ rest → view h' m = view h m.

Lemma same_views_refl h rest : same_views h h rest.
Proof. by intros m. Qed.

Lemma same_views_trans h1 h2 h3 rest :
  same_views h1 h2 rest → same_views h2 h3 rest → same_views h1 h3 rest.
Proof. intros H1 H2 m Hm. by rewrite H2, H1. Qed.

Lemma view_write h l m k : view (write_map h l m) k = if bool_decide (k = Some l) then m else view h k.
Proof.
  unfold view. destruct k as [k|]; [|done]. cbn. case_bool_decide as E.
  - simplify_eq. by rewrite lookup_insert_eq.
  - by rewrite lookup_insert_ne by congruence.
Qed.

Lemma elem_of_omap_id (l : loc) (ms : list (option loc)) : Some l ∈ ms → l ∈ omap id ms.
Proof. intros H. apply list_elem_of_omap. by exists (Some l). Qed.

(** A map nobody refers to yet can be allocated. *)
Lemma alloc_map_spec h m rest :
  sep h rest →
  let '(h', l) := alloc_map h m in
  sep h' (Some l :: rest) ∧ view h' (Some l) = m ∧ same_views h h' rest ∧
  h_arrays h' = h_arrays h ∧ (h_next h ≤ h_next h')%nat.
Proof.
  intros Hs. cbn. pose proof Hs as [Hnd Hb]. rewrite Forall_forall in Hb.
  split_and!; [|by rewrite lookup_insert_eq| |done|lia].
  - apply sep_cons. split; [eapply sep_mono; [|done]; cbn; lia|]. cbn. split; [lia|].
    intros Hin%Hb. lia.
  - intros [k|] Hk; [|done]. cbn. rewrite lookup_insert_ne; [done|].
    apply elem_of_omap_id, Hb in Hk. lia.
Qed.

Section apply.
Context `{U : GoUnicode} `{MO : MapOrder}.

Definition upd (b : bool) (mac ip : string) (m : gmap string string) : gmap string string :=
  if b then <[normalizeMAC mac := ip]> m else m.

Lemma put_reservation_spec h d mac ip rest :
  sep h (d_Reservations d :: rest) →
  let '(h', d') := put_reservation h d mac ip in
  d' = set_Reservations d (d_Reservations d') ∧
  sep h' (d_Reservations d' :: rest) ∧
  view h' (d_Reservations d') = <[normalizeMAC mac := ip]> (view h (d_Reservations d)) ∧
  same_views h h' rest ∧ h_arrays h' = h_arrays h ∧ (h_next h ≤ h_next h')%nat.
Proof.
  intros Hs. unfold put_reservation. destruct (d_Reservations d) as [l|] eqn:El.
  - cbn [set_Reservations d_Reservations]. split_and!; try done.
    + by rewrite view_write, bool_decide_true.
    + intros m Hm. rewrite view_write, bool_decide_false; [done|]. intros ->.
      apply sep_cons in Hs as [_ [_ Hs]]. apply Hs. by apply elem_of_omap_id.
  - apply sep_cons in Hs as [Hs _]. pose proof (alloc_map_spec h ∅ rest Hs) as Ha.
    destruct (alloc_map h ∅) as [h1 l]. destruct Ha as (Hs1 & Hv & Hr & Ha & Hn).
    cbn [set_Reservations d_Reservations]. split_and!; try done.
    + by rewrite view_write, bool_decide_true, Hv by done.
    + intros m Hm. rewrite view_write, bool_decide_false; [by apply Hr|]. intros ->.
      apply sep_cons in Hs1 as [_ [_ Hs1]]. apply Hs1. by apply elem_of_omap_id.
Qed.

Definition vres (v : VLANConfig) : option loc := d_Reservations (v_DHCP v).

(** [v'] is [v] with another map of reservations, whose content is [m]. *)
Definition with_reservations (h' : heap) (v v' : VLANConfig) (m : gmap string string) : Prop :=
  v' = set_VLAN_DHCP v (set_Reservations (v_DHCP v) (vres v')) ∧ view h' (vres v') = m.

Lemma with_reservations_refl h v : with_reservations h v v (view h (vres v)).
Proof. by destruct v as [???? []]. Qed.

Lemma put_vlans_spec h vs parsed mac ip rest :
  sep h (map vres vs ++ rest) →
  let '(h', vs') := put_vlans h vs parsed mac ip in
  sep h' (map vres vs' ++ rest) ∧
  Forall2 (λ v v', with_reservations h' v v'
             (upd (in_subnet (v_Address v) parsed) mac ip (view h (vres v)))) vs vs' ∧
  same_views h h' rest ∧ h_arrays h' = h_arrays h ∧ (h_next h ≤ h_next h')%nat.
Proof.
  revert h rest; induction vs as [|v vs IH]; intros h rest Hs; cbn [put_vlans].
  { by split_and!. }
  cbn [map app] in Hs.
  assert (∃ h1 v1, (if in_subnet (v_Address v) parsed
      then let '(h, d) := put_reservation h (v_DHCP v) mac ip in (h, set_VLAN_DHCP v d)
      else (h, v)) = (h1, v1) ∧
    with_reservations h1 v v1 (upd (in_subnet (v_Address v) parsed) mac ip (view h (vres v))) ∧
    sep h1 (vres v1 :: map vres vs ++ rest) ∧ same_views h h1 (map vres vs ++ rest) ∧
    h_arrays h1 = h_arrays h ∧ (h_next h ≤ h_next h1)%nat)
    as (h1 & v1 & -> & Hv & Hs1 & Hr1 & Ha1 & Hn1).
  { destruct (in_subnet _ _); cbn [upd].
    - pose proof (put_reservation_spec h (v_DHCP v) mac ip _ Hs) as Hp.
      destruct (put_reservation h (v_DHCP v) mac ip) as [h1 d].
      destruct Hp as (Hd & Hs1 & Hv & Hr & Ha & Hn).
      exists h1, (set_VLAN_DHCP v d). split_and!; try done.
      split; [|done]. unfold vres, set_VLAN_DHCP; cbn. by rewrite <-Hd.
    - exists h, v. split_and!; try done. apply with_reservations_refl. }
  assert (Hp : vres v1 :: map vres vs ++ rest ≡ₚ map vres vs ++ vres v1 :: rest)
    by solve_Permutation.
  rewrite Hp in Hs1.
  specialize (IH h1 _ Hs1). destruct (put_vlans h1 vs parsed mac ip) as [h2 vs'].
  destruct IH as (Hs2 & Hf & Hr2 & Ha2 & Hn2). split_and!.
  - cbn [map app]. by rewrite Permutation_middle.
  - constructor.
    + destruct Hv as [Hv <-]. split; [done|]. apply Hr2. set_solver.
    + eapply Forall2_impl_in; [exact Hf|]. intros x y Hx _ [E1 E2]. split; [done|].
      rewrite E2. f_equal. apply Hr1. apply elem_of_app. left. by apply list_elem_of_fmap_2.
  - eapply same_views_trans; [intros m Hm; apply Hr1; set_solver|].
    intros m Hm. apply Hr2. set_solver.
  - congruence.
  - lia.
Qed.

(** ** The first loop of [ApplyExtras] *)

Definition lan_map (c : Config) : option loc := d_Reservations (lan_DHCP (cf_LAN c)).

Definition scope_maps (h : heap) (c : Config) : list (option loc) :=
  lan_map c :: map vres (VLANs h c).

Definition lan_accepts (c : Config) (ip : IP) : bool :=
  negb (String.eqb (lan_Address (cf_LAN c)) "") && in_subnet (lan_Address (cf_LAN c)) ip.

(** The entries of the extras a scope accepts, added to its reservations. *)
Definition accepted (accepts : IP → bool) (e : string * string) : option (string * string) :=
  match To4 (ParseIP e.2) with
  | [] => None
  | ip => if accepts ip then Some (normalizeMAC e.1, e.2) else None
  end.

Definition merge_into (accepts : IP → bool) (es : list (string * string))
    (m : gmap string string) : gmap string string :=
  fold_insert (accepted accepts) es m.

Lemma merge_into_cons accepts mac ip es m x p :
  To4 (ParseIP ip) = x :: p →
  merge_into accepts ((mac, ip) :: es) m = merge_into accepts es (upd (accepts (x :: p)) mac ip m).
Proof.
  intros E. unfold merge_into, fold_insert. cbn [fold_left]. unfold accepted at 2. cbn [snd fst].
  rewrite E. by destruct (accepts (x :: p)).
Qed.

Lemma merge_into_skip accepts mac ip es m :
  To4 (ParseIP ip) = [] → merge_into accepts ((mac, ip) :: es) m = merge_into accepts es m.
Proof.
  intros E. unfold merge_into, fold_insert. cbn [fold_left]. unfold accepted at 2. cbn [snd fst].
  by rewrite E.
Qed.

Lemma array_write h l a k : array (write_array h l a) k = if bool_decide (k = l) then a else array h k.
Proof.
  unfold array. cbn. case_bool_decide as E; [subst; by rewrite lookup_insert_eq|].
  by rewrite lookup_insert_ne.
Qed.

(** [c'] is [c] after some reservations were written. *)
Record reservations_applied (es : list (string * string)) (h : heap) (c : Config)
    (h' : heap) (c' : Config) : Prop := {
  ra_config : c' = set_LAN c (set_LAN_DHCP (cf_LAN c)
                     (set_Reservations (lan_DHCP (cf_LAN c)) (lan_map c')));
  ra_lan : view h' (lan_map c') = merge_into (lan_accepts c) es (view h (lan_map c));
  ra_vlans : Forall2 (λ v v', with_reservations h' v v'
               (merge_into (in_subnet (v_Address v)) es (view h (vres v)))) (VLANs h c) (VLANs h' c')
}.

(** What is not part of the configuration is left alone. *)
Record untouched (h : heap) (c : Config) (h' : heap) (rest : list (option loc)) : Prop := {
  un_views : same_views h h' rest;
  un_arrays : ∀ l, l ≠ cf_VLANs c → array h' l = array h l;
  un_next : (h_next h ≤ h_next h')%nat
}.

Lemma untouched_refl h c rest : untouched h c h rest.
Proof. by split. Qed.

Lemma untouched_trans h1 c1 h2 c2 h3 rest :
  cf_VLANs c2 = cf_VLANs c1 → untouched h1 c1 h2 rest → untouched h2 c2 h3 rest →
  untouched h1 c1 h3 rest.
Proof.
  intros E [V1 A1 N1] [V2 A2 N2]. split; [by eapply same_views_trans| |lia].
  intros l Hl. rewrite A2, A1; congruence.
Qed.

(** The step of [apply_reservation] for the LAN. *)
Definition put_lan (h : heap) (c : Config) (p : IP) (mac ip : string) : heap * Config :=
  if lan_accepts c p then
    let '(h, d) := put_reservation h (lan_DHCP (cf_LAN c)) mac ip in
    (h, set_LAN c (set_LAN_DHCP (cf_LAN c) d))
  else (h, c).

Lemma put_lan_spec h c p mac ip ms :
  sep h (lan_map c :: ms) →
  let '(h1, c1) := put_lan h c p mac ip in
  c1 = set_LAN c (set_LAN_DHCP (cf_LAN c) (set_Reservations (lan_DHCP (cf_LAN c)) (lan_map c1))) ∧
  view h1 (lan_map c1) = upd (lan_accepts c p) mac ip (view h (lan_map c)) ∧
  sep h1 (lan_map c1 :: ms) ∧ same_views h h1 ms ∧
  h_arrays h1 = h_arrays h ∧ (h_next h ≤ h_next h1)%nat.
Proof.
  intros Hs. unfold put_lan. destruct (lan_accepts c p); cbn [upd].
  - pose proof (put_reservation_spec h (lan_DHCP (cf_LAN c)) mac ip _ Hs) as Hp.
    destruct (put_reservation h (lan_DHCP (cf_LAN c)) mac ip) as [h1 d].
    destruct Hp as (Hd & Hs1 & Hv & Hr & Ha & Hn). split_and!; try done.
    unfold lan_map; cbn. by rewrite <-Hd.
  - split_and!; try done. by destruct c as [? [??? []] ?????].
Qed.

Lemma apply_reservation_spec h c mac ip x p rest :
  To4 (ParseIP ip) = x :: p → sep h (scope_maps h c ++ rest) →
  let '(h', c') := apply_reservation (h, c) (mac, ip) in
  sep h' (scope_maps h' c' ++ rest) ∧ untouched h c h' rest ∧
  c' = set_LAN c (set_LAN_DHCP (cf_LAN c)
         (set_Reservations (lan_DHCP (cf_LAN c)) (lan_map c'))) ∧
  view h' (lan_map c') = upd (lan_accepts c (x :: p)) mac ip (view h (lan_map c)) ∧
  Forall2 (λ v v', with_reservations h' v v'
     (upd (in_subnet (v_Address v) (x :: p)) mac ip (view h (vres v)))) (VLANs h c) (VLANs h' c').
Proof.
  intros E Hs. unfold apply_reservation. rewrite E. fold (lan_accepts c (x :: p)).
  fold (put_lan h c (x :: p) mac ip). unfold scope_maps in Hs. cbn [app] in Hs.
  pose proof (put_lan_spec h c (x :: p) mac ip _ Hs) as H.
  destruct (put_lan h c (x :: p) mac ip) as [h1 c1]. destruct H as (Hc1 & Hv1 & Hs1 & Hr1 & Ha1 & Hn1).
  assert (VLANs h1 c1 = VLANs h c) as Evl by (unfold VLANs, array; rewrite Ha1, Hc1; done).
  assert (cf_VLANs c1 = cf_VLANs c) as Ecv by (by rewrite Hc1).
  assert (Hp : lan_map c1 :: map vres (VLANs h c) ++ rest ≡ₚ
    map vres (VLANs h c) ++ lan_map c1 :: rest) by solve_Permutation.
  rewrite Hp in Hs1. rewrite Evl.
  pose proof (put_vlans_spec h1 (VLANs h c) (x :: p) mac ip _ Hs1) as Hpv.
  destruct (put_vlans h1 (VLANs h c) (x :: p) mac ip) as [h2 vs'].
  destruct Hpv as (Hs2 & Hf & Hr2 & Ha2 & Hn2).
  assert (VLANs (write_array h2 (cf_VLANs c1) vs') c1 = vs') as Evs.
  { unfold VLANs. by rewrite array_write, bool_decide_true. }
  split_and!; [| |done| |].
  - unfold scope_maps. rewrite Evs. cbn [app]. by rewrite Permutation_middle.
  - split; [| |cbn; lia].
    + intros m Hm. change (view (write_array h2 (cf_VLANs c1) vs') m) with (view h2 m).
      rewrite Hr2, Hr1 by set_solver. done.
    + intros l Hl. rewrite array_write, bool_decide_false by congruence.
      unfold array. by rewrite Ha2, Ha1.
  - change (view (write_array h2 (cf_VLANs c1) vs') (lan_map c1)) with (view h2 (lan_map c1)).
    rewrite Hr2 by set_solver. done.
  - rewrite Evs. eapply Forall2_impl_in; [exact Hf|]. intros v v' Hin _ [E1 E2]. split; [done|].
    change (view (write_array h2 (cf_VLANs c1) vs') (vres v')) with (view h2 (vres v')).
    rewrite E2. f_equal. apply Hr1. apply elem_of_app. left. by apply list_elem_of_fmap_2.
Qed.

Lemma apply_reservations_spec es h c rest :
  sep h (scope_maps h c ++ rest) →
  let '(h', c') := fold_left apply_reservation es (h, c) in
  sep h' (scope_maps h' c' ++ rest) ∧ untouched h c h' rest ∧
  reservations_applied es h c h' c'.
Proof.
  revert h c; induction es as [|[mac ip] es IH]; intros h c Hs.
  { cbn [fold_left]. split_and!; [done|apply untouched_refl|]. split; [|done|].
    - by destruct c as [? [??? []] ?????].
    - apply Forall2_same_length_lookup. split; [done|]. intros i v v' Hv Hv'.
      simplify_eq. apply with_reservations_refl. }
  cbn [fold_left]. destruct (To4 (ParseIP ip)) as [|x p] eqn:E.
  - assert (apply_reservation (h, c) (mac, ip) = (h, c)) as ->
      by (unfold apply_reservation; by rewrite E).
    specialize (IH h c Hs). destruct (fold_left apply_reservation es (h, c)) as [h' c'].
    destruct IH as (? & ? & [Hc Hl Hv]). split_and!; [done|done|]. split; [done| |].
    + by rewrite merge_into_skip.
    + eapply Forall2_impl; [exact Hv|]. intros v v' Hw. by rewrite merge_into_skip.
  - pose proof (apply_reservation_spec h c mac ip x p rest E Hs) as H1.
    destruct (apply_reservation (h, c) (mac, ip)) as [h1 c1].
    destruct H1 as (Hs1 & Hu1 & Hc1 & Hl1 & Hv1).
    specialize (IH h1 c1 Hs1). destruct (fold_left apply_reservation es (h1, c1)) as [h' c'].
    destruct IH as (Hs2 & Hu2 & [Hc2 Hl2 Hv2]).
    split_and!; [done|eapply untouched_trans; [|exact Hu1|exact Hu2]; by rewrite Hc1|].
    split.
    + rewrite Hc2, Hc1. done.
    + rewrite Hl2, Hl1. rewrite (merge_into_cons _ _ _ _ _ x p) by done.
      unfold lan_accepts. by rewrite Hc1.
    + eapply Forall2_compose; [exact Hv1|exact Hv2|].
      intros v v1 v2 [Ev1 Em1] [Ev2 Em2]. split.
      * rewrite Ev2, Ev1. done.
      * rewrite Em2, Em1, (merge_into_cons _ _ _ _ _ x p) by done. by rewrite Ev1.
Qed.

(** ** VLAN addresses *)

Definition readdressed (v v' : VLANConfig) : Prop := ∃ a, v' = set_VLAN v a (v_DHCP v).

Lemma readdressed_refl v : readdressed v v.
Proof. exists (v_Address v). by destruct v. Qed.

Lemma set_address_shape id a vs : Forall2 readdressed vs (set_address id a vs).
Proof.
  induction vs as [|v vs IH]; cbn; [constructor|]. case_if; constructor; auto.
  - by exists a.
  - apply Forall2_same_length_lookup. split; [done|]. intros i x y ??; simplify_eq.
    apply readdressed_refl.
  - apply readdressed_refl.
Qed.

Lemma readdressed_trans v1 v2 v3 : readdressed v1 v2 → readdressed v2 v3 → readdressed v1 v3.
Proof. intros [a ->] [b ->]. by exists b. Qed.

Lemma set_addresses_shape (es : list (Z * string)) vs :
  Forall2 readdressed vs (fold_left (λ vs e, set_address e.1 e.2 vs) es vs).
Proof.
  revert vs; induction es as [|e es IH]; intros vs; cbn.
  - apply Forall2_same_length_lookup. split; [done|]. intros i x y ??; simplify_eq.
    apply readdressed_refl.
  - eapply Forall2_compose; [apply (set_address_shape e.1 e.2)|apply IH|].
    apply readdressed_trans.
Qed.

Lemma readdressed_ids vs vs' : Forall2 readdressed vs vs' → map v_ID vs' = map v_ID vs.
Proof. induction 1 as [|v v' vs vs' [a ->] _ IH]; cbn; [done|by rewrite IH]. Qed.

Lemma set_address_lookup id a vs i v :
  NoDup (map v_ID vs) → vs !! i = Some v →
  set_address id a vs !! i = Some (if v_ID v =? id then set_VLAN v a (v_DHCP v) else v).
Proof.
  revert i; induction vs as [|w vs IH]; intros i Hnd Hi; [done|].
  cbn in Hnd. apply NoDup_cons in Hnd as [Hw Hnd]. cbn [set_address]. destruct i as [|i]; cbn in Hi.
  - simplify_eq. by destruct (v_ID v =? id).
  - destruct (Z.eqb_spec (v_ID w) id) as [E|Hne]; cbn; [|by apply IH].
    assert (v_ID v ≠ id) as Hv.
    { intros <-. apply Hw. rewrite E. apply list_elem_of_fmap_2. by eapply list_elem_of_lookup_2. }
    by rewrite (proj2 (Z.eqb_neq _ _)).
Qed.

(** With distinct ids, every VLAN ends up with the address of the extras, if
    they have one for it. *)
Lemma set_addresses_lookup (addrs : gmap Z string) vs i v :
  NoDup (map v_ID vs) → vs !! i = Some v →
  fold_left (λ vs e, set_address e.1 e.2 vs) (map_range addrs) vs !! i =
    Some (set_VLAN v (default (v_Address v) (addrs !! v_ID v)) (v_DHCP v)).
Proof.
  intros Hnd Hi.
  assert (∀ es, NoDup es.*1 → fold_left (λ vs e, set_address e.1 e.2 vs) es vs !! i =
    Some (set_VLAN v (default (v_Address v) ((list_to_map es : gmap Z string) !! v_ID v)) (v_DHCP v)))
    as H.
  { induction es as [|[id a] es IH] using rev_ind; intros Hes.
    - cbn. rewrite Hi. by destruct v.
    - rewrite fmap_app, NoDup_app in Hes. destruct Hes as (Hes & Hnot & _).
      rewrite fold_left_app. cbn [fold_left fst snd].
      erewrite set_address_lookup; [|by rewrite (readdressed_ids vs) by apply set_addresses_shape|
        by apply IH]. cbn [set_VLAN v_ID].
      assert (id ∉ es.*1) as Hid by (intros Hin; apply (Hnot id Hin); set_solver).
      rewrite list_to_map_app. cbn [list_to_map foldr fst snd curry].
      destruct (Z.eqb_spec (v_ID v) id) as [<-|Hne].
      + rewrite lookup_union_r by (by apply not_elem_of_list_to_map).
        cbn. by rewrite lookup_insert_eq.
      + do 2 f_equal. rewrite lookup_union. cbn. rewrite lookup_insert_ne, lookup_empty by done.
        by destruct (list_to_map es !! v_ID v). }
  rewrite H by apply NoDup_map_range. do 4 f_equal.
  rewrite (list_to_map_proper (map_range addrs) (map_to_list addrs)) by
    (apply NoDup_map_range || apply map_range_perm). by rewrite list_to_map_to_list.
Qed.

(** ** The whole of [ApplyExtras] *)

Definition dns_override (e : ExtrasConfig) (d : DHCPConfig) : DHCPConfig :=
  match e_DNS e with [] => d | dns => set_DNS d dns end.

(** What a DHCP scope becomes, apart from its reservations. *)
Definition scope_override (e : ExtrasConfig) (d : DHCPConfig) : DHCPConfig :=
  dns_override e (set_PXEBootFile d (e_PXEBootFile e)).

Definition wifi_map (c : Config) : option loc := d_Reservations (wi_DHCP (cf_WiFi c)).
Definition images_map (c : Config) : option loc := p_MacImages (sv_PXE (cf_Services c)).

Record extras_applied (e : ExtrasConfig) (h : heap) (c : Config) (h' : heap) (c' : Config)
    : Prop := {
  ea_lan : lan_DHCP (cf_LAN c') =
             set_Reservations (scope_override e (lan_DHCP (cf_LAN c))) (lan_map c');
  ea_lan_view : view h' (lan_map c') = merge_into (lan_accepts c)
                  (map_range (default ∅ (e_Reservations e))) (view h (lan_map c));
  ea_wifi : wi_DHCP (cf_WiFi c') = scope_override e (wi_DHCP (cf_WiFi c));
  ea_vlans : Forall2 (λ v v', ∃ a,
      v' = set_VLAN v a (set_Reservations (scope_override e (v_DHCP v)) (vres v')) ∧
      view h' (vres v') = merge_into (in_subnet (v_Address v))
        (map_range (default ∅ (e_Reservations e))) (view h (vres v)))
    (VLANs h c) (VLANs h' c');
  ea_addresses : NoDup (map v_ID (VLANs h c)) → ∀ i v v',
      VLANs h c !! i = Some v → VLANs h' c' !! i = Some v' →
      v_Address v' = default (v_Address v) (default ∅ (e_VLANAddresses e) !! v_ID v);
  ea_pxe : ∃ l, sv_PXE (cf_Services c') = override_pxe (sv_PXE (cf_Services c)) l e;
  ea_images : view h' (images_map c') = cloneStringMap (e_MacImages e);
  ea_same : cf_VLANs c' = cf_VLANs c ∧ cf_WAN c' = cf_WAN c ∧ cf_NAT c' = cf_NAT c ∧
      cf_DNS c' = cf_DNS c ∧ lan_Address (cf_LAN c') = lan_Address (cf_LAN c) ∧
      cf_WiFi c' = set_WiFi_DHCP (cf_WiFi c) (wi_DHCP (cf_WiFi c')) ∧
      cf_Services c' = set_PXE (cf_Services c) (sv_PXE (cf_Services c'))
}.

(** Updating every scope writes the array of the configuration only. *)
Lemma map_scopes_spec f h c :
  let '(h', c') := map_scopes f (h, c) in
  VLANs h' c' = map (λ v, set_VLAN_DHCP v (f (v_DHCP v))) (VLANs h c) ∧
  c' = set_LAN (set_WiFi c (set_WiFi_DHCP (cf_WiFi c) (f (wi_DHCP (cf_WiFi c)))))
         (set_LAN_DHCP (cf_LAN c) (f (lan_DHCP (cf_LAN c)))) ∧
  h_maps h' = h_maps h ∧ h_next h' = h_next h ∧
  ∀ l, l ≠ cf_VLANs c → array h' l = array h l.
Proof.
  cbn [map_scopes]. split_and!; try done.
  - unfold VLANs at 1. cbn [cf_VLANs set_LAN set_WiFi]. by rewrite array_write, bool_decide_true.
  - intros l Hl. by rewrite array_write, bool_decide_false.
Qed.

Lemma view_maps h h' m : h_maps h' = h_maps h → view h' m = view h m.
Proof. intros E. unfold view. by rewrite E. Qed.

(** The last step of [ApplyExtras], which depends on whether the extras name
    DNS servers. *)
Lemma dns_step_spec e h c :
  ∃ h' c', (match e_DNS e with [] => (h, c) | dns => map_scopes (λ d, set_DNS d dns) (h, c) end)
    = (h', c') ∧
  VLANs h' c' = map (λ v, set_VLAN_DHCP v (dns_override e (v_DHCP v))) (VLANs h c) ∧
  c' = set_LAN (set_WiFi c (set_WiFi_DHCP (cf_WiFi c) (dns_override e (wi_DHCP (cf_WiFi c)))))
         (set_LAN_DHCP (cf_LAN c) (dns_override e (lan_DHCP (cf_LAN c)))) ∧
  h_maps h' = h_maps h ∧ h_next h' = h_next h ∧
  ∀ l, l ≠ cf_VLANs c → array h' l = array h l.
Proof.
  unfold dns_override. destruct (e_DNS e) as [|d dns].
  - exists h, c. split_and!; try done.
    + induction (VLANs h c) as [|v vs IH]; [done|]. cbn. rewrite <-IH. by destruct v.
    + by destruct c as [? [] ?? [] ??].
  - pose proof (map_scopes_spec (λ x, set_DNS x (d :: dns)) h c) as H.
    destruct (map_scopes _ (h, c)) as [h' c']. exists h', c'. split; [done|exact H].
Qed.

Lemma with_reservations_ids h' f vs vs' :
  Forall2 (λ v v', with_reservations h' v v' (f v)) vs vs' → map v_ID vs' = map v_ID vs.
Proof. induction 1 as [|v v' vs vs' [-> _] _ IH]; [done|]. cbn. by rewrite IH. Qed.

(** The VLANs after the last three steps of [ApplyExtras]. *)
Definition overridden (e : ExtrasConfig) (vs : list VLANConfig) : list VLANConfig :=
  map (λ v, set_VLAN_DHCP v (dns_override e (v_DHCP v)))
    (fold_left (λ vs e, set_address e.1 e.2 vs) (map_range (default ∅ (e_VLANAddresses e)))
       (map (λ v, set_VLAN_DHCP v (set_PXEBootFile (v_DHCP v) (e_PXEBootFile e))) vs)).

Lemma overridden_shape e vs :
  Forall2 (λ v v', ∃ a, v' = set_VLAN v a (scope_override e (v_DHCP v))) vs (overridden e vs).
Proof.
  apply Forall2_fmap_r.
  pose proof (set_addresses_shape (map_range (default ∅ (e_VLANAddresses e)))
    (map (λ v, set_VLAN_DHCP v (set_PXEBootFile (v_DHCP v) (e_PXEBootFile e))) vs)) as Hsh.
  apply (Forall2_fmap_l (λ v, set_VLAN_DHCP v (set_PXEBootFile (v_DHCP v) (e_PXEBootFile e)))) in Hsh.
  eapply Forall2_impl; [exact Hsh|]. intros v v' [a ->]. by exists a.
Qed.

Lemma overridden_lookup e vs i v :
  NoDup (map v_ID vs) → vs !! i = Some v →
  overridden e vs !! i = Some (set_VLAN v (default (v_Address v) (default ∅ (e_VLANAddresses e) !! v_ID v))
                                 (scope_override e (v_DHCP v))).
Proof.
  intros Hnd Hi. unfold overridden. rewrite list_lookup_fmap.
  rewrite (set_addresses_lookup _ _ i (set_VLAN_DHCP v (set_PXEBootFile (v_DHCP v) (e_PXEBootFile e))));
    [done|by rewrite map_map|by rewrite list_lookup_fmap, Hi].
Qed.

Lemma vres_override e v a : vres (set_VLAN v a (scope_override e (v_DHCP v))) = vres v.
Proof. unfold vres, scope_override, dns_override; cbn. by destruct (e_DNS e). Qed.

Lemma overridden_res e vs : map vres (overridden e vs) = map vres vs.
Proof.
  induction (overridden_shape e vs) as [|v v' vs vs' [a ->] _ IH]; [done|]. cbn [map].
  by rewrite IH, vres_override.
Qed.

(** The steps after the images: boot files, addresses, DNS servers. *)
Lemma scope_steps_spec e h c :
  let '(h3, c3) := map_scopes (λ d, set_PXEBootFile d (e_PXEBootFile e)) (h, c) in
  let h4 := apply_addresses h3 c3 (e_VLANAddresses e) in
  ∃ h' c', (match e_DNS e with [] => (h4, c3) | dns => map_scopes (λ d, set_DNS d dns) (h4, c3) end)
    = (h', c') ∧
  VLANs h' c' = overridden e (VLANs h c) ∧
  c' = set_LAN (set_WiFi c (set_WiFi_DHCP (cf_WiFi c) (scope_override e (wi_DHCP (cf_WiFi c)))))
         (set_LAN_DHCP (cf_LAN c) (scope_override e (lan_DHCP (cf_LAN c)))) ∧
  h_maps h' = h_maps h ∧ h_next h' = h_next h ∧ ∀ l, l ≠ cf_VLANs c → array h' l = array h l.
Proof.
  pose proof (map_scopes_spec (λ d, set_PXEBootFile d (e_PXEBootFile e)) h c) as H3.
  destruct (map_scopes _ (h, c)) as [h3 c3]. destruct H3 as (Ev3 & Ec3 & Em3 & En3 & Ha3).
  cbn zeta. set (h4 := apply_addresses h3 c3 (e_VLANAddresses e)).
  destruct (dns_step_spec e h4 c3) as (h5 & c5 & -> & Ev5 & Ec5 & Em5 & En5 & Ha5).
  assert (cf_VLANs c3 = cf_VLANs c) as Ecv3 by (by rewrite Ec3).
  exists h5, c5. split_and!; [done| |by rewrite Ec5, Ec3|by rewrite Em5, <-Em3|by rewrite En5, <-En3|].
  - rewrite Ev5. unfold h4, apply_addresses. unfold VLANs at 1.
    by rewrite array_write, bool_decide_true, Ev3 by done.
  - intros l Hl. rewrite Ha5 by congruence. unfold h4, apply_addresses.
    by rewrite array_write, bool_decide_false, Ha3 by congruence.
Qed.

Lemma ApplyExtras_spec e h c rest :
  sep h (scope_maps h c ++ rest) →
  let '(h', c') := ApplyExtras h c (Some e) in
  sep h' (images_map c' :: scope_maps h' c' ++ rest) ∧ untouched h c h' rest ∧
  extras_applied e h c h' c'.
Proof.
  intros Hs. cbn [ApplyExtras].
  pose proof (apply_reservations_spec (map_range (default ∅ (e_Reservations e))) h c rest Hs) as H1.
  destruct (fold_left apply_reservation _ (h, c)) as [h1 c1].
  destruct H1 as (Hs1 & Hu1 & [Hc1 Hl1 Hv1]).
  pose proof (alloc_map_spec h1 (cloneStringMap (e_MacImages e)) _ Hs1) as H2.
  destruct (alloc_map h1 (cloneStringMap (e_MacImages e))) as [h2 images].
  destruct H2 as (Hs2 & Hi2 & Hr2 & Ha2 & Hn2).
  set (c2 := set_Services c1 (set_PXE (cf_Services c1)
    (override_pxe (sv_PXE (cf_Services c1)) images e))).
  pose proof (scope_steps_spec e h2 c2) as H3. destruct (map_scopes _ (h2, c2)) as [h3 c3].
  destruct H3 as (h5 & c5 & -> & Ev5 & Ec5 & Em & En & Ha5).
  assert (cf_VLANs c2 = cf_VLANs c) as Ecv2 by (unfold c2; by rewrite Hc1).
  assert (VLANs h2 c2 = VLANs h1 c1) as Evl by (unfold VLANs, array; by rewrite Ha2). rewrite Evl in Ev5.
  assert (lan_map c5 = lan_map c1) as Elan.
  { rewrite Ec5. unfold lan_map, scope_override, dns_override; cbn. by destruct (e_DNS e). }
  assert (images_map c5 = Some images) as Eimg by (by rewrite Ec5).
  assert (∀ m, m ∈ scope_maps h1 c1 ++ rest → view h5 m = view h1 m) as Hv5.
  { intros m Hm. rewrite (view_maps h2 h5) by done. by apply Hr2. }
  split_and!.
  - unfold scope_maps. rewrite Elan, Ev5, overridden_res, Eimg. eapply sep_mono; [|exact Hs2]. lia.
  - split.
    + intros m Hm. rewrite Hv5 by set_solver. by apply (un_views _ _ _ _ Hu1).
    + intros l Hl. rewrite Ha5 by congruence. unfold array at 1. rewrite Ha2. by apply (un_arrays _ _ _ _ Hu1).
    + rewrite En. pose proof (un_next _ _ _ _ Hu1). lia.
  - split.
    + assert (lan_DHCP (cf_LAN c1) = set_Reservations (lan_DHCP (cf_LAN c)) (lan_map c1)) as El1
        by (by rewrite Hc1 at 1).
      rewrite Elan, Ec5. cbn. rewrite El1. unfold scope_override, dns_override. by destruct (e_DNS e).
    + rewrite Elan, Hv5 by (unfold scope_maps; set_solver). exact Hl1.
    + rewrite Ec5. cbn. by rewrite Hc1.
    + rewrite Ev5. eapply Forall2_compose; [exact Hv1| |].
      { eapply Forall2_impl_in; [apply overridden_shape|]. intros v v' Hin _ [a Ha].
        exact (conj Hin (ex_intro _ a Ha)). }
      intros v v1 v5 [E1 E2] [Hin [a ->]]. exists a. rewrite vres_override. split.
      * rewrite E1 at 1 2. unfold scope_override, dns_override; cbn. by destruct (e_DNS e).
      * rewrite Hv5; [done|]. unfold scope_maps. apply elem_of_app. left. right. by apply list_elem_of_fmap_2.
    + intros Hnd i v v5 Hi H5.
      destruct (Forall2_lookup_l _ _ _ _ _ Hv1 Hi) as (v1 & Hi1 & [E1 _]).
      rewrite Ev5, (overridden_lookup e _ i v1) in H5; [|by rewrite (with_reservations_ids _ _ _ _ Hv1)|done].
      simplify_eq. cbn. by rewrite E1.
    + exists images. rewrite Ec5. cbn. by rewrite Hc1.
    + rewrite Eimg, (view_maps h2 h5) by done. exact Hi2.
    + rewrite Ec5. cbn. rewrite Hc1. by split_and!.
Qed.
End apply.

(** ** Maps with normalized keys *)

Section normalized.
Context `{U : GoUnicode} `{MO : MapOrder}.

Definition normalized_keys (m : gmap string string) : Prop :=
  ∀ k, is_Some (m !! k) → normalizeMAC k = k.

(** The entries of the extras a scope takes over. *)
Definition accepted_part (accepts : IP → bool) (m : gmap string string) : gmap string string :=
  filter (λ e, To4 (ParseIP e.2) ≠ [] ∧ accepts (To4 (ParseIP e.2)) = true) m.

Lemma merge_into_union accepts (m base : gmap string string) :
  normalized_keys m →
  merge_into accepts (map_range m) base = accepted_part accepts m ∪ base.
Proof.
  intros Hn. apply map_eq. intros k. unfold merge_into.
  rewrite (fold_insert_own_keys (λ (_ v : string),
    if decide (To4 (ParseIP v) ≠ [] ∧ accepts (To4 (ParseIP v)) = true) then Some v else None)).
  2:{ intros k' v Hv. unfold accepted. cbn.
      rewrite Hn by (by eexists). destruct (To4 (ParseIP v)) as [|x p]; cbn.
      - by rewrite decide_False by tauto.
      - destruct (accepts (x :: p)); [by rewrite decide_True|by rewrite decide_False by naive_solver]. }
  rewrite lookup_union. unfold accepted_part. rewrite map_lookup_filter.
  destruct (m !! k) as [v|]; cbn; [|by destruct (base !! k)].
  case_decide; cbn; [rewrite option_guard_True by done|rewrite option_guard_False by done];
    cbn; by destruct (base !! k).
Qed.

Lemma cloneStringMap_id (m : gmap string string) :
  normalized_keys m → cloneStringMap (Some m) = m.
Proof.
  intros Hn. unfold cloneStringMap. apply map_eq. intros k.
  rewrite (fold_insert_own_keys (λ _ v, Some v)); [by destruct (m !! k)|].
  intros k' v Hv. cbn. by rewrite Hn by (by eexists).
Qed.

Lemma copy_entries_union (acc m : gmap string string) : copy_entries acc m = m ∪ acc.
Proof.
  unfold copy_entries. apply map_eq. intros k.
  rewrite (fold_insert_own_keys (λ _ v, Some v)) by done.
  rewrite lookup_union. by destruct (m !! k), (acc !! k).
Qed.

Lemma rewrite_values (e : string → string) (m : gmap string string) :
  fold_left (λ acc kv, <[kv.1 := e kv.2]> acc) (map_range m) m = e <$> m.
Proof.
  change (fold_left _ (map_range m) m)
    with (fold_insert (λ kv : string * string, Some (kv.1, e kv.2)) (map_range m) m).
  apply map_eq. intros k. rewrite (fold_insert_own_keys (λ _ v, Some (e v))) by done.
  rewrite lookup_fmap. by destruct (m !! k).
Qed.
End normalized.

(** What [ApplyExtras] leaves alone. *)
Lemma applied_wifi_map `{U : GoUnicode} `{MO : MapOrder} e h c h' c' :
  extras_applied e h c h' c' → wifi_map c' = wifi_map c.
Proof.
  intros Ha. unfold wifi_map. rewrite (ea_wifi _ _ _ _ _ Ha). unfold scope_override, dns_override.
  by destruct (e_DNS e).
Qed.

Lemma applied_DNS `{U : GoUnicode} `{MO : MapOrder} e h c h' c' :
  extras_applied e h c h' c' → e_DNS e = [] →
  d_DNS (lan_DHCP (cf_LAN c')) = d_DNS (lan_DHCP (cf_LAN c)) ∧
  d_DNS (wi_DHCP (cf_WiFi c')) = d_DNS (wi_DHCP (cf_WiFi c)) ∧
  Forall2 (λ v v', d_DNS (v_DHCP v') = d_DNS (v_DHCP v)) (VLANs h c) (VLANs h' c').
Proof.
  intros [] He. rewrite ea_lan0, ea_wifi0. unfold scope_override, dns_override. rewrite He.
  split_and!; [done..|]. eapply Forall2_impl; [exact ea_vlans0|]. intros v v' (a & -> & _). cbn.
  unfold scope_override, dns_override. by rewrite He.
Qed.

(** The reservations of a configuration together: those of the WiFi win over
    those of the LAN, and these over those of the VLANs, the last one first. *)
Definition all_reservations (h : heap) (c : Config) : gmap string string :=
  view h (wifi_map c) ∪ (view h (lan_map c) ∪ ⋃ ((λ v, view h (vres v)) <$> reverse (VLANs h c))).

Lemma created_reservations `{MO : MapOrder} h c :
  e_Reservations (ExtrasFromConfig h c) = Some (all_reservations h c).
Proof.
  cbn [ExtrasFromConfig e_Reservations]. f_equal. rewrite !copy_entries_union. unfold all_reservations.
  f_equal. f_equal. induction (VLANs h c) as [|v vs IH] using rev_ind; [done|].
  rewrite fold_left_app. cbn [fold_left]. by rewrite copy_entries_union, IH, reverse_snoc.
Qed.

Lemma created_addresses `{U : GoUnicode} `{MO : MapOrder} h c h' c' :
  NoDup (map v_ID (VLANs h c)) → extras_applied (ExtrasFromConfig h c) h c h' c' →
  map v_Address (VLANs h' c') = map v_Address (VLANs h c).
Proof.
  intros Hnd []. apply list_eq. intros i. rewrite !list_lookup_fmap.
  destruct (VLANs h c !! i) as [v|] eqn:Hi.
  - destruct (Forall2_lookup_l _ _ _ _ _ ea_vlans0 Hi) as (v' & Hi' & _). rewrite Hi'. cbn.
    f_equal. rewrite (ea_addresses0 Hnd i v v' Hi Hi'). cbn [ExtrasFromConfig e_VLANAddresses].
    apply list_elem_of_lookup_2 in Hi. clear -Hi Hnd. cbn [from_option id].
    set (m := fold_left _ _ _). assert (m !! v_ID v = Some (v_Address v)) as ->; [|done].
    unfold m. induction (VLANs h c) as [|w vs IH] using rev_ind; [by apply not_elem_of_nil in Hi|].
    rewrite map_app, NoDup_app in Hnd. destruct Hnd as (Hnd & Hno & _).
    rewrite fold_left_app. cbn [fold_left]. apply elem_of_app in Hi as [Hi|Hi].
    + rewrite lookup_insert_ne; [by apply IH|]. intros E.
      apply (Hno (v_ID v)); [by apply list_elem_of_fmap_2|]. rewrite <-E. set_solver.
    + apply list_elem_of_singleton in Hi as ->. apply lookup_insert_eq.
  - destruct (VLANs h' c' !! i) as [v'|] eqn:Hi'; [|done].
    destruct (Forall2_lookup_r _ _ _ _ _ ea_vlans0 Hi') as (v & Hv & _). congruence.
Qed.

(** What the reservations [m] of a created file add to a scope that has [own]:
    nothing, unless another scope reserves an address of this one's subnet. *)
Definition reservations_kept (accepts : IP → bool) (m own new : gmap string string) : Prop :=
  new = accepted_part accepts m ∪ own ∧
  ((∀ k ip, m !! k = Some ip → accepts (To4 (ParseIP ip)) = true → own !! k = Some ip) → new = own).

Lemma merge_kept `{U : GoUnicode} `{MO : MapOrder} accepts m own :
  normalized_keys m → reservations_kept accepts m own (merge_into accepts (map_range m) own).
Proof.
  intros Hn. rewrite merge_into_union by done. split; [done|]. intros Hm. apply map_eq. intros k.
  rewrite lookup_union. unfold accepted_part. destruct (filter _ m !! k) as [ip|] eqn:E.
  - apply map_lookup_filter_Some in E as [E [_ Ha]]. rewrite (Hm k ip E Ha). done.
  - by destruct (own !! k).
Qed.

(** ** The properties of the component *)


(** when the keys of the extras are normalized, the reservations of a scope
    after [ApplyExtras] are those of the extras in its subnet and, for the other
    clients, its own; the order in which Go iterates the map does not matter. *)
Theorem ApplyExtras_reservations `{U : GoUnicode} `{MO : MapOrder} e h c rest m :
  sep h (scope_maps h c ++ rest) →
  e_Reservations e = Some m → normalized_keys m →
  let '(h', c') := ApplyExtras h c (Some e) in
  view h' (lan_map c') = accepted_part (lan_accepts c) m ∪ view h (lan_map c) ∧
  Forall2 (λ v v', view h' (vres v') =
    accepted_part (in_subnet (v_Address v)) m ∪ view h (vres v)) (VLANs h c) (VLANs h' c').
Proof.
  intros Hs Hm Hn. pose proof (ApplyExtras_spec e h c rest Hs) as H.
  destruct (ApplyExtras h c (Some e)) as [h' c']. destruct H as (_ & _ & []).
  rewrite Hm in *. cbn in *. split.
  - by rewrite ea_lan_view0, merge_into_union.
  - eapply Forall2_impl; [exact ea_vlans0|]. intros v v' (a & _ & ->).
    by apply merge_into_union.
Qed.

(** C21: applying an extras file created by [ExtrasFromConfig] keeps the PXE
    images and boot options, the address of every VLAN and the DNS servers of
    every scope.  The WiFi keeps its reservations; the LAN and every VLAN keep
    theirs with their addresses, and get none besides, unless another scope
    reserves an address of their subnet, which is then taken over.  But the boot
    file of every scope is replaced by the global one. *)
Theorem created_extras_apply `{U : GoUnicode} `{MO : MapOrder} h c rest :
  sep h (scope_maps h c ++ rest) → NoDup (map v_ID (VLANs h c)) →
  normalized_keys (view h (images_map c)) → normalized_keys (all_reservations h c) →
  let p := sv_PXE (cf_Services c) in
  let m := all_reservations h c in
  let '(h', c') := ApplyExtras h c (Some (ExtrasFromConfig h c)) in
  let p' := sv_PXE (cf_Services c') in
  view h' (images_map c') = view h (images_map c) ∧
  p' = override_pxe p (default 0%nat (images_map c')) (ExtrasFromConfig h c) ∧
  p_DefaultImage p' = p_DefaultImage p ∧ p_LegacyBootFile p' = p_LegacyBootFile p ∧
  p_UEFIBootFile p' = p_UEFIBootFile p ∧ p_IPXEScript p' = p_IPXEScript p ∧
  map v_Address (VLANs h' c') = map v_Address (VLANs h c) ∧
  d_DNS (lan_DHCP (cf_LAN c')) = d_DNS (lan_DHCP (cf_LAN c)) ∧
  d_DNS (wi_DHCP (cf_WiFi c')) = d_DNS (wi_DHCP (cf_WiFi c)) ∧
  Forall2 (λ v v', d_DNS (v_DHCP v') = d_DNS (v_DHCP v)) (VLANs h c) (VLANs h' c') ∧
  wifi_map c' = wifi_map c ∧
  reservations_kept (lan_accepts c) m (view h (lan_map c)) (view h' (lan_map c')) ∧
  Forall2 (λ v v', reservations_kept (in_subnet (v_Address v)) m (view h (vres v)) (view h' (vres v')))
    (VLANs h c) (VLANs h' c') ∧
  d_PXEBootFile (lan_DHCP (cf_LAN c')) = p_BootFile p ∧
  d_PXEBootFile (wi_DHCP (cf_WiFi c')) = p_BootFile p ∧
  Forall (λ v', d_PXEBootFile (v_DHCP v') = p_BootFile p) (VLANs h' c').
Proof.
  intros Hs Hnd Hn Hres p m. pose proof (ApplyExtras_spec (ExtrasFromConfig h c) h c rest Hs) as H.
  destruct (ApplyExtras h c (Some (ExtrasFromConfig h c))) as [h' c'].
  destruct H as (_ & _ & Ha). pose proof (applied_wifi_map _ _ _ _ _ Ha) as Hw.
  destruct (applied_DNS _ _ _ _ _ Ha eq_refl) as (Hd1 & Hd2 & Hd3).
  pose proof (created_addresses _ _ _ _ Hnd Ha) as Haddr. destruct Ha. destruct ea_pxe0 as [l Hp]. cbv zeta.
  rewrite created_reservations in *. cbn [default from_option id] in *.
  unfold images_map at 3. rewrite Hp. cbn [override_pxe p_MacImages default]. split_and!; try done.
  - rewrite ea_images0. cbn [ExtrasFromConfig e_MacImages]. rewrite copy_entries_union.
    rewrite map_union_empty. by apply cloneStringMap_id.
  - rewrite ea_lan_view0. by apply merge_kept.
  - eapply Forall2_impl; [exact ea_vlans0|]. intros v v' (a & _ & ->). by apply merge_kept.
  - by rewrite ea_lan0.
  - by rewrite ea_wifi0.
  - clear -ea_vlans0. induction ea_vlans0 as [|v v' vs vs' (a & -> & _) _ IH]; [constructor|].
    by constructor.
Qed.

(** the editing methods of the extras file. A setter stores the value under
    the normalized address and changes nothing else; it reports
    [ErrNotModified] exactly when the value was there already.  A remover
    deletes exactly that entry and reports [ErrNotModified] exactly when there
    was none; removing what was newly set restores the entries. *)
Theorem reservation_edits `{U : GoUnicode} e mac ip :
  let m := default ∅ (e_Reservations e) in
  let k := normalizeMAC mac in
  (ip ≠ "" →
     default ∅ (e_Reservations (SetReservation e mac ip).1) = <[k := ip]> m ∧
     ((SetReservation e mac ip).2 = Some ErrNotModified ↔ m !! k = Some ip) ∧
     ((SetReservation e mac ip).2 = None ↔ m !! k ≠ Some ip) ∧
     (m !! k = None →
        default ∅ (e_Reservations (RemoveReservation (SetReservation e mac ip).1 mac).1) = m)) ∧
  default ∅ (e_Reservations (RemoveReservation e mac).1) = delete k m ∧
  ((RemoveReservation e mac).2 = Some ErrNotModified ↔ m !! k = None) ∧
  ((RemoveReservation e mac).2 = None ↔ is_Some (m !! k)) ∧
  e_MacImages (SetReservation e mac ip).1 = e_MacImages e ∧
  e_SMBUsers (SetReservation e mac ip).1 = e_SMBUsers e ∧
  e_VLANAddresses (RemoveReservation e mac).1 = e_VLANAddresses e.
Proof.
  destruct e as [res img di pb lb ub ips us va dns].
  intros m k. cbn [e_Reservations] in m.
  unfold SetReservation, RemoveReservation. fold k. cbn [e_Reservations]. fold m.
  unfold get.
  split.
  { intros Hip. destruct (String.eqb_spec (default "" (m !! k)) ip) as [E|E]; cbn.
    - assert (m !! k = Some ip) as Hk by (destruct (m !! k); cbn in E; congruence).
      rewrite Hk. split_and!; [by rewrite insert_id|done|split; congruence|done].
    - assert (m !! k ≠ Some ip) as Hk by (intros H; rewrite H in E; done).
      split_and!; [done|split; done|split; done|]. intros Hn. rewrite lookup_insert_eq. cbn.
      by rewrite delete_insert_id. }
  split_and!; try (case_if; done); unfold m; destruct res as [m'|]; cbn;
    try (destruct (m' !! k) as [x|] eqn:E; cbn); rewrite ?delete_empty, ?lookup_empty;
    try done; try (by rewrite delete_id);
    split; first [done | by intros [] | by eexists].
Qed.

(** a lease duration written as a whole number of nanoseconds to hours is
    that duration, and a text that is not a duration means twelve hours. *)
Theorem ParseLeaseDuration_correct `{F : GoFloat} d n u unit :
  (d_LeaseDuration d = itoa n +:+ u → 0 ≤ n → n * unit < two63 → n ≤ two63 / 10 →
     (u, unit) ∈ [("ns", 1); ("us", 1000); ("ms", 1000000); ("s", 1000000000);
                  ("m", 60000000000); ("h", 3600000000000)] →
     ParseLeaseDuration d = n * unit) ∧
  (ParseDuration (d_LeaseDuration d) = None → ParseLeaseDuration d = 12 * 3600000000000).
Proof.
  unfold ParseLeaseDuration. split; [|by intros ->]. intros -> Hn Hlt Hle Hin.
  rewrite (ParseDuration_units n u unit); [done|done| | |done|done| |];
    rewrite !elem_of_cons in Hin; destruct_or! Hin; simplify_eq; try done;
    by apply not_elem_of_nil in Hin.
Qed.

(** [ExpandEnv] expands the paths and credentials of the services and, in
    place and whatever the iteration order, every PXE image name; it changes
    neither the network sections nor any other map. *)
Theorem ExpandEnv_correct `{MO : MapOrder} env h c :
  let e s := Expand s env in
  let '(h', c') := ExpandEnv env h c in
  let s := cf_Services c in let s' := cf_Services c' in
  cf_WAN c' = cf_WAN c ∧ cf_LAN c' = cf_LAN c ∧ cf_VLANs c' = cf_VLANs c ∧
  cf_NAT c' = cf_NAT c ∧ cf_WiFi c' = cf_WiFi c ∧ cf_DNS c' = cf_DNS c ∧
  view h' (images_map c') = e <$> view h (images_map c) ∧
  (∀ m, m ≠ images_map c → view h' m = view h m) ∧ (∀ l, array h' l = array h l) ∧
  mo_Target (sv_Mount s') = e (mo_Target (sv_Mount s)) ∧
  sm_Password (sv_SMB s') = e (sm_Password (sv_SMB s)) ∧
  p_TFTPRoot (sv_PXE s') = e (p_TFTPRoot (sv_PXE s)) ∧
  sv_ExtrasFile s' = e (sv_ExtrasFile s) ∧
  p_BindInterface (sv_PXE s') = p_BindInterface (sv_PXE s) ∧
  (∀ x, contains_char "$"%char x = false → e x = x).
Proof.
  intros e. cbn [ExpandEnv]. unfold images_map. cbn. split_and!; try done.
  - unfold expand_images. destruct (p_MacImages (sv_PXE (cf_Services c))) as [l|]; cbn.
    + rewrite lookup_insert_eq. cbn. apply (rewrite_values e).
    + by rewrite fmap_empty.
  - intros m Hm. unfold expand_images.
    destruct (p_MacImages (sv_PXE (cf_Services c))) as [l|] eqn:El; [|done].
    by rewrite view_write, bool_decide_false.
  - intros l. unfold expand_images. by destruct (p_MacImages _).
  - intros x. apply Expand_no_dollar.
Qed.

(** ** A concrete configuration *)

Definition demo_dhcp (res : option loc) : DHCPConfig := {|
  d_Enabled := true; d_RangeStart := "10.0.0.100"; d_RangeEnd := "10.0.0.200";
  d_LeaseDuration := "12h"; d_DNS := ["9.9.9.9"]; d_Reservations := res;
  d_PXEBootServer := ""; d_PXEBootFile := "scope.efi" |}.

Definition demo_vlan (id : Z) (addr : string) (res : option loc) : VLANConfig := {|
  v_ID := id; v_Name := ""; v_Ports := []; v_Address := addr; v_DHCP := demo_dhcp res;
  v_NAT := true; v_Isolated := false |}.

(** The LAN's map is at location 0, that of the second VLAN at 1, the images at
    2, the VLANs at 3. *)
Definition demo_heap : heap := {|
  h_maps := {[0%nat := {["02:00:00:00:00:01" := "10.0.0.9"]}; 1%nat := ∅;
              2%nat := {["02:00:00:00:00:01" := "pi.img"]}]};
  h_arrays := {[3%nat := [demo_vlan 10 "10.0.10.1/24" None;
                          demo_vlan 20 "10.0.20.1/24" (Some 1%nat)]]};
  h_next := 4%nat |}.

Definition demo_config : Config := {|
  cf_WAN := {| w_Interface := "wan"; w_Mode := "dhcp" |};
  cf_LAN := {| lan_Bridge := "br-lan"; lan_Interfaces := ["lan1"]; lan_Address := "10.0.0.1/24";
               lan_DHCP := demo_dhcp (Some 0%nat) |};
  cf_VLANs := 3%nat;
  cf_NAT := {| n_Enabled := true; n_OutInterface := "wan" |};
  cf_WiFi := zero_WiFi;
  cf_Services := set_PXE zero_Services {|
    p_Enabled := true; p_Listen := ""; p_BindInterface := ""; p_TFTPRoot := "";
    p_DefaultImage := ""; p_MacImages := Some 2%nat; p_BootFile := "global.efi";
    p_LegacyBootFile := ""; p_UEFIBootFile := ""; p_IPXEScript := "" |};
  cf_DNS := [] |}.

Definition demo_extras : ExtrasConfig := {|
  e_Reservations := Some {["02:00:00:00:00:02" := "10.0.10.7"]}; e_MacImages := None;
  e_DefaultImage := "x.img"; e_PXEBootFile := "extra.efi"; e_LegacyBootFile := "";
  e_UEFIBootFile := ""; e_IPXEScript := ""; e_SMBUsers := []; e_VLANAddresses := None;
  e_DNS := [] |}.

Lemma demo_sep : sep demo_heap (scope_maps demo_heap demo_config ++ [Some 2%nat]).
Proof.
  split; [apply (bool_decide_eq_true_1 (NoDup _)); vm_compute; reflexivity|].
  apply (bool_decide_eq_true_1 (Forall _ _)). vm_compute. reflexivity.
Qed.

Lemma demo_normalized (k v : string) :
  normalizeMAC (U := ascii_unicode) k = k → normalized_keys (U := ascii_unicode) {[k := v]}.
Proof. by intros Hk k' [x [<- _]%lookup_singleton_Some]. Qed.


Lemma ApplyExtras_reservations_witness :
  ∃ h' c', ApplyExtras (U := ascii_unicode) (MO := canonical_order) demo_heap demo_config
      (Some demo_extras) = (h', c') ∧
    (view h' <$> (vres <$> VLANs h' c') !! 0%nat) =
      Some {["02:00:00:00:00:02" := "10.0.10.7"]}.
Proof.
  assert (normalized_keys (U := ascii_unicode) {["02:00:00:00:00:02" := "10.0.10.7"]}) as Hn
    by (apply demo_normalized; vm_compute; reflexivity).
  pose proof (ApplyExtras_reservations (U := ascii_unicode) (MO := canonical_order) demo_extras
    demo_heap demo_config [Some 2%nat] _ demo_sep eq_refl Hn) as H.
  destruct (ApplyExtras _ _ _) as [h' c'] eqn:E. destruct H as [_ Hv].
  exists h', c'. split; [reflexivity|].
  assert (VLANs demo_heap demo_config !! 0%nat = Some (demo_vlan 10 "10.0.10.1/24" None)) as E0
    by (vm_compute; reflexivity).
  destruct (Forall2_lookup_l _ _ _ _ _ Hv E0) as (v' & Hi & Hv').
  rewrite list_lookup_fmap, Hi. cbn [fmap option_fmap option_map]. rewrite Hv'.
  vm_compute. reflexivity.
Defined.

Lemma created_extras_apply_witness :
  ∃ h' c', ApplyExtras (U := ascii_unicode) (MO := canonical_order) demo_heap demo_config
      (Some (ExtrasFromConfig (MO := canonical_order) demo_heap demo_config)) = (h', c') ∧
    d_PXEBootFile (lan_DHCP (cf_LAN demo_config)) = "scope.efi" ∧
    d_PXEBootFile (lan_DHCP (cf_LAN c')) = "global.efi" ∧
    view h' (lan_map c') = {["02:00:00:00:00:01" := "10.0.0.9"]}.
Proof.
  assert (NoDup (map v_ID (VLANs demo_heap demo_config))) as Hnd
    by (apply (bool_decide_eq_true_1 (NoDup _)); vm_compute; reflexivity).
  assert (normalized_keys (U := ascii_unicode) (view demo_heap (images_map demo_config))) as Hn.
  { assert (view demo_heap (images_map demo_config) = {["02:00:00:00:00:01" := "pi.img"]}) as ->
      by (vm_compute; reflexivity).
    apply demo_normalized. vm_compute. reflexivity. }
  assert (all_reservations demo_heap demo_config = {["02:00:00:00:00:01" := "10.0.0.9"]}) as Hall
    by (vm_compute; reflexivity).
  assert (normalized_keys (U := ascii_unicode) (all_reservations demo_heap demo_config)) as Hr.
  { rewrite Hall. apply demo_normalized. vm_compute. reflexivity. }
  pose proof (created_extras_apply (U := ascii_unicode) (MO := canonical_order)
    demo_heap demo_config [Some 2%nat] demo_sep Hnd Hn Hr) as H.
  destruct (ApplyExtras _ _ _) as [h' c'] eqn:E.
  destruct H as (_ & _ & _ & _ & _ & _ & _ & _ & _ & _ & _ & [_ Hl] & _ & Hb & _).
  exists h', c'. split; [reflexivity|]. split; [reflexivity|]. split; [exact Hb|].
  rewrite Hl; [vm_compute; reflexivity|]. intros k ip. rewrite Hall. intros Hk _.
  assert (view demo_heap (lan_map demo_config) = {["02:00:00:00:00:01" := "10.0.0.9"]}) as ->
    by (vm_compute; reflexivity). exact Hk.
Defined.
