(* ===== verification/GoPath.v ===== *)
(** * Package path/filepath

    The lexical functions of path/filepath on Unix, by path components. *)

From Stdlib Require Import Ascii.
From S2P Require Import Prelude GoStrings.
Open Scope Z_scope.

Definition sep_char : ascii := "/"%char.

Definition IsAbs (p : string) : bool := has_prefix "/" p.

(** One component of [Clean]: [out] is the reversed list of the components
    kept so far. *)
Definition clean_step (rooted : bool) (out : list string) (c : string) : list string :=
  if String.eqb c "" || String.eqb c "." then out
  else if String.eqb c ".." then
    match out with
    | [] => if rooted then [] else [".."]
    | x :: out' => if String.eqb x ".." then c :: out else out'
    end
  else c :: out.

Definition clean_parts (rooted : bool) (parts : list string) : list string :=
  reverse (fold_left (clean_step rooted) parts []).

(** [Clean]. *)
Definition Clean (p : string) : string :=
  let rooted := IsAbs p in
  let parts := clean_parts rooted (split_on sep_char p) in
  if rooted then "/" +:+ join "/" parts
  else match parts with [] => "." | _ => join "/" parts end.

(** [Join] of two elements. *)
Definition Join (a b : string) : string :=
  match a, b with
  | "", "" => ""
  | "", _ => Clean b
  | _, _ => Clean (a +:+ "/" +:+ b)
  end.

(** [Dir]: the path up to its last separator, cleaned. *)
Definition Dir (p : string) : string :=
  match split_on sep_char p with
  | [] | [_] => Clean ""
  | parts => Clean (join "/" (removelast parts) +:+ "/")
  end.

(** The elements [Rel] compares: an absolute path starts with an empty one,
    the base "." has none. *)
Definition base_parts (p : string) : list string :=
  if String.eqb p "." then [] else if String.eqb p "/" then [""] else split_on sep_char p.
Definition targ_parts (p : string) : list string :=
  if String.eqb p "/" then [""] else split_on sep_char p.

Fixpoint strip_common (b t : list string) : list string * list string :=
  match b, t with
  | x :: b', y :: t' => if String.eqb x y then strip_common b' t' else (b, t)
  | _, _ => (b, t)
  end.

(** [Rel]; [None] for its error. *)
Definition Rel (basepath targpath : string) : option string :=
  let base := Clean basepath in
  let targ := Clean targpath in
  if String.eqb targ base then Some "."
  else if negb (Bool.eqb (IsAbs base) (IsAbs targ)) then None
  else
    let '(b, t) := strip_common (base_parts base) (targ_parts targ) in
    match b with
    | x :: _ => if String.eqb x ".." then None
                else Some (join "/" (map (λ _, "..") b ++ t))
    | [] => Some (join "/" t)
    end.

(** The part of a string after the last occurrence of a byte. *)
Definition last_part (c : ascii) (s : string) : string := List.last (split_on c s) "".

(** [Base]. *)
Fixpoint strip_slashes (rev_l : list Z) : list Z :=
  match rev_l with
  | c :: r => if c =? 47 then strip_slashes r else rev_l
  | [] => []
  end.
Definition Base (p : string) : string :=
  if String.eqb p "" then "."
  else
    let p := of_bytes (reverse (strip_slashes (reverse (to_bytes p)))) in
    let b := last_part sep_char p in
    if String.eqb b "" then "/" else b.

(** [Ext]: from the last dot of the last element. *)
Definition Ext (p : string) : string :=
  let b := last_part sep_char p in
  if contains_char "." b then "." +:+ last_part "."%char b else "".

(** ** Lemmas *)

(** A cleaned path has no empty component, no dot, and double dots only at the
    start of a relative path. *)
Definition plain (c : string) : Prop := c ≠ "" ∧ c ≠ "." ∧ c ≠ "..".

Definition cleaned (rooted : bool) (rev_parts : list string) : Prop :=
  ∃ plains ups, rev_parts = plains ++ ups ∧ Forall plain plains ∧
    Forall (eq "..") ups ∧ (rooted = true → ups = []).

Lemma clean_step_cleaned rooted out c : cleaned rooted out → cleaned rooted (clean_step rooted out c).
Proof.
  intros (pl & ups & -> & Hpl & Hups & Hr). unfold clean_step.
  destruct (String.eqb_spec c "") as [|H1]; cbn [orb]; [by exists pl, ups|].
  destruct (String.eqb_spec c ".") as [|H2]; cbn [orb]; [by exists pl, ups|].
  destruct (String.eqb_spec c "..") as [->|H3].
  - destruct pl as [|x pl]; cbn [app].
    + destruct ups as [|u ups].
      * destruct rooted; [by exists [], []|]. exists [], [".."]. by repeat constructor.
      * pose proof Hups as Hu. apply Forall_cons in Hu as [<- _]. cbn.
        exists [], (".." :: ".." :: ups). split_and!; [done|done|by constructor|].
        intros Hrt. by specialize (Hr Hrt).
    + apply Forall_cons in Hpl as [(_ & _ & Hx) Hpl].
      destruct (String.eqb_spec x ".."); [done|]. by exists pl, ups.
  - exists (c :: pl), ups. split_and!; [done|by constructor|done|done].
Qed.

Lemma clean_parts_cleaned rooted parts : cleaned rooted (reverse (clean_parts rooted parts)).
Proof.
  unfold clean_parts. rewrite reverse_involutive.
  assert (∀ out, cleaned rooted out → cleaned rooted (fold_left (clean_step rooted) parts out)) as H.
  { induction parts as [|c parts IH]; intros out Ho; [done|]. cbn. by apply IH, clean_step_cleaned. }
  apply H. exists [], []. by repeat constructor.
Qed.

(** The components of a cleaned absolute path. *)
Lemma clean_parts_rooted parts : Forall plain (clean_parts true parts).
Proof.
  destruct (clean_parts_cleaned true parts) as (pl & ups & E & Hpl & _ & Hr).
  rewrite (Hr eq_refl), app_nil_r in E. rewrite <-(reverse_involutive (clean_parts true parts)), E.
  by apply Forall_reverse.
Qed.

Lemma strip_common_spec b t b' t' :
  strip_common b t = (b', t') → ∃ p, b = p ++ b' ∧ t = p ++ t'.
Proof.
  revert t; induction b as [|x b IH]; intros t; cbn.
  { intros [= <- <-]. by exists []. }
  destruct t as [|y t]; [intros [= <- <-]; by exists []|].
  destruct (String.eqb_spec x y) as [->|]; [|intros [= <- <-]; by exists []].
  intros (p & -> & ->)%IH. by exists (y :: p).
Qed.

Lemma Forall_fold_clean (P : string → Prop) rooted parts out :
  P ".." → Forall P out → Forall P parts → Forall P (fold_left (clean_step rooted) parts out).
Proof.
  intros Hup. revert out; induction parts as [|c parts IH]; intros out Ho Hp; [done|].
  apply Forall_cons in Hp as [Hc Hp]. apply IH; [|done]. unfold clean_step.
  destruct (_ || _); [done|]. destruct (String.eqb c ".."); [|by constructor].
  destruct out as [|x out]; [destruct rooted; by repeat constructor|].
  destruct (String.eqb x ".."); [by constructor|]. by apply Forall_cons in Ho as [? ?].
Qed.

Lemma clean_parts_no_sep rooted p :
  Forall (λ c, contains_char sep_char c = false) (clean_parts rooted (split_on sep_char p)).
Proof.
  unfold clean_parts. apply Forall_reverse, Forall_fold_clean; [done|constructor|].
  apply split_on_parts.
Qed.

Lemma targ_parts_join parts :
  parts ≠ [] → Forall (λ c, contains_char sep_char c = false) parts → Forall (λ c, c ≠ "") parts →
  targ_parts (join "/" parts) = parts.
Proof.
  intros Hne Hs Hn. unfold targ_parts. destruct (String.eqb_spec (join "/" parts) "/") as [E|_].
  - exfalso. pose proof (split_on_join sep_char parts Hne Hs) as H.
    change (String sep_char "") with "/" in H. rewrite E in H.
    change (split_on sep_char "/") with [""; ""] in H. rewrite <-H in Hn.
    by apply Forall_cons in Hn as [? _].
  - by apply (split_on_join sep_char).
Qed.

(** The components of a cleaned path. *)
Lemma targ_parts_Clean p :
  targ_parts (Clean p) =
  (if IsAbs p then [""] else []) ++
  match IsAbs p, clean_parts (IsAbs p) (split_on sep_char p) with
  | false, [] => ["."]
  | _, parts => parts
  end.
Proof.
  unfold Clean. pose proof (clean_parts_no_sep (IsAbs p) p) as Hs.
  pose proof (clean_parts_cleaned (IsAbs p) (split_on sep_char p)) as Hc.
  destruct (IsAbs p).
  - pose proof (clean_parts_rooted (split_on sep_char p)) as Hp.
    set (parts := clean_parts true _) in *. destruct parts as [|x l] eqn:E; [done|]. rewrite <-E in *.
    assert (join "/" ("" :: parts) = "/" +:+ join "/" parts) as <- by (rewrite E; done).
    unfold targ_parts. destruct (String.eqb_spec (join "/" ("" :: parts)) "/") as [E'|_].
    + exfalso. rewrite E in E'. rewrite join_cons, str_app_nil_l in E'.
      change (?a +:+ ?b = "/") with (a +:+ b = "/" +:+ "") in E'. apply str_app_inj_l in E'.
      rewrite E in Hp. apply Forall_cons in Hp as [[Hx _] _].
      destruct l; cbn in E'; [done|]. destruct x; done.
    + apply (split_on_join sep_char); [done|]. by constructor.
  - destruct (clean_parts false _) as [|x l] eqn:E; [done|]. cbn [app].
    apply targ_parts_join; [done|done|].
    destruct Hc as (pl & ups & Er & Hpl & Hups & _).
    apply (Forall_reverse (λ c, c ≠ "")). rewrite Er. apply Forall_app. split.
    + eapply Forall_impl; [exact Hpl|]. by intros c (? & _).
    + eapply Forall_impl; [exact Hups|]. by intros c <-.
Qed.

Lemma base_parts_targ p : p ≠ "." → base_parts p = targ_parts p.
Proof. intros H. unfold base_parts, targ_parts. by destruct (String.eqb_spec p "."). Qed.

(** A suffix of a cleaned list of components that does not start with a double
    dot has plain components only. *)
Lemma cleaned_suffix rooted parts pre t :
  cleaned rooted (reverse parts) → parts = pre ++ t → head t ≠ Some ".." → Forall plain t.
Proof.
  intros (pl & ups & E & Hpl & Hups & _) -> Hh.
  apply (f_equal reverse) in E. rewrite reverse_involutive, reverse_app in E.
  apply Forall_reverse in Hpl, Hups.
  apply app_eq_inv in E as [(k & -> & Ek)|(k & Eu & ->)].
  - rewrite Ek in Hpl. by apply Forall_app in Hpl as [_ ?].
  - destruct k as [|x k]; [done|]. rewrite Eu in Hups. apply Forall_app in Hups as [_ Hk].
    apply Forall_cons in Hk as [<- _]. done.
Qed.

(** What [Rel] returns when it does not go up. *)
Lemma Rel_within root full rel :
  Rel root full = Some rel → rel ≠ ".." → has_prefix "../" rel = false →
  (rel = "." ∧ Clean full = Clean root) ∨
  ∃ t, rel = join "/" t ∧ targ_parts (Clean full) = base_parts (Clean root) ++ t ∧ Forall plain t.
Proof.
  unfold Rel. destruct (String.eqb_spec (Clean full) (Clean root)) as [E|Hne].
  { intros [= <-]. by left. }
  destruct (negb (Bool.eqb _ _)) eqn:Eabs; [done|].
  destruct (strip_common (base_parts (Clean root)) (targ_parts (Clean full))) as [b t] eqn:Es.
  apply strip_common_spec in Es as (p & Eb & Et). intros H Hup Hpre.
  destruct b as [|x b].
  2:{ destruct (String.eqb x ".."); [done|]. injection H as <-. exfalso. cbn [map app] in *.
      destruct (map (λ _, "..") b ++ t) as [|y l]; [done|]. discriminate Hpre. }
  injection H as <-. cbn [map app] in *. right. exists t. rewrite app_nil_r in Eb. subst p.
  split_and!; [done|done|].
  rewrite targ_parts_Clean in Et.
  pose proof (clean_parts_cleaned (IsAbs full) (split_on sep_char full)) as Hc.
  assert (head t ≠ Some "..") as Hh.
  { destruct t as [|y l]; [done|]. intros [= ->]. destruct l; [done|]. by rewrite join_cons in Hpre. }
  destruct (IsAbs full) eqn:Ha; cbn [app] in Et.
  - destruct (base_parts (Clean root)) as [|r rs] eqn:Er.
    + exfalso. unfold base_parts in Er.
      destruct (String.eqb_spec (Clean root) ".") as [Ed|_].
      * rewrite Ed in Eabs. assert (IsAbs (Clean full) = true) as Hf by (unfold Clean; rewrite Ha; done).
        rewrite Hf in Eabs. done.
      * destruct (String.eqb (Clean root) "/"); [done|]. by apply split_on_ne in Er.
    + cbn [app] in Et. injection Et as <- Et. by eapply cleaned_suffix.
  - destruct (clean_parts false (split_on sep_char full)) as [|x l] eqn:El.
    + exfalso. assert (Clean full = ".") as Ef by (unfold Clean; rewrite Ha, El; done).
      assert (Clean root ≠ ".") as Hr by congruence.
      pose proof (base_parts_targ _ Hr) as Hb.
      rewrite targ_parts_Clean in Hb. rewrite Hb in Et.
      destruct (IsAbs root) eqn:Har; cbn [app] in Et; [by destruct t|].
      destruct (clean_parts false (split_on sep_char root)) as [|y k] eqn:Ek.
      * apply Hr. unfold Clean. by rewrite Har, Ek.
      * injection Et as <- Et. pose proof (clean_parts_cleaned false (split_on sep_char root)) as Hcr.
        destruct Hcr as (pl & ups & Er & Hpl & Hups & _). rewrite Ek in Er.
        assert ("." ∈ pl ++ ups) as Hin by (rewrite <-Er, elem_of_reverse; set_solver).
        apply elem_of_app in Hin as [Hin|Hin].
        -- rewrite Forall_forall in Hpl. by destruct (Hpl _ Hin) as (_ & ? & _).
        -- rewrite Forall_forall in Hups. by specialize (Hups _ Hin).
    + by eapply cleaned_suffix.
Qed.
