(* ===== verification/Pxe.v ===== *)
(** * pkg/pxe: requests, images and the TFTP root

    The state of the TFTP server, the parsing of read requests, the choice of
    the image and the jail of the TFTP root.  [filepath.EvalSymlinks] asks the
    file system and is a parameter; [openTFTPFile] runs on a file system of
    inodes that other processes may change between its system calls.  The
    transfer itself is in Tftp.v. *)

From Stdlib Require Import Ascii.
From S2P Require Import Prelude GoStrings GoStrconv GoNet GoPath Config.
Open Scope Z_scope.

(** ** State *)

(** [active] binds the key of a request to the number of its transfer. *)
Record Server := {
  px_cfg : PXEConfig;
  px_handler : gmap string string;
  px_active : gmap string nat
}.

Definition set_DefaultImage (p : PXEConfig) (img : string) : PXEConfig := {|
  p_Enabled := p_Enabled p; p_Listen := p_Listen p; p_BindInterface := p_BindInterface p;
  p_TFTPRoot := p_TFTPRoot p; p_DefaultImage := img; p_MacImages := p_MacImages p;
  p_BootFile := p_BootFile p; p_LegacyBootFile := p_LegacyBootFile p;
  p_UEFIBootFile := p_UEFIBootFile p; p_IPXEScript := p_IPXEScript p |}.

Definition set_handler (s : Server) (m : gmap string string) : Server :=
  {| px_cfg := px_cfg s; px_handler := m; px_active := px_active s |}.

Inductive start_error := ErrMkdir | ErrResolve | ErrListen.

Inductive resolve_error :=
  | ErrAbsolute (img : string)
  | ErrEscape (img : string)
  | ErrRoot
  | ErrOpenImage (img : string)
  | ErrSymlink (img : string)
  | ErrRel (img : string).

Section pxe.
Context `{U : GoUnicode} `{MO : MapOrder}.

Definition normalizeMAC (mac : string) : string :=
  to_lower (trim_space (replace_char "-" ":" mac)).

Definition New (cfg : PXEConfig) : Server :=
  {| px_cfg := cfg; px_handler := ∅; px_active := ∅ |}.

Definition SetDefaultImage (s : Server) (img : string) : Server :=
  {| px_cfg := set_DefaultImage (px_cfg s) img; px_handler := px_handler s;
     px_active := px_active s |}.

Definition normalized_images (m : gmap string string) : gmap string string :=
  fold_insert (λ e, Some (normalizeMAC e.1, e.2)) (map_range m) ∅.

Definition SetMacImages (s : Server) (m : gmap string string) : Server :=
  set_handler s (normalized_images m).

(** [Start]: the new state, and the socket the reader serves with the TFTP
    root, if the server is enabled. *)
Definition Start (mkdir : string → bool) (resolve : string → option UDPAddr)
    (listen : UDPAddr → string → bool) (h : heap) (s : Server)
    : Server * result start_error (option (UDPAddr * string)) :=
  let cfg := px_cfg s in
  let s := set_handler s (normalized_images (view h (p_MacImages cfg))) in
  if negb (p_Enabled cfg) then (s, Ok None)
  else
    let root := if String.eqb (p_TFTPRoot cfg) "" then "/tmp/tftpboot" else p_TFTPRoot cfg in
    if negb (mkdir root) then (s, Err ErrMkdir)
    else
      let laddr := if String.eqb (p_Listen cfg) "" then "0.0.0.0:69" else p_Listen cfg in
      match resolve laddr with
      | None => (s, Err ErrResolve)
      | Some addr =>
          if negb (listen addr (p_BindInterface cfg)) then (s, Err ErrListen)
          else (s, Ok (Some (addr, root)))
      end.

(** ** Requests *)

(** [cstring]: the bytes up to the first NUL, and the bytes after it. *)
Fixpoint cstring_from (acc b : list Z) : list Z * list Z :=
  match b with
  | [] => ([], [])
  | v :: b => if v =? 0 then (acc, b) else cstring_from (acc ++ [v]) b
  end.
Definition cstring (b : list Z) : list Z * list Z := cstring_from [] b.

(** The loop over the options; every round but the last consumes bytes. *)
Fixpoint parse_opts (fuel : nat) (opts : gmap string string) (rest : list Z)
    : gmap string string :=
  match fuel, rest with
  | O, _ | _, [] => opts
  | S fuel, _ =>
      let '(key, r) := cstring rest in
      let '(val, r2) := cstring r in
      match key with
      | [] => opts
      | _ => parse_opts fuel (<[to_lower (of_bytes key) := of_bytes val]> opts) r2
      end
  end.

Definition parseRRQ (pkt : list Z) : string * string * gmap string string :=
  let '(filename, rest) := cstring (drop 2 pkt) in
  let '(mode, rest) := cstring rest in
  (of_bytes filename, of_bytes mode, parse_opts (length rest) ∅ rest).

Fixpoint sanitize_rev (rev_name : list Z) : list Z :=
  match rev_name with
  | [] => []
  | b :: r => if (32 <=? b) && (b <? 127) then rev_name else sanitize_rev r
  end.
Definition sanitizeTFTPName (name : string) : string :=
  of_bytes (reverse (sanitize_rev (reverse (to_bytes name)))).

(** ** Images *)

Definition filenameToMAC (name : string) : string :=
  let base := to_lower (Base name) in
  let base := trim_suffix base (Ext base) in
  let base := trim_prefix base "01-" in
  if (String.length base =? 17)%nat && (count_char "-" base =? 5)%nat
  then replace_char "-" ":" base
  else "".

Definition resolveImage (s : Server) (filename : string) : string :=
  let mac := filenameToMAC filename in
  if String.eqb mac "" then filename
  else
    let img := match px_handler s !! normalizeMAC mac with
               | Some img => img
               | None => p_DefaultImage (px_cfg s)
               end in
    if negb (String.eqb img "") then img else filename.

(** ** The jail *)

Definition pathWithinRoot (root full : string) : bool :=
  match Rel root full with
  | None => false
  | Some rel => negb (String.eqb rel "..") && negb (has_prefix "../" rel)
  end.

(** The file system may change between the two calls of [EvalSymlinks]. *)
Definition resolvePath (eval_root eval_full : string → option string) (s : Server)
    (root filename : string) : result resolve_error (string * string) :=
  let img := resolveImage s filename in
  if IsAbs img then Err (ErrAbsolute img)
  else
    let full := Join root img in
    if negb (pathWithinRoot root full) then Err (ErrEscape img)
    else
      match eval_root root with
      | None => Err ErrRoot
      | Some realRoot =>
          match eval_full full with
          | None => Err (ErrOpenImage img)
          | Some realFull =>
              if negb (pathWithinRoot realRoot realFull) then Err (ErrSymlink img)
              else match Rel realRoot realFull with
                   | None => Err (ErrRel img)
                   | Some rel => Ok (realRoot, rel)
                   end
          end
      end.
End pxe.

(** ** Opening a file *)

Inductive node :=
  | Dir (entries : gmap string nat)
  | File (content : list Z)
  | Symlink (target : string).

(** A file system binds inode numbers to nodes. *)
Abbreviation fs := (gmap nat node).

Inductive open_error := ENOENT | ENOTDIR | ELOOP | EINVALID | EMPTY.

(** [openat] with [O_NOFOLLOW], and [O_DIRECTORY] if [directory]. *)
Definition openat (w : fs) (dirfd : nat) (part : string) (directory : bool)
    : result open_error nat :=
  match w !! dirfd with
  | Some (Dir entries) =>
      match entries !! part with
      | None => Err ENOENT
      | Some ino =>
          match w !! ino with
          | None => Err ENOENT
          | Some (Symlink _) => Err ELOOP
          | Some (File _) => if directory then Err ENOTDIR else Ok ino
          | Some (Dir _) => Ok ino
          end
      end
  | _ => Err ENOTDIR
  end.

(** The loop over the components; [w i] is the file system when the [i]-th
    component is opened.  The descriptors of the directories passed are closed
    on every path, which has no effect here. *)
Fixpoint open_parts (w : nat → fs) (i : nat) (dirfd : nat) (parts : list string)
    : result open_error nat :=
  match parts with
  | [] => Err EMPTY
  | part :: rest =>
      if String.eqb part "" || String.eqb part "." || String.eqb part ".." then Err EINVALID
      else
        let last := match rest with [] => true | _ => false end in
        match openat (w i) dirfd part (negb last) with
        | Err e => Err e
        | Ok fd => if last then Ok fd else open_parts w (S i) fd rest
        end
  end.

(** [openTFTPFile]; [open_root] is the first [open], which follows links. *)
Definition openTFTPFile (open_root : string → result open_error nat) (w : nat → fs)
    (rootDir rel : string) : result open_error nat :=
  match open_root rootDir with
  | Err e => Err e
  | Ok dirfd => open_parts w 0 dirfd (split_on sep_char rel)
  end.

(** ** Lemmas: requests *)

Lemma cstring_app acc s r :
  Forall (λ b, b ≠ 0) s → cstring_from acc (s ++ 0 :: r) = (acc ++ s, r).
Proof.
  intros Hs. revert acc; induction Hs as [|b s Hb Hs IH]; intros acc; cbn.
  - by rewrite app_nil_r.
  - rewrite (proj2 (Z.eqb_neq b 0)) by done. rewrite IH, <-(assoc_L (++)). done.
Qed.

(** The text of a request field: it holds no NUL. *)
Definition no_nul (s : string) : Prop := Forall (λ b, b ≠ 0) (to_bytes s).

Definition encode_option (kv : string * string) : list Z :=
  to_bytes kv.1 ++ 0 :: to_bytes kv.2 ++ [0].

(** The packet of a read request, RFC 1350 and 2347. *)
Definition encode_RRQ (filename mode : string) (opts : list (string * string)) : list Z :=
  [0; 1] ++ to_bytes filename ++ 0 :: to_bytes mode ++ 0 :: concat (map encode_option opts).

Definition option_map_of `{U : GoUnicode} (acc : gmap string string) (opts : list (string * string))
    : gmap string string :=
  fold_left (λ m kv, <[to_lower kv.1 := kv.2]> m) opts acc.

Lemma parse_opts_encode `{U : GoUnicode} opts fuel acc :
  Forall (λ kv, no_nul kv.1 ∧ no_nul kv.2 ∧ kv.1 ≠ "") opts →
  (length (concat (map encode_option opts)) ≤ fuel)%nat →
  parse_opts fuel acc (concat (map encode_option opts)) = option_map_of acc opts.
Proof.
  intros Ho. revert fuel acc; induction Ho as [|[k v] opts (Hk & Hv & Hne) Ho IH]; intros fuel acc Hf.
  { by destruct fuel. }
  cbn [map concat]. unfold encode_option at 1. cbn [fst snd] in *.
  rewrite <-(assoc_L (++)). cbn [app]. rewrite <-(assoc_L (++)). cbn [app].
  cbn [map concat] in Hf. unfold encode_option at 1 in Hf. cbn [fst snd] in Hf.
  rewrite !length_app in Hf. cbn [length] in Hf. rewrite length_app in Hf.
  assert (to_bytes k ≠ []) as Hkb by (intros E; apply Hne; by apply to_bytes_inj).
  destruct fuel as [|fuel]; [destruct (to_bytes k); cbn in Hf; [done|lia]|].
  cbn [parse_opts]. unfold cstring. rewrite cstring_app by done. cbn [app].
  rewrite cstring_app by done. cbn [app].
  destruct (to_bytes k ++ 0 :: _) eqn:E; [by destruct (to_bytes k)|]. clear E.
  destruct (to_bytes k) as [|b0 l0] eqn:Ek; [done|]. rewrite <-Ek, !of_bytes_to_bytes.
  rewrite IH; [done|]. cbn in Hf. lia.
Qed.

Lemma sanitize_rev_spec l :
  ∃ junk, l = junk ++ sanitize_rev l ∧ Forall (λ b, ¬ 32 ≤ b < 127) junk ∧
    match sanitize_rev l with b :: _ => 32 ≤ b < 127 | [] => True end.
Proof.
  induction l as [|b l (junk & E & Hj & Hs)]; cbn; [by exists []|].
  destruct ((32 <=? b) && (b <? 127)) eqn:Hb.
  - to_prop. exists []. by split_and!.
  - exists (b :: junk). split_and!; [cbn; by rewrite <-E|constructor; [|done]|done].
    intros [??]. apply andb_false_iff in Hb as [Hb|Hb]; to_prop; lia.
Qed.

(** The fields of an encoded request. *)
Lemma parseRRQ_fields `{U : GoUnicode} filename mode opts :
  no_nul filename → no_nul mode →
  Forall (λ kv, no_nul kv.1 ∧ no_nul kv.2 ∧ kv.1 ≠ "") opts →
  parseRRQ (encode_RRQ filename mode opts) = (filename, mode, option_map_of ∅ opts).
Proof.
  intros Hf Hm Ho. unfold parseRRQ, encode_RRQ, cstring.
  change (drop 2 ([0; 1] ++ ?l)) with l.
  rewrite cstring_app by done. cbn [app]. rewrite cstring_app by done. cbn [app].
  by rewrite !of_bytes_to_bytes, parse_opts_encode.
Qed.

(** ** Lemmas: the jail *)

Lemma pathWithinRoot_Rel root full rel :
  pathWithinRoot root full = true → Rel root full = Some rel →
  rel ≠ ".." ∧ has_prefix "../" rel = false.
Proof.
  unfold pathWithinRoot. intros H E. rewrite E in H. apply andb_true_iff in H as [H1 H2].
  apply negb_true_iff in H1, H2. split; [|done]. intros ->. done.
Qed.

(** The step from a directory to one of its entries, without following a
    link. *)
Definition entry (w : fs) (d : nat) (part : string) (ino : nat) (directory : bool) : Prop :=
  ∃ entries n, w !! d = Some (Dir entries) ∧ entries !! part = Some ino ∧ w !! ino = Some n ∧
    match n with Symlink _ => False | File _ => directory = false | Dir _ => True end.

(** [ino] is reached from [d] by the components, each looked up in the file
    system of its moment. *)
Inductive descends (w : nat → fs) : nat → nat → list string → nat → Prop :=
  | descends_last i d part ino :
      plain part → entry (w i) d part ino false → descends w i d [part] ino
  | descends_step i d part d' rest ino :
      plain part → rest ≠ [] → entry (w i) d part d' true → descends w (S i) d' rest ino →
      descends w i d (part :: rest) ino.

Lemma openat_Ok w d part dir ino : openat w d part dir = Ok ino ↔ entry w d part ino dir.
Proof.
  unfold openat, entry. split.
  - destruct (w !! d) as [[entries| |]|] eqn:Hd; [|done..].
    destruct (entries !! part) as [ino'|] eqn:Hp; [|done].
    destruct (w !! ino') as [[]|] eqn:Hn; [| |done|done].
    + intros [= ->]. by do 2 eexists.
    + destruct dir; [done|]. intros [= ->]. by do 2 eexists.
  - intros (entries & n & -> & -> & -> & Hn). destruct n; [done|by rewrite Hn|done].
Qed.

Lemma open_parts_Ok w i d parts ino : open_parts w i d parts = Ok ino ↔ descends w i d parts ino.
Proof.
  revert i d; induction parts as [|part rest IH]; intros i d; cbn [open_parts].
  { split; [done|]. inversion 1. }
  assert ((String.eqb part "" || String.eqb part "." || String.eqb part ".." = false) ↔ plain part)
    as Hpl.
  { unfold plain. rewrite !orb_false_iff, !String.eqb_neq. tauto. }
  destruct (_ || _) eqn:Eb.
  { split; [done|]. intros H. assert (plain part) as Hp by (inversion H; done).
    apply Hpl in Hp. done. }
  pose proof (proj1 Hpl eq_refl) as Hp. destruct (openat (w i) d part _) as [e|fd] eqn:Eo.
  - split; [done|]. inversion 1; subst; [|destruct rest; [done|]];
      match goal with H : entry _ _ _ _ _ |- _ => apply openat_Ok in H; cbn in *; congruence end.
  - apply openat_Ok in Eo. destruct rest as [|p rest].
    + split; [intros [= ->]; by constructor|]. inversion 1; subst; [|done].
      match goal with H : entry _ _ _ ino _ |- _ => apply openat_Ok in H end.
      apply openat_Ok in Eo. cbn in *. congruence.
    + rewrite IH. split; [intros Hd; by eapply descends_step|]. inversion 1; subst.
      match goal with H : entry _ _ _ _ _ |- _ => apply openat_Ok in H end.
      apply openat_Ok in Eo. cbn in *. congruence.
Qed.

(** ** Lemmas: file names made of MAC addresses *)

Definition dashed (hw : HardwareAddr) : string := join "-" (map hex_byte hw).

Lemma last_part_no_sep c s : contains_char c s = false → last_part c s = s.
Proof. intros H. unfold last_part. by rewrite split_on_no_sep. Qed.

Lemma Base_plain s :
  s ≠ "" → contains_char sep_char s = false → Base s = s.
Proof.
  intros Hne Hs. unfold Base. destruct (String.eqb_spec s ""); [done|].
  assert (strip_slashes (reverse (to_bytes s)) = reverse (to_bytes s)) as ->.
  { destruct (reverse (to_bytes s)) as [|b l] eqn:E; [done|]. cbn.
    destruct (Z.eqb_spec b 47) as [->|]; [|done]. exfalso.
    apply (f_equal reverse) in E. rewrite reverse_involutive, reverse_cons in E.
    rewrite <-(of_bytes_to_bytes s), E, of_bytes_app, contains_char_app in Hs.
    apply orb_false_iff in Hs as [_ Hs]. by vm_compute in Hs. }
  rewrite reverse_involutive, of_bytes_to_bytes, last_part_no_sep by done.
  by destruct (String.eqb_spec s "").
Qed.

Lemma Ext_plain s :
  contains_char sep_char s = false → contains_char "."%char s = false → Ext s = "".
Proof. intros Hs Hd. unfold Ext. rewrite last_part_no_sep by done. by rewrite Hd. Qed.

Definition dash_text_byte (b : Z) : Prop := 48 ≤ b ≤ 57 ∨ 97 ≤ b ≤ 102 ∨ b = 45.

Lemma count_char_app c s t : count_char c (s +:+ t) = (count_char c s + count_char c t)%nat.
Proof. induction s as [|a s IH]; [done|]. rewrite str_app_cons. cbn. rewrite IH. lia. Qed.

Lemma replace_char_app a b s t :
  replace_char a b (s +:+ t) = replace_char a b s +:+ replace_char a b t.
Proof. induction s as [|c s IH]; [done|]. rewrite !str_app_cons. cbn. by rewrite IH, str_app_cons. Qed.

Lemma count_char_none c s : contains_char c s = false → count_char c s = 0%nat.
Proof. induction s as [|a s IH]; [done|]. cbn. intros [-> ?]%orb_false_iff. by rewrite IH. Qed.

Lemma hex_byte_text b : is_byte b → Forall (λ x, 48 ≤ x ≤ 57 ∨ 97 ≤ x ≤ 102) (to_bytes (hex_byte b)).
Proof.
  intros [? ?]. rewrite to_bytes_hex_byte by (by split).
  assert (0 ≤ b / 16 < 16) by (split; [apply Z.div_pos|apply Z.div_lt_upper_bound]; lia).
  assert (0 ≤ b mod 16 < 16) by (apply Z.mod_pos_bound; lia).
  pose proof (hex_digit_range (b / 16)). pose proof (hex_digit_range (b mod 16)).
  rewrite !Forall_cons, Forall_nil. lia.
Qed.

Lemma hex_byte_no_char b c :
  is_byte b → ¬ (48 ≤ byte_val c ≤ 57 ∨ 97 ≤ byte_val c ≤ 102) →
  contains_char c (hex_byte b) = false.
Proof. intros Hb Hc. by eapply contains_char_text; [apply hex_byte_text|]. Qed.

Lemma dashed_text hw : Forall is_byte hw → Forall dash_text_byte (to_bytes (dashed hw)).
Proof.
  unfold dashed. induction 1 as [|b hw Hb Hhw IH]; [constructor|].
  assert (Forall dash_text_byte (to_bytes (hex_byte b))) as Hh.
  { eapply Forall_impl; [by apply hex_byte_text|]. unfold dash_text_byte. cbn. lia. }
  destruct hw as [|c hw]; cbn [map]; [done|]. rewrite join_cons, !to_bytes_app.
  apply Forall_app; split; [done|]. apply Forall_app; split; [|done].
  constructor; [right; by right|constructor].
Qed.

Lemma dashed_shape hw :
  Forall is_byte hw → hw ≠ [] →
  replace_char "-" ":" (dashed hw) = HardwareAddr_String hw ∧
  (count_char "-" (dashed hw) + 1 = length hw)%nat ∧
  (String.length (dashed hw) + 1 = 3 * length hw)%nat.
Proof.
  unfold dashed, HardwareAddr_String. induction 1 as [|b hw Hb Hhw IH]; [done|]. intros _.
  assert (contains_char "-" (hex_byte b) = false) as Hd.
  { apply hex_byte_no_char; [done|]. vm_compute. intuition congruence. }
  destruct hw as [|c hw].
  { cbn [map join]. rewrite replace_char_id, count_char_none by done. done. }
  destruct IH as (IH1 & IH2 & IH3); [done|]. cbn [map] in *.
  rewrite !join_cons, !replace_char_app, !count_char_app, !length_str_app.
  rewrite replace_char_id, count_char_none by done. rewrite IH1.
  split_and!; [done| |].
  - change (count_char "-" "-") with 1%nat. cbn [length] in *. lia.
  - change (String.length (hex_byte b)) with 2%nat. change (String.length "-") with 1%nat.
    cbn [length] in *. lia.
Qed.

Lemma trim_prefix_none p s : has_prefix p s = false → trim_prefix s p = s.
Proof. unfold trim_prefix. by intros ->. Qed.

Lemma filenameToMAC_dashed `{U : GoUnicode} hw :
  length hw = 6%nat → Forall is_byte hw → filenameToMAC ("01-" +:+ dashed hw) = HardwareAddr_String hw.
Proof.
  intros Hlen Hhw. destruct (dashed_shape hw Hhw) as (H1 & H2 & H3); [by intros ->|].
  assert (Forall dash_text_byte (to_bytes ("01-" +:+ dashed hw))) as Ht.
  { rewrite to_bytes_app. apply Forall_app. split; [|by apply dashed_text].
    repeat constructor; unfold dash_text_byte; vm_compute; intuition congruence. }
  assert (∀ c, ¬ dash_text_byte (byte_val c) → contains_char c ("01-" +:+ dashed hw) = false) as Hno.
  { intros c. by apply contains_char_text. }
  assert (contains_char sep_char ("01-" +:+ dashed hw) = false) as Hs.
  { apply Hno. unfold dash_text_byte. vm_compute. intuition congruence. }
  assert (contains_char "." ("01-" +:+ dashed hw) = false) as Hdot.
  { apply Hno. unfold dash_text_byte. vm_compute. intuition congruence. }
  unfold filenameToMAC. rewrite Base_plain, to_lower_id; [| |by rewrite str_app_cons|done].
  2:{ eapply Forall_impl; [exact Ht|]. unfold dash_text_byte, visible. cbn. lia. }
  rewrite Ext_plain by done. change "" with ("" +:+ "") at 1.
  assert (∀ x, trim_suffix x "" = x) as Hts.
  { intros x. rewrite <-(str_app_nil_r x) at 1. apply trim_suffix_app. }
  rewrite str_app_nil_l, Hts, trim_prefix_app.
  rewrite (proj2 (Nat.eqb_eq _ _)), (proj2 (Nat.eqb_eq _ _)) by lia. done.
Qed.

Lemma normalized_images_lookup `{U : GoUnicode} `{MO : MapOrder} m mac img k :
  m !! mac = Some img → normalizeMAC mac = k →
  (∀ mac' img', m !! mac' = Some img' → normalizeMAC mac' = k → mac' = mac) →
  normalized_images m !! k = Some img.
Proof.
  intros Hm Hk Huniq. unfold normalized_images.
  destruct (fold_insert_lookup_some (λ e : string * string, Some (normalizeMAC e.1, e.2))
    (map_range m) ∅ k) as ([mac' x] & v & Hin & E & ->).
  { exists (mac, img), img. rewrite elem_of_map_range. cbn. by rewrite Hk. }
  apply elem_of_map_range in Hin. cbn in E. injection E as Ek <-.
  by rewrite (Huniq mac' x Hin Ek), Hm in Hin.
Qed.

Lemma normalizeMAC_text `{U : GoUnicode} hw :
  Forall is_byte hw → normalizeMAC (HardwareAddr_String hw) = HardwareAddr_String hw.
Proof. intros H. by apply normalize_mac_text, HardwareAddr_String_text. Qed.

Lemma HardwareAddr_String_ne hw : hw ≠ [] → HardwareAddr_String hw ≠ "".
Proof. intros H. destruct hw as [|b [|c hw]]; done. Qed.

Lemma openTFTPFile_descends open_root w rootDir rel ino :
  openTFTPFile open_root w rootDir rel = Ok ino ↔
  ∃ dirfd, open_root rootDir = Ok dirfd ∧ descends w 0 dirfd (split_on sep_char rel) ino.
Proof.
  unfold openTFTPFile. destruct (open_root rootDir) as [e|d]; [naive_solver|].
  rewrite open_parts_Ok. naive_solver.
Qed.

(** ** The properties of the component *)

(** C19: the parser of read requests inverts the RFC 1350/2347 encoding: for
    every file name, mode and list of options without NUL bytes it returns the
    name, the mode and the options under their lower-cased names, a later
    option overriding an earlier one of the same name. *)
Theorem parseRRQ_encode `{U : GoUnicode} filename mode opts :
  no_nul filename → no_nul mode →
  Forall (λ kv, no_nul kv.1 ∧ no_nul kv.2 ∧ kv.1 ≠ "") opts →
  parseRRQ (encode_RRQ filename mode opts) = (filename, mode, option_map_of ∅ opts).
Proof. apply parseRRQ_fields. Qed.

(** [sanitizeTFTPName] removes exactly the longest run of bytes that are not
    printable ASCII from the end of the name. *)
Theorem sanitizeTFTPName_correct name :
  ∃ junk, to_bytes name = to_bytes (sanitizeTFTPName name) ++ junk ∧
    Forall (λ b, ¬ 32 ≤ b < 127) junk ∧
    (sanitizeTFTPName name = "" ∨
     ∃ s c, sanitizeTFTPName name = s +:+ String c "" ∧ 32 ≤ byte_val c < 127).
Proof.
  unfold sanitizeTFTPName.
  destruct (sanitize_rev_spec (reverse (to_bytes name))) as (junk & E & Hj & Hl).
  assert (Hb : Forall is_byte (sanitize_rev (reverse (to_bytes name)))).
  { pose proof (to_bytes_byte name) as H. apply Forall_reverse in H. rewrite E in H.
    by apply Forall_app in H as [_ ?]. }
  exists (reverse junk). split_and!.
  - rewrite to_bytes_of_bytes by (by apply Forall_reverse).
    rewrite <-reverse_app, <-E. by rewrite reverse_involutive.
  - by apply Forall_reverse.
  - destruct (sanitize_rev (reverse (to_bytes name))) as [|b l]; [by left|right].
    rewrite reverse_cons, of_bytes_app. exists (of_bytes (reverse l)), (chr b).
    split; [done|]. apply Forall_cons in Hb as [Hb _]. by rewrite byte_val_chr.
Qed.

(** a boot client that asks for the file named after its own MAC address,
    as PXE firmware does (01-aa-bb-cc-dd-ee-ff), is served the image assigned
    to any spelling of that address, the default image if there is none, and
    the file it asked for if there is no default image either. *)
Theorem image_by_mac `{U : GoUnicode} `{MO : MapOrder} s m hw :
  length hw = 6%nat → Forall is_byte hw →
  let filename := "01-" +:+ dashed hw in
  let served := resolveImage (SetMacImages s m) filename in
  (∀ mac img, m !! mac = Some img → normalizeMAC mac = HardwareAddr_String hw → img ≠ "" →
     (∀ mac' img', m !! mac' = Some img' → normalizeMAC mac' = HardwareAddr_String hw → mac' = mac) →
     served = img) ∧
  ((∀ mac img, m !! mac = Some img → normalizeMAC mac ≠ HardwareAddr_String hw) →
     served = if String.eqb (p_DefaultImage (px_cfg s)) "" then filename
              else p_DefaultImage (px_cfg s)).
Proof.
  intros Hlen Hhw filename served.
  assert (filenameToMAC filename = HardwareAddr_String hw) as Hf by (by apply filenameToMAC_dashed).
  assert (HardwareAddr_String hw ≠ "") as Hne by (apply HardwareAddr_String_ne; by intros ->).
  subst served. unfold resolveImage. rewrite Hf, normalizeMAC_text by done.
  destruct (String.eqb_spec (HardwareAddr_String hw) ""); [done|].
  cbn [SetMacImages set_handler px_handler px_cfg]. split.
  - intros mac img Hm Hn Himg Huniq. rewrite (normalized_images_lookup m mac img) by done.
    by destruct (String.eqb_spec img "").
  - intros Hno.
    assert (normalized_images m !! HardwareAddr_String hw = None) as ->.
    { unfold normalized_images. rewrite fold_insert_lookup_none; [apply lookup_empty|].
      intros [mac img] v Hin [= E _]. apply elem_of_map_range in Hin. by apply (Hno mac img). }
    by destruct (String.eqb (p_DefaultImage (px_cfg s)) "").
Qed.

(** C16: the TFTP root is a jail for names. Whatever file was asked for and
    whatever the links of the file system resolve to, a path [resolvePath]
    accepts lies below the real root: it is the root itself, or the cleaned
    components of the real root followed by components none of which is empty,
    a dot or a double dot, and those components are the relative path
    returned. *)
Theorem resolvePath_jail `{U : GoUnicode} eval_root eval_full s root filename rootReal rel :
  resolvePath eval_root eval_full s root filename = Ok (rootReal, rel) →
  let img := resolveImage s filename in
  IsAbs img = false ∧ eval_root root = Some rootReal ∧
  ∃ realFull, eval_full (Join root img) = Some realFull ∧
    ((rel = "." ∧ Clean realFull = Clean rootReal) ∨
     ∃ t, rel = join "/" t ∧
       targ_parts (Clean realFull) = base_parts (Clean rootReal) ++ t ∧ Forall plain t).
Proof.
  intros H img. unfold resolvePath in H. fold img in H.
  destruct (IsAbs img); [done|]. split; [done|].
  destruct (negb (pathWithinRoot root (Join root img))); [done|].
  destruct (eval_root root) as [rr|]; [|done].
  destruct (eval_full (Join root img)) as [rf|]; [|done].
  destruct (pathWithinRoot rr rf) eqn:Hw; cbn [negb] in H; [|done].
  destruct (Rel rr rf) as [rel'|] eqn:Hr; [|done]. injection H as <- <-.
  split; [done|]. exists rf. split; [done|].
  destruct (pathWithinRoot_Rel _ _ _ Hw Hr). by apply Rel_within.
Qed.

(** C17: the TFTP root is a jail for descriptors. [openTFTPFile] succeeds with an
    inode exactly when the inode is reached from the directory opened as the
    root by looking up the components one after the other, each in the file
    system as it is at that moment, where none of the nodes passed is a
    symbolic link and no component is empty, a dot or a double dot.  However
    other processes change the file system between the calls, no link is
    followed. *)
Theorem openTFTPFile_jail open_root w rootDir rel ino :
  openTFTPFile open_root w rootDir rel = Ok ino ↔
  ∃ dirfd, open_root rootDir = Ok dirfd ∧ descends w 0 dirfd (split_on sep_char rel) ino.
Proof. apply openTFTPFile_descends. Qed.

(** ** Concrete requests *)

Lemma parseRRQ_encode_witness :
  parseRRQ (U := ascii_unicode) (encode_RRQ "boot.ipxe" "octet" [("BlkSize", "1468"); ("tsize", "0")]) =
    ("boot.ipxe", "octet", option_map_of (U := ascii_unicode) ∅ [("BlkSize", "1468"); ("tsize", "0")]).
Proof.
  apply (parseRRQ_encode (U := ascii_unicode)); unfold no_nul;
    repeat constructor; vm_compute; congruence.
Defined.

Lemma image_by_mac_witness :
  resolveImage (U := ascii_unicode)
    (SetMacImages (U := ascii_unicode) (MO := canonical_order)
       (New (sv_PXE (cf_Services demo_config))) {["02-00-00-00-00-0A" := "pi.img"]})
    "01-02-00-00-00-00-0a" = "pi.img".
Proof.
  destruct (image_by_mac (U := ascii_unicode) (MO := canonical_order)
    (New (sv_PXE (cf_Services demo_config))) {["02-00-00-00-00-0A" := "pi.img"]}
    [2; 0; 0; 0; 0; 10]) as [H _];
    [reflexivity|repeat constructor; unfold is_byte; lia|].
  apply (H "02-00-00-00-00-0A" "pi.img");
    [reflexivity|vm_compute; reflexivity|discriminate|].
  intros mac' img' [<- _]%lookup_singleton_Some _. reflexivity.
Defined.

Lemma resolvePath_jail_witness :
  ∃ t, "efi/boot.efi" = join "/" t ∧ Forall plain t.
Proof.
  destruct (resolvePath_jail (U := ascii_unicode) (λ _, Some "/mnt/data/tftp")
    (λ _, Some "/mnt/data/tftp/efi/boot.efi") (New (sv_PXE (cf_Services demo_config)))
    "/srv/tftp" "x/../link.efi" "/mnt/data/tftp" "efi/boot.efi")
    as (_ & _ & rf & _ & [[H _]|(t & Ht & _ & Hp)]);
    [vm_compute; reflexivity|discriminate H|].
  exists t. split; [exact Ht|exact Hp].
Defined.

(** A name of seventeen bytes with five dashes is taken for a MAC address, so
    the default image is served in place of the file asked for. *)
Example plain_file_taken_for_mac :
  resolveImage (U := ascii_unicode)
    (SetDefaultImage (New (sv_PXE (cf_Services demo_config))) "default.img")
    "a-b-c-d-e-kernel1.efi" = "default.img".
Proof. vm_compute. reflexivity. Qed.
