(* ===== verification/Tftp.v ===== *)
(** * pkg/pxe: TFTP transfers

    One transfer of a file, and the reader that starts transfers.  What the
    environment does to a transfer is given in advance: the results of the
    writes and of [SetReadDeadline], and the results of the reads, in order.
    When the list of reads is used up every further read times out, as its
    deadline guarantees. *)

From Stdlib Require Import Ascii.
From S2P Require Import Prelude GoStrings GoStrconv GoNet GoPath Config Pxe.
Open Scope Z_scope.

(** ** Constants and packets *)

Definition tftpRRQ : Z := 1.
Definition tftpDATA : Z := 3.
Definition tftpACK : Z := 4.
Definition tftpERR : Z := 5.
Definition tftpOACK : Z := 6.
Definition tftpBlockSize : Z := 512.
Definition tftpRetries : nat := 12.
Definition maxBlockSize : Z := 1468.

(** [binary.BigEndian.PutUint16] and [Uint16]. *)
Definition put_uint16 (v : Z) : list Z := [v / 256; v mod 256].
Definition uint16_at (i : nat) (b : list Z) : Z :=
  default 0 (b !! i) * 256 + default 0 (b !! S i).

Definition data_packet (block : Z) (chunk : list Z) : list Z :=
  [0; tftpDATA] ++ put_uint16 block ++ chunk.

Definition ack_packet (block : Z) : list Z := [0; tftpACK] ++ put_uint16 block.

Definition err_packet (code : Z) (msg : string) : list Z :=
  put_uint16 tftpERR ++ put_uint16 code ++ to_bytes msg ++ [0].

(** ** Addresses *)

Definition dupAddr (a : UDPAddr) : UDPAddr :=
  {| udp_IP := udp_IP a; udp_Port := udp_Port a; udp_Zone := udp_Zone a |}.

Definition sameAddr (a b : UDPAddr) : bool :=
  (udp_Port a =? udp_Port b) &&
  (match udp_IP a with [] => false | _ => true end) &&
  (match udp_IP b with [] => false | _ => true end) &&
  IP_Equal (udp_IP a) (udp_IP b).

(** ** The state of a transfer *)

Record transfer := {
  t_once : bool;                      (* once.Do has run *)
  t_client : UDPAddr;
  t_conn : bool;                      (* conn is set *)
  t_block1 : option (list Z);
  t_blockSize : Z;
  t_initial : bool                    (* initial is closed *)
}.

Definition new_transfer (client : UDPAddr) : transfer := {|
  t_once := false; t_client := dupAddr client; t_conn := false; t_block1 := None;
  t_blockSize := 0; t_initial := false |}.

Definition setReady (t : transfer) (block1 : list Z) (blockSize : Z) : transfer :=
  if t_once t then t
  else {| t_once := true; t_client := t_client t; t_conn := true; t_block1 := Some block1;
          t_blockSize := blockSize; t_initial := true |}.

Definition abort (t : transfer) : transfer :=
  if t_once t then t
  else {| t_once := true; t_client := t_client t; t_conn := t_conn t; t_block1 := t_block1 t;
          t_blockSize := t_blockSize t; t_initial := true |}.

(** [resendBlock1]: [t] is the state when the [select] ends, [timer] tells that
    the timer fired first. The packet sent, if any. *)
Definition resendBlock1 (t : transfer) (timer : bool) : option (list Z) :=
  if timer then None
  else if t_conn t then t_block1 t else None.

(** ** Waiting and sending *)

Inductive recv :=
  | Packet (from : UDPAddr) (data : list Z)
  | ReadTimeout
  | ReadError.

Inductive wait_result := Acked | WaitTimeout | WaitError.

Definition is_ack (data : list Z) (block : Z) : bool :=
  negb ((length data <? 4)%nat || negb (uint16_at 0 data =? tftpACK)) &&
  (uint16_at 2 data =? block).

(** What a transfer does on its socket, in order. *)
Inductive sock_event :=
  | Wrote (pkt : list Z)
  | Got (r : recv).

(** The packets written. *)
Definition writes (tr : list sock_event) : list (list Z) :=
  omap (λ e, match e with Wrote pkt => Some pkt | Got _ => None end) tr.

(** [waitForAck]: the result, what was read and what is left; the buffer holds
    1500 bytes. *)
Fixpoint waitForAck (client : UDPAddr) (block : Z) (rs : list recv)
    : wait_result * list sock_event * list recv :=
  match rs with
  | [] => (WaitTimeout, [Got ReadTimeout], [])
  | r :: rs =>
      let '(w, tr, rest) :=
        match r with
        | ReadTimeout => (WaitTimeout, [], rs)
        | ReadError => (WaitError, [], rs)
        | Packet from data =>
            if negb (sameAddr from client) then waitForAck client block rs
            else if is_ack (take 1500 data) block then (Acked, [], rs)
            else waitForAck client block rs
        end in
      (w, Got r :: tr, rest)
  end.

(** The environment: the failures of the writes and deadline calls to come
    ([true] is an error, and an empty list means success), the reads to
    come. *)
Record env := { en_fails : list bool; en_reads : list recv }.

Definition next_fails (e : env) : bool * env :=
  match en_fails e with
  | [] => (false, e)
  | b :: l => (b, {| en_fails := l; en_reads := en_reads e |})
  end.

Inductive send_result := Sent | SendError.

(** The common body of [sendBlock] and [sendOACK], [i] attempts left. The result,
    what was written and read, the environment left. *)
Fixpoint send_retry (i : nat) (client : UDPAddr) (pkt : list Z) (block : Z) (e : env)
    : send_result * list sock_event * env :=
  match i with
  | O => (SendError, [], e)
  | S i =>
      let '(write_err, e) := next_fails e in
      if write_err then (SendError, [], e)
      else
        let '(deadline_err, e) := next_fails e in
        if deadline_err then (SendError, [Wrote pkt], e)
        else
          let '(w, tr, reads) := waitForAck client block (en_reads e) in
          let e := {| en_fails := en_fails e; en_reads := reads |} in
          match w with
          | WaitTimeout =>
              let '(r, tr', e) := send_retry i client pkt block e in (r, Wrote pkt :: tr ++ tr', e)
          | WaitError => (SendError, Wrote pkt :: tr, e)
          | Acked => (Sent, Wrote pkt :: tr, e)
          end
  end.

Definition sendBlock (client : UDPAddr) (data : list Z) (block : Z) (e : env) :=
  send_retry tftpRetries client data block e.

Definition sendOACK (client : UDPAddr) (oack : list Z) (e : env) :=
  send_retry tftpRetries client oack 0 e.

(** ** Options *)

Section options.
Context `{GI : GoInt}.

(** The block size negotiated from the options of the request. *)
Definition negotiate (opts : gmap string string) : Z :=
  match opts !! "blksize" with
  | None => tftpBlockSize
  | Some bs =>
      match atoi bs with
      | (req, None) =>
          if 0 <? req then (if maxBlockSize <? req then maxBlockSize else req)
          else tftpBlockSize
      | _ => tftpBlockSize
      end
  end.

(** [buildOACK]; the empty packet for nil. *)
Definition oack_pairs (opts : gmap string string) (blockSize fileSize : Z) : list string :=
  match opts !! "blksize" with Some _ => ["blksize"; itoa blockSize] | None => [] end ++
  match opts !! "tsize" with Some _ => ["tsize"; itoa fileSize] | None => [] end.

Definition buildOACK (opts : gmap string string) (blockSize fileSize : Z) : list Z :=
  match oack_pairs opts blockSize fileSize with
  | [] => []
  | pairs => [0; tftpOACK] ++ concat (map (λ s, to_bytes s ++ [0]) pairs)
  end.
End options.

(** ** The transfer of a file *)

Inductive transfer_result := Completed (blocks : Z) | Aborted.

(** The loop of [serveFile]: [k] counts the calls of [Read]; [read k] is the
    result of the [k]-th one, [None] for an error other than end of file. *)
Fixpoint send_file (fuel k : nat) (block : Z) (read : nat → option (list Z)) (bs : Z)
    (t : transfer) (e : env) : outcome (transfer_result * transfer * list sock_event * env) :=
  match fuel with
  | O => OutOfFuel
  | S fuel =>
      match read k with
      | None => Ret (Aborted, t, [], e)
      | Some chunk =>
          let payload := data_packet block chunk in
          let t := if block =? 1 then setReady t payload bs else t in
          let '(r, out, e) := sendBlock (t_client t) payload block e in
          match r with
          | SendError => Ret (Aborted, t, out, e)
          | Sent =>
              if Z.of_nat (length chunk) <? bs then Ret (Completed block, t, out, e)
              else
                rest ← send_file fuel (S k) ((block + 1) mod 65536) read bs t e;
                let '(res, t, out', e) := rest in
                Ret (res, t, out ++ out', e)
          end
      end
  end.

(** The reads of a regular file. *)
Definition file_reads (content : list Z) (bs : Z) (k : nat) : option (list Z) :=
  Some (take (Z.to_nat bs) (drop (k * Z.to_nat bs) content)).

Definition file_fuel (content : list Z) (bs : Z) : nat :=
  S (length content / Z.to_nat bs).

Definition node_reads (n : node) (bs : Z) (k : nat) : option (list Z) :=
  match n with File content => file_reads content bs k | _ => None end.
Definition node_fuel (n : node) (bs : Z) : nat :=
  match n with File content => file_fuel content bs | _ => 1%nat end.
(** The size that [Stat] reports; [other] is what the system says of anything
    but a regular file. *)
Definition node_size (other : Z) (n : node) : Z :=
  match n with File content => Z.of_nat (length content) | _ => other end.

(** What the rest of the system answers while a request is served: the two
    calls of [EvalSymlinks], the opens, the node behind the descriptor, which
    is not written while it is served, whether [Stat] and the transfer socket
    work, the size [Stat] reports of a directory. *)
Record world := {
  wo_eval_root : string → option string;
  wo_eval_full : string → option string;
  wo_open_root : string → result open_error nat;
  wo_fs : nat → fs;
  wo_node : nat → node;
  wo_stat_ok : bool;
  wo_other_size : Z;
  wo_listen_ok : bool
}.

Section serve.
Context `{U : GoUnicode} `{GI : GoInt}.

(** [serveFile] from the opening of the transfer socket on. *)
Definition serve_node (other : Z) (n : node) (opts : gmap string string) (t : transfer) (e : env)
    : outcome (transfer_result * transfer * list sock_event) :=
  let blockSize := negotiate opts in
  let oack := buildOACK opts blockSize (node_size other n) in
  let '(r, out, e) := match oack with
                      | [] => (Sent, [], e)
                      | _ => sendOACK (t_client t) oack e
                      end in
  match r with
  | SendError => Ret (Aborted, t, out)
  | Sent =>
      rest ← send_file (node_fuel n blockSize) 0 1 (node_reads n blockSize) blockSize t e;
      let '(res, t, out', _) := rest in
      Ret (res, t, out ++ out')
  end.

(** [serveFile]: the transfer at the end, the packets sent from the control
    socket and what happened on the transfer socket. *)
Definition serveFile (s : Server) (w : world) (root filename : string)
    (opts : gmap string string) (t : transfer) (e : env)
    : outcome (transfer * list (list Z) * list sock_event) :=
  let fail msg := Ret (abort t, [err_packet 1 msg], []) in
  match resolvePath (wo_eval_root w) (wo_eval_full w) s root filename with
  | Err _ => fail "File not found"
  | Ok (rootReal, rel) =>
      match openTFTPFile (wo_open_root w) (wo_fs w) rootReal rel with
      | Err _ => fail "File not found"
      | Ok ino =>
          if negb (wo_stat_ok w) then fail "Server error"
          else if negb (wo_listen_ok w) then fail "Server error"
          else
            rest ← serve_node (wo_other_size w) (wo_node w ino) opts t e;
            let '(_, t, out) := rest in
            Ret (abort t, [], out)
      end
  end.

(** ** The reader *)

Inductive action :=
  | Ignore
  | Resend (id : nat)
  | Serve (id : nat) (key filename : string) (opts : gmap string string).

(** One packet read from the control socket; [id] is the number of the new
    transfer. *)
Definition reader_step (s : Server) (client : UDPAddr) (pkt : list Z) (id : nat)
    : Server * action :=
  if (length pkt <? 2)%nat then (s, Ignore)
  else if uint16_at 0 pkt =? tftpRRQ then
    let '(filename, mode, opts) := parseRRQ pkt in
    let filename := sanitizeTFTPName filename in
    if String.eqb filename "" then (s, Ignore)
    else
      let key := UDPAddr_String client +:+ "|" +:+ filename in
      match px_active s !! key with
      | Some existing => (s, Resend existing)
      | None =>
          ({| px_cfg := px_cfg s; px_handler := px_handler s;
              px_active := <[key := id]> (px_active s) |},
           Serve id key filename opts)
      end
  else (s, Ignore).

(** The deferred [active.Delete] of [serveFile]. *)
Definition finish (s : Server) (key : string) : Server :=
  {| px_cfg := px_cfg s; px_handler := px_handler s; px_active := delete key (px_active s) |}.
End serve.

(** ** Sending one packet *)

Lemma writes_app tr tr' : writes (tr ++ tr') = writes tr ++ writes tr'.
Proof. apply omap_app. Qed.

(** What a wait reads: packets to ignore, and last what ends it. *)
Lemma waitForAck_trace client block rs w tr rest :
  waitForAck client block rs = (w, tr, rest) →
  ∃ pre r, tr = Got <$> pre ++ [r] ∧ (rs = (pre ++ [r]) ++ rest ∨ rs = pre ∧ rest = []) ∧
    (w = Acked → rs = (pre ++ [r]) ++ rest ∧ ∃ from data, r = Packet from data ∧
       sameAddr from client = true ∧ is_ack (take 1500 data) block = true).
Proof.
  induction rs as [|r rs IH] in w, tr, rest |- *; cbn [waitForAck].
  { intros [= <- <- <-]. exists [], ReadTimeout. split_and!; [done|by right|done]. }
  assert (waitForAck client block rs = (w, tail tr, rest) ∧ tr = Got r :: tail tr →
    ∃ pre r', tr = Got <$> pre ++ [r'] ∧ (r :: rs = (pre ++ [r']) ++ rest ∨ r :: rs = pre ∧ rest = []) ∧
    (w = Acked → r :: rs = (pre ++ [r']) ++ rest ∧ ∃ from data, r' = Packet from data ∧
       sameAddr from client = true ∧ is_ack (take 1500 data) block = true)) as Hrec.
  { intros [E Etr]. destruct (IH _ _ _ E) as (pre & r' & E1 & E2 & E3). exists (r :: pre), r'.
    split_and!; [by rewrite Etr, E1| |].
    - destruct E2 as [->|[-> ->]]; [by left|by right].
    - intros Hw. destruct (E3 Hw) as [-> ?]. by split. }
  destruct r as [from data| |].
  - destruct (sameAddr from client) eqn:Hs; cbn [negb]; [destruct (is_ack (take 1500 data) block) eqn:Ha|].
    + intros [= <- <- <-]. exists [], (Packet from data). split_and!; [done|by left|].
      intros _. split; [done|]. by exists from, data.
    + destruct (waitForAck client block rs) as [[w1 tr1] rest1]. intros [= <- <- <-]. by apply Hrec.
    + destruct (waitForAck client block rs) as [[w1 tr1] rest1]. intros [= <- <- <-]. by apply Hrec.
  - intros [= <- <- <-]. exists [], ReadTimeout. split_and!; [done|by left|done].
  - intros [= <- <- <-]. exists [], ReadError. split_and!; [done|by left|done].
Qed.

Lemma writes_got rs : writes (Got <$> rs) = [].
Proof. induction rs as [|r rs IH]; [done|]. exact IH. Qed.

Lemma waitForAck_suffix client block rs w tr rest :
  waitForAck client block rs = (w, tr, rest) → ∃ pre, rs = pre ++ rest.
Proof.
  intros (pre & r & _ & [->|[-> ->]] & _)%waitForAck_trace; [by eexists|].
  exists pre. by rewrite app_nil_r.
Qed.

(** An acknowledgement of [block] by [client] is among the reads [rs]. *)
Definition acked_in (client : UDPAddr) (block : Z) (rs : list recv) : Prop :=
  ∃ from data, Packet from data ∈ rs ∧ sameAddr from client = true ∧
    is_ack (take 1500 data) block = true.

(** A packet is sent at most as often as there are attempts; the result is
    [Sent] only when the client has acknowledged the block. *)
Lemma send_retry_spec i client pkt block e r tr e' :
  send_retry i client pkt block e = (r, tr, e') →
  ∃ n used, writes tr = replicate n pkt ∧ (n ≤ i)%nat ∧ en_reads e = used ++ en_reads e' ∧
    (r = Sent → (1 ≤ n)%nat ∧ acked_in client block used).
Proof.
  revert e r tr e'; induction i as [|i IH]; intros e r tr e'; cbn.
  { intros [= <- <- <-]. exists 0%nat, []. by split_and!. }
  assert (∀ e b e1, next_fails e = (b, e1) → en_reads e1 = en_reads e) as Hnf.
  { unfold next_fails. intros e0 b e1. destruct (en_fails e0); intros [= <- <-]; done. }
  destruct (next_fails e) as [b e1] eqn:H1. apply Hnf in H1. destruct b.
  { intros [= <- <- <-]. exists 0%nat, []. rewrite H1. split_and!; [done|lia|done|done]. }
  destruct (next_fails e1) as [b e2] eqn:H2. apply Hnf in H2. destruct b.
  { intros [= <- <- <-]. exists 1%nat, []. split_and!; [done|lia|cbn; congruence|done]. }
  destruct (waitForAck client block (en_reads e2)) as [[w tr1] rest] eqn:Hw.
  pose proof (waitForAck_suffix _ _ _ _ _ _ Hw) as [pre Hpre].
  apply waitForAck_trace in Hw as (ps & r0 & -> & _ & Hack).
  destruct w.
  - intros [= <- <- <-]. destruct (Hack eq_refl) as (E & from & data & -> & ? & ?).
    exists 1%nat, (ps ++ [Packet from data]). cbn [writes omap list_omap]. fold (writes (Got <$> ps ++ [Packet from data])).
    rewrite writes_got. split_and!; [done|lia|cbn; congruence|].
    intros _. split; [lia|]. exists from, data. set_solver.
  - destruct (send_retry i client pkt block _) as [[r' tr'] e3] eqn:Hs. intros [= <- <- <-].
    apply IH in Hs as (n & used & E & Hn & Hr & Hsent). cbn in Hr.
    exists (S n), (pre ++ used). split_and!; [|lia| |].
    + cbn [writes omap list_omap]. fold (writes ((Got <$> ps ++ [r0]) ++ tr')).
      by rewrite writes_app, writes_got, E.
    + rewrite <-(assoc_L (++)), <-Hr. congruence.
    + intros [? (f & d & ? & ? & ?)]%Hsent. split; [lia|]. exists f, d. set_solver.
  - intros [= <- <- <-]. exists 1%nat, pre. cbn [writes omap list_omap]. fold (writes (Got <$> ps ++ [r0])).
    rewrite writes_got. split_and!; [done|lia|cbn; congruence|done].
Qed.

(** ** What a client receives

    The client of RFC 1350 waits for one block number, takes the block that has
    it, and is done after the first block shorter than the block size. *)

Record receiver := { rx_next : Z; rx_data : list Z; rx_done : bool }.

Definition receive (bs : Z) (c : receiver) (pkt : list Z) : receiver :=
  if rx_done c || negb (uint16_at 0 pkt =? tftpDATA) || negb (uint16_at 2 pkt =? rx_next c) then c
  else {| rx_next := (rx_next c + 1) mod 65536; rx_data := rx_data c ++ drop 4 pkt;
          rx_done := Z.of_nat (length (drop 4 pkt)) <? bs |}.

Definition new_receiver : receiver := {| rx_next := 1; rx_data := []; rx_done := false |}.

Definition received (bs : Z) (pkts : list (list Z)) : receiver :=
  fold_left (receive bs) pkts new_receiver.

(** ** A client behind a network

    The network loses, repeats and reorders the packets of both sides, but a
    packet does not outlive the next 32768 packets of the server; block numbers,
    which wrap around at 65536, identify blocks only in such a network. *)

Definition lifetime : nat := Z.to_nat 32768.

Lemma lifetime_Z : Z.of_nat lifetime = 32768.
Proof. by apply Z2Nat.id. Qed.

(** What the server has written, the last packet first; what the client has sent,
    each packet with the number of packets the server had written by then; the
    client. *)
Record net := {
  nt_sent : list (list Z);
  nt_acks : list (nat * list Z);
  nt_client : receiver
}.

Definition net_start : net := {| nt_sent := []; nt_acks := []; nt_client := new_receiver |}.

Definition transmit (n : net) (pkt : list Z) : net :=
  {| nt_sent := pkt :: nt_sent n; nt_acks := nt_acks n; nt_client := nt_client n |}.

(** The client acknowledges the options and every copy of a block. *)
Definition client_replies (pkt : list Z) : list (list Z) :=
  if uint16_at 0 pkt =? tftpOACK then [ack_packet 0]
  else if uint16_at 0 pkt =? tftpDATA then [ack_packet (uint16_at 2 pkt)]
  else [].

Definition deliver (bs : Z) (n : net) (pkt : list Z) : net := {|
  nt_sent := nt_sent n;
  nt_acks := map (pair (length (nt_sent n))) (client_replies pkt) ++ nt_acks n;
  nt_client := receive bs (nt_client n) pkt |}.

(** The network and the client around what the server does: packets are
    delivered at any time and any number of times, or never; what the server
    reads from the client's address is a packet of the client, what it reads from
    elsewhere can be anything. *)
Inductive network (bs : Z) (client : UDPAddr) : net → list sock_event → net → Prop :=
  | network_done n : network bs client n [] n
  | network_deliver n pkt tr n' :
      pkt ∈ take lifetime (nt_sent n) →
      network bs client (deliver bs n pkt) tr n' → network bs client n tr n'
  | network_write n pkt tr n' :
      network bs client (transmit n pkt) tr n' → network bs client n (Wrote pkt :: tr) n'
  | network_ack n sent from data tr n' :
      (sent, data) ∈ nt_acks n → (length (nt_sent n) < sent + lifetime)%nat →
      network bs client n tr n' → network bs client n (Got (Packet from data) :: tr) n'
  | network_other n r tr n' :
      match r with Packet from _ => sameAddr from client = false | _ => True end →
      network bs client n tr n' → network bs client n (Got r :: tr) n'.

Lemma network_app bs client n tr tr' n' :
  network bs client n (tr ++ tr') n' → ∃ m, network bs client n tr m ∧ network bs client m tr' n'.
Proof.
  remember (tr ++ tr') as l eqn:E. intros H. induction H as
    [n|n pkt l n' Hp _ IH|n pkt l n' H IH|n sent from data l n' Ha Hl H IH|n r l n' Hr H IH] in tr, E |- *.
  - symmetry in E. apply app_eq_nil in E as [-> ->]. exists n. split; constructor.
  - destruct (IH _ E) as (m & H1 & H2). exists m. split; [|done]. by eapply network_deliver.
  - destruct tr as [|x tr].
    + cbn in E. subst tr'. exists n. split; constructor. exact H.
    + injection E as <- E. destruct (IH _ E) as (m & H1 & H2). exists m. split; [|done]. by apply network_write.
  - destruct tr as [|x tr].
    + cbn in E. subst tr'. exists n. split; [constructor|by eapply network_ack].
    + injection E as <- E. destruct (IH _ E) as (m & H1 & H2). exists m. split; [|done]. by eapply network_ack.
  - destruct tr as [|x tr].
    + cbn in E. subst tr'. exists n. split; [constructor|by apply network_other].
    + injection E as <- E. destruct (IH _ E) as (m & H1 & H2). exists m. split; [|done]. by apply network_other.
Qed.

Lemma network_write_inv bs client n pkt tr n' :
  network bs client n (Wrote pkt :: tr) n' →
  ∃ m, network bs client n [] m ∧ network bs client (transmit m pkt) tr n'.
Proof.
  remember (Wrote pkt :: tr) as l eqn:E. induction 1 as
    [n|n p l n' Hp _ IH|n p l n' H IH|n sent from data l n' Ha Hl H IH|n r l n' Hr H IH]; try discriminate.
  - destruct (IH E) as (m & H1 & H2). exists m. split; [|done]. by eapply network_deliver.
  - injection E as -> ->. exists n. split; [constructor|done].
Qed.

Lemma data_packet_fields block chunk :
  uint16_at 0 (data_packet block chunk) = tftpDATA ∧
  uint16_at 2 (data_packet block chunk) = block ∧ drop 4 (data_packet block chunk) = chunk.
Proof.
  unfold uint16_at. cbn. split_and!; [done| |done].
  pose proof (Z_div_mod_eq_full block 256). lia.
Qed.

(** Copies of one block count once. *)
Lemma receive_copies bs n block chunk data :
  0 ≤ block < 65536 →
  fold_left (receive bs) (replicate n (data_packet block chunk))
    {| rx_next := block; rx_data := data; rx_done := false |} =
  if (n =? 0)%nat then {| rx_next := block; rx_data := data; rx_done := false |}
  else {| rx_next := (block + 1) mod 65536; rx_data := data ++ chunk;
          rx_done := Z.of_nat (length chunk) <? bs |}.
Proof.
  intros Hb. destruct (data_packet_fields block chunk) as (F1 & F2 & F3).
  destruct n as [|n]; [done|]. cbn [replicate fold_left]. unfold receive at 2.
  rewrite F1, F2, F3. rewrite !Z.eqb_refl. cbn [rx_done rx_next rx_data orb negb Nat.eqb].
  induction n as [|n IH]; [done|]. cbn [replicate fold_left].
  unfold receive at 2. rewrite F1, F2, F3. cbn [rx_done rx_next rx_data].
  assert (block =? (block + 1) mod 65536 = false) as ->.
  { apply Z.eqb_neq. destruct (decide (block = 65535)) as [->|]; [done|].
    rewrite Z.mod_small by lia. lia. }
  cbn [negb]. rewrite orb_true_r. exact IH.
Qed.

Lemma setReady_client t p bs : t_client (setReady t p bs) = t_client t.
Proof. unfold setReady. by destruct (t_once t). Qed.

Section file.
Context (content : list Z) (bs : Z) (Hbs : 0 < bs).
Let B := Z.to_nat bs.
Let rest (k : nat) : list Z := drop (k * B) content.

Lemma chunk_short k :
  (k ≤ length content / B)%nat →
  (Z.of_nat (length (take B (rest k))) <? bs) = (k =? length content / B)%nat.
Proof.
  intros Hk. assert (B ≠ 0)%nat by lia.
  pose proof (Nat.Div0.div_mod (length content) B) as Hdm.
  pose proof (Nat.mod_upper_bound (length content) B ltac:(done)).
  unfold rest. rewrite length_take, length_drop.
  destruct (Nat.eqb_spec k (length content / B)) as [->|Hne].
  - apply Z.ltb_lt. nia.
  - apply Z.ltb_ge. assert (k + 1 ≤ length content / B)%nat as Hk1 by lia.
    assert ((k + 1) * B ≤ length content / B * B)%nat by (apply Nat.mul_le_mono_r; lia). nia.
Qed.

Lemma rest_step k : take B (rest k) ++ rest (S k) = rest k.
Proof.
  unfold rest. replace (S k * B)%nat with (k * B + B)%nat by lia.
  rewrite <-drop_drop. apply take_drop.
Qed.

(** Whatever the network does, the transfer ends; the client has received a
    prefix of the file, and all of it if either side believes the transfer is
    complete. *)
Lemma send_file_spec fuel k block t e :
  (fuel + k = S (length content / B))%nat → (k ≤ length content / B)%nat → 0 ≤ block < 65536 →
  ∃ res t' out e', send_file fuel k block (file_reads content bs) bs t e = Ret (res, t', out, e') ∧
  ∀ data, ∃ m c, fold_left (receive bs) (writes out)
      {| rx_next := block; rx_data := data; rx_done := false |} = c ∧
    rx_data c = data ++ take m (rest k) ∧
    (rx_done c = true → rx_data c = data ++ rest k) ∧
    (∀ b, res = Completed b → rx_done c = true).
Proof.
  revert k block t e; induction fuel as [|fuel IH]; intros k block t e Hf Hk Hb; [lia|].
  cbn [send_file]. unfold file_reads at 1. fold B. fold (rest k).
  set (chunk := take B (rest k)). set (t1 := if block =? 1 then _ else t).
  destruct (sendBlock (t_client t1) (data_packet block chunk) block e) as [[r out] e1] eqn:Hs.
  apply send_retry_spec in Hs as (n & used & Ew & _ & _ & Hsent).
  pose proof (chunk_short k Hk) as Hshort. fold chunk in Hshort.
  destruct r.
  2:{ do 4 eexists. split; [reflexivity|]. intros data. rewrite Ew, receive_copies by done.
      destruct (Nat.eqb n 0).
      - exists 0%nat. eexists. split_and!; [done|cbn; by rewrite app_nil_r|done|done].
      - exists B. eexists. split_and!; [done|done| |done]. cbn [rx_done rx_data].
        rewrite Hshort. intros Hkk%Nat.eqb_eq. f_equal.
        rewrite <-(rest_step k). fold chunk. unfold rest at 1.
        rewrite drop_ge, app_nil_r; [done|]. subst k.
        pose proof (Nat.Div0.div_mod (length content) B).
        pose proof (Nat.mod_upper_bound (length content) B ltac:(lia)). nia. }
  destruct (Hsent eq_refl) as [Hn _]. rewrite Hshort.
  destruct (Nat.eqb_spec k (length content / B)) as [Ek|Ek].
  - do 4 eexists. split; [reflexivity|]. intros data. rewrite Ew, receive_copies by done.
    rewrite (proj2 (Nat.eqb_neq n 0)) by lia. exists B. eexists.
    split_and!; [done|done| |]; cbn [rx_done rx_data].
    + intros _. f_equal. rewrite <-(rest_step k). fold chunk. unfold rest at 1.
      rewrite drop_ge, app_nil_r; [done|]. subst k.
      pose proof (Nat.Div0.div_mod (length content) B).
      pose proof (Nat.mod_upper_bound (length content) B ltac:(lia)). nia.
    + intros _ _. first [done | rewrite Hshort; by apply Nat.eqb_eq].
  - destruct (IH (S k) ((block + 1) mod 65536) t1 e1) as (res & t' & out' & e' & E & Hrec);
      [lia|lia|apply Z.mod_pos_bound; lia|].
    rewrite E. cbn [mbind outcome_bind]. do 4 eexists. split; [reflexivity|].
    intros data. destruct (Hrec (data ++ chunk)) as (m & c & Ec & Hd & Hdone & Hcomp).
    rewrite writes_app, Ew, fold_left_app, receive_copies by done. rewrite (proj2 (Nat.eqb_neq n 0)) by lia.
    rewrite Hshort.
    exists (length chunk + m)%nat, c. split_and!; [done| |intros Hc|done].
    + rewrite Hd, <-(assoc_L (++)). f_equal. rewrite <-(rest_step k). fold chunk.
      by rewrite take_app_add.
    + rewrite (Hdone Hc), <-(assoc_L (++)). f_equal. apply rest_step.
Qed.

(** *** Behind a network *)

Definition blocks : nat := S (length content / B).

(** The [j]th block, or for 0 the options. *)
Definition is_block (j : nat) (pkt : list Z) : Prop :=
  match j with
  | O => uint16_at 0 pkt = tftpOACK
  | S k => (j ≤ blocks)%nat ∧ pkt = data_packet (Z.of_nat j mod 65536) (take B (rest k))
  end.

(** The client after [c] blocks. *)
Definition receiver_at (c : nat) : receiver :=
  {| rx_next := (Z.of_nat c + 1) mod 65536; rx_data := take (c * B) content; rx_done := (c =? blocks)%nat |}.

(** The server has written block [k], the client has taken [c] blocks, and what
    the network can deliver is not too old. *)
Record good (k c : nat) (n : net) : Prop := {
  gd_bound : (k ≤ blocks)%nat;
  gd_count : (c ≤ k ≤ S c)%nat;
  gd_client : nt_client n = receiver_at c;
  gd_sent : ∀ d pkt, nt_sent n !! d = Some pkt → ∃ j, is_block j pkt ∧ (j ≤ k ≤ j + d)%nat;
  gd_acks : ∀ sent data, (sent, data) ∈ nt_acks n → (sent ≤ length (nt_sent n))%nat ∧
    ∃ j, data = ack_packet (Z.of_nat j mod 65536) ∧ (j ≤ c)%nat ∧
      (k ≤ j + (lifetime - 1) + (length (nt_sent n) - sent))%nat
}.

Lemma receiver_at_final c : (c ≤ blocks)%nat → rx_done (receiver_at c) = true → rx_data (receiver_at c) = content.
Proof.
  intros _ ->%Nat.eqb_eq. cbn. apply take_ge. unfold blocks.
  pose proof (Nat.Div0.div_mod (length content) B).
  pose proof (Nat.mod_upper_bound (length content) B ltac:(lia)). nia.
Qed.

(** Block numbers tell blocks apart that are not too far from each other. *)
Lemma block_number_inj i j :
  Z.of_nat i ≤ Z.of_nat j + 65535 → Z.of_nat j ≤ Z.of_nat i + 65535 → Z.of_nat i mod 65536 = Z.of_nat j mod 65536 → i = j.
Proof.
  intros H1 H2 E. pose proof (Z_div_mod_eq_full (Z.of_nat i) 65536).
  pose proof (Z_div_mod_eq_full (Z.of_nat j) 65536).
  assert (Z.of_nat i / 65536 = Z.of_nat j / 65536) by lia. lia.
Qed.

Lemma receive_at c k j :
  (c < blocks)%nat → (S k ≤ blocks)%nat → j = S k →
  receive bs (receiver_at c) (data_packet (Z.of_nat j mod 65536) (take B (rest k))) =
  if Z.of_nat j mod 65536 =? (Z.of_nat c + 1) mod 65536
  then {| rx_next := ((Z.of_nat c + 1) mod 65536 + 1) mod 65536; rx_data := take (c * B) content ++ take B (rest k);
          rx_done := (k =? length content / B)%nat |}
  else receiver_at c.
Proof.
  intros Hc Hk ->. destruct (data_packet_fields (Z.of_nat (S k) mod 65536) (take B (rest k))) as (F1 & F2 & F3).
  unfold receive. rewrite F1, F2, F3. cbn [receiver_at rx_done rx_next rx_data].
  rewrite (proj2 (Nat.eqb_neq c blocks)) by lia. rewrite Z.eqb_refl. cbn [negb orb].
  destruct (_ =? _); cbn [negb]; [|done]. rewrite chunk_short; [done|]. unfold blocks in Hk. lia.
Qed.

Lemma good_replies k c n pkt j sent data :
  is_block j pkt → (sent, data) ∈ map (pair (length (nt_sent n))) (client_replies pkt) → (j ≤ c)%nat →
  (k ≤ j + (lifetime - 1))%nat →
  (sent ≤ length (nt_sent n))%nat ∧ ∃ j, data = ack_packet (Z.of_nat j mod 65536) ∧ (j ≤ c)%nat ∧
      (k ≤ j + (lifetime - 1) + (length (nt_sent n) - sent))%nat.
Proof.
  intros Hj Hin Hc Hk. apply list_elem_of_fmap in Hin as (d & [= -> ->] & Hin). split; [lia|]. exists j.
  assert (d = ack_packet (Z.of_nat j mod 65536)) as ->; [|split_and!; [done|done|lia]].
  revert Hin. unfold client_replies. destruct j as [|i].
  - change (uint16_at 0 pkt = tftpOACK) in Hj. rewrite Hj. by intros ->%list_elem_of_singleton.
  - destruct Hj as [_ ->]. destruct (data_packet_fields (Z.of_nat (S i) mod 65536) (take B (rest i))) as (-> & -> & _).
    by intros ->%list_elem_of_singleton.
Qed.

Lemma good_deliver k c n pkt :
  good k c n → pkt ∈ take lifetime (nt_sent n) → ∃ c', (c ≤ c')%nat ∧ good k c' (deliver bs n pkt).
Proof.
  intros [Hb Hc Hcl Hs Ha] Hin. apply list_elem_of_lookup in Hin as [d Hd].
  apply lookup_take_Some in Hd as [Hd Hlt]. destruct (Hs _ _ Hd) as (j & Hj & Hjk).
  assert (∀ c', (c ≤ c')%nat → (j ≤ c')%nat → (c' ≤ k ≤ S c')%nat →
    receive bs (nt_client n) pkt = receiver_at c' → good k c' (deliver bs n pkt)) as Hgood.
  { intros c' Hcc Hjc Hck Hr. split; cbn [deliver nt_client nt_sent nt_acks]; [done..|].
    intros sent data [Hin|Hin]%elem_of_app.
    - apply (good_replies k c' n pkt j); [done|done|done|lia].
    - destruct (Ha _ _ Hin) as (? & i & -> & ? & ?). split; [done|]. exists i. split_and!; [done|lia|lia]. }
  pose proof lifetime_Z. destruct j as [|i].
  { exists c. split; [done|]. apply Hgood; [lia|lia|lia|]. rewrite Hcl. unfold receive.
    change (uint16_at 0 pkt = tftpOACK) in Hj. rewrite Hj.
    cbn [Z.eqb tftpDATA tftpOACK Pos.eqb negb]. by rewrite orb_true_r. }
  pose proof Hj as [Hib Hp]. destruct (decide (c = blocks)) as [->|Hne].
  { exists blocks. split; [done|]. apply Hgood; [lia|lia|lia|]. rewrite Hcl. unfold receive.
    cbn [receiver_at rx_done]. by rewrite Nat.eqb_refl. }
  rewrite Hcl, Hp in Hgood. rewrite (receive_at c i (S i) ltac:(lia) ltac:(lia) eq_refl) in Hgood.
  destruct (Z.eqb_spec (Z.of_nat (S i) mod 65536) ((Z.of_nat c + 1) mod 65536)) as [E|E].
  - assert (S i = S c) as [= ->].
    { apply block_number_inj; [lia|lia|]. rewrite E. f_equal. lia. }
    exists (S c). split; [lia|]. rewrite Hp. apply Hgood; [lia|lia|lia|]. unfold receiver_at. f_equal.
    + rewrite Zplus_mod_idemp_l. f_equal. lia.
    + unfold rest. rewrite take_take_drop. f_equal. lia.
  - exists c. split; [lia|]. rewrite Hp. apply Hgood; [lia| |lia|done].
    destruct (decide (S i = S c)) as [[= ->]|]; [|lia]. destruct E. f_equal. lia.
Qed.

Lemma good_quiet client k c n rs n' :
  good k c n → network bs client n (Got <$> rs) n' → ∃ c', (c ≤ c')%nat ∧ good k c' n'.
Proof.
  remember (Got <$> rs) as l eqn:E. intros Hg H. induction H as
    [n|n p l n' Hp _ IH|n p l n' H IH|n sent from data l n' Ha Hl H IH|n r l n' Hr H IH] in c, rs, E, Hg |- *.
  - by exists c.
  - destruct (good_deliver _ _ _ _ Hg Hp) as (c1 & Hc1 & Hg1).
    destruct (IH _ _ E Hg1) as (c2 & ? & ?). exists c2. split; [lia|done].
  - by destruct rs.
  - destruct rs as [|r rs]; [done|]. injection E as <- ->. by eapply IH.
  - destruct rs as [|r' rs]; [done|]. injection E as <- ->. by eapply IH.
Qed.

(** An acknowledgement that the server accepts is one of the block it has sent
    last, and the client has taken this block. *)
Lemma good_acked client k c n rs from data n' :
  good k c n → network bs client n (Got <$> rs ++ [Packet from data]) n' → sameAddr from client = true →
  is_ack (take 1500 data) (Z.of_nat k mod 65536) = true → good k k n'.
Proof.
  intros Hg H Hsame Hack. rewrite fmap_app in H. apply network_app in H as (m & H1 & H2).
  destruct (good_quiet _ _ _ _ _ _ Hg H1) as (c1 & _ & Hg1). clear Hg H1.
  cbn in H2. remember [Got (Packet from data)] as l eqn:E. induction H2 as
    [n0|n0 p l n' Hp _ IH|n0 p l n' H IH|n0 sent from0 data0 l n' Ha Hl H _|n0 r l n' Hr H _] in c1, E, Hg1 |- *;
    try discriminate.
  - destruct (good_deliver _ _ _ _ Hg1 Hp) as (c2 & _ & Hg2). by eapply IH.
  - injection E as -> -> ->. pose proof Hg1 as [_ Hc _ _ Hacks].
    destruct (Hacks _ _ Ha) as (Hle & j & -> & Hj & Hk). unfold is_ack, ack_packet in Hack.
    cbn in Hack. destruct (data_packet_fields (Z.of_nat j mod 65536) []) as (_ & F & _).
    unfold data_packet, uint16_at in F. cbn in F. rewrite andb_true_iff in Hack. destruct Hack as [_ Hack].
    unfold uint16_at in Hack. cbn in Hack. rewrite F in Hack. apply Z.eqb_eq in Hack.
    pose proof lifetime_Z. apply block_number_inj in Hack; [|lia..]. subst j.
    destruct (good_quiet client k c1 n0 [] n' Hg1 H) as (c2 & Hc2 & Hg2).
    assert (c2 = k) as ->; [|done]. destruct Hg2 as [_ ? _ _ _]. lia.
  - injection E as -> ->. congruence.
Qed.

(** Block [k] is being sent, or is the next one. *)
Definition entering (k : nat) (n : net) : Prop :=
  (∃ c, good k c n) ∨ (∃ i, k = S i ∧ good i i n).

Lemma good_transmit client k n m pkt :
  entering k n → (k ≤ blocks)%nat → is_block k pkt → network bs client n [] m → ∃ c, good k c (transmit m pkt).
Proof.
  intros He Hk Hp Hm. change [] with (Got <$> []) in Hm. destruct He as [(c & Hg)|(i & -> & Hg)];
    destruct (good_quiet _ _ _ _ _ _ Hg Hm) as (c1 & Hc1 & [Hb Hc Hcl Hs Ha]); exists c1.
  - split; cbn [transmit nt_client nt_sent nt_acks]; [done..| |].
    + intros [|d] p; cbn; [intros [= <-]; exists k; split; [done|lia]|]. intros (j & ? & ?)%Hs. exists j. split; [done|lia].
    + intros sent data Hin. destruct (Ha _ _ Hin) as (? & j & ? & ? & ?). cbn. split; [lia|]. exists j.
      split_and!; [done|lia|lia].
  - split; cbn [transmit nt_client nt_sent nt_acks]; [done|lia|done| |].
    + intros [|d] p; cbn; [intros [= <-]; exists (S i); split; [done|lia]|]. intros (j & ? & ?)%Hs. exists j. split; [done|lia].
    + intros sent data Hin. destruct (Ha _ _ Hin) as (? & j & ? & ? & ?). cbn. split; [lia|]. exists j.
      split_and!; [done|lia|lia].
Qed.

(** Sending a block, whatever the network does. *)
Lemma send_retry_network i client pkt k e r tr e' n n' :
  send_retry i client pkt (Z.of_nat k mod 65536) e = (r, tr, e') → (k ≤ blocks)%nat → is_block k pkt →
  entering k n → network bs client n tr n' →
  ∃ k' c', good k' c' n' ∧ (r = Sent → k' = k ∧ c' = k).
Proof.
  intros Hsend Hk Hp.
  assert (∀ n n', entering k n → network bs client n [] n' → ∃ k' c', good k' c' n') as Hstay.
  { intros n0 n1 He Hn. change [] with (Got <$> []) in Hn. destruct He as [(c & Hg)|(j & -> & Hg)];
      destruct (good_quiet _ _ _ _ _ _ Hg Hn) as (c' & _ & Hg'); by do 2 eexists. }
  induction i as [|i IH] in e, r, tr, e', n, Hsend |- *; intros He Hn; cbn [send_retry] in Hsend.
  { injection Hsend as <- <- <-. destruct (Hstay _ _ He Hn) as (k' & c' & Hg). by exists k', c'. }
  destruct (next_fails e) as [[] e1]; [injection Hsend as <- <- <-;
    destruct (Hstay _ _ He Hn) as (k' & c' & Hg); by exists k', c'|].
  assert (∀ tr1, network bs client n (Wrote pkt :: tr1) n' →
    ∃ m c, good k c m ∧ network bs client m tr1 n') as Hw.
  { intros tr1 (m & H1 & H2)%network_write_inv. destruct (good_transmit _ _ _ _ _ He Hk Hp H1) as [c Hg]. by eexists _, c. }
  destruct (next_fails e1) as [[] e2].
  { injection Hsend as <- <- <-. destruct (Hw [] Hn) as (m & c & Hg & Hm).
    destruct (Hstay m n' ltac:(left; by exists c) Hm) as (k' & c' & Hg'). by exists k', c'. }
  destruct (waitForAck client (Z.of_nat k mod 65536) (en_reads e2)) as [[w trw] reads] eqn:Ewait.
  apply waitForAck_trace in Ewait as (pre & r0 & -> & _ & Hack). destruct w.
  - injection Hsend as <- <- <-. destruct (Hw _ Hn) as (m & c & Hg & Hm).
    destruct (Hack eq_refl) as (_ & from & data & -> & Hs & Ha).
    exists k, k. split; [|done]. by eapply good_acked.
  - destruct (send_retry i client pkt _ _) as [[r' tr'] e3] eqn:Erec. injection Hsend as <- <- <-.
    destruct (Hw _ Hn) as (m & c & Hg & Hm). apply network_app in Hm as (m1 & H1 & H2).
    destruct (good_quiet _ _ _ _ _ _ Hg H1) as (c1 & _ & Hg1).
    eapply IH; [exact Erec| |exact H2]. left. by exists c1.
  - injection Hsend as <- <- <-. destruct (Hw _ Hn) as (m & c & Hg & Hm).
    destruct (good_quiet _ _ _ _ _ _ Hg Hm) as (c1 & _ & Hg1). by exists k, c1.
Qed.

Lemma send_file_network fuel k t e res t' tr e' n n' :
  (fuel + k = blocks)%nat → send_file fuel k (Z.of_nat (S k) mod 65536) (file_reads content bs) bs t e = Ret (res, t', tr, e') →
  good k k n → network bs (t_client t) n tr n' →
  ∃ k' c', good k' c' n' ∧ (∀ b, res = Completed b → c' = blocks).
Proof.
  induction fuel as [|fuel IH] in k, t, e, res, t', tr, e', n |- *; intros Hf Hsend Hg Hn; [done|].
  cbn [send_file] in Hsend. unfold file_reads at 1 in Hsend. fold B in Hsend. fold (rest k) in Hsend.
  set (t1 := if Z.of_nat (S k) mod 65536 =? 1 then _ else t) in Hsend.
  assert (t_client t1 = t_client t) as Hc by (unfold t1; case_if; [apply setReady_client|done]).
  rewrite Hc in Hsend. destruct (sendBlock _ _ _ _) as [[r tr1] e1] eqn:Eb.
  assert (entering (S k) n) as He by (right; by exists k).
  unfold sendBlock in Eb.
  assert (∀ n1, network bs (t_client t) n tr1 n1 →
    ∃ k' c', good k' c' n1 ∧ (r = Sent → k' = S k ∧ c' = S k)) as Hblock.
  { intros n1. eapply (send_retry_network _ _ _ (S k)); [exact Eb|lia|by split; [lia|]|exact He]. }
  destruct r.
  2:{ injection Hsend as <- <- <- <-. destruct (Hblock _ Hn) as (k' & c' & Hg' & _). by exists k', c'. }
  rewrite chunk_short in Hsend by (unfold blocks in Hf; lia).
  destruct (Nat.eqb_spec k (length content / B)) as [Ek|Ek].
  - injection Hsend as <- <- <- <-. destruct (Hblock _ Hn) as (k' & c' & Hg' & Hs). exists k', c'. split; [done|].
    intros _ _. destruct (Hs eq_refl) as [_ ->]. unfold blocks. lia.
  - apply outcome_bind_Ret in Hsend as ([[[res2 t2] tr2] e2] & Erec & [= <- <- <- <-]).
    apply network_app in Hn as (m & H1 & H2). destruct (Hblock _ H1) as (k' & c' & Hg' & Hs).
    destruct (Hs eq_refl) as [-> ->]. rewrite <-Hc in H2.
    replace ((Z.of_nat (S k) mod 65536 + 1) mod 65536) with (Z.of_nat (S (S k)) mod 65536) in Erec.
    2:{ rewrite Zplus_mod_idemp_l. f_equal. lia. }
    by eapply (IH (S k)); [lia|..].
Qed.

Lemma good_start : good 0 0 net_start.
Proof. split; cbn; [lia|lia|done|by intros|]. intros ?? []%not_elem_of_nil. Qed.

Lemma good_client k c n : good k c n →
  rx_data (nt_client n) = take (c * B) content ∧ (rx_done (nt_client n) = true → rx_data (nt_client n) = content) ∧
  (c = blocks → rx_done (nt_client n) = true).
Proof.
  intros [Hb Hc -> _ _]. split_and!; [done|apply receiver_at_final; lia|]. intros ->. apply Nat.eqb_refl.
Qed.
End file.

(** ** A responsive client *)

(** A read that leaves the wait for the acknowledgement of [block] going. *)
Definition ignored (client : UDPAddr) (block : Z) (r : recv) : Prop :=
  match r with
  | Packet from data => sameAddr from client && is_ack (take 1500 data) block = false
  | ReadTimeout => True
  | ReadError => False
  end.

#[export] Instance recv_timeout_dec (r : recv) : Decision (r = ReadTimeout).
Proof. destruct r; [right; congruence|by left|right; congruence]. Defined.

Definition timeouts (rs : list recv) : nat :=
  length (filter (λ r, r = ReadTimeout) rs).

(** The reads of a transfer to a client that acknowledges each block, the first
    one being [block], after fewer timeouts than the server has attempts; in
    between, foreign packets and stale acknowledgements may arrive. *)
Inductive responsive (client : UDPAddr) : nat → Z → list recv → Prop :=
  | responsive_done block rs : responsive client 0 block rs
  | responsive_block n block seg from data rs :
      Forall (ignored client block) seg → (timeouts seg < tftpRetries)%nat →
      sameAddr from client = true → is_ack (take 1500 data) block = true →
      responsive client n ((block + 1) mod 65536) rs →
      responsive client (S n) block (seg ++ Packet from data :: rs).

Lemma timeouts_cons r rs :
  timeouts (r :: rs) = ((if decide (r = ReadTimeout) then 1 else 0) + timeouts rs)%nat.
Proof. unfold timeouts. rewrite filter_cons. by case_decide. Qed.

Lemma waitForAck_ignored client block seg from data rs :
  Forall (ignored client block) seg → sameAddr from client = true →
  is_ack (take 1500 data) block = true →
  ∃ tr, (timeouts seg = 0%nat ∧ waitForAck client block (seg ++ Packet from data :: rs) = (Acked, tr, rs)) ∨
  ∃ seg', waitForAck client block (seg ++ Packet from data :: rs) =
      (WaitTimeout, tr, seg' ++ Packet from data :: rs) ∧
    Forall (ignored client block) seg' ∧ timeouts seg = S (timeouts seg').
Proof.
  intros Hseg Hs Ha. induction Hseg as [|r seg Hr Hseg [tr IH]]; cbn [app waitForAck].
  { eexists. left. by rewrite Hs, Ha. }
  exists (Got r :: (if decide (r = ReadTimeout) then [] else tr)).
  rewrite timeouts_cons. destruct r as [f d| |]; [| |done].
  - rewrite !decide_False by done. cbn in Hr.
    assert (∀ X : wait_result * list sock_event * list recv, (if negb (sameAddr f client) then X
      else if is_ack (take 1500 d) block then (Acked, [], seg ++ Packet from data :: rs) else X) = X) as Hskip.
    { intros X. destruct (sameAddr f client); cbn in *; [by rewrite Hr|done]. }
    rewrite Hskip. destruct IH as [[? ->]|(seg' & -> & ? & ?)]; [by left|right]. by exists seg'.
  - right. exists seg. rewrite !decide_True by done. done.
Qed.

Lemma send_retry_responsive i client pkt block seg from data rs :
  Forall (ignored client block) seg → (timeouts seg < i)%nat →
  sameAddr from client = true → is_ack (take 1500 data) block = true →
  ∃ out, send_retry i client pkt block
      {| en_fails := []; en_reads := seg ++ Packet from data :: rs |} =
    (Sent, out, {| en_fails := []; en_reads := rs |}).
Proof.
  revert seg; induction i as [|i IH]; intros seg Hseg Hi Hs Ha; [lia|].
  cbn [send_retry next_fails en_fails en_reads].
  destruct (waitForAck_ignored client block seg from data rs Hseg Hs Ha)
    as [tr [[_ ->]|(seg' & -> & Hseg' & Ht)]]; [by eexists|].
  destruct (IH seg' Hseg' ltac:(lia) Hs Ha) as [out Ho]. rewrite Ho. by eexists.
Qed.

Lemma send_file_responsive content bs fuel k block t rs :
  0 < bs → (fuel + k = S (length content / Z.to_nat bs))%nat →
  (k ≤ length content / Z.to_nat bs)%nat → 0 ≤ block < 65536 →
  responsive (t_client t) fuel block rs →
  ∃ b t' out e', send_file fuel k block (file_reads content bs) bs t
      {| en_fails := []; en_reads := rs |} = Ret (Completed b, t', out, e').
Proof.
  intros Hbs. revert k block t rs; induction fuel as [|fuel IH]; intros k block t rs Hf Hk Hb Hr; [lia|].
  inversion Hr as [|n bl seg from data rs' Hseg Ht Hs Ha Hr']; subst.
  cbn [send_file]. unfold file_reads at 1.
  set (chunk := take _ (drop _ content)). set (t1 := if block =? 1 then _ else t).
  assert (t_client t1 = t_client t) as Hc by (unfold t1; case_if; [apply setReady_client|done]).
  rewrite <-Hc in Hseg, Hs, Hr'.
  unfold sendBlock.
  destruct (send_retry_responsive tftpRetries (t_client t1) (data_packet block chunk) block seg from
    data rs' Hseg Ht Hs Ha) as [out ->].
  assert ((Z.of_nat (length chunk) <? bs) = (k =? length content / Z.to_nat bs)%nat) as Hshort
    by (by apply chunk_short).
  destruct (Z.of_nat (length chunk) <? bs) eqn:Hsh; [by do 4 eexists|].
  symmetry in Hshort. apply Nat.eqb_neq in Hshort.
  destruct (IH (S k) ((block + 1) mod 65536) t1 rs') as (b & t' & out' & e' & E);
    [lia|lia|apply Z.mod_pos_bound; lia|done|].
  rewrite E. cbn [mbind outcome_bind]. by do 4 eexists.
Qed.

(** ** Options *)

Lemma negotiate_range `{GI : GoInt} opts : 1 ≤ negotiate opts ≤ maxBlockSize.
Proof.
  unfold negotiate, tftpBlockSize, maxBlockSize. destruct (opts !! "blksize"); [|lia].
  destruct (atoi s) as [v [err|]]; [lia|]. repeat case_if; to_prop; lia.
Qed.

(** The parser of an option acknowledgement, as a client writes it: the options
    in order. *)
Fixpoint parse_pairs (fuel : nat) (b : list Z) : list (string * string) :=
  match fuel, b with
  | O, _ | _, [] => []
  | S fuel, _ =>
      let '(k, r) := cstring b in
      let '(v, r) := cstring r in
      (of_bytes k, of_bytes v) :: parse_pairs fuel r
  end.

Lemma itoa_no_nul z : 0 ≤ z → no_nul (itoa z).
Proof.
  intros Hz. eapply Forall_impl; [by apply itoa_digits|]. intros b Hb.
  apply is_digit_range in Hb. lia.
Qed.

Lemma parse_pairs_cons fuel k v rest :
  no_nul k → no_nul v → k ≠ "" →
  parse_pairs (S fuel) ((to_bytes k ++ [0]) ++ (to_bytes v ++ [0]) ++ rest) =
  (k, v) :: parse_pairs fuel rest.
Proof.
  intros Hk Hv Hne. rewrite <-!(assoc_L (++)). cbn [app].
  assert (to_bytes k ≠ []) as Hkb by (intros E; apply Hne; by apply to_bytes_inj).
  cbn [parse_pairs]. unfold cstring. rewrite cstring_app by done. cbn [app].
  rewrite cstring_app by done. cbn [app]. rewrite !of_bytes_to_bytes.
  by destruct (to_bytes k).
Qed.

Lemma nul_free_names : no_nul "blksize" ∧ no_nul "tsize".
Proof. split; repeat constructor; vm_compute; congruence. Qed.

Lemma buildOACK_parse opts bs size :
  0 ≤ bs → 0 ≤ size →
  (buildOACK opts bs size = [] ↔ opts !! "blksize" = None ∧ opts !! "tsize" = None) ∧
  (buildOACK opts bs size ≠ [] → ∃ body, buildOACK opts bs size = [0; tftpOACK] ++ body ∧
     parse_pairs 2 body =
       match opts !! "blksize" with Some _ => [("blksize", itoa bs)] | None => [] end ++
       match opts !! "tsize" with Some _ => [("tsize", itoa size)] | None => [] end).
Proof.
  intros Hb Hs. pose proof (itoa_no_nul bs Hb). pose proof (itoa_no_nul size Hs).
  destruct nul_free_names as [N1 N2].
  unfold buildOACK, oack_pairs.
  destruct (opts !! "blksize"), (opts !! "tsize"); (split; [naive_solver|]); intros Hne;
    try (by destruct Hne); (eexists; split; [reflexivity|]); cbn [map concat app].
  - rewrite (parse_pairs_cons 1 "blksize" (itoa bs)) by done.
    by rewrite (parse_pairs_cons 0 "tsize" (itoa size)) by done.
  - by rewrite (parse_pairs_cons 1 "blksize" (itoa bs)) by done.
  - by rewrite (parse_pairs_cons 1 "tsize" (itoa size)) by done.
Qed.

(** ** The reader and its transfers *)

(** The server, the transfers running with their keys, the next number. *)
Record system := {
  sy_server : Server;
  sy_running : gmap nat string;
  sy_next : nat
}.

(** What can happen: the reader handles a packet, a transfer ends, the settings
    change. *)
Inductive sys_step `{U : GoUnicode} : system → system → Prop :=
  | sys_read s run n client pkt s' a :
      reader_step s client pkt n = (s', a) →
      sys_step {| sy_server := s; sy_running := run; sy_next := n |}
        match a with
        | Serve id key _ _ => {| sy_server := s'; sy_running := <[id := key]> run; sy_next := S n |}
        | _ => {| sy_server := s'; sy_running := run; sy_next := n |}
        end
  | sys_finish s run n id key :
      run !! id = Some key →
      sys_step {| sy_server := s; sy_running := run; sy_next := n |}
        {| sy_server := finish s key; sy_running := delete id run; sy_next := n |}
  | sys_SetMacImages (MO : MapOrder) s run n m :
      sys_step {| sy_server := s; sy_running := run; sy_next := n |}
        {| sy_server := SetMacImages s m; sy_running := run; sy_next := n |}
  | sys_SetDefaultImage s run n img :
      sys_step {| sy_server := s; sy_running := run; sy_next := n |}
        {| sy_server := SetDefaultImage s img; sy_running := run; sy_next := n |}.

Definition sys_init (cfg : PXEConfig) : system :=
  {| sy_server := Pxe.New cfg; sy_running := ∅; sy_next := 0 |}.

(** [active] and the running transfers are the same relation. *)
Definition sys_inv (y : system) : Prop :=
  (∀ id key, sy_running y !! id = Some key ↔ px_active (sy_server y) !! key = Some id) ∧
  (∀ id, is_Some (sy_running y !! id) → (id < sy_next y)%nat).

Lemma reader_step_cases `{U : GoUnicode} s client pkt n s' a :
  reader_step s client pkt n = (s', a) →
  match a with
  | Ignore => s' = s
  | Resend id => s' = s ∧ ∃ key, px_active s !! key = Some id
  | Serve id key filename opts => id = n ∧ px_active s !! key = None ∧
      px_active s' = <[key := n]> (px_active s) ∧ px_handler s' = px_handler s
  end.
Proof.
  unfold reader_step. case_if; [by intros [= <- <-]|]. case_if; [|by intros [= <- <-]].
  destruct (parseRRQ pkt) as [[filename mode] opts]. case_if; [by intros [= <- <-]|].
  destruct (px_active s !! _) eqn:E; intros [= <- <-]; [split; eauto|by split_and!].
Qed.

Lemma sys_step_inv `{U : GoUnicode} y y' : sys_step y y' → sys_inv y → sys_inv y'.
Proof.
  intros [s run n client pkt s' a Hs|s run n id key Hid|MO s run n m|s run n img] [Hi Hn];
    unfold sys_inv in *; cbn in *; [|split| by split|by split].
  - apply reader_step_cases in Hs. destruct a as [|id|id key fn opts]; cbn.
    + by subst s'.
    + by destruct Hs as [-> _].
    + destruct Hs as (-> & Hnone & -> & _). split.
      * intros i k. destruct (decide (i = n)) as [->|Hne].
        -- rewrite lookup_insert_eq. split; [intros [= <-]; apply lookup_insert_eq|].
           destruct (decide (k = key)) as [->|Hk]; [done|]. rewrite lookup_insert_ne by done.
           intros E. apply Hi in E. specialize (Hn n ltac:(by eexists)). lia.
        -- rewrite lookup_insert_ne by done. destruct (decide (k = key)) as [->|Hk].
           ++ rewrite lookup_insert_eq. split; [|congruence]. intros E. apply Hi in E. congruence.
           ++ rewrite lookup_insert_ne by done. apply Hi.
      * intros i [k [[<- _]|[_ Hk]]%lookup_insert_Some]; [lia|].
        specialize (Hn i ltac:(by eexists)). lia.
  - intros i k. destruct (decide (i = id)) as [->|Hne].
    + rewrite lookup_delete_eq. split; [done|]. intros [Hk E]%lookup_delete_Some.
      apply Hi in E. congruence.
    + rewrite lookup_delete_ne by done. destruct (decide (k = key)) as [->|Hk].
      * rewrite lookup_delete_eq. split; [|done]. intros E. apply Hi in E, Hid. congruence.
      * rewrite lookup_delete_ne by done. apply Hi.
  - intros i [k [_ Hk]%lookup_delete_Some]. apply Hn. by eexists.
Qed.

Lemma serve_node_spec `{GI : GoInt} other content opts t e :
  ∃ res t' out, serve_node other (File content) opts t e = Ret (res, t', out) ∧
    let c := received (negotiate opts) (writes out) in
    (∃ m, rx_data c = take m content) ∧
    (rx_done c = true → rx_data c = content) ∧
    (∀ b, res = Completed b → rx_data c = content ∧ rx_done c = true).
Proof.
  pose proof (negotiate_range opts) as Hbs. unfold serve_node. set (bs := negotiate opts) in *.
  set (oack := buildOACK opts bs _).
  assert (∃ r out e1, match oack with [] => (Sent, [], e) | _ => sendOACK (t_client t) oack e end
    = (r, out, e1) ∧ fold_left (receive bs) (writes out) new_receiver = new_receiver) as (r & out & e1 & -> & Ho).
  { destruct oack as [|x l] eqn:Eo; [by do 3 eexists|].
    destruct (sendOACK (t_client t) (x :: l) e) as [[r out] e1] eqn:Es.
    apply send_retry_spec in Es as (n & _ & Ew & _). do 3 eexists. split; [done|]. rewrite Ew. clear Ew.
    assert (uint16_at 0 (x :: l) = tftpOACK) as Hu.
    { rewrite <-Eo. unfold oack, buildOACK in Eo |- *. by destruct (oack_pairs opts bs _). }
    induction n as [|n IH]; [done|]. cbn [replicate fold_left].
    assert (receive bs new_receiver (x :: l) = new_receiver) as -> by (unfold receive; rewrite Hu; done).
    exact IH. }
  destruct r.
  - cbn [node_fuel]. destruct (send_file_spec content bs ltac:(lia) (file_fuel content bs) 0 1 t e1)
      as (res & t' & out' & e' & E & Hrec); [unfold file_fuel; lia|lia|lia|].
    change (node_reads (File content) bs) with (file_reads content bs). rewrite E.
    cbn [mbind outcome_bind]. do 3 eexists. split; [reflexivity|]. cbv zeta.
    destruct (Hrec []) as (m & c & Ec & Hd & Hdone & Hcomp).
    unfold received. rewrite writes_app, fold_left_app, Ho. unfold new_receiver. rewrite Ec.
    cbn [app] in Hd, Hdone. split_and!; [by exists m|exact Hdone|].
    intros b Hb. specialize (Hcomp b Hb). split; [by apply Hdone|done].
  - do 3 eexists. split; [reflexivity|]. cbv zeta. unfold received. rewrite Ho.
    split_and!; [by exists 0%nat|done|done].
Qed.

(** ** The properties of the component *)

(** A transfer behind a network. *)
Lemma serve_node_network `{GI : GoInt} other content opts t e res t' tr n :
  serve_node other (File content) opts t e = Ret (res, t', tr) →
  network (negotiate opts) (t_client t) net_start tr n →
  let c := nt_client n in
  (∃ m, rx_data c = take m content) ∧ (rx_done c = true → rx_data c = content) ∧
  (∀ b, res = Completed b → rx_data c = content ∧ rx_done c = true).
Proof.
  pose proof (negotiate_range opts) as Hr. assert (0 < negotiate opts) as Hbs by lia.
  intros E Hn c. assert (∃ k' c', good content (negotiate opts) k' c' n ∧
    (∀ b, res = Completed b → c' = blocks content (negotiate opts))) as (k' & c' & Hg & Hdone).
  { unfold serve_node in E. set (oack := buildOACK _ _ _) in E.
    assert (∀ e1 tr1 n1, outcome_bind _ _ (λ '(res, t, out', _), Ret (res, t, tr1 ++ out'))
        (send_file (node_fuel (File content) (negotiate opts)) 0 1
          (node_reads (File content) (negotiate opts)) (negotiate opts) t e1) = Ret (res, t', tr) →
      good content (negotiate opts) 0 0 n1 →
      (∀ tr2, tr = tr1 ++ tr2 → network (negotiate opts) (t_client t) n1 tr2 n) →
      ∃ k' c', good content (negotiate opts) k' c' n ∧
        (∀ b, res = Completed b → c' = blocks content (negotiate opts))) as Hfile.
    { intros e1 tr1 n1 H Hg Hsplit. apply outcome_bind_Ret in H as ([[[res1 t1] tr2] e2] & Es & [= -> -> <-]).
      eapply (send_file_network content (negotiate opts) Hbs _ 0%nat); [|exact Es|exact Hg|by apply Hsplit].
      cbn [node_fuel]. unfold file_fuel, blocks. lia. }
    destruct oack as [|x l] eqn:Eo.
    - eapply (Hfile e [] net_start); [exact E|apply good_start|]. intros tr2 ->. exact Hn.
    - unfold sendOACK in E. destruct (send_retry _ _ _ _ _) as [[r tr1] e1] eqn:Es.
      assert (is_block content (negotiate opts) 0 (x :: l)) as Hb.
      { cbn. rewrite <-Eo. unfold oack, buildOACK in Eo |- *. by destruct (oack_pairs _ _ _). }
      assert (∀ n1, network (negotiate opts) (t_client t) net_start tr1 n1 →
        ∃ k' c', good content (negotiate opts) k' c' n1 ∧ (r = Sent → k' = 0%nat ∧ c' = 0%nat)) as Hoack.
      { intros n1. eapply (send_retry_network content (negotiate opts) Hbs _ _ _ 0); [exact Es|lia|exact Hb|].
        left. exists 0%nat. apply good_start. }
      destruct r.
      + assert (∃ tr2, tr = tr1 ++ tr2) as [tr2 ->].
        { apply outcome_bind_Ret in E as ([[[? ?] tr2] ?] & _ & [= -> -> <-]). by exists tr2. }
        apply network_app in Hn as (m & H1 & H2). destruct (Hoack m H1) as (k' & c' & Hg & Hs).
        destruct (Hs eq_refl) as [-> ->]. eapply (Hfile e1 tr1 m); [exact E|exact Hg|].
        intros tr3 ->%app_inv_head. exact H2.
      + injection E as <- <- <-. destruct (Hoack n Hn) as (k' & c' & Hg & _). by exists k', c'. }
  destruct (good_client content (negotiate opts) Hbs k' c' n Hg) as (H1 & H2 & H3). split_and!; [by eexists|exact H2|].
  intros b Hb. specialize (H3 (Hdone b Hb)). split; [by apply H2|done].
Qed.

(** C13: whatever the network does to a transfer of a regular file, the transfer
    ends.  The packets of the server and of the client, which acknowledges every
    copy of a block it gets, may be lost, repeated, delayed and reordered, as
    long as none is delivered after 32768 further packets, and other hosts may
    send anything: the client has always received a prefix of the file, and it
    has received the whole file if it, or the server, believes the transfer is
    complete.  Files of more than 65535 blocks, for which the block numbers wrap
    around, are no exception. *)
Theorem transfer_safe `{GI : GoInt} other content opts t e :
  ∃ res t' tr, serve_node other (File content) opts t e = Ret (res, t', tr) ∧
    ∀ n, network (negotiate opts) (t_client t) net_start tr n →
      let c := nt_client n in
      (∃ m, rx_data c = take m content) ∧
      (rx_done c = true → rx_data c = content) ∧
      (∀ b, res = Completed b → rx_data c = content ∧ rx_done c = true).
Proof.
  destruct (serve_node_spec other content opts t e) as (res & t' & tr & E & _).
  exists res, t', tr. split; [done|]. intros n Hn. by eapply serve_node_network.
Qed.

(** A client that answers gets the whole file. *)
Lemma serve_node_responsive `{GI : GoInt} other content opts t rs :
  let bs := negotiate opts in
  let blocks := S (length content / Z.to_nat bs) in
  (if bool_decide (buildOACK opts bs (Z.of_nat (length content)) = [])
   then responsive (t_client t) blocks 1 rs else responsive (t_client t) (S blocks) 0 rs) →
  ∃ b t' out, serve_node other (File content) opts t {| en_fails := []; en_reads := rs |} =
      Ret (Completed b, t', out) ∧
    rx_data (received bs (writes out)) = content.
Proof.
  intros bs blocks Hr. pose proof (negotiate_range opts) as Hbs. fold bs in Hbs.
  assert (∃ b t' out, serve_node other (File content) opts t {| en_fails := []; en_reads := rs |} =
      Ret (Completed b, t', out)) as (b & t' & out & E).
  { unfold serve_node. fold bs. cbn [node_size node_fuel].
    change (node_reads (File content) bs) with (file_reads content bs).
    assert (∀ rs0, responsive (t_client t) blocks 1 rs0 → ∃ b t' out e',
      send_file (file_fuel content bs) 0 1 (file_reads content bs) bs t
        {| en_fails := []; en_reads := rs0 |} = Ret (Completed b, t', out, e')) as Hsend.
    { intros rs0 Hr0. apply send_file_responsive; unfold file_fuel; [lia|lia|lia|lia|exact Hr0]. }
    case_bool_decide as Ho.
    - rewrite Ho. destruct (Hsend rs Hr) as (b & t' & out & e' & ->). cbn. by do 3 eexists.
    - inversion Hr as [|n bl seg from data rs' Hseg Ht Hs Ha Hr']; subst.
      unfold sendOACK.
      destruct (send_retry_responsive tftpRetries (t_client t)
        (buildOACK opts bs (Z.of_nat (length content))) 0 seg from data rs' Hseg Ht Hs Ha)
        as [out ->].
      destruct (buildOACK opts bs (Z.of_nat (length content))); [done|].
      destruct (Hsend rs' Hr') as (b & t' & out' & e' & ->). cbn. by do 3 eexists. }
  exists b, t', out. split; [done|].
  destruct (serve_node_spec other content opts t {| en_fails := []; en_reads := rs |})
    as (res & t2 & out2 & E2 & _ & _ & Hcomp).
  rewrite E in E2. simplify_eq. by apply (Hcomp b).
Qed.

(** C14: a transfer to a client that acknowledges every block, each after fewer
    than twelve timeouts and any number of packets to ignore, completes: the
    client receives the whole file, also when the network loses, repeats, delays
    and reorders the packets on the way as in transfer_safe. *)
Theorem transfer_live `{GI : GoInt} other content opts t rs :
  let bs := negotiate opts in
  let blocks := S (length content / Z.to_nat bs) in
  (if bool_decide (buildOACK opts bs (Z.of_nat (length content)) = [])
   then responsive (t_client t) blocks 1 rs else responsive (t_client t) (S blocks) 0 rs) →
  ∃ b t' out, serve_node other (File content) opts t {| en_fails := []; en_reads := rs |} =
      Ret (Completed b, t', out) ∧
    rx_data (received bs (writes out)) = content ∧
    ∀ n, network bs (t_client t) net_start out n → rx_data (nt_client n) = content.
Proof.
  intros bs blocks Hr. destruct (serve_node_responsive other content opts t rs Hr) as (b & t' & out & E & Hd).
  exists b, t', out. split_and!; [done|done|]. intros n Hn.
  destruct (serve_node_network other content opts t _ _ _ _ n E Hn) as (_ & _ & H). by apply (H b).
Qed.

(** a block is sent at most twelve times, always as the same packet, and
    [sendBlock] succeeds only if it sent the block and then read, from the
    client's own address and port, an acknowledgement of exactly that block. *)
Theorem sendBlock_correct client data block e r out e' :
  sendBlock client data block e = (r, out, e') →
  ∃ n used, writes out = replicate n data ∧ (n ≤ 12)%nat ∧ en_reads e = used ++ en_reads e' ∧
    (r = Sent → (1 ≤ n)%nat ∧ ∃ from ack, Packet from ack ∈ used ∧
       udp_Port from = udp_Port client ∧ IP_Equal (udp_IP from) (udp_IP client) = true ∧
       uint16_at 0 (take 1500 ack) = tftpACK ∧ uint16_at 2 (take 1500 ack) = block).
Proof.
  intros H. apply send_retry_spec in H as (n & used & Ew & Hn & Hr & Hs).
  exists n, used. split_and!; [exact Ew|done|done|].
  intros [? (from & ack & Hin & Hsame & Ha)]%Hs. split; [done|]. exists from, ack.
  unfold sameAddr in Hsame. unfold is_ack in Ha.
  apply andb_true_iff in Hsame as [Hsame ?], Ha as [Ha ?].
  apply andb_true_iff in Hsame as [Hsame _]. apply andb_true_iff in Hsame as [Hp _].
  apply negb_true_iff, orb_false_iff in Ha as [_ Ha]. apply negb_false_iff in Ha. to_prop.
  split_and!; try done; by apply Z.eqb_eq.
Qed.

(** the negotiated block size is between 1 and 1468, it is the requested one
    if that is a number in this range, and the option acknowledgement lists
    exactly the options of the request the server knows, with the block size it
    will use and the size of the file. *)
Theorem options_negotiated `{GI : GoInt} opts size :
  let bs := negotiate opts in
  let known := match opts !! "blksize" with Some _ => [("blksize", itoa bs)] | None => [] end ++
               match opts !! "tsize" with Some _ => [("tsize", itoa size)] | None => [] end in
  0 ≤ size →
  1 ≤ bs ≤ maxBlockSize ∧
  (∀ n, 1 ≤ n ≤ maxBlockSize → opts !! "blksize" = Some (itoa n) → bs = n) ∧
  (known = [] → buildOACK opts bs size = []) ∧
  (known ≠ [] → ∃ body, buildOACK opts bs size = [0; tftpOACK] ++ body ∧ parse_pairs 2 body = known).
Proof.
  intros bs known Hsize. pose proof (negotiate_range opts) as Hbs. fold bs in Hbs.
  destruct (buildOACK_parse opts bs size ltac:(lia) Hsize) as [H1 H2]. split_and!; try lia.
  - intros n Hn Ho. unfold bs, negotiate. rewrite Ho, atoi_itoa.
    2:{ pose proof int_max_ge. unfold maxBlockSize in Hn. lia. }
    rewrite (proj2 (Z.ltb_lt 0 n)), (proj2 (Z.ltb_ge maxBlockSize n)) by lia. done.
  - intros Hk. apply H1. unfold known in Hk.
    by destruct (opts !! "blksize"), (opts !! "tsize").
  - intros Hk. apply H2. intros E. apply Hk. apply H1 in E as [E1 E2]. unfold known.
    by rewrite E1, E2.
Qed.

(** C18: however requests, duplicates and ends of transfers interleave, there is
    never more than one running transfer per client address and file; a
    request for a file that is being sent to the same address is answered by
    the transfer that is running, and the entry disappears with the transfer. *)
Theorem one_transfer_per_key `{U : GoUnicode} cfg y :
  rtc sys_step (sys_init cfg) y →
  (∀ id1 id2 key, sy_running y !! id1 = Some key → sy_running y !! id2 = Some key → id1 = id2) ∧
  (∀ client pkt id s', reader_step (sy_server y) client pkt (sy_next y) = (s', Resend id) →
     is_Some (sy_running y !! id)) ∧
  (∀ client pkt id key fn opts s',
     reader_step (sy_server y) client pkt (sy_next y) = (s', Serve id key fn opts) →
     sy_running y !! id = None ∧ ∀ id', sy_running y !! id' ≠ Some key) ∧
  (sy_running y = ∅ → px_active (sy_server y) = ∅).
Proof.
  intros Hr. assert (sys_inv y) as [Hi Hn].
  { assert (sys_inv (sys_init cfg)) as H0.
    { split; cbn; [intros id key; by rewrite !lookup_empty|]. by intros id [? ?]. }
    revert H0. induction Hr as [|x y z Hs _ IH]; [done|]. intros H. apply IH.
    by eapply sys_step_inv. }
  split_and!.
  - intros id1 id2 key H1 H2. apply Hi in H1, H2. congruence.
  - intros client pkt id s' Hs. apply reader_step_cases in Hs as [_ [key Hk]].
    exists key. by apply Hi.
  - intros client pkt id key fn opts s' Hs. apply reader_step_cases in Hs as (-> & Hk & _).
    split.
    + destruct (sy_running y !! sy_next y) eqn:E; [|done].
      specialize (Hn _ ltac:(by eexists)). lia.
    + intros id' E. apply Hi in E. congruence.
  - intros He. apply map_empty. intros key. destruct (px_active (sy_server y) !! key) eqn:E; [|done].
    apply Hi in E. by rewrite He, lookup_empty in E.
Qed.


(** ** A concrete transfer *)

Definition demo_client : UDPAddr := {| udp_IP := [10; 0; 0; 7]; udp_Port := 2070; udp_Zone := "" |}.

(** Block 1 is acknowledged after a timeout, a packet of another host and a
    stale acknowledgement, block 2 at once. *)
Definition demo_reads : list recv :=
  [ReadTimeout; Packet {| udp_IP := [10; 0; 0; 8]; udp_Port := 2070; udp_Zone := "" |} (ack_packet 1);
   Packet demo_client (ack_packet 0); Packet demo_client (ack_packet 1);
   Packet demo_client (ack_packet 2)].

Definition demo_opts : gmap string string := {["blksize" := "4"]}.

Lemma demo_responsive :
  responsive demo_client 3 0 (Packet demo_client (ack_packet 0) :: demo_reads).
Proof.
  change (Packet demo_client (ack_packet 0) :: demo_reads)
    with ([] ++ Packet demo_client (ack_packet 0) ::
          (take 3 demo_reads ++ Packet demo_client (ack_packet 1) ::
           ([] ++ Packet demo_client (ack_packet 2) :: []))).
  apply responsive_block; [constructor|vm_compute; lia|reflexivity|reflexivity|].
  apply responsive_block; [repeat constructor; reflexivity|vm_compute; lia|reflexivity|reflexivity|].
  apply responsive_block; [constructor|vm_compute; lia|reflexivity|reflexivity|].
  constructor.
Qed.

Lemma transfer_live_witness :
  ∃ b t' out,
    serve_node (GI := int64_arch) 4096 (File [1; 2; 3; 4; 5; 6]) demo_opts (new_transfer demo_client)
      {| en_fails := []; en_reads := Packet demo_client (ack_packet 0) :: demo_reads |} =
      Ret (Completed b, t', out) ∧ rx_data (received 4 (writes out)) = [1; 2; 3; 4; 5; 6].
Proof.
  destruct (transfer_live (GI := int64_arch) 4096 [1; 2; 3; 4; 5; 6] demo_opts (new_transfer demo_client)
    (Packet demo_client (ack_packet 0) :: demo_reads) demo_responsive) as (b & t' & out & H1 & H2 & _).
  exists b, t', out. split; [exact H1|exact H2].
Defined.

(** The acknowledgement is late, so the block is sent again; the client gets both
    copies, the second one first, and the server only one acknowledgement. *)
Lemma transfer_safe_witness :
  ∃ res t' tr n,
    serve_node (GI := int64_arch) 4096 (File [7; 8]) ∅ (new_transfer demo_client)
      {| en_fails := []; en_reads := [ReadTimeout; Packet demo_client (ack_packet 1)] |} = Ret (res, t', tr) ∧
    network 512 demo_client net_start tr n ∧ length (writes tr) = 2%nat ∧ length (nt_acks n) = 2%nat ∧
    rx_data (nt_client n) = [7; 8].
Proof.
  destruct (transfer_safe (GI := int64_arch) 4096 [7; 8] ∅ (new_transfer demo_client)
    {| en_fails := []; en_reads := [ReadTimeout; Packet demo_client (ack_packet 1)] |})
    as (res & t' & tr & E & H).
  assert (tr = [Wrote (data_packet 1 [7; 8]); Got ReadTimeout; Wrote (data_packet 1 [7; 8]);
                Got (Packet demo_client (ack_packet 1))] ∧ res = Completed 1) as [Etr Eres].
  { vm_compute in E. injection E as <- _ <-. split; reflexivity. }
  pose (pkt := data_packet 1 [7; 8]). pose (sent := transmit (transmit net_start pkt) pkt).
  pose (n := deliver 512 (deliver 512 sent pkt) pkt).
  assert (network 512 demo_client net_start tr n) as Hn.
  { rewrite Etr. apply network_write, network_other; [exact I|]. apply network_write.
    apply network_deliver with pkt; [apply list_elem_of_lookup; exists 0%nat; reflexivity|].
    apply network_deliver with pkt; [apply list_elem_of_lookup; exists 1%nat; reflexivity|].
    apply network_ack with 2%nat; [left|pose proof lifetime_Z; cbn -[lifetime]; lia|constructor]. }
  exists res, t', tr, n. split; [exact E|]. split; [exact Hn|]. split; [rewrite Etr; reflexivity|].
  split; [reflexivity|]. destruct (H n Hn) as (_ & _ & Hc). apply (Hc 1). exact Eres.
Defined.

Lemma sendBlock_correct_witness :
  ∃ out e', sendBlock demo_client (data_packet 1 [1; 2]) 1 {| en_fails := []; en_reads := demo_reads |} =
    (Sent, out, e') ∧ ∃ n, writes out = replicate n (data_packet 1 [1; 2]) ∧ (1 ≤ n ≤ 12)%nat.
Proof.
  destruct (sendBlock demo_client (data_packet 1 [1; 2]) 1
    {| en_fails := []; en_reads := demo_reads |}) as [[r out] e'] eqn:E.
  assert (r = Sent) as -> by (vm_compute in E; congruence).
  exists out, e'. split; [reflexivity|].
  destruct (sendBlock_correct _ _ _ _ _ _ _ E) as (n & used & Ho & Hn & _ & Hs).
  exists n. destruct (Hs eq_refl). split; [exact Ho|]. split; assumption.
Defined.

Lemma options_negotiated_witness :
  ∃ body, buildOACK demo_opts (negotiate (GI := int64_arch) demo_opts) 6 = [0; tftpOACK] ++ body ∧
    parse_pairs 2 body = [("blksize", "4")].
Proof.
  destruct (options_negotiated (GI := int64_arch) demo_opts 6) as (_ & _ & _ & H); [lia|].
  apply H. vm_compute. discriminate.
Defined.

Definition demo_packet : list Z := encode_RRQ "pi.img" "octet" [].

Lemma one_transfer_per_key_witness :
  ∃ y, rtc (sys_step (U := ascii_unicode)) (sys_init (sv_PXE (cf_Services demo_config))) y ∧
    size (sy_running y) = 1%nat ∧
    ∀ id1 id2 key, sy_running y !! id1 = Some key → sy_running y !! id2 = Some key → id1 = id2.
Proof.
  set (s0 := Pxe.New (sv_PXE (cf_Services demo_config))).
  destruct (reader_step (U := ascii_unicode) s0 demo_client demo_packet 0) as [s1 a] eqn:E.
  destruct a as [|id|id key fn opts]; [vm_compute in E; discriminate..|].
  exists {| sy_server := s1; sy_running := <[id := key]> ∅; sy_next := 1 |}.
  assert (rtc (sys_step (U := ascii_unicode)) (sys_init (sv_PXE (cf_Services demo_config)))
    {| sy_server := s1; sy_running := <[id := key]> ∅; sy_next := 1 |}) as Hr.
  { apply rtc_once. apply (sys_read s0 ∅ 0 demo_client demo_packet s1 (Serve id key fn opts) E). }
  split; [exact Hr|]. split; [cbn [sy_running]; by rewrite map_size_insert_None|].
  apply (one_transfer_per_key (U := ascii_unicode) _ _ Hr).
Defined.

(** The root is inode 1 and holds the file pi.img, inode 2. *)
Definition demo_fs : fs :=
  {[1%nat := Dir {["pi.img" := 2%nat]}; 2%nat := File [1; 2; 3; 4; 5; 6]]}.

Definition demo_world : world := {|
  wo_eval_root := λ _, Some "/srv/tftp"; wo_eval_full := λ p, Some p;
  wo_open_root := λ _, Ok 1%nat; wo_fs := λ _, demo_fs;
  wo_node := λ i, default (File []) (demo_fs !! i); wo_stat_ok := true; wo_other_size := 4096;
  wo_listen_ok := true |}.

