(* ===== verification/Saving.v ===== *)
(** * Saving the runtime configuration and the mapping file

    [Encode] and [Save] of pkg/config and pkg/macmap.  The TOML encoder and
    os.WriteFile are parameters; a failing write may leave anything in the file
    that it truncates, but no other file changes. *)

From S2P Require Import Prelude GoStrings GoNet GoOs Config.
From S2P Require Macmap.
Open Scope Z_scope.

Abbreviation files := (gmap string string).

Inductive save_error := ErrMarshal | ErrWriteFile (path : string).

(** os.WriteFile (path, data, permissions): the files afterwards and whether it
    worked. *)
Record write_laws (os_write : string → string → Z → files → files * bool) : Prop := {
  wl_ok : ∀ path data perm fs fs', os_write path data perm fs = (fs', true) → fs' = <[path := data]> fs;
  wl_frame : ∀ path data perm fs fs' p,
    os_write path data perm fs = (fs', false) → p ≠ path → fs' !! p = fs !! p
}.

Section save.
Context (os_write : string → string → Z → files → files * bool).

Definition WriteFile (path data : string) (perm : Z) : io files save_error unit := λ fs,
  let '(fs, ok) := os_write path data perm fs in
  (fs, if ok then Ok () else Err (ErrWriteFile path)).

(** The permissions 0644. *)
Definition file_mode : Z := 420.

Definition ExtrasConfig_Encode (marshal : ExtrasConfig → option string) (e : ExtrasConfig)
    : option string := marshal e.

Definition ExtrasConfig_Save (marshal : ExtrasConfig → option string) (path : string)
    (e : ExtrasConfig) : io files save_error unit :=
  match ExtrasConfig_Encode marshal e with
  | None => throw ErrMarshal
  | Some data => WriteFile path data file_mode
  end.

Definition MapFile_Encode (marshal : Macmap.MapFile → option string) (mf : Macmap.MapFile)
    : option string := marshal mf.

Definition MapFile_Save (marshal : Macmap.MapFile → option string) (path : string)
    (mf : Macmap.MapFile) : io files save_error unit :=
  match marshal mf with
  | None => throw ErrMarshal
  | Some data => WriteFile path data file_mode
  end.

Context (laws : write_laws os_write).

Lemma WriteFile_Ok path data fs fs' :
  WriteFile path data file_mode fs = (fs', Ok ()) → fs' = <[path := data]> fs.
Proof.
  unfold WriteFile. destruct (os_write _ _ _ _) as [fs1 []] eqn:E; [|done]. intros [= <-].
  by eapply wl_ok.
Qed.

Lemma WriteFile_frame path data fs p :
  p ≠ path → (WriteFile path data file_mode fs).1 !! p = fs !! p.
Proof.
  intros Hp. unfold WriteFile. destruct (os_write _ _ _ _) as [fs1 []] eqn:E; cbn.
  - rewrite (wl_ok _ laws _ _ _ _ _ E). by rewrite lookup_insert_ne.
  - by eapply wl_frame.
Qed.

(** Saving touches one file, and none when there is nothing to write. *)
Lemma Save_frame marshal path e fs p :
  p ≠ path ∨ marshal e = None → (ExtrasConfig_Save marshal path e fs).1 !! p = fs !! p.
Proof.
  unfold ExtrasConfig_Save, ExtrasConfig_Encode. destruct (marshal e) as [data|] eqn:E; [|done].
  intros [Hp|?]; [by apply WriteFile_frame|done].
Qed.

(** A mapping file that was loaded and saved loads again as the same file,
    whatever the normalization changed in the first one. *)
Lemma MapFile_Save_Load `{GoUnicode} marshal unmarshal mf path path' fs fs' :
  (∀ mf data, marshal mf = Some data → unmarshal data = Some mf) →
  Macmap.Load unmarshal (λ p, fs !! p) path = Ok mf →
  MapFile_Save marshal path' mf fs = (fs', Ok ()) →
  Macmap.Load unmarshal (λ p, fs' !! p) path' = Ok mf.
Proof.
  intros Hm Hl Hs. unfold Macmap.Load in *. destruct (fs !! path) as [d|]; [|done].
  apply Macmap.Parse_parsed in Hl as (raw & _ & Hp).
  unfold MapFile_Save in Hs. destruct (marshal mf) as [data|] eqn:E; [|done].
  apply WriteFile_Ok in Hs as ->. rewrite lookup_insert_eq.
  apply Macmap.Parse_parsed. exists mf. split; [by apply Hm|].
  apply Macmap.normal_parsed; [by eapply Macmap.parsed_normal|apply Hp..].
Qed.

(** An extras file that was saved is the one that is loaded. *)
Lemma ExtrasConfig_Save_Load marshal unmarshal e path fs fs' :
  (∀ e data, marshal e = Some data → unmarshal data = Some e) →
  ExtrasConfig_Save marshal path e fs = (fs', Ok ()) →
  ∃ data, fs' = <[path := data]> fs ∧
    ∀ read_file, read_file path = Ok data → LoadExtras read_file unmarshal path = Ok e.
Proof.
  intros Hm Hs. unfold ExtrasConfig_Save, ExtrasConfig_Encode in Hs.
  destruct (marshal e) as [data|] eqn:E; [|done]. apply WriteFile_Ok in Hs as ->.
  exists data. split; [done|]. intros rd Hr. unfold LoadExtras. by rewrite Hr, (Hm e data E).
Qed.
End save.

(** ** The disk and the formats of the extras file *)

(** os.ReadFile and os.WriteFile, and the TOML library on the extras. *)
Record Disk := {
  dk_read : files → string → result file_error string;
  dk_write : string → string → Z → files → files * bool;
  dk_unmarshal : string → option ExtrasConfig;
  dk_marshal : ExtrasConfig → option string
}.

(** A file that is missing cannot be read, and reading it says so. *)
Record disk_laws (D : Disk) : Prop := {
  dl_write : write_laws (dk_write D);
  dl_missing : ∀ fs path, dk_read D fs path = Err NotExist ↔ fs !! path = None
}.

(** A disk on which every write works. *)
Definition demo_write (path data : string) (perm : Z) (fs : files) : files * bool :=
  (<[path := data]> fs, true).

Lemma demo_write_laws : write_laws demo_write.
Proof. split; [by intros ????? [= <-]|done]. Qed.

Definition demo_read (fs : files) (path : string) : result file_error string :=
  match fs !! path with Some data => Ok data | None => Err NotExist end.

(** A format in which every file is one and the same document. *)
Definition demo_disk (e : ExtrasConfig) : Disk := {|
  dk_read := demo_read; dk_write := demo_write;
  dk_unmarshal := λ _, Some e; dk_marshal := λ _, Some "" |}.

Lemma demo_disk_laws e : disk_laws (demo_disk e).
Proof.
  split; [apply demo_write_laws|]. intros fs path. cbn. unfold demo_read. by destruct (fs !! path).
Qed.
