(* ===== verification/Reload.v ===== *)
(** * cmd/gokrazy-router: extras, DHCP options and reloads

    How the daemon combines the JSON configuration with the extras file at
    start and at every reload: the immutable base snapshot, the check for
    changes that need a restart, the options given to the DHCP servers, the
    reload itself and the HTTP handler in front of it.  The live
    configuration, the base snapshot and the heap they share are explicit
    state; the DHCP and PXE servers are the components Dhcp and Pxe. *)

From Stdlib Require Import Ascii.
From S2P Require Import Prelude GoStrings GoStrconv GoNet GoOs Config Saving.
From S2P Require GoPath.
From S2P Require Dhcp Pxe.
Open Scope Z_scope.

(** ** State *)

(** A pointer to the DHCP section of a scope of the base configuration. *)
Inductive scope_ref := ScopeLAN | ScopeVLAN (i : nat) | ScopeWiFi.

Definition scope (h : heap) (c : Config) (r : scope_ref) : DHCPConfig :=
  match r with
  | ScopeLAN => lan_DHCP (cf_LAN c)
  | ScopeVLAN i => default zero_DHCP (v_DHCP <$> VLANs h c !! i)
  | ScopeWiFi => wi_DHCP (cf_WiFi c)
  end.

Record dhcpEntry := {
  de_srv : Dhcp.Server;
  de_tftpAddr : string;
  de_baseScope : scope_ref
}.

Record reloader := {
  r_cfg : Config;
  r_base : Config;
  r_extrasPath : string;
  r_dhcpEntries : list dhcpEntry;
  r_pxeSrv : option Pxe.Server;
  r_appliedSMBUsers : list SMBUser
}.

(** The errors of [Reload]; the two restart errors are the
    [restartRequiredError]s. *)
Inductive reload_error :=
  | ErrNoExtrasFile
  | RestartVLAN (id : Z) (old new : string)
  | RestartSMB.

Inductive extras_error := ErrLoad (e : config_error) | ErrCreate (e : save_error).

Section reload.
Context `{U : GoUnicode} `{MO : MapOrder}.

(** ** The base snapshot *)

(** [cloneStringMap] of package main: a nil map stays nil. *)
Definition cloneStringMap (h : heap) (m : option loc) : heap * option loc :=
  match m with
  | None => (h, None)
  | Some _ => let '(h, l) := alloc_map h (copy_entries ∅ (view h m)) in (h, Some l)
  end.

Fixpoint clone_vlans (h : heap) (vs : list VLANConfig) : heap * list VLANConfig :=
  match vs with
  | [] => (h, [])
  | v :: vs =>
      let '(h, m) := cloneStringMap h (d_Reservations (v_DHCP v)) in
      let '(h, vs) := clone_vlans h vs in
      (h, set_VLAN_DHCP v (set_Reservations (v_DHCP v) m) :: vs)
  end.

Definition set_MacImages (p : PXEConfig) (m : option loc) : PXEConfig := {|
  p_Enabled := p_Enabled p; p_Listen := p_Listen p; p_BindInterface := p_BindInterface p;
  p_TFTPRoot := p_TFTPRoot p; p_DefaultImage := p_DefaultImage p; p_MacImages := m;
  p_BootFile := p_BootFile p; p_LegacyBootFile := p_LegacyBootFile p;
  p_UEFIBootFile := p_UEFIBootFile p; p_IPXEScript := p_IPXEScript p |}.

Definition cloneConfig (h : heap) (c : Config) : heap * Config :=
  let '(h, lan) := cloneStringMap h (d_Reservations (lan_DHCP (cf_LAN c))) in
  let '(h, wifi) := cloneStringMap h (d_Reservations (wi_DHCP (cf_WiFi c))) in
  let '(h, vs) := clone_vlans h (VLANs h c) in
  let '(h, vlans) := alloc_array h vs in
  let '(h, images) := cloneStringMap h (p_MacImages (sv_PXE (cf_Services c))) in
  let c := set_LAN c (set_LAN_DHCP (cf_LAN c) (set_Reservations (lan_DHCP (cf_LAN c)) lan)) in
  let c := set_WiFi c (set_WiFi_DHCP (cf_WiFi c) (set_Reservations (wi_DHCP (cf_WiFi c)) wifi)) in
  let c := set_VLANs c vlans in
  (h, set_Services c (set_PXE (cf_Services c) (set_MacImages (sv_PXE (cf_Services c)) images))).

Definition set_SharePath (s : SMBConfig) (p : string) : SMBConfig := {|
  sm_Enabled := sm_Enabled s; sm_BinPath := sm_BinPath s; sm_Listen := sm_Listen s;
  sm_ShareName := sm_ShareName s; sm_SharePath := p; sm_User := sm_User s;
  sm_Password := sm_Password s; sm_UsePortableServer := sm_UsePortableServer s |}.

Definition set_TFTPRoot (p : PXEConfig) (d : string) : PXEConfig := {|
  p_Enabled := p_Enabled p; p_Listen := p_Listen p; p_BindInterface := p_BindInterface p;
  p_TFTPRoot := d; p_DefaultImage := p_DefaultImage p; p_MacImages := p_MacImages p;
  p_BootFile := p_BootFile p; p_LegacyBootFile := p_LegacyBootFile p;
  p_UEFIBootFile := p_UEFIBootFile p; p_IPXEScript := p_IPXEScript p |}.

(** The service paths that default to the mounted disk. *)
Definition derive_paths (c : Config) : Config :=
  let s := cf_Services c in
  let target := mo_Target (sv_Mount s) in
  let smb := if sm_Enabled (sv_SMB s) && String.eqb (sm_SharePath (sv_SMB s)) ""
             then set_SharePath (sv_SMB s) target else sv_SMB s in
  let pxe := if p_Enabled (sv_PXE s) && String.eqb (p_TFTPRoot (sv_PXE s)) ""
             then set_TFTPRoot (sv_PXE s) (GoPath.Join target "tftpboot") else sv_PXE s in
  set_Services c {| sv_Mount := sv_Mount s; sv_SMB := smb; sv_PXE := pxe;
                    sv_ExtrasFile := sv_ExtrasFile s; sv_AdminAPI := sv_AdminAPI s |}.

(** From the configuration to the snapshot, the extras found at start and the
    service paths; the last component is the extras. *)
Definition start_config (h : heap) (c : Config) (loaded : result extras_error ExtrasConfig)
    : heap * Config * Config * option ExtrasConfig :=
  let '(h, base) := cloneConfig h c in
  let extras := if String.eqb (sv_ExtrasFile (cf_Services c)) "" then None
                else match loaded with Ok extras => Some extras | Err _ => None end in
  let '(h, c) := ApplyExtras h c extras in
  (h, derive_paths c, base, extras).

(** ** The extras file *)

(** [loadOrCreateExtras]: a missing file is created from the configuration. *)
Definition loadOrCreateExtras (D : Disk) (fs : files) (h : heap) (path : string) (cfg : Config)
    : files * result extras_error ExtrasConfig :=
  match LoadExtras (dk_read D fs) (dk_unmarshal D) path with
  | Ok extras => (fs, Ok extras)
  | Err (ErrOpen NotExist) =>
      let extras := ExtrasFromConfig h cfg in
      match ExtrasConfig_Save (dk_write D) (dk_marshal D) path extras fs with
      | (fs, Ok _) => (fs, Ok extras)
      | (fs, Err e) => (fs, Err (ErrCreate e))
      end
  | Err e => (fs, Err (ErrLoad e))
  end.

Definition extrasSMBUsers (extras : option ExtrasConfig) : list SMBUser :=
  match extras with None => [] | Some e => e_SMBUsers e end.

Definition smbUsersKey (users : list SMBUser) : string :=
  join nul (sort_strings (map (λ u, u_Name u +:+ ":" +:+ u_Password u) users)).

Definition equalSMBUsers (a b : list SMBUser) : bool :=
  String.eqb (smbUsersKey a) (smbUsersKey b).

(** The first VLAN with an id. *)
Fixpoint find_vlan (id : Z) (vs : list VLANConfig) : option VLANConfig :=
  match vs with
  | [] => None
  | v :: vs => if v_ID v =? id then Some v else find_vlan id vs
  end.

(** The loop over the address overrides: the first change found. *)
Fixpoint changed_address (vs : list VLANConfig) (es : list (Z * string)) : option reload_error :=
  match es with
  | [] => None
  | (id, addr) :: es =>
      match find_vlan id vs with
      | Some v => if negb (String.eqb addr (v_Address v))
                  then Some (RestartVLAN (v_ID v) (v_Address v) addr)
                  else changed_address vs es
      | None => changed_address vs es
      end
  end.

Definition checkRestartRequired (h : heap) (r : reloader) (extras : ExtrasConfig)
    : option reload_error :=
  match changed_address (VLANs h (r_cfg r)) (map_range (default ∅ (e_VLANAddresses extras))) with
  | Some e => Some e
  | None =>
      if negb (equalSMBUsers (r_appliedSMBUsers r) (e_SMBUsers extras)) then Some RestartSMB
      else None
  end.

Definition mergedReservations (base extras : gmap string string) : gmap string string :=
  copy_entries (copy_entries ∅ base) extras.

(** ** DHCP options *)

Definition or_else (s d : string) : string := if String.eqb s "" then d else s.

Definition applyPXEBootOptions (srv : Dhcp.Server) (pxeEnabled : bool) (tftpServer : string)
    (macImages : gmap string string) (pxeCfg : PXEConfig) : Dhcp.Server :=
  if negb pxeEnabled then srv
  else
    let bootFile := p_BootFile pxeCfg in
    let bootFile := if String.eqb bootFile "" && negb (String.eqb (p_DefaultImage pxeCfg) "")
                    then p_DefaultImage pxeCfg else bootFile in
    let bootFile := or_else bootFile "netboot.xyz.efi" in
    let legacy := or_else (p_LegacyBootFile pxeCfg) bootFile in
    let uefi := or_else (p_UEFIBootFile pxeCfg) "netboot.xyz.efi" in
    let ipxe := or_else (p_IPXEScript pxeCfg) "boot.ipxe" in
    let srv := if negb (String.eqb tftpServer "") || negb (String.eqb bootFile "")
               then Dhcp.SetPXEOptions srv tftpServer bootFile else srv in
    let srv := Dhcp.SetLegacyBootFile srv legacy in
    let srv := Dhcp.SetUEFIBootFile srv uefi in
    let srv := Dhcp.SetIPXEBootFile srv ipxe in
    Dhcp.SetMacPXEBootFiles srv macImages.

Definition set_BootFile (p : PXEConfig) (f : string) : PXEConfig := {|
  p_Enabled := p_Enabled p; p_Listen := p_Listen p; p_BindInterface := p_BindInterface p;
  p_TFTPRoot := p_TFTPRoot p; p_DefaultImage := p_DefaultImage p; p_MacImages := p_MacImages p;
  p_BootFile := f; p_LegacyBootFile := p_LegacyBootFile p;
  p_UEFIBootFile := p_UEFIBootFile p; p_IPXEScript := p_IPXEScript p |}.

Definition applyDHCPOptions (h : heap) (srv : Dhcp.Server) (dhcpcfg : DHCPConfig)
    (pxeEnabled : bool) (tftpServer : string) (macImages : gmap string string)
    (pxeCfg : PXEConfig) : Dhcp.Server :=
  let res := view h (d_Reservations dhcpcfg) in
  let srv := if (0 <? size res)%nat then Dhcp.SetReservations srv res else srv in
  if negb pxeEnabled then srv
  else
    let bootServer := if negb (String.eqb (d_PXEBootServer dhcpcfg) "")
                      then d_PXEBootServer dhcpcfg else tftpServer in
    let scopePXE := if negb (String.eqb (d_PXEBootFile dhcpcfg) "")
                    then set_BootFile pxeCfg (d_PXEBootFile dhcpcfg) else pxeCfg in
    applyPXEBootOptions srv true bootServer macImages scopePXE.

Definition ifaceIPFromCIDR (cidr : string) : string :=
  match ParseCIDR cidr with
  | None => ""
  | Some (ip, _) => match To4 ip with [] => "" | ip4 => IP_String ip4 end
  end.

(** ** Reload *)

Definition empty_extras : ExtrasConfig := {|
  e_Reservations := None; e_MacImages := None; e_DefaultImage := ""; e_PXEBootFile := "";
  e_LegacyBootFile := ""; e_UEFIBootFile := ""; e_IPXEScript := ""; e_SMBUsers := [];
  e_VLANAddresses := None; e_DNS := [] |}.

(** One DHCP server in the loop of [Reload]; [h] and [cfg] are those after
    [ApplyExtras]. *)
Definition reload_entry (h : heap) (cfg base : Config) (extras : ExtrasConfig) (e : dhcpEntry)
    : dhcpEntry :=
  let res := mergedReservations (view h (d_Reservations (scope h base (de_baseScope e))))
               (default ∅ (e_Reservations extras)) in
  let srv := Dhcp.SetReservations (de_srv e) res in
  let pxe := sv_PXE (cf_Services cfg) in
  let bs := if p_Enabled pxe then de_tftpAddr e else "" in
  {| de_srv := applyPXEBootOptions srv (p_Enabled pxe) bs (view h (p_MacImages pxe)) pxe;
     de_tftpAddr := de_tftpAddr e; de_baseScope := de_baseScope e |}.

(** The body of [Reload], with the result of [loadOrCreateExtras]. *)
Definition reload_with (h : heap) (r : reloader) (loaded : result extras_error ExtrasConfig)
    : heap * reloader * option reload_error :=
  let extras := match loaded with Ok e => e | Err _ => empty_extras end in
  match checkRestartRequired h r extras with
  | Some err => (h, r, Some err)
  | None =>
      let '(h, cfg) := ApplyExtras h (r_cfg r) (Some extras) in
      let entries := map (reload_entry h cfg (r_base r) extras) (r_dhcpEntries r) in
      let pxe := option_map (λ s, Pxe.SetDefaultImage
                   (Pxe.SetMacImages s (default ∅ (e_MacImages extras))) (e_DefaultImage extras))
                   (r_pxeSrv r) in
      (h, {| r_cfg := cfg; r_base := r_base r; r_extrasPath := r_extrasPath r;
             r_dhcpEntries := entries; r_pxeSrv := pxe;
             r_appliedSMBUsers := r_appliedSMBUsers r |}, None)
  end.

Definition Reload (D : Disk) (fs : files) (h : heap) (r : reloader)
    : files * heap * reloader * option reload_error :=
  if String.eqb (r_extrasPath r) "" then (fs, h, r, Some ErrNoExtrasFile)
  else
    let '(fs, loaded) := loadOrCreateExtras D fs h (r_extrasPath r) (r_cfg r) in
    let '(h, r, err) := reload_with h r loaded in
    (fs, h, r, err).

(** ** The HTTP handler of /api/reload *)

(** [None] lets the request through to [Reload]; a status code refuses it. *)
Definition authorize (api : AdminAPIConfig) (method authorization : string) : option Z :=
  if negb (String.eqb method "POST") then Some 405
  else if a_AllowUnauthenticatedReload api then None
  else if String.eqb (a_Token api) "" then Some 401
  else if negb (String.eqb authorization ("Bearer " +:+ a_Token api)) then Some 401
  else None.

Definition reload_handler (D : Disk) (fs : files) (h : heap) (r : reloader)
    (method authorization : string) : files * heap * reloader * Z :=
  match authorize (sv_AdminAPI (cf_Services (r_cfg r))) method authorization with
  | Some code => (fs, h, r, code)
  | None =>
      let '(fs, h, r, err) := Reload D fs h r in
      (fs, h, r, match err with
                 | None => 200
                 | Some (RestartVLAN _ _ _) | Some RestartSMB => 409
                 | Some ErrNoExtrasFile => 500
                 end)
  end.

(** ** Start-up defaults *)

(** A DHCP scope without DNS servers gets the global ones. *)
Definition default_dns (dns : list string) (d : DHCPConfig) : DHCPConfig :=
  match d_DNS d with [] => set_DNS d dns | _ => d end.

Definition apply_dns_default (h : heap) (c : Config) : heap * Config :=
  match cf_DNS c with
  | [] => (h, c)
  | dns => map_scopes (default_dns dns) (h, c)
  end.
End reload.

(** ** The running daemon *)

Definition set_server (e : dhcpEntry) (s : Dhcp.Server) : dhcpEntry :=
  {| de_srv := s; de_tftpAddr := de_tftpAddr e; de_baseScope := de_baseScope e |}.

Definition set_entries (r : reloader) (es : list dhcpEntry) : reloader :=
  {| r_cfg := r_cfg r; r_base := r_base r; r_extrasPath := r_extrasPath r; r_dhcpEntries := es;
     r_pxeSrv := r_pxeSrv r; r_appliedSMBUsers := r_appliedSMBUsers r |}.

(** The daemon: its heap, the reloader and, for every DHCP server, the latest
    reading of the clock. *)
Record world := { w_heap : heap; w_reloader : reloader; w_clocks : list Z }.

(** What happens while the daemon runs: requests to /api/reload, each with the
    file system it meets and any iteration order of maps, and events of the
    DHCP servers.  The disk is shared with whoever edits the extras file. *)
Inductive router_step `{U : GoUnicode} : world → world → Prop :=
  | step_request (MO : MapOrder) D fs h r ts method authorization fs' h' r' code :
      reload_handler D fs h r method authorization = (fs', h', r', code) →
      router_step {| w_heap := h; w_reloader := r; w_clocks := ts |}
                  {| w_heap := h'; w_reloader := r'; w_clocks := ts |}
  | step_dhcp h r ts i e t s' t' :
      r_dhcpEntries r !! i = Some e → ts !! i = Some t → Dhcp.step (de_srv e, t) (s', t') →
      router_step {| w_heap := h; w_reloader := r; w_clocks := ts |}
                  {| w_heap := h;
                     w_reloader := set_entries r (<[i := set_server e s']> (r_dhcpEntries r));
                     w_clocks := <[i := t']> ts |}.

(** ** Allocation only extends the heap *)

Record extends (h h' : heap) : Prop := {
  ex_maps : ∀ l, (l < h_next h)%nat → h_maps h' !! l = h_maps h !! l;
  ex_arrays : ∀ l, (l < h_next h)%nat → h_arrays h' !! l = h_arrays h !! l;
  ex_next : (h_next h ≤ h_next h')%nat
}.

Definition bounded (h : heap) (m : option loc) : Prop :=
  match m with Some l => (l < h_next h)%nat | None => True end.

(** Distinct maps allocated between two heaps. *)
Definition fresh_between (h h' : heap) (ms : list (option loc)) : Prop :=
  NoDup (omap id ms) ∧ Forall (λ l, (h_next h ≤ l < h_next h')%nat) (omap id ms).

Lemma extends_refl h : extends h h.
Proof. by split. Qed.

Lemma extends_trans h1 h2 h3 : extends h1 h2 → extends h2 h3 → extends h1 h3.
Proof.
  intros [M1 A1 N1] [M2 A2 N2]. split; [| |lia]; intros l Hl.
  - rewrite M2, M1; [done|lia|lia].
  - rewrite A2, A1; [done|lia|lia].
Qed.

Lemma extends_view h h' m : extends h h' → bounded h m → view h' m = view h m.
Proof. intros [M _ _] Hb. destruct m as [l|]; [|done]. cbn. by rewrite M. Qed.

Lemma bounded_mono h h' m : (h_next h ≤ h_next h')%nat → bounded h m → bounded h' m.
Proof. destruct m; cbn; [lia|done]. Qed.

Lemma sep_bounded h ms m : sep h ms → m ∈ ms → bounded h m.
Proof.
  intros [_ Hb] Hm. destruct m as [l|]; [|done]. rewrite Forall_forall in Hb.
  by apply Hb, elem_of_omap_id.
Qed.

Lemma fresh_nil h : fresh_between h h [].
Proof. by split; constructor. Qed.

Lemma fresh_app h1 h2 h3 ms ks :
  (h_next h1 ≤ h_next h2)%nat → (h_next h2 ≤ h_next h3)%nat →
  fresh_between h1 h2 ms → fresh_between h2 h3 ks → fresh_between h1 h3 (ms ++ ks).
Proof.
  intros Hle1 Hle2 [D1 B1] [D2 B2]. unfold fresh_between. rewrite omap_app.
  rewrite Forall_forall in B1, B2. split.
  - apply NoDup_app. split_and!; [done| |done]. intros l H1%B1 H2%B2. lia.
  - apply Forall_app; split; apply Forall_forall; [intros l H%B1|intros l H%B2]; lia.
Qed.

#[export] Instance fresh_Permutation h h' : Proper ((≡ₚ) ==> iff) (fresh_between h h').
Proof. intros l k E. unfold fresh_between. by rewrite E. Qed.

Lemma sep_fresh h h' ms ks :
  (h_next h ≤ h_next h')%nat → sep h ms → fresh_between h h' ks → sep h' (ms ++ ks).
Proof.
  intros Hle [D1 B1] [D2 B2]. unfold sep. rewrite omap_app. rewrite Forall_forall in B1, B2. split.
  - apply NoDup_app. split_and!; [done| |done]. intros l H1%B1 H2%B2. lia.
  - apply Forall_app; split; apply Forall_forall; [intros l H%B1|intros l H%B2]; lia.
Qed.

(** ** The snapshot *)

Section snapshot.
Context `{U : GoUnicode} `{MO : MapOrder}.

(** All maps of a configuration. *)
Definition config_maps (h : heap) (c : Config) : list (option loc) :=
  wifi_map c :: images_map c :: scope_maps h c.

(** [m'] in [h'] is a copy of [m] in [h]. *)
Definition copied (h h' : heap) (m m' : option loc) : Prop :=
  view h' m' = view h m ∧ bounded h' m' ∧ extends h h'.

Lemma copied_later h h' h'' m m' : copied h h' m m' → extends h' h'' → copied h h'' m m'.
Proof.
  intros (V & B & E) E'. split_and!; [|by eapply bounded_mono; [apply E'|]|by eapply extends_trans].
  by rewrite (extends_view h' h'').
Qed.

Lemma copied_earlier h h1 h' m m' :
  bounded h m → extends h h1 → copied h1 h' m m' → copied h h' m m'.
Proof.
  intros Hb E (V & B & E'). split_and!; [|done|by eapply extends_trans].
  by rewrite V, (extends_view h h1).
Qed.

Lemma cloneStringMap_spec h m :
  let '(h', m') := cloneStringMap h m in copied h h' m m' ∧ fresh_between h h' [m'].
Proof.
  destruct m as [l|]; cbn.
  - split; [split_and!|split].
    + cbn. rewrite lookup_insert_eq. cbn. rewrite copy_entries_union.
      apply (right_id_L ∅ (∪)).
    + cbn. lia.
    + split; [| |cbn; lia]; intros k Hk; cbn; [|done]. rewrite lookup_insert_ne; [done|lia].
    + apply NoDup_singleton.
    + constructor; [cbn; lia|constructor].
  - split; [split_and!; [done|done|apply extends_refl]|split; constructor].
Qed.

Definition copied_vlan (h h' : heap) (v v' : VLANConfig) : Prop :=
  v' = set_VLAN_DHCP v (set_Reservations (v_DHCP v) (vres v')) ∧ copied h h' (vres v) (vres v').

Lemma clone_vlans_spec vs h :
  Forall (bounded h) (map vres vs) →
  let '(h', vs') := clone_vlans h vs in
  extends h h' ∧ Forall2 (copied_vlan h h') vs vs' ∧ fresh_between h h' (map vres vs').
Proof.
  induction vs as [|v vs IH] in h |- *; cbn [clone_vlans map]; intros Hb.
  { split_and!; [apply extends_refl|constructor|apply fresh_nil]. }
  apply Forall_cons in Hb as [Hb1 Hb2]. pose proof (cloneStringMap_spec h (vres v)) as H1.
  unfold vres in H1 at 1. destruct (cloneStringMap h (d_Reservations (v_DHCP v))) as [h1 m].
  destruct H1 as [Hc F1]. pose proof Hc as (_ & _ & E1).
  specialize (IH h1). destruct (clone_vlans h1 vs) as [h2 vs'].
  destruct IH as (E2 & A2 & F2).
  { eapply Forall_impl; [exact Hb2|]. intros k. apply bounded_mono, E1. }
  split_and!; [by eapply extends_trans| |].
  - constructor; [split; [done|by eapply copied_later]|].
    eapply Forall2_impl_in; [exact A2|]. intros u u' Hu _ [Hu1 Hu2]. split; [done|].
    eapply copied_earlier; [|exact E1|exact Hu2]. rewrite Forall_forall in Hb2.
    apply Hb2, list_elem_of_fmap_2, Hu.
  - cbn [map]. change (?a :: ?b) with ([a] ++ b).
    eapply fresh_app; [apply E1|apply E2|exact F1|exact F2].
Qed.

(** A configuration and its copy hold the same data at different places. *)
Record cloned (h : heap) (c : Config) (h' : heap) (b : Config) : Prop := {
  cl_lan : cf_LAN b = set_LAN_DHCP (cf_LAN c) (set_Reservations (lan_DHCP (cf_LAN c)) (lan_map b));
  cl_lan_map : copied h h' (lan_map c) (lan_map b);
  cl_wifi : cf_WiFi b =
              set_WiFi_DHCP (cf_WiFi c) (set_Reservations (wi_DHCP (cf_WiFi c)) (wifi_map b));
  cl_wifi_map : copied h h' (wifi_map c) (wifi_map b);
  cl_vlans : Forall2 (copied_vlan h h') (VLANs h c) (VLANs h' b);
  cl_images : copied h h' (images_map c) (images_map b);
  cl_services : cf_Services b = set_PXE (cf_Services c)
                  (set_MacImages (sv_PXE (cf_Services c)) (images_map b));
  cl_rest : cf_WAN b = cf_WAN c ∧ cf_NAT b = cf_NAT c ∧ cf_DNS b = cf_DNS c
}.

Lemma alloc_array_extends h a :
  let '(h', l) := alloc_array h a in extends h h' ∧ array h' l = a ∧ (h_next h = l)%nat ∧ (l < h_next h')%nat.
Proof.
  cbn. split_and!; [|by unfold array; cbn; rewrite lookup_insert_eq|done|cbn; lia].
  split; [done| |cbn; lia]. intros k Hk. cbn. rewrite lookup_insert_ne; [done|lia].
Qed.

(** The maps of a clone are made one after another, so they are fresh and apart. *)
Lemma fresh_clone h h1 h2 h3 h4 h5 lan wifi vs images :
  extends h h1 → extends h1 h2 → extends h2 h3 → extends h3 h4 → extends h4 h5 →
  fresh_between h h1 [lan] → fresh_between h1 h2 [wifi] → fresh_between h2 h3 (map vres vs) →
  fresh_between h4 h5 [images] →
  fresh_between h h5 (wifi :: images :: lan :: map vres vs).
Proof.
  intros E1 E2 E3 E4 E5 F1 F2 F3 F5.
  assert (fresh_between h h5 ([lan] ++ [wifi] ++ map vres vs ++ [images])) as F.
  { pose proof (ex_next _ _ E1). pose proof (ex_next _ _ E2). pose proof (ex_next _ _ E3).
    pose proof (ex_next _ _ E4). pose proof (ex_next _ _ E5).
    eapply (fresh_app h h1); [lia|lia|done|]. eapply (fresh_app h1 h2); [lia|lia|done|].
    eapply (fresh_app h2 h3); [lia|lia|done|]. eapply (fresh_app h3 h4 h5 []); [lia|lia| |done].
    split; constructor. }
  revert F. apply fresh_Permutation. cbn. solve_Permutation.
Qed.

(** What a clone of a map is when earlier and later clones are made, too. *)
Lemma copied_between h h1 h2 h3 m m' :
  bounded h m → extends h h1 → extends h2 h3 → copied h1 h2 m m' → copied h h3 m m'.
Proof. intros Hb E1 E2 C. eapply copied_earlier; [done|exact E1|]. by eapply copied_later. Qed.

Lemma cloneConfig_spec h c :
  sep h (config_maps h c) → (cf_VLANs c < h_next h)%nat →
  let '(h', b) := cloneConfig h c in
  sep h' (config_maps h' c ++ config_maps h' b) ∧ cf_VLANs b ≠ cf_VLANs c ∧
  extends h h' ∧ cloned h c h' b.
Proof.
  intros Hs Ha. unfold cloneConfig.
  assert (∀ m, m ∈ config_maps h c → bounded h m) as Hb by (intros m; by apply sep_bounded).
  pose proof (cloneStringMap_spec h (lan_map c)) as H1. unfold lan_map in H1 at 1.
  destruct (cloneStringMap h _) as [h1 lan]. destruct H1 as [C1 F1]. pose proof C1 as (_ & _ & E1).
  pose proof (cloneStringMap_spec h1 (wifi_map c)) as H2. unfold wifi_map in H2 at 1.
  destruct (cloneStringMap h1 _) as [h2 wifi]. destruct H2 as [C2 F2]. pose proof C2 as (_ & _ & E2).
  pose proof (extends_trans _ _ _ E1 E2) as E12.
  assert (VLANs h2 c = VLANs h c) as EV2.
  { unfold VLANs, array. by rewrite (ex_arrays _ _ E12). }
  pose proof (clone_vlans_spec (VLANs h2 c) h2) as H3.
  destruct (clone_vlans h2 (VLANs h2 c)) as [h3 vs]. destruct H3 as (E3 & A3 & F3).
  { rewrite EV2. apply Forall_forall. intros m Hm. eapply bounded_mono; [apply E12|].
    apply Hb. unfold config_maps, scope_maps. set_solver. }
  pose proof (alloc_array_extends h3 vs) as H4.
  destruct (alloc_array h3 vs) as [h4 vlans]. destruct H4 as (E4 & A4 & N4 & L4).
  pose proof (cloneStringMap_spec h4 (images_map c)) as H5. unfold images_map in H5 at 1.
  destruct (cloneStringMap h4 _) as [h5 images]. destruct H5 as [C5 F5]. pose proof C5 as (_ & _ & E5).
  pose proof (extends_trans _ _ _ (extends_trans _ _ _ E12 E3) (extends_trans _ _ _ E4 E5)) as E.
  set (b := set_Services _ _).
  assert (VLANs h5 b = vs) as EVb.
  { unfold VLANs, array. cbn [b cf_VLANs set_Services set_VLANs].
    rewrite (ex_arrays _ _ E5) by done. exact A4. }
  assert (VLANs h5 c = VLANs h c) as EVc.
  { unfold VLANs, array. by rewrite (ex_arrays _ _ E). }
  pose proof (extends_trans _ _ _ E4 E5) as E45. pose proof (extends_trans _ _ _ E3 E45) as E35.
  split_and!; [| |done|].
  - unfold config_maps at 1. unfold scope_maps at 1. rewrite EVc. fold (config_maps h c).
    eapply (sep_fresh h); [apply E|done|]. unfold config_maps, scope_maps. rewrite EVb.
    by eapply (fresh_clone h h1 h2 h3 h4 h5).
  - pose proof (ex_next _ _ E12). pose proof (ex_next _ _ E3). cbn. lia.
  - split; try done.
    + eapply (copied_between h h); [apply Hb; unfold config_maps, scope_maps; set_solver|apply extends_refl| |exact C1].
      eapply extends_trans; [exact E2|exact E35].
    + by eapply (copied_between h h1 h2); [apply Hb; unfold config_maps; set_solver|..].
    + rewrite EVb, <-EV2. eapply Forall2_impl_in; [exact A3|]. intros v v' Hv _ [Hv1 Hv2].
      split; [done|]. eapply (copied_between h h2 h3); [|exact E12|exact E45|exact Hv2].
      apply Hb. unfold config_maps, scope_maps. rewrite EV2 in Hv. do 3 right. by apply list_elem_of_fmap_2.
    + eapply (copied_between h h4 h5); [apply Hb; unfold config_maps; set_solver| |apply extends_refl|exact C5].
      eapply extends_trans; [exact E12|]. eapply extends_trans; [exact E3|exact E4].
Qed.

(** *** Scopes *)

Lemma scope_in_maps h c ref : d_Reservations (scope h c ref) ∈ None :: config_maps h c.
Proof.
  unfold config_maps, scope_maps. destruct ref as [|i|]; cbn [scope]; [set_solver| |set_solver].
  destruct (VLANs h c !! i) as [v|] eqn:Hv; cbn; [|set_solver].
  do 4 apply list_elem_of_further. apply (list_elem_of_fmap_2 vres).
  by eapply list_elem_of_lookup_2.
Qed.

Lemma cloned_scope h c h' b ref :
  cloned h c h' b →
  scope h' b ref = set_Reservations (scope h c ref) (d_Reservations (scope h' b ref)) ∧
  view h' (d_Reservations (scope h' b ref)) = view h (d_Reservations (scope h c ref)).
Proof.
  intros [L [CL _] W [CW _] V _ _ _]. destruct ref as [|i|]; cbn [scope].
  - rewrite L at 1. done.
  - destruct (VLANs h' b !! i) as [v'|] eqn:Hv'; cbn.
    + destruct (Forall2_lookup_r _ _ _ _ _ V Hv') as (v & Hv & Hd & Hc & _). rewrite Hv. cbn.
      split; [by rewrite Hd|exact Hc].
    + rewrite lookup_ge_None, <-(Forall2_length _ _ _ V), <-lookup_ge_None in Hv'.
      by rewrite Hv'.
  - rewrite W at 1. done.
Qed.

(** A configuration that nothing was written to. *)
Definition same_base (h h' : heap) (b : Config) : Prop :=
  VLANs h' b = VLANs h b ∧ same_views h h' (config_maps h b).

Lemma same_base_refl h b : same_base h h b.
Proof. done. Qed.

Lemma same_base_maps h h' b : same_base h h' b → config_maps h' b = config_maps h b.
Proof. intros [E _]. unfold config_maps, scope_maps. by rewrite E. Qed.

Lemma same_base_trans h1 h2 h3 b : same_base h1 h2 b → same_base h2 h3 b → same_base h1 h3 b.
Proof.
  intros S1 S2. pose proof (same_base_maps _ _ _ S1) as E. destruct S1 as [E1 V1], S2 as [E2 V2].
  split; [congruence|]. rewrite E in V2. by eapply same_views_trans.
Qed.

Lemma same_base_scope h h' b ref :
  same_base h h' b →
  scope h' b ref = scope h b ref ∧
  view h' (d_Reservations (scope h' b ref)) = view h (d_Reservations (scope h b ref)).
Proof.
  intros [E V]. assert (scope h' b ref = scope h b ref) as Es.
  { destruct ref; cbn [scope]; by rewrite ?E. }
  split; [done|]. rewrite Es. pose proof (scope_in_maps h b ref) as Hin.
  apply elem_of_cons in Hin as [->|Hin]; [done|by apply V].
Qed.

(** [ApplyExtras] on the live configuration leaves the snapshot alone. *)
Lemma ApplyExtras_base h c b e :
  sep h (scope_maps h c ++ config_maps h b) → cf_VLANs c ≠ cf_VLANs b →
  let '(h', c') := ApplyExtras h c (Some e) in
  sep h' (images_map c' :: scope_maps h' c' ++ config_maps h' b) ∧
  cf_VLANs c' ≠ cf_VLANs b ∧ same_base h h' b ∧ extras_applied e h c h' c'.
Proof.
  intros Hs Hne. pose proof (ApplyExtras_spec e h c _ Hs) as H.
  destruct (ApplyExtras h c (Some e)) as [h' c']. destruct H as (Hs' & [V A _] & Hx).
  assert (same_base h h' b) as Hb by (split; [by apply A|done]).
  split_and!; [by rewrite (same_base_maps _ _ _ Hb)| |done|done].
  destruct (ea_same _ _ _ _ _ Hx) as (-> & _). done.
Qed.

Lemma start_config_spec h c loaded :
  sep h (config_maps h c) → (cf_VLANs c < h_next h)%nat →
  let '(h', c', b, _) := start_config h c loaded in
  sep h' (scope_maps h' c' ++ config_maps h' b) ∧ cf_VLANs c' ≠ cf_VLANs b ∧
  (∀ ref, scope h' b ref = set_Reservations (scope h c ref) (d_Reservations (scope h' b ref)) ∧
          view h' (d_Reservations (scope h' b ref)) = view h (d_Reservations (scope h c ref))).
Proof.
  intros Hs Ha. unfold start_config. pose proof (cloneConfig_spec h c Hs Ha) as H.
  destruct (cloneConfig h c) as [h1 b]. destruct H as (Hs1 & Hne & _ & Hc).
  assert (sep h1 (scope_maps h1 c ++ config_maps h1 b)) as Hs2.
  { cbn in Hs1. by apply sep_cons in Hs1 as [[Hs1 _]%sep_cons _]. }
  destruct (if String.eqb _ _ then None else _) as [e|].
  - pose proof (ApplyExtras_base h1 c b e Hs2 (not_eq_sym Hne)) as H.
    destruct (ApplyExtras h1 c (Some e)) as [h2 c2]. destruct H as (Hs3 & Hne2 & Hb & _).
    apply sep_cons in Hs3 as [Hs3 _]. split_and!; [exact Hs3|exact Hne2|]. intros ref.
    destruct (same_base_scope _ _ _ ref Hb) as [-> ->]. by apply cloned_scope.
  - cbn [ApplyExtras]. split_and!; [exact Hs2|by apply not_eq_sym|]. intros ref.
    by apply cloned_scope.
Qed.
End snapshot.

(** ** The invariant of the running daemon *)

(** What reloads leave of the services section. *)
Definition services_kept (s s' : ServicesConfig) : Prop :=
  ∃ p, s' = set_PXE s p ∧ p_Enabled p = p_Enabled (sv_PXE s) ∧ p_BootFile p = p_BootFile (sv_PXE s).

Lemma services_kept_refl s : services_kept s s.
Proof. exists (sv_PXE s). by destruct s. Qed.

Lemma services_kept_trans s1 s2 s3 : services_kept s1 s2 → services_kept s2 s3 → services_kept s1 s3.
Proof. intros (p & -> & ? & ?) (q & -> & ? & ?). exists q. split_and!; [done| |]; cbn in *; congruence. Qed.

(** An entry of the list of DHCP servers after a while. *)
Definition evolved `{U : GoUnicode} (e0 : dhcpEntry) (t0 : Z) (e : dhcpEntry) (t : Z) : Prop :=
  de_tftpAddr e = de_tftpAddr e0 ∧ de_baseScope e = de_baseScope e0 ∧
  rtc Dhcp.step (de_srv e0, t0) (de_srv e, t).

Record running `{U : GoUnicode} (w1 w : world) : Prop := {
  rn_base : r_base (w_reloader w) = r_base (w_reloader w1);
  rn_same : same_base (w_heap w1) (w_heap w) (r_base (w_reloader w1));
  rn_sep : sep (w_heap w) (scope_maps (w_heap w) (r_cfg (w_reloader w)) ++
                           config_maps (w_heap w) (r_base (w_reloader w1)));
  rn_ne : cf_VLANs (r_cfg (w_reloader w)) ≠ cf_VLANs (r_base (w_reloader w1));
  rn_services : services_kept (cf_Services (r_cfg (w_reloader w1)))
                              (cf_Services (r_cfg (w_reloader w)));
  rn_path : r_extrasPath (w_reloader w) = r_extrasPath (w_reloader w1);
  rn_length : length (r_dhcpEntries (w_reloader w)) = length (w_clocks w);
  rn_entries : ∀ i e t, r_dhcpEntries (w_reloader w) !! i = Some e → w_clocks w !! i = Some t →
    ∃ e0 t0, r_dhcpEntries (w_reloader w1) !! i = Some e0 ∧ w_clocks w1 !! i = Some t0 ∧
      evolved e0 t0 e t
}.

(** The daemon as main leaves it: a configuration whose maps are not shared,
    the snapshot of [start_config], and servers made by [New]. *)
Record booted `{U : GoUnicode} (h0 : heap) (c0 : Config) (w : world) : Prop := {
  bt_maps : sep h0 (config_maps h0 c0);
  bt_array : (cf_VLANs c0 < h_next h0)%nat;
  bt_start : ∃ MO loaded extras, start_config (MO := MO) h0 c0 loaded =
    (w_heap w, r_cfg (w_reloader w), r_base (w_reloader w), extras);
  bt_length : length (r_dhcpEntries (w_reloader w)) = length (w_clocks w);
  bt_servers : ∀ i e t, r_dhcpEntries (w_reloader w) !! i = Some e → w_clocks w !! i = Some t →
    ∃ s0 t0, Dhcp.reachable s0 t0 (de_srv e) t
}.

Section running.
Context `{U : GoUnicode}.

Lemma booted_running h0 c0 w : booted h0 c0 w → running w w.
Proof.
  intros [Hm Ha (MO & loaded & extras & E) Hl Hs].
  pose proof (start_config_spec h0 c0 loaded Hm Ha) as H. rewrite E in H.
  destruct H as (Hsep & Hne & _).
  split; try done; [apply services_kept_refl|]. intros i e t He Ht. by exists e, t.
Qed.

Lemma booted_base h0 c0 w ref :
  booted h0 c0 w →
  let b := r_base (w_reloader w) in
  scope (w_heap w) b ref =
    set_Reservations (scope h0 c0 ref) (d_Reservations (scope (w_heap w) b ref)) ∧
  view (w_heap w) (d_Reservations (scope (w_heap w) b ref)) =
    view h0 (d_Reservations (scope h0 c0 ref)).
Proof.
  intros [Hm Ha (MO & loaded & extras & E) Hl Hs].
  pose proof (start_config_spec h0 c0 loaded Hm Ha) as H. rewrite E in H. by destruct H as (_ & _ & H).
Qed.

(** Setting options is something a DHCP server can do at any time. *)
Lemma applyPXEBootOptions_steps `{MO : MapOrder} s t en tftp images p :
  rtc Dhcp.step (s, t) (applyPXEBootOptions s en tftp images p, t).
Proof.
  unfold applyPXEBootOptions. destruct (negb en); [apply rtc_refl|].
  eapply rtc_r; [|apply Dhcp.step_SetMacPXEBootFiles].
  eapply rtc_r; [|apply Dhcp.step_SetIPXEBootFile].
  eapply rtc_r; [|apply Dhcp.step_SetUEFIBootFile].
  eapply rtc_r; [|apply Dhcp.step_SetLegacyBootFile].
  destruct (_ || _); [|apply rtc_refl]. apply rtc_once, Dhcp.step_SetPXEOptions.
Qed.

Lemma applyDHCPOptions_steps `{MO : MapOrder} h s t d en tftp images p :
  rtc Dhcp.step (s, t) (applyDHCPOptions h s d en tftp images p, t).
Proof.
  unfold applyDHCPOptions. set (s1 := if (0 <? _)%nat then _ else _).
  transitivity (s1, t).
  - unfold s1. case_if; [apply rtc_once, Dhcp.step_SetReservations|apply rtc_refl].
  - destruct (negb en); [apply rtc_refl|apply applyPXEBootOptions_steps].
Qed.

Lemma reload_entry_evolved `{MO : MapOrder} h cfg base extras e t :
  evolved e t (reload_entry h cfg base extras e) t.
Proof.
  split_and!; [done|done|]. cbn. eapply rtc_l; [apply Dhcp.step_SetReservations|].
  apply applyPXEBootOptions_steps.
Qed.

Lemma evolved_trans e1 t1 e2 t2 e3 t3 :
  evolved e1 t1 e2 t2 → evolved e2 t2 e3 t3 → evolved e1 t1 e3 t3.
Proof. intros (? & ? & ?) (? & ? & ?). split_and!; [congruence|congruence|by etrans]. Qed.

(** A successful reload, and the failures. *)
Lemma reload_with_cases `{MO : MapOrder} h r loaded :
  let extras := match loaded with Ok e => e | Err _ => empty_extras end in
  let '(h', r', err) := reload_with h r loaded in
  (is_Some err ∧ h' = h ∧ r' = r) ∨
  (err = None ∧ checkRestartRequired h r extras = None ∧
   ApplyExtras h (r_cfg r) (Some extras) = (h', r_cfg r') ∧ r_base r' = r_base r ∧
   r_dhcpEntries r' = map (reload_entry h' (r_cfg r') (r_base r) extras) (r_dhcpEntries r) ∧
   r_appliedSMBUsers r' = r_appliedSMBUsers r ∧ r_extrasPath r' = r_extrasPath r ∧
   r_pxeSrv r' = option_map (λ s, Pxe.SetDefaultImage
     (Pxe.SetMacImages s (default ∅ (e_MacImages extras))) (e_DefaultImage extras)) (r_pxeSrv r)).
Proof.
  intros extras. unfold reload_with. fold extras.
  destruct (checkRestartRequired h r extras) as [err|]; [left; by split; [eexists|]|].
  destruct (ApplyExtras h (r_cfg r) (Some extras)) as [h' cfg]. by right.
Qed.

Lemma ApplyExtras_services `{MO : MapOrder} e h c h' c' :
  extras_applied e h c h' c' → services_kept (cf_Services c) (cf_Services c').
Proof.
  intros H. destruct (ea_pxe _ _ _ _ _ H) as (l & Hp).
  destruct (ea_same _ _ _ _ _ H) as (_ & _ & _ & _ & _ & _ & Hs).
  exists (sv_PXE (cf_Services c')). split_and!; [exact Hs|by rewrite Hp|by rewrite Hp].
Qed.

Lemma reload_with_running `{MO : MapOrder} w1 h r ts loaded :
  running w1 {| w_heap := h; w_reloader := r; w_clocks := ts |} →
  let '(h', r', _) := reload_with h r loaded in
  running w1 {| w_heap := h'; w_reloader := r'; w_clocks := ts |}.
Proof.
  intros Hr. pose proof (reload_with_cases h r loaded) as H.
  destruct (reload_with h r loaded) as [[h' r'] err].
  destruct H as [(_ & -> & ->)|(_ & _ & Ha & Eb & Ee & _ & Ep & _)]; [done|].
  set (extras := match loaded with Ok e => e | Err _ => empty_extras end) in *.
  destruct Hr as [Hb Hsame Hsep Hne Hsv Hpath Hlen Hen]. cbn [w_heap w_reloader w_clocks] in *.
  pose proof (ApplyExtras_base h (r_cfg r) _ extras Hsep Hne) as H. rewrite Ha in H.
  destruct H as (Hsep' & Hne' & Hsame' & Hx). apply sep_cons in Hsep' as [Hsep' _].
  split; cbn [w_heap w_reloader w_clocks]; try done.
  - congruence.
  - by eapply same_base_trans.
  - eapply services_kept_trans; [done|]. by eapply ApplyExtras_services.
  - by rewrite Ep.
  - by rewrite Ee, length_map.
  - intros i e t. rewrite Ee, list_lookup_fmap. intros (e1 & He1 & ->)%fmap_Some Ht.
    destruct (Hen _ _ _ He1 Ht) as (e0 & t0 & ? & ? & ?). exists e0, t0.
    split_and!; [done|done|]. eapply evolved_trans; [done|]. apply reload_entry_evolved.
Qed.

(** What a reload finds: the extras, empty ones for a file it cannot use, and
    the files, with the one it has created for a missing one. *)
Definition applied_extras `{MO : MapOrder} (D : Disk) (fs : files) (h : heap) (r : reloader) : ExtrasConfig :=
  match (loadOrCreateExtras D fs h (r_extrasPath r) (r_cfg r)).2 with
  | Ok x => x
  | Err _ => empty_extras
  end.

Definition disk_after `{MO : MapOrder} (D : Disk) (fs : files) (h : heap) (r : reloader) : files :=
  (loadOrCreateExtras D fs h (r_extrasPath r) (r_cfg r)).1.

Lemma Reload_cases `{MO : MapOrder} D fs h r :
  let '(fs', h', r', err) := Reload D fs h r in
  let extras := applied_extras D fs h r in
  (r_extrasPath r = "" ∧ err = Some ErrNoExtrasFile ∧ fs' = fs ∧ h' = h ∧ r' = r) ∨
  (r_extrasPath r ≠ "" ∧ fs' = disk_after D fs h r ∧
   (is_Some err ∧ checkRestartRequired h r extras = err ∧ h' = h ∧ r' = r ∨
    err = None ∧ checkRestartRequired h r extras = None ∧
    ApplyExtras h (r_cfg r) (Some extras) = (h', r_cfg r') ∧ r_base r' = r_base r ∧
    r_dhcpEntries r' = map (reload_entry h' (r_cfg r') (r_base r) extras) (r_dhcpEntries r) ∧
    r_pxeSrv r' = option_map (λ s, Pxe.SetDefaultImage
      (Pxe.SetMacImages s (default ∅ (e_MacImages extras))) (e_DefaultImage extras)) (r_pxeSrv r))).
Proof.
  unfold Reload, disk_after, applied_extras. destruct (String.eqb_spec (r_extrasPath r) "") as [Hp|Hp].
  { by left. }
  destruct (loadOrCreateExtras _ _ _ _ _) as [fs1 loaded]. cbn [fst snd].
  pose proof (reload_with_cases h r loaded) as H.
  assert (checkRestartRequired h r (match loaded with Ok x => x | Err _ => empty_extras end) =
    (reload_with h r loaded).2) as Hc.
  { unfold reload_with. destruct (checkRestartRequired _ _ _); [done|]. by destruct (ApplyExtras _ _ _). }
  destruct (reload_with h r loaded) as [[h' r'] err]. cbn [snd] in Hc. right. split_and!; [done..|].
  destruct H as [(Hs & -> & ->)|(-> & H & ? & ? & ? & ? & ? & ?)]; [by left|by right].
Qed.

(** A reload that worked. *)
Lemma Reload_ok `{MO : MapOrder} D fs h r fs' h' r' :
  Reload D fs h r = (fs', h', r', None) →
  let extras := applied_extras D fs h r in
  fs' = disk_after D fs h r ∧ ApplyExtras h (r_cfg r) (Some extras) = (h', r_cfg r') ∧
  r_dhcpEntries r' = map (reload_entry h' (r_cfg r') (r_base r) extras) (r_dhcpEntries r) ∧
  r_pxeSrv r' = option_map (λ s, Pxe.SetDefaultImage
    (Pxe.SetMacImages s (default ∅ (e_MacImages extras))) (e_DefaultImage extras)) (r_pxeSrv r).
Proof.
  intros E extras. pose proof (Reload_cases D fs h r) as H. rewrite E in H.
  destruct H as [(_ & ? & _)|(_ & -> & [([? ?] & _)|(_ & _ & H1 & _ & H2 & H3)])]; [done|done|].
  by split_and!.
Qed.

Lemma reload_running `{MO : MapOrder} w1 D fs h r ts :
  running w1 {| w_heap := h; w_reloader := r; w_clocks := ts |} →
  let '(_, h', r', _) := Reload D fs h r in
  running w1 {| w_heap := h'; w_reloader := r'; w_clocks := ts |}.
Proof.
  intros Hr. unfold Reload. destruct (String.eqb _ _); [done|].
  destruct (loadOrCreateExtras _ _ _ _ _) as [fs1 loaded].
  pose proof (reload_with_running w1 h r ts loaded Hr) as H. by destruct (reload_with h r loaded) as [[??]?].
Qed.

Definition allowed (api : AdminAPIConfig) (authorization : string) : Prop :=
  a_AllowUnauthenticatedReload api = true ∨
  (a_Token api ≠ "" ∧ authorization = "Bearer " +:+ a_Token api).

Lemma authorize_cases api method authorization :
  (authorize api method authorization = Some 405 ∧ method ≠ "POST") ∨
  (authorize api method authorization = Some 401 ∧ method = "POST" ∧ ¬ allowed api authorization) ∨
  (authorize api method authorization = None ∧ method = "POST" ∧ allowed api authorization).
Proof.
  unfold authorize, allowed. destruct (String.eqb_spec method "POST"); cbn [negb]; [|by left].
  right. destruct (a_AllowUnauthenticatedReload api); [right; by auto|].
  destruct (String.eqb_spec (a_Token api) ""); [left; naive_solver|].
  destruct (String.eqb_spec authorization ("Bearer " +:+ a_Token api)); cbn [negb];
    [right; by auto|left; naive_solver].
Qed.

(** The errors of the check are those that need a restart. *)
Lemma changed_address_error vs es err :
  changed_address vs es = Some err → ∃ id old new, err = RestartVLAN id old new.
Proof.
  induction es as [|[id addr] es IH]; cbn; [done|]. destruct (find_vlan id vs) as [v|]; [|done].
  destruct (negb _); [|done]. intros [= <-]. by eexists _, _, _.
Qed.

Lemma changed_address_None vs es :
  changed_address vs es = None ↔
  ∀ id addr v, (id, addr) ∈ es → find_vlan id vs = Some v → v_Address v = addr.
Proof.
  induction es as [|[id addr] es IH]; cbn; [split; [intros _ id addr v Hin; set_solver|done]|].
  transitivity ((∀ v, find_vlan id vs = Some v → v_Address v = addr) ∧ changed_address vs es = None).
  - destruct (find_vlan id vs) as [v|]; [|naive_solver].
    destruct (String.eqb_spec addr (v_Address v)); cbn; naive_solver.
  - rewrite IH. split.
    + intros [H1 H2] i a v [[= -> ->]|Hin]%elem_of_cons; eauto.
    + intros H. split; [|set_solver]. intros v. apply H. set_solver.
Qed.

Lemma check_error `{MO : MapOrder} h r extras err :
  checkRestartRequired h r extras = Some err → err ≠ ErrNoExtrasFile.
Proof.
  unfold checkRestartRequired. destruct (changed_address _ _) as [e|] eqn:E.
  - apply changed_address_error in E as (? & ? & ? & ->). by intros [= <-].
  - destruct (negb _); [|done]. by intros [= <-].
Qed.

Lemma reload_handler_cases `{MO : MapOrder} D fs h r method authorization :
  let '(fs', h', r', code) := reload_handler D fs h r method authorization in
  (fs' = fs ∧ h' = h ∧ r' = r ∧ code ≠ 200) ∨ ∃ err, Reload D fs h r = (fs', h', r', err).
Proof.
  unfold reload_handler. destruct (authorize _ _ _) as [code|] eqn:E.
  - left. split_and!; [done..|]. revert E. unfold authorize.
    repeat case_if; intros [= <-]; lia.
  - destruct (Reload D fs h r) as [[[fs' h'] r'] err]. right. by exists err.
Qed.

Lemma router_step_running w1 w w' : running w1 w → router_step w w' → running w1 w'.
Proof.
  intros Hr Hs. destruct Hs as [MO D fs h r ts method auth fs' h' r' code E|h r ts i e t s' t' He Ht Hs].
  - pose proof (reload_handler_cases D fs h r method auth) as H. rewrite E in H.
    destruct H as [(_ & -> & -> & _)|(err & H)]; [done|].
    pose proof (reload_running _ D fs _ _ _ Hr) as H'. by rewrite H in H'.
  - destruct Hr as [Hb Hsame Hsep Hne Hsv Hpath Hlen Hen].
    split; try done; cbn [w_heap w_reloader w_clocks set_entries r_dhcpEntries] in *.
    + by rewrite !length_insert.
    + intros j e' u [(-> & <- & Hj)|[Hij He']]%list_lookup_insert_Some.
      * rewrite list_lookup_insert_eq by (by eapply lookup_lt_Some). intros [= <-].
        destruct (Hen _ _ _ He Ht) as (e0 & t0 & ? & ? & ?). exists e0, t0.
        split_and!; [done|done|]. eapply evolved_trans; [done|].
        split_and!; [done|done|by apply rtc_once].
      * rewrite list_lookup_insert_ne by done. by apply Hen.
Qed.

Lemma history_running h0 c0 w1 w : booted h0 c0 w1 → rtc router_step w1 w → running w1 w.
Proof.
  intros Hb%booted_running Hs. revert Hb. generalize w1 at 1 3 as w0. 
  induction Hs as [|x y z Hxy _ IH]; intros w0 Hb; [done|]. apply IH. by eapply router_step_running.
Qed.
End running.

(** ** SMB users *)

Lemma sort_strings_Permutation l : sort_strings l ≡ₚ l.
Proof. apply merge_sort_Permutation. Qed.

Lemma sort_strings_perm l k : l ≡ₚ k ↔ sort_strings l = sort_strings k.
Proof.
  split.
  - intros E. apply (Sorted_unique String.le); try apply (Sorted_merge_sort _).
    by rewrite !sort_strings_Permutation.
  - intros E. by rewrite <-(sort_strings_Permutation l), <-(sort_strings_Permutation k), E.
Qed.

Definition joinable (c : ascii) (s : string) : Prop := s ≠ "" ∧ contains_char c s = false.

Lemma join_ne c s l : joinable c s → join (String c "") (s :: l) ≠ "".
Proof. intros [Hs _]. destruct l; [done|]. rewrite join_cons. by destruct s. Qed.

Lemma join_inj c l k :
  Forall (joinable c) l → Forall (joinable c) k →
  join (String c "") l = join (String c "") k → l = k.
Proof.
  assert (∀ l, Forall (joinable c) l → Forall (λ s, contains_char c s = false) l) as Hj.
  { intros j Hj. eapply Forall_impl; [exact Hj|]. by intros s []. }
  intros Hl Hk E. destruct l as [|x l].
  - destruct k as [|y k]; [done|]. apply Forall_cons in Hk as [Hy _].
    by destruct (join_ne c y k Hy).
  - destruct k as [|y k].
    + apply Forall_cons in Hl as [Hx _]. by destruct (join_ne c x l Hx).
    + rewrite <-(split_on_join c (x :: l)), <-(split_on_join c (y :: k)) by auto. by rewrite E.
Qed.

(** A user as the key writes it. *)
Definition user_text (u : SMBUser) : string := u_Name u +:+ ":" +:+ u_Password u.

Definition plain_user (u : SMBUser) : Prop :=
  contains_char ":" (u_Name u) = false ∧ contains_char (chr 0) (u_Name u) = false ∧
  contains_char (chr 0) (u_Password u) = false.

Lemma user_text_inj u v : plain_user u → plain_user v → user_text u = user_text v → u = v.
Proof.
  intros (Hu & _) (Hv & _) E. unfold user_text in E.
  pose proof (cut_char_app ":" (u_Name u) (u_Password u) Hu) as Eu.
  pose proof (cut_char_app ":" (u_Name v) (u_Password v) Hv) as Ev.
  change (String ":" ?s) with (":" +:+ s) in Eu, Ev. rewrite E, Ev in Eu.
  destruct u, v; cbn in *; congruence.
Qed.

Lemma users_perm a b :
  Forall plain_user a → Forall plain_user b →
  map user_text a ≡ₚ map user_text b → a ≡ₚ b.
Proof.
  intros Ha Hb (l & E & Hl)%Permutation_map_inv. rewrite Hl.
  assert (Forall plain_user l) as Hlp by (by rewrite <-Hl). clear Hl Hb b.
  induction Ha as [|u a Hu Ha IH] in l, E, Hlp |- *; destruct l as [|v l]; [done|done|done|].
  cbn in E. injection E as E1 E2. apply Forall_cons in Hlp as [Hv Hl].
  rewrite (user_text_inj u v) by done. by rewrite (IH l).
Qed.

Lemma user_texts_joinable l :
  Forall plain_user l → Forall (joinable (chr 0)) (sort_strings (map user_text l)).
Proof.
  intros Hl. rewrite sort_strings_Permutation, Forall_fmap.
  eapply Forall_impl; [exact Hl|]. intros u (_ & Hn & Hp). unfold compose, user_text. split.
  - by destruct (u_Name u).
  - by rewrite !contains_char_app, Hn, Hp.
Qed.

Lemma smbUsersKey_inj a b :
  Forall plain_user a → Forall plain_user b → smbUsersKey a = smbUsersKey b ↔ a ≡ₚ b.
Proof.
  intros Ha Hb. unfold smbUsersKey. fold user_text. change nul with (String (chr 0) "").
  change (λ u, u_Name u +:+ ":" +:+ u_Password u) with user_text. split.
  - intros E%join_inj; [|by apply user_texts_joinable..].
    by apply users_perm, sort_strings_perm.
  - intros E. f_equal. apply sort_strings_perm. by rewrite E.
Qed.

(** ** Boot options *)

(** The first string that is not empty. *)
Definition first_of (l : list string) : string := default "" (head (filter (λ s, s ≠ "") l)).

Lemma or_else_first_of s l : or_else s (first_of l) = first_of (s :: l).
Proof.
  unfold or_else, first_of. rewrite filter_cons.
  destruct (String.eqb_spec s "") as [->|Hs]; [by rewrite decide_False by auto|].
  by rewrite decide_True by done.
Qed.

Lemma or_else_ne s d : d ≠ "" → or_else s d ≠ "".
Proof. unfold or_else. by destruct (String.eqb_spec s ""). Qed.

Section boot.
Context `{U : GoUnicode} `{MO : MapOrder}.

(** What a DHCP server offers to clients that boot from the network. *)
Definition boot_plan (tftp : string) (images : gmap string string) (p : PXEConfig)
    (s s' : Dhcp.Server) : Prop :=
  let file := first_of [p_BootFile p; p_DefaultImage p; "netboot.xyz.efi"] in
  Dhcp.s_pxeBootFile s' = file ∧
  Dhcp.s_legacyBootFile s' = first_of [p_LegacyBootFile p; file] ∧
  Dhcp.s_uefiBootFile s' = first_of [p_UEFIBootFile p; "netboot.xyz.efi"] ∧
  Dhcp.s_ipxeBootFile s' = first_of [p_IPXEScript p; "boot.ipxe"] ∧
  Dhcp.s_pxeBootServer s' = (if String.eqb tftp "" then [] else To4 (ParseIP tftp)) ∧
  Dhcp.s_macPXEBootFiles s' = Dhcp.s_macPXEBootFiles (Dhcp.SetMacPXEBootFiles s images).

Definition same_pool (s s' : Dhcp.Server) : Prop :=
  Dhcp.s_leases s' = Dhcp.s_leases s ∧ Dhcp.s_nextIP s' = Dhcp.s_nextIP s.

Lemma applyPXEBootOptions_spec s tftp images p :
  let s' := applyPXEBootOptions s true tftp images p in
  boot_plan tftp images p s s' ∧ same_pool s s' ∧
  Dhcp.s_reservations s' = Dhcp.s_reservations s.
Proof.
  cbn zeta. unfold applyPXEBootOptions, boot_plan. cbn zeta. cbn [negb].
  replace (if String.eqb (p_BootFile p) "" && negb (String.eqb (p_DefaultImage p) "")
           then p_DefaultImage p else p_BootFile p)
    with (or_else (p_BootFile p) (p_DefaultImage p)).
  2: { unfold or_else. destruct (String.eqb_spec (p_BootFile p) ""),
         (String.eqb_spec (p_DefaultImage p) ""); cbn; congruence. }
  set (file := or_else (or_else (p_BootFile p) (p_DefaultImage p)) "netboot.xyz.efi").
  assert (file = first_of [p_BootFile p; p_DefaultImage p; "netboot.xyz.efi"]) as <-.
  { rewrite <-!or_else_first_of. unfold file, or_else.
    destruct (String.eqb_spec (p_BootFile p) "") as [|Hb]; [done|].
    by rewrite (proj2 (String.eqb_neq _ _) Hb). }
  assert (file ≠ "") as Hf by (by apply or_else_ne).
  assert (∀ s d, d ≠ "" → or_else s d = first_of [s; d]) as Ho.
  { intros x d Hd. rewrite <-or_else_first_of. f_equal. unfold first_of.
    rewrite filter_cons. by rewrite decide_True. }
  rewrite !Ho by done.
  assert (String.eqb file "" = false) as -> by (by apply String.eqb_neq).
  rewrite orb_true_r. split_and!; try done. cbn. by destruct (String.eqb tftp "").
Qed.

Lemma reservation_entry_config s s' :
  Dhcp.same_config s s' → Dhcp.reservation_entry s' = Dhcp.reservation_entry s.
Proof.
  intros (_ & E1 & E2 & _). unfold Dhcp.reservation_entry, Dhcp.subnet. by rewrite E1, E2.
Qed.

Lemma SetReservations_config s s' m :
  Dhcp.same_config s s' →
  Dhcp.s_reservations (Dhcp.SetReservations s' m) = Dhcp.s_reservations (Dhcp.SetReservations s m).
Proof. intros H. cbn. by rewrite (reservation_entry_config s s'). Qed.

(** What a plan depends on. *)
Lemma boot_plan_ext tftp images p q s0 s s' :
  p_BootFile q = p_BootFile p → p_DefaultImage q = p_DefaultImage p →
  p_LegacyBootFile q = p_LegacyBootFile p → p_UEFIBootFile q = p_UEFIBootFile p →
  p_IPXEScript q = p_IPXEScript p →
  boot_plan tftp images p s s' → boot_plan tftp images q s0 s'.
Proof. unfold boot_plan. intros -> -> -> -> -> H. exact H. Qed.

Lemma mergedReservations_union base extras : mergedReservations base extras = extras ∪ base.
Proof. unfold mergedReservations. by rewrite !copy_entries_union, (right_id_L ∅ (∪)). Qed.

Lemma reload_entry_spec h cfg base extras e :
  let pxe := sv_PXE (cf_Services cfg) in
  let s' := de_srv (reload_entry h cfg base extras e) in
  Dhcp.s_reservations s' = Dhcp.s_reservations (Dhcp.SetReservations (de_srv e)
    (default ∅ (e_Reservations extras) ∪ view h (d_Reservations (scope h base (de_baseScope e))))) ∧
  same_pool (de_srv e) s' ∧
  (p_Enabled pxe = true →
     boot_plan (de_tftpAddr e) (view h (p_MacImages pxe)) pxe (de_srv e) s').
Proof.
  cbn zeta. cbn [reload_entry de_srv]. rewrite mergedReservations_union.
  destruct (p_Enabled (sv_PXE (cf_Services cfg))) eqn:Ep; [|done].
  set (s := Dhcp.SetReservations _ _).
  pose proof (applyPXEBootOptions_spec s (de_tftpAddr e)
    (view h (p_MacImages (sv_PXE (cf_Services cfg)))) (sv_PXE (cf_Services cfg))) as (Hp & Hq & Hr).
  split_and!; [exact Hr|exact Hq|]. intros _. exact Hp.
Qed.

(** A server that runs in the daemon has the configuration it was made with. *)
Lemma running_config h0 c0 w1 w i e t :
  booted h0 c0 w1 → running w1 w →
  r_dhcpEntries (w_reloader w) !! i = Some e → w_clocks w !! i = Some t →
  ∃ e0 t0, r_dhcpEntries (w_reloader w1) !! i = Some e0 ∧ w_clocks w1 !! i = Some t0 ∧
    evolved e0 t0 e t ∧ Dhcp.same_config (de_srv e0) (de_srv e).
Proof.
  intros Hb Hr He Ht. destruct (rn_entries _ _ Hr i e t He Ht) as (e0 & t0 & He0 & Ht0 & Hv).
  exists e0, t0. split_and!; [done|done|done|].
  destruct (bt_servers _ _ _ Hb i e0 t0 He0 Ht0) as (s0 & u & Hs0).
  destruct (Dhcp.reachable_inv _ _ _ _ Hs0) as (Hwf & Hu & _).
  destruct Hv as (_ & _ & Hv). by destruct (Dhcp.rtc_inv _ _ Hv (conj Hwf Hu)) as (_ & _ & _ & H).
Qed.
End boot.

(** ** The properties of the component *)

(** C11: the snapshot of router.json is immutable: whatever requests, reloads
    and DHCP events follow the start, in any order, every scope of the base
    configuration still has the settings and the reservations of the
    configuration the daemon started with, although [ApplyExtras] writes the
    live configuration in place again and again. *)
Theorem base_immutable `{U : GoUnicode} h0 c0 w1 w :
  booted h0 c0 w1 → rtc router_step w1 w →
  ∀ ref, let d := scope (w_heap w) (r_base (w_reloader w)) ref in
    d = set_Reservations (scope h0 c0 ref) (d_Reservations d) ∧
    view (w_heap w) (d_Reservations d) = view h0 (d_Reservations (scope h0 c0 ref)).
Proof.
  intros Hb Hs ref. pose proof (history_running _ _ _ _ Hb Hs) as Hr.
  rewrite (rn_base _ _ Hr). destruct (same_base_scope _ _ _ ref (rn_same _ _ Hr)) as [E V].
  cbn zeta. rewrite V, E. by apply booted_base.
Qed.

(** C9: every DHCP server of the daemon lives as the DHCP component says:
    reloads are sequences of its own operations, so each of its states is
    reachable in the sense of that component, and in particular no address
    is leased to two clients at a time, however reloads and client requests
    are interleaved. *)
Theorem servers_reachable `{U : GoUnicode} h0 c0 w1 w i e t :
  booted h0 c0 w1 → rtc router_step w1 w →
  r_dhcpEntries (w_reloader w) !! i = Some e → w_clocks w !! i = Some t →
  (∃ s0 t0, Dhcp.reachable s0 t0 (de_srv e) t) ∧ Dhcp.unique_live (de_srv e) t.
Proof.
  intros Hb Hs He Ht. pose proof (history_running _ _ _ _ Hb Hs) as Hr.
  destruct (rn_entries _ _ Hr i e t He Ht) as (e0 & t0 & He0 & Ht0 & _ & _ & Hv).
  destruct (bt_servers _ _ _ Hb i e0 t0 He0 Ht0) as (s0 & u & Hnew & Hs0).
  assert (Dhcp.reachable s0 u (de_srv e) t) as H by (split; [done|by etrans]).
  split; [by exists s0, u|]. by apply Dhcp.reachable_inv in H as (_ & ? & _).
Qed.

(** What a server that was booted as [e0] has once [extras] are applied. *)
Definition settings `{U : GoUnicode} `{MO : MapOrder} (h0 : heap) (c0 : Config) (w1 : world)
    (e0 : dhcpEntry) (extras : ExtrasConfig) (s : Dhcp.Server) : Prop :=
  let pxe0 := sv_PXE (cf_Services (r_cfg (w_reloader w1))) in
  Dhcp.s_reservations s = Dhcp.s_reservations (Dhcp.SetReservations (de_srv e0)
    (default ∅ (e_Reservations extras) ∪ view h0 (d_Reservations (scope h0 c0 (de_baseScope e0))))) ∧
  (p_Enabled pxe0 = true → ∃ images,
     boot_plan (de_tftpAddr e0) (Config.cloneStringMap (e_MacImages extras))
       (override_pxe pxe0 images extras) (de_srv e0) s).

Lemma reload_server_settings `{U : GoUnicode} `{MO : MapOrder} h0 c0 w1 w D fs fs' h' r' i e0 e e' :
  booted h0 c0 w1 → rtc router_step w1 w →
  let r := w_reloader w in
  Reload D fs (w_heap w) r = (fs', h', r', None) →
  r_dhcpEntries (w_reloader w1) !! i = Some e0 → r_dhcpEntries r !! i = Some e →
  r_dhcpEntries r' !! i = Some e' →
  settings h0 c0 w1 e0 (applied_extras D fs (w_heap w) r) (de_srv e') ∧
  same_pool (de_srv e) (de_srv e').
Proof.
  intros Hb Hs r Hrel He0 He He'.
  pose proof (history_running _ _ _ _ Hb Hs) as Hr.
  assert (∃ t, w_clocks w !! i = Some t) as [t Ht].
  { apply lookup_lt_is_Some. rewrite <-(rn_length _ _ Hr). by eapply lookup_lt_Some. }
  destruct (running_config _ _ _ _ _ _ _ Hb Hr He Ht) as (e1 & t0 & He1 & _ & Hv & Hc).
  simplify_eq. destruct Hv as (Ea & Es & _).
  destruct (Reload_ok _ _ _ _ _ _ _ Hrel) as (_ & Ha & Ee & _).
  set (extras := applied_extras D fs (w_heap w) r) in *.
  destruct Hr as [Hbase Hsame Hsep Hne (p & Hp & Hen & Hbf) _ _ _].
  pose proof (ApplyExtras_base _ _ _ extras Hsep Hne) as Hx. fold r in Hx. rewrite Ha in Hx.
  destruct Hx as (_ & _ & Hsame' & Hx). destruct (ea_pxe _ _ _ _ _ Hx) as (l & Hl).
  rewrite Ee, list_lookup_fmap, He in He'. injection He' as <-.
  destruct (reload_entry_spec h' (r_cfg r') (r_base r) extras e) as (H1 & H2 & H3).
  split; [|done]. split.
  - rewrite H1, Es. fold r in Hbase. rewrite Hbase.
    destruct (same_base_scope _ _ _ (de_baseScope e0) Hsame') as [Sd Sv]. rewrite Sv.
    destruct (same_base_scope _ _ _ (de_baseScope e0) Hsame) as [_ ->].
    destruct (booted_base _ _ _ (de_baseScope e0) Hb) as [_ ->].
    by apply SetReservations_config.
  - intros Hp0. exists l. rewrite <-(ea_images _ _ _ _ _ Hx), <-Ea. unfold images_map.
    fold r in Hp. rewrite Hl, Hp in H3 |- *. eapply boot_plan_ext; [..|apply H3]; try done.
    cbn. rewrite Hen. exact Hp0.
Qed.

(** The extras that the files themselves determine: those of the file, or none
    if it cannot be read or parsed; a missing file determines nothing. *)
Definition extras_on_disk (D : Disk) (fs : files) (path : string) : option ExtrasConfig :=
  match LoadExtras (dk_read D fs) (dk_unmarshal D) path with
  | Ok extras => Some extras
  | Err (ErrOpen NotExist) => None
  | Err _ => Some empty_extras
  end.

Lemma applied_extras_on_disk `{MO : MapOrder} D fs h r extras :
  extras_on_disk D fs (r_extrasPath r) = Some extras →
  applied_extras D fs h r = extras ∧ disk_after D fs h r = fs.
Proof.
  unfold extras_on_disk, applied_extras, disk_after, loadOrCreateExtras.
  destruct (LoadExtras _ _ _) as [[|[]|]|x]; naive_solver.
Qed.

(** For a missing file they come from the live configuration. *)
Lemma applied_extras_created `{MO : MapOrder} D fs h r :
  extras_on_disk D fs (r_extrasPath r) = None →
  let path := r_extrasPath r in
  let created := ExtrasFromConfig h (r_cfg r) in
  let saved := ExtrasConfig_Save (dk_write D) (dk_marshal D) path created fs in
  disk_after D fs h r = saved.1 ∧
  applied_extras D fs h r = match saved.2 with Ok _ => created | Err _ => empty_extras end.
Proof.
  unfold extras_on_disk, applied_extras, disk_after, loadOrCreateExtras.
  destruct (LoadExtras _ _ _) as [[|[]|]|x]; try done. intros _.
  by destruct (ExtrasConfig_Save _ _ _ _ _) as [fs1 [err|[]]].
Qed.

(** C6: a successful reload keeps no state of earlier reloads, as long as the
    extras file exists: every DHCP server then has the reservations and the boot
    options that the base configuration and the file just read determine,
    whatever extras were applied and removed before; a file that cannot be read
    or parsed counts as an empty one.  Only when the file is missing it is made
    from the live configuration, which holds what earlier reloads have applied,
    and these extras are applied if they could be saved.  The leases are
    untouched. *)
Theorem reload_history_independent `{U : GoUnicode} `{MO : MapOrder} h0 c0 w1 w D fs fs' h' r' i e0 e e' :
  booted h0 c0 w1 → rtc router_step w1 w →
  Reload D fs (w_heap w) (w_reloader w) = (fs', h', r', None) →
  r_dhcpEntries (w_reloader w1) !! i = Some e0 → r_dhcpEntries (w_reloader w) !! i = Some e →
  r_dhcpEntries r' !! i = Some e' →
  let path := r_extrasPath (w_reloader w1) in
  let created := ExtrasFromConfig (w_heap w) (r_cfg (w_reloader w)) in
  match extras_on_disk D fs path with
  | Some extras => settings h0 c0 w1 e0 extras (de_srv e') ∧ fs' = fs
  | None =>
      let saved := ExtrasConfig_Save (dk_write D) (dk_marshal D) path created fs in
      fs' = saved.1 ∧
      settings h0 c0 w1 e0 (match saved.2 with Ok _ => created | Err _ => empty_extras end) (de_srv e')
  end ∧
  same_pool (de_srv e) (de_srv e').
Proof.
  intros Hb Hs Hrel He0 He He' path created.
  destruct (reload_server_settings _ _ _ _ _ _ _ _ _ _ _ _ _ Hb Hs Hrel He0 He He') as [Hset Hpool].
  destruct (Reload_ok _ _ _ _ _ _ _ Hrel) as (-> & _). split; [|done].
  pose proof (rn_path _ _ (history_running _ _ _ _ Hb Hs)) as Hpath. unfold path. rewrite <-Hpath.
  destruct (extras_on_disk D fs _) as [extras|] eqn:E.
  - destruct (applied_extras_on_disk D fs (w_heap w) (w_reloader w) extras E) as [<- ->]. by split.
  - destruct (applied_extras_created D fs (w_heap w) (w_reloader w) E) as [-> E']. rewrite E' in Hset. by split.
Qed.

(** C12: the handler of /api/reload changes the configuration only for a POST
    request that is allowed, either because the configuration allows
    unauthenticated reloads or because the request carries exactly the
    configured, non-empty bearer token; every status code but 200 leaves the
    running daemon as it was, and the code tells the reason: 405 for another
    method, 401 without authorization, 500 without an extras file, 409 for a
    change that needs a restart.  On the disk it never touches another file than
    the extras file, nor one that exists; a request that gets to the reload, also
    one that ends with 409, creates a missing extras file. *)
Theorem reload_handler_correct `{U : GoUnicode} `{MO : MapOrder} D fs h r method authorization
    fs' h' r' code :
  disk_laws D →
  reload_handler D fs h r method authorization = (fs', h', r', code) →
  let api := sv_AdminAPI (cf_Services (r_cfg r)) in
  let path := r_extrasPath r in
  let restart := is_Some (checkRestartRequired h r (applied_extras D fs h r)) in
  (code ≠ 200 → h' = h ∧ r' = r) ∧
  (code = 405 ↔ method ≠ "POST") ∧
  (code = 401 ↔ method = "POST" ∧ ¬ allowed api authorization) ∧
  (code = 500 ↔ method = "POST" ∧ allowed api authorization ∧ path = "") ∧
  (code = 409 ↔ method = "POST" ∧ allowed api authorization ∧ path ≠ "" ∧ restart) ∧
  (code = 200 ↔ method = "POST" ∧ allowed api authorization ∧ path ≠ "" ∧ ¬ restart) ∧
  (∀ p, p ≠ path → fs' !! p = fs !! p) ∧
  (is_Some (fs !! path) ∨ code ∈ [405; 401; 500] → fs' = fs) ∧
  (fs !! path = None → code ∈ [200; 409] →
     fs' = (ExtrasConfig_Save (dk_write D) (dk_marshal D) path (ExtrasFromConfig h (r_cfg r)) fs).1).
Proof.
  intros [Hw Hmiss] H api path restart. unfold reload_handler in H. fold api in H.
  destruct (authorize_cases api method authorization) as [[E ?]|[[E [? ?]]|[E [? ?]]]];
    rewrite E in H; [injection H as <- <- <- <-; set_solver..|].
  pose proof (Reload_cases D fs h r) as Hc. destruct (Reload D fs h r) as [[[fs1 h1] r1] err].
  injection H as <- <- <- <-.
  destruct Hc as [(Hp & -> & -> & -> & ->)|(Hp & Hfs & Hc)]; [set_solver|].
  assert (∀ p, p ≠ path → fs1 !! p = fs !! p) as Hframe.
  { intros p Hne. rewrite Hfs. destruct (extras_on_disk D fs path) as [x|] eqn:Ed.
    - by rewrite (proj2 (applied_extras_on_disk D fs h r x Ed)).
    - rewrite (proj1 (applied_extras_created D fs h r Ed)). apply Save_frame; [done|by left]. }
  assert (is_Some (fs !! path) → fs1 = fs) as Hkeep.
  { intros [data Hd]. destruct (extras_on_disk D fs path) as [x|] eqn:Ed.
    - by rewrite Hfs, (proj2 (applied_extras_on_disk D fs h r x Ed)).
    - unfold extras_on_disk, LoadExtras in Ed. destruct (dk_read D fs path) as [[]|d] eqn:Er.
      + apply Hmiss in Er. congruence.
      + done.
      + by destruct (dk_unmarshal D d). }
  assert (fs !! path = None → fs1 =
    (ExtrasConfig_Save (dk_write D) (dk_marshal D) path (ExtrasFromConfig h (r_cfg r)) fs).1) as Hnew.
  { intros Hn. rewrite Hfs. apply applied_extras_created. unfold extras_on_disk, LoadExtras.
    fold path. by rewrite (proj2 (Hmiss fs path) Hn). }
  destruct Hc as [([err' ->] & Ec & -> & ->)|(-> & Ec & _)].
  - assert (restart) as Hres by (unfold restart; rewrite Ec; by eexists).
    pose proof (check_error _ _ _ _ Ec). destruct err'; set_solver.
  - assert (¬ restart) as Hres by (unfold restart; rewrite Ec; by intros [? ?]). set_solver.
Qed.

(** a reload is refused for the sake of a restart exactly when the extras
    file gives the first VLAN of some id another address than the live one, or
    lists other SMB users than the ones smbd was started with; the order of
    the users does not matter.  Names are without colons and zero bytes,
    passwords without zero bytes, as the SMB server demands. *)
Theorem checkRestartRequired_correct `{MO : MapOrder} h r extras :
  Forall plain_user (r_appliedSMBUsers r) → Forall plain_user (e_SMBUsers extras) →
  checkRestartRequired h r extras = None ↔
  (∀ id addr v, default ∅ (e_VLANAddresses extras) !! id = Some addr →
     find_vlan id (VLANs h (r_cfg r)) = Some v → v_Address v = addr) ∧
  r_appliedSMBUsers r ≡ₚ e_SMBUsers extras.
Proof.
  intros Ha Hb. unfold checkRestartRequired, equalSMBUsers.
  rewrite <-(smbUsersKey_inj _ _ Ha Hb), <-String.eqb_eq.
  assert (changed_address (VLANs h (r_cfg r)) (map_range (default ∅ (e_VLANAddresses extras))) = None
    ↔ ∀ id addr v, default ∅ (e_VLANAddresses extras) !! id = Some addr →
        find_vlan id (VLANs h (r_cfg r)) = Some v → v_Address v = addr) as <-.
  { rewrite changed_address_None. split.
    - intros H id addr v Hi. apply H. by apply elem_of_map_range.
    - intros H id addr v Hi%elem_of_map_range. by apply H. }
  destruct (changed_address _ _); [naive_solver|].
  destruct (String.eqb _ _); cbn; naive_solver.
Qed.

(** ** A concrete run *)

Definition demo_live : Config :=
  set_Services demo_config {|
    sv_Mount := sv_Mount (cf_Services demo_config); sv_SMB := sv_SMB (cf_Services demo_config);
    sv_PXE := sv_PXE (cf_Services demo_config); sv_ExtrasFile := "/perm/extras.toml";
    sv_AdminAPI := {| a_Listen := ""; a_Token := "secret"; a_AllowUnauthenticatedReload := false |} |}.

#[local] Existing Instance ascii_unicode.
#[local] Existing Instance canonical_order.

Definition demo_started : heap * Config * Config * option ExtrasConfig :=
  start_config demo_heap demo_live (Err (ErrCreate ErrMarshal)).

(** The DHCP server of the LAN as main sets it up. *)
Definition demo_entry : dhcpEntry :=
  let '(h, c, base, _) := demo_started in
  {| de_srv := applyDHCPOptions h (Dhcp.demo_server "100") (lan_DHCP (cf_LAN c)) true "10.0.0.1"
                 (view h (images_map c)) (sv_PXE (cf_Services c));
     de_tftpAddr := "10.0.0.1"; de_baseScope := ScopeLAN |}.

Definition demo_world : world :=
  let '(h, c, base, _) := demo_started in
  {| w_heap := h;
     w_reloader := {| r_cfg := c; r_base := base; r_extrasPath := "/perm/extras.toml";
                      r_dhcpEntries := [demo_entry];
                      r_pxeSrv := Some (Pxe.New (sv_PXE (cf_Services c))); r_appliedSMBUsers := [] |};
     w_clocks := [0] |}.

Definition demo_files : files := {["/perm/extras.toml" := ""]}.

Definition demo_reload (e : ExtrasConfig) : heap → reloader → files * heap * reloader * option reload_error :=
  Reload (demo_disk e) demo_files.

(** The world after a request. *)
Definition demo_request_on (fs : files) (e : ExtrasConfig) (w : world) : world :=
  let '(_, h, r, _) := reload_handler (demo_disk e) fs (w_heap w) (w_reloader w) "POST" "Bearer secret" in
  {| w_heap := h; w_reloader := r; w_clocks := w_clocks w |}.

Definition demo_request : ExtrasConfig → world → world := demo_request_on demo_files.

Lemma demo_request_step e w : router_step w (demo_request e w).
Proof.
  unfold demo_request, demo_request_on. destruct (reload_handler _ _ _ _ _ _) as [[[fs h] r] code] eqn:E.
  destruct w as [h0 r0 ts]. eapply step_request, E.
Qed.

Lemma demo_booted : booted demo_heap demo_live demo_world.
Proof.
  split.
  - split; [apply (bool_decide_eq_true_1 (NoDup _)); vm_compute; reflexivity|].
    apply (bool_decide_eq_true_1 (Forall _ _)). vm_compute. reflexivity.
  - cbn. lia.
  - exists canonical_order, (Err (ErrCreate ErrMarshal)), None. vm_compute. reflexivity.
  - reflexivity.
  - intros i e t. destruct i as [|i]; [|done]. intros [= <-] [= <-].
    exists (Dhcp.demo_server "100"), 0. split; [|].
    + exists "lan", "10.0.0.1/24", "10.0.0.100", "10.0.0.100", ["1.1.1.1"], (3600 * Dhcp.second).
      vm_compute. reflexivity.
    + change (rtc Dhcp.step (Dhcp.demo_server "100", 0) (de_srv demo_entry, 0)).
      unfold demo_entry. destruct demo_started as [[[h c] b] x]. apply applyDHCPOptions_steps.
Qed.

(** Extras with one reservation of the LAN and another boot file. *)
Definition demo_new : ExtrasConfig := set_e_Reservations demo_extras
  {["02-00-00-00-00-05" := "10.0.0.50"]}.

Lemma demo_history : rtc router_step demo_world (demo_request demo_new demo_world).
Proof. apply rtc_once, demo_request_step. Qed.

Lemma base_immutable_witness :
  let w := demo_request demo_new demo_world in
  view (w_heap w) (lan_map (r_cfg (w_reloader w))) =
    {["02:00:00:00:00:01" := "10.0.0.9"; "02:00:00:00:00:05" := "10.0.0.50"]} ∧
  view (w_heap w) (d_Reservations (scope (w_heap w) (r_base (w_reloader w)) ScopeLAN)) =
    {["02:00:00:00:00:01" := "10.0.0.9"]}.
Proof.
  intros w. split; [vm_compute; reflexivity|].
  destruct (base_immutable _ _ _ _ demo_booted demo_history ScopeLAN) as [_ H].
  unfold w. rewrite H. vm_compute. reflexivity.
Defined.

Lemma servers_reachable_witness :
  ∃ e, r_dhcpEntries (w_reloader (demo_request demo_new demo_world)) !! 0%nat = Some e ∧
    Dhcp.unique_live (de_srv e) 0.
Proof.
  eexists. split; [reflexivity|].
  eapply (servers_reachable _ _ _ _ 0%nat _ 0 demo_booted demo_history); reflexivity.
Defined.

Lemma reload_handler_correct_witness :
  ∃ fs h r, reload_handler (demo_disk demo_new) demo_files (w_heap demo_world) (w_reloader demo_world)
    "POST" "Bearer guess" = (fs, h, r, 401) ∧ r = w_reloader demo_world ∧ fs = demo_files.
Proof.
  eexists _, _, _. split; [reflexivity|].
  destruct (reload_handler_correct (demo_disk demo_new) demo_files
    (w_heap demo_world) (w_reloader demo_world) "POST" "Bearer guess" _ _ _ 401 (demo_disk_laws _) eq_refl)
    as (H1 & _ & _ & _ & _ & _ & _ & H2 & _).
  split; [by apply H1|]. apply H2. right. set_solver.
Defined.

Lemma checkRestartRequired_correct_witness :
  let alice := {| u_Name := "alice"; u_Password := "x" |} in
  let bob := {| u_Name := "bob"; u_Password := "y:z" |} in
  let r := {| r_cfg := demo_live; r_base := demo_live; r_extrasPath := "x"; r_dhcpEntries := [];
              r_pxeSrv := None; r_appliedSMBUsers := [alice; bob] |} in
  let extras := {| e_Reservations := None; e_MacImages := None; e_DefaultImage := "";
    e_PXEBootFile := ""; e_LegacyBootFile := ""; e_UEFIBootFile := ""; e_IPXEScript := "";
    e_SMBUsers := [bob; alice]; e_VLANAddresses := Some {[20 := "10.0.20.1/24"; 30 := "no VLAN"]};
    e_DNS := [] |} in
  checkRestartRequired demo_heap r extras = None.
Proof.
  intros alice bob r extras.
  assert (Forall plain_user [alice; bob]) as Hu.
  { repeat constructor; vm_compute; reflexivity. }
  apply (checkRestartRequired_correct demo_heap r extras); [done| |].
  - cbn [e_SMBUsers extras]. by rewrite (perm_swap alice bob []).
  - split; [|apply perm_swap]. cbn [e_VLANAddresses extras default]. intros id addr v.
    unfold Datatypes.id.
    intros [[<- <-]|[_ [<- <-]%lookup_singleton_Some]]%lookup_insert_Some H;
      vm_compute in H; [by injection H as <-|done].
Defined.

Definition demo_reloaded : files * heap * reloader * option reload_error :=
  demo_reload demo_new (w_heap demo_world) (w_reloader demo_world).

Lemma reload_history_independent_witness :
  demo_reloaded.2 = None ∧ length (r_dhcpEntries demo_reloaded.1.2) = 1%nat ∧
  Forall (λ e, Dhcp.s_reservations (de_srv e) =
      {["02:00:00:00:00:01" := [10;0;0;9]; "02:00:00:00:00:05" := [10;0;0;50]]})
    (take 1 (r_dhcpEntries demo_reloaded.1.2)).
Proof.
  split; [vm_compute; reflexivity|]. split; [vm_compute; reflexivity|].
  assert (demo_reloaded = (demo_reloaded.1.1.1, demo_reloaded.1.1.2, demo_reloaded.1.2, None)) as E.
  { transitivity (demo_reloaded.1.1.1, demo_reloaded.1.1.2, demo_reloaded.1.2, demo_reloaded.2).
    - by destruct demo_reloaded as [[[??]?]?].
    - assert (demo_reloaded.2 = None) as -> by (vm_compute; reflexivity). reflexivity. }
  destruct (r_dhcpEntries demo_reloaded.1.2) as [|e l] eqn:Ee; cbn [take]; [constructor|].
  apply Forall_cons. split; [|by destruct l].
  destruct (reload_history_independent _ _ _ _ (demo_disk demo_new) demo_files _ _ _ 0%nat demo_entry
    demo_entry e demo_booted (rtc_refl _ _) E eq_refl eq_refl) as [[[H _] _] _].
  - by rewrite Ee.
  - transitivity (Dhcp.s_reservations (Dhcp.SetReservations (de_srv demo_entry)
      (default ∅ (e_Reservations demo_new) ∪
       view demo_heap (d_Reservations (scope demo_heap demo_live ScopeLAN))))); [exact H|].
    vm_compute. reflexivity.
Defined.

(** An extras file that is removed does not take the extras with it: the next
    reload makes a new one from the live configuration, which still has them. *)
Example removed_file_keeps_extras :
  let reservations w := Dhcp.s_reservations <$> (de_srv <$> r_dhcpEntries (w_reloader w)) in
  let w := demo_request demo_new demo_world in
  reservations (demo_request_on ∅ empty_extras demo_world) = [{["02:00:00:00:00:01" := [10;0;0;9]]}] ∧
  reservations (demo_request_on ∅ empty_extras w) =
    [{["02:00:00:00:00:01" := [10;0;0;9]; "02:00:00:00:00:05" := [10;0;0;50]]}].
Proof. split; vm_compute; reflexivity. Qed.

(** At start the LAN's server offers the boot file of its scope; a reload of
    extras that ask for extra.efi makes it offer the global one. *)
Example reload_drops_scope_boot_file :
  let srv w := Dhcp.s_pxeBootFile <$> (de_srv <$> r_dhcpEntries (w_reloader w)) in
  let live w := d_PXEBootFile (lan_DHCP (cf_LAN (r_cfg (w_reloader w)))) in
  let w := demo_request demo_extras demo_world in
  srv demo_world = ["scope.efi"] ∧ live w = "extra.efi" ∧ srv w = ["global.efi"].
Proof. vm_compute. done. Qed.
