(* ===== verification/Netboot.v ===== *)
(** * What a client gets after a reload

    The composition of Config, Reload, Dhcp, Pxe and Tftp as one client sees it:
    an entry of the extras file, read by a reload, decides the address and the
    boot file the DHCP server offers, and the file the TFTP server then sends.
    Between the reload and the request any other clients may be served and
    leases may expire. *)

From Stdlib Require Import Ascii.
From S2P Require Import Prelude GoStrings GoStrconv GoNet GoPath Config Saving Pxe Tftp Reload.
From S2P Require Dhcp.
Open Scope Z_scope.

(** ** Traffic between reloads *)

(** The steps of a DHCP server that no operator asked for. *)
Inductive traffic `{U : GoUnicode} : Dhcp.Server → Dhcp.Server → Prop :=
  | traffic_allocate (MO : MapOrder) s r mac s' o evs :
      Dhcp.allocate s r mac = Ret (s', o, evs) → traffic s s'
  | traffic_reap (MO : MapOrder) s now : traffic s (Dhcp.reap s now).1.

(** They change the leases and the next address only. *)
Definition pool_changed (s s' : Dhcp.Server) : Prop :=
  ∃ leases next, s' = Dhcp.set_pool s leases next.

#[export] Instance pool_changed_preorder : PreOrder pool_changed.
Proof.
  split.
  - intros s. exists (Dhcp.s_leases s), (Dhcp.s_nextIP s). by destruct s.
  - intros s1 s2 s3 (l & n & ->) (l' & n' & ->). by exists l', n'.
Qed.

Section traffic.
Context `{U : GoUnicode}.

Lemma allocate_pool `{MO : MapOrder} s r mac s' o evs :
  Dhcp.allocate s r mac = Ret (s', o, evs) → pool_changed s s'.
Proof.
  assert (∀ s' o evs, Dhcp.allocate_new s r mac = Ret (s', o, evs) → pool_changed s s') as Hnew.
  { clear s' o evs. intros s' o evs. unfold Dhcp.allocate_new.
    destruct (Dhcp.scan _ _ _ _ _ _) as [[ip|]| |]; cbn [mbind outcome_bind]; [| |done..].
    - destruct (Dhcp.next_ip s ip) as [next| |]; cbn [mbind outcome_bind]; [|done..]. intros [= <- _ _]. by do 2 eexists.
    - intros [= <- _ _]. reflexivity. }
  unfold Dhcp.allocate. destruct (Dhcp.s_reservations s !! _) as [ip|].
  { intros [= <- _ _]. by do 2 eexists. }
  destruct (Dhcp.s_leases s !! mac) as [l|]; [|by apply Hnew].
  case_if; [intros [= <- _ _]; reflexivity|by apply Hnew].
Qed.

(** Allocation itself sends nothing. *)
Lemma allocate_events `{MO : MapOrder} s r mac s' o evs m p d :
  Dhcp.allocate s r mac = Ret (s', o, evs) → Dhcp.EvSend m p d ∉ evs.
Proof.
  assert (∀ ip x, Dhcp.EvSend m p d ∉ (if Dhcp.s_onLease s then [Dhcp.EvLease ip x] else [])) as He
    by (intros ip x; case_if; set_solver).
  unfold Dhcp.allocate, Dhcp.allocate_new.
  destruct (Dhcp.s_reservations s !! _) as [ip|]; [by intros [= _ _ <-]|].
  assert (∀ found, (match found with
    | None => Ret (s, None, [])
    | Some ip => next ← Dhcp.next_ip s ip;
        Ret (Dhcp.set_pool s (<[mac := {| Dhcp.l_IP := Dhcp.dupIP ip;
               Dhcp.l_Expires := Dhcp.at_grant r + Dhcp.s_lease s |}]> (Dhcp.s_leases s)) next, Some ip,
             if Dhcp.s_onLease s then [Dhcp.EvLease (Dhcp.dupIP ip) mac] else [])
    end) = Ret (s', o, evs) → Dhcp.EvSend m p d ∉ evs) as Hf.
  { intros [ip|]; [|by intros [= _ _ <-] ?%not_elem_of_nil].
    destruct (Dhcp.next_ip s ip); cbn [mbind outcome_bind]; [|done..]. by intros [= _ _ <-]. }
  destruct (Dhcp.s_leases s !! mac) as [l|]; [case_if; [by intros [= _ _ <-] ?%not_elem_of_nil|]|];
    (destruct (Dhcp.scan _ _ _ _ _ _) as [found| |]; cbn [mbind outcome_bind]; [apply Hf|done..]).
Qed.

Lemma traffic_pool s s' : rtc traffic s s' → pool_changed s s'.
Proof.
  induction 1 as [s|s1 s2 s3 H _ IH]; [reflexivity|]. transitivity s2; [|done].
  destruct H as [MO s r mac s' o evs H|MO s now]; [by eapply allocate_pool|by do 2 eexists].
Qed.

(** What a packet sent for a request consists of. *)
Lemma handler_sends `{MO : MapOrder} new_reply others s r peer req s' evs mods packet dst :
  Dhcp.handler new_reply others s r peer req = Ret (s', evs) → Dhcp.EvSend mods packet dst ∈ evs →
  ∃ s1 ip evs1 ty, Dhcp.allocate s r (HardwareAddr_String (Dhcp.q_ClientHWAddr req)) =
      Ret (s1, Some ip, evs1) ∧ s' = others s1 ∧
    mods = Dhcp.reply_modifiers s1 ty ip ++
           Dhcp.replyOptions s' (HardwareAddr_String (Dhcp.q_ClientHWAddr req)) req.
Proof.
  unfold Dhcp.handler. set (mac := HardwareAddr_String _). case_if; [by intros [= <- <-] ?%not_elem_of_nil|].
  destruct (Dhcp.allocate s r mac) as [[[s1 [ip|]] evs1]| |] eqn:E; cbn [mbind outcome_bind].
  - assert (∀ m p d, Dhcp.EvSend m p d ∉ evs1) as Hno by (intros m p d; exact (allocate_events _ _ _ _ _ _ m p d E)).
    assert (∀ ty, (let mods := Dhcp.reply_modifiers s1 ty ip ++ Dhcp.replyOptions (others s1) mac req in
      match new_reply req mods with
      | None => Ret (others s1, evs1)
      | Some packet => Ret (others s1, evs1 ++ [Dhcp.EvSend mods packet (Dhcp.reply_dst peer)])
      end = Ret (s', evs)) → Dhcp.EvSend mods packet dst ∈ evs → s' = others s1 ∧
      mods = Dhcp.reply_modifiers s1 ty ip ++ Dhcp.replyOptions (others s1) mac req) as Hty.
    { intros ty. cbn zeta. destruct (new_reply req _) as [p|]; intros [= <- <-] Hin.
      - apply elem_of_app in Hin as [Hin|Hin]; [by apply Hno in Hin|].
        by apply list_elem_of_singleton in Hin as [= -> _ _].
      - by apply Hno in Hin. }
    repeat case_if; [intros H1 H2..|by intros [= <- <-] ?%not_elem_of_nil];
      destruct (Hty _ H1 H2) as [-> ->]; by do 4 eexists.
  - assert (∀ m p d, Dhcp.EvSend m p d ∉ evs1) as Hno by (intros m p d; exact (allocate_events _ _ _ _ _ _ m p d E)).
    repeat case_if; intros [= <- <-] Hin; try (by apply Hno in Hin); by apply not_elem_of_nil in Hin.
  - by repeat case_if; try intros [= <- <-] ?%not_elem_of_nil.
  - by repeat case_if; try intros [= <- <-] ?%not_elem_of_nil.
Qed.
End traffic.

(** ** The servers after a reload *)

Section reloaded.
Context `{U : GoUnicode} `{MO : MapOrder}.
Context (D : Disk) (fs : files).

(** A daemon that was booted as [w1], ran to [w], and there reloaded. *)
Record reloaded (h0 : heap) (c0 : Config) (w1 w : Reload.world) (h' : heap) (r' : reloader) : Prop := {
  rd_booted : booted h0 c0 w1;
  rd_history : rtc router_step w1 w;
  rd_reload : ∃ fs', Reload D fs (w_heap w) (w_reloader w) = (fs', h', r', None)
}.

Lemma reloaded_entry h0 c0 w1 w h' r' i e' :
  reloaded h0 c0 w1 w h' r' → r_dhcpEntries r' !! i = Some e' →
  ∃ e0 e t, r_dhcpEntries (w_reloader w1) !! i = Some e0 ∧
    r_dhcpEntries (w_reloader w) !! i = Some e ∧ w_clocks w !! i = Some t ∧
    Dhcp.same_config (de_srv e0) (de_srv e').
Proof.
  intros [Hb Hs [fs' Hr]] He'. pose proof (history_running _ _ _ _ Hb Hs) as Hrun.
  assert (running w1 {| w_heap := w_heap w; w_reloader := w_reloader w; w_clocks := w_clocks w |})
    as Hw by (by destruct w).
  pose proof (reload_running w1 D fs _ _ _ Hw) as Hrun'. rewrite Hr in Hrun'.
  assert (∃ t, w_clocks w !! i = Some t) as [t Ht].
  { apply lookup_lt_is_Some. pose proof (rn_length _ _ Hrun') as El. cbn in El. rewrite <-El.
    by eapply lookup_lt_Some. }
  destruct (running_config _ _ _ _ i e' t Hb Hrun' He' Ht) as (e0 & _ & He0 & _ & _ & Hc).
  assert (∃ e, r_dhcpEntries (w_reloader w) !! i = Some e) as [e He].
  { apply lookup_lt_is_Some. rewrite (rn_length _ _ Hrun). by eapply lookup_lt_Some. }
  by exists e0, e, t.
Qed.

(** The reservations and the boot options of a server after a reload. *)
Lemma reloaded_server h0 c0 w1 w h' r' i e0 e' :
  reloaded h0 c0 w1 w h' r' →
  r_dhcpEntries (w_reloader w1) !! i = Some e0 → r_dhcpEntries r' !! i = Some e' →
  let extras := applied_extras D fs (w_heap w) (w_reloader w) in
  let pxe0 := sv_PXE (cf_Services (r_cfg (w_reloader w1))) in
  Dhcp.s_reservations (de_srv e') = Dhcp.s_reservations (Dhcp.SetReservations (de_srv e0)
    (default ∅ (e_Reservations extras) ∪ view h0 (d_Reservations (scope h0 c0 (de_baseScope e0))))) ∧
  (p_Enabled pxe0 = true →
     Dhcp.s_macPXEBootFiles (de_srv e') =
       Dhcp.s_macPXEBootFiles (Dhcp.SetMacPXEBootFiles (de_srv e0)
         (Config.cloneStringMap (e_MacImages extras))) ∧
     Dhcp.s_ipxeBootFile (de_srv e') = first_of [e_IPXEScript extras; "boot.ipxe"] ∧
     Dhcp.s_pxeBootServer (de_srv e') =
       (if String.eqb (de_tftpAddr e0) "" then [] else To4 (ParseIP (de_tftpAddr e0)))).
Proof.
  intros Hr He0 He'. destruct (reloaded_entry _ _ _ _ _ _ i e' Hr He') as (x & e & _ & Hx & He & _ & _).
  destruct (rd_reload _ _ _ _ _ _ Hr) as [fs' Hrel].
  destruct (reload_server_settings _ _ _ _ _ _ _ _ _ i e0 e e' (rd_booted _ _ _ _ _ _ Hr)
    (rd_history _ _ _ _ _ _ Hr) Hrel He0 He He') as [[H1 H2] _].
  split; [exact H1|]. intros Hp. by destruct (H2 Hp) as (images & _ & _ & _ & H3 & H4 & H5).
Qed.

(** The entry of [mac] is the only one for the address [hw].  The images are
    normalized when they enter the configuration and again in the server. *)
Definition sole_image (images : gmap string string) (mac : string) (hw : HardwareAddr) : Prop :=
  Dhcp.normalizeMAC mac = HardwareAddr_String hw ∧
  ∀ mac' img, images !! mac' = Some img →
    Dhcp.normalizeMAC (Dhcp.normalizeMAC mac') = HardwareAddr_String hw → mac' = mac.

Lemma cloned_image images mac img hw :
  images !! mac = Some img → sole_image images mac hw → Forall is_byte hw →
  Config.cloneStringMap (Some images) !! HardwareAddr_String hw = Some img ∧
  Dhcp.only_spelling (Config.cloneStringMap (Some images)) (HardwareAddr_String hw) hw.
Proof.
  intros Hi [Hn Hu] Hhw. pose proof (Dhcp.normalizeMAC_hw hw Hhw) as Hid.
  set (f := λ e : string * string, Some (Config.normalizeMAC e.1, e.2)).
  change (Config.cloneStringMap (Some images)) with (fold_insert f (map_range images) ∅). split.
  - destruct (fold_insert_lookup_some f (map_range images) ∅ (HardwareAddr_String hw))
      as ([m v] & x & Hin & [= Em Ev] & ->).
    { exists (mac, img), img. rewrite elem_of_map_range. split; [done|]. unfold f. cbn. by rewrite <-Hn. }
    apply elem_of_map_range in Hin. assert (m = mac) as ->; [|congruence].
    apply (Hu m v Hin). change (Dhcp.normalizeMAC m) with (Config.normalizeMAC m). by rewrite Em.
  - split; [done|]. intros k v Hk. rewrite Hid. intros Ek.
    destruct (fold_insert_lookup f (map_range images) ∅ k) as [E|([m x] & y & Hin & [= Em Ev] & _)].
    { rewrite E in Hk. done. }
    apply elem_of_map_range in Hin. change (Config.normalizeMAC m) with (Dhcp.normalizeMAC m) in Em.
    rewrite <-Em in Ek |- *. by rewrite (Hu m x Hin Ek).
Qed.

(** The TFTP server after a reload knows the image of the client. *)
Lemma reloaded_images h0 c0 w1 w h' r' px images mac img hw :
  reloaded h0 c0 w1 w h' r' → r_pxeSrv r' = Some px →
  e_MacImages (applied_extras D fs (w_heap w) (w_reloader w)) = Some images → images !! mac = Some img →
  sole_image images mac hw → Forall is_byte hw →
  px_handler px !! HardwareAddr_String hw = Some img.
Proof.
  intros [_ _ [fs' Hr]] Hpx Hm Hi [Hn Hu] Hhw.
  destruct (Reload_ok _ _ _ _ _ _ _ Hr) as (_ & _ & _ & Hp). rewrite Hp in Hpx.
  destruct (r_pxeSrv (w_reloader w)) as [s|]; [|done]. injection Hpx as <-.
  rewrite Hm. cbn [default from_option Pxe.SetDefaultImage Pxe.SetMacImages
    Pxe.set_handler px_handler].
  apply (Pxe.normalized_images_lookup images mac); [done|exact Hn|].
  intros mac' img' Hi' E. apply (Hu mac' img' Hi'). change (Pxe.normalizeMAC mac') with (Dhcp.normalizeMAC mac') in E.
  by rewrite E, Dhcp.normalizeMAC_hw.
Qed.
End reloaded.

(** ** From the request to the file *)

Definition printable (s : string) : Prop := s ≠ "" ∧ Forall (λ b, 32 ≤ b < 127) (to_bytes s).

Lemma printable_no_nul s : printable s → Pxe.no_nul s.
Proof. intros [_ H]. eapply Forall_impl; [exact H|]. cbn. lia. Qed.

Lemma printable_sanitize s : printable s → sanitizeTFTPName s = s.
Proof.
  intros [_ H]. destruct (sanitizeTFTPName_correct s) as (junk & E & Hj & _).
  rewrite E in H. apply Forall_app in H as [_ H]. destruct junk as [|b junk].
  - rewrite app_nil_r in E. symmetry. by apply to_bytes_inj.
  - apply Forall_cons in H as [H _], Hj as [Hj _]. done.
Qed.

Lemma printable_dashed hw : Forall is_byte hw → printable ("01-" +:+ dashed hw).
Proof.
  intros Hhw. split; [done|]. rewrite to_bytes_app. apply Forall_app. split.
  - repeat constructor; vm_compute; congruence.
  - eapply Forall_impl; [by apply dashed_text|]. unfold dash_text_byte. cbn. lia.
Qed.

(** The image is a file of the TFTP root, reached without a link, with the given
    content, and the system can serve it. *)
Definition stored (v : Tftp.world) (root img : string) (content : list Z) : Prop :=
  IsAbs img = false ∧ pathWithinRoot root (Join root img) = true ∧
  ∃ realRoot realFull rel ino,
    wo_eval_root v root = Some realRoot ∧ wo_eval_full v (Join root img) = Some realFull ∧
    pathWithinRoot realRoot realFull = true ∧ Rel realRoot realFull = Some rel ∧
    openTFTPFile (wo_open_root v) (wo_fs v) realRoot rel = Ok ino ∧
    wo_node v ino = File content ∧ wo_stat_ok v = true ∧ wo_listen_ok v = true.

(** The client acknowledges every packet of the transfer within the attempts. *)
Definition responds `{GI : GoInt} (opts : gmap string string) (content : list Z)
    (client : UDPAddr) (rs : list recv) : Prop :=
  let bs := negotiate opts in
  let blocks := S (length content / Z.to_nat bs) in
  if bool_decide (buildOACK opts bs (Z.of_nat (length content)) = [])
  then responsive (dupAddr client) blocks 1 rs else responsive (dupAddr client) (S blocks) 0 rs.

Section wire.
Context `{U : GoUnicode} `{GI : GoInt}.

Lemma serve_stored s v root filename img content opts client rs :
  resolveImage s filename = img → stored v root img content → responds opts content client rs →
  ∃ t' out, serveFile s v root filename opts (new_transfer client)
      {| en_fails := []; en_reads := rs |} = Ret (t', [], out) ∧
    rx_data (received (negotiate opts) (writes out)) = content.
Proof.
  intros Hi (Ha & Hw & realRoot & realFull & rel & ino & H1 & H2 & H3 & H4 & H5 & H6 & H7 & H8) Hr.
  unfold serveFile, resolvePath. rewrite Hi, Ha, Hw, H1, H2, H3, H4. cbn [negb].
  rewrite H5, H7, H8, H6. cbn [negb].
  destruct (serve_node_responsive (wo_other_size v) content opts (new_transfer client) rs Hr) as (b & t' & out & -> & Hd).
  cbn [mbind outcome_bind]. by exists (abort t'), out.
Qed.

Lemma reader_starts s client filename mode opts id :
  printable filename → Pxe.no_nul mode →
  Forall (λ kv, Pxe.no_nul kv.1 ∧ Pxe.no_nul kv.2 ∧ kv.1 ≠ "") opts →
  let key := UDPAddr_String client +:+ "|" +:+ filename in
  px_active s !! key = None →
  ∃ s', reader_step s client (encode_RRQ filename mode opts) id =
      (s', Serve id key filename (option_map_of ∅ opts)) ∧ px_handler s' = px_handler s.
Proof.
  intros Hp Hm Ho key Hk. unfold reader_step.
  rewrite parseRRQ_fields by (done || by apply printable_no_nul).
  rewrite printable_sanitize by done. destruct (String.eqb_spec filename ""); [by destruct Hp|].
  fold key. rewrite Hk.
  assert ((length (encode_RRQ filename mode opts) <? 2)%nat = false) as -> by done.
  assert (uint16_at 0 (encode_RRQ filename mode opts) =? tftpRRQ = true) as -> by done.
  eexists. by split.
Qed.
End wire.

(** ** The theorems *)

(** C7: Netboot works from the extras file to the last byte.  After a successful
    reload of an extras file that assigns an image to a client, every DHCP
    server, whatever other clients it has served since, names that image in each
    packet it sends to the client, unless the client already runs iPXE and gets
    the script; and the TFTP server takes the client's request, for the image or
    for the file named after its MAC address, as one for the image, and sends its
    whole content to a client that answers. *)
Theorem netboot_correct `{U : GoUnicode} `{MO : MapOrder} `{GI : GoInt} D fs
    h0 c0 w1 w h' r' images mac img hw :
  reloaded D fs h0 c0 w1 w h' r' →
  p_Enabled (sv_PXE (cf_Services (r_cfg (w_reloader w1)))) = true →
  e_MacImages (applied_extras D fs (w_heap w) (w_reloader w)) = Some images →
  images !! mac = Some img → sole_image images mac hw →
  length hw = 6%nat → Forall is_byte hw → printable img →
  (∀ i e s others new_reply r peer req s' evs mods packet dst f,
     r_dhcpEntries r' !! i = Some e → rtc traffic (de_srv e) s →
     (∀ x, pool_changed x (others x)) → Dhcp.q_ClientHWAddr req = hw →
     Dhcp.handler new_reply others s r peer req = Ret (s', evs) →
     Dhcp.EvSend mods packet dst ∈ evs →
     Dhcp.OptBootFileName f ∈ mods ↔
       f = if Dhcp.isIPXEClient req
           then first_of [e_IPXEScript (applied_extras D fs (w_heap w) (w_reloader w)); "boot.ipxe"]
           else img) ∧
  (∀ px0 px v root filename content mode opts client id rs,
     r_pxeSrv r' = Some px0 → px_handler px = px_handler px0 →
     filename = img ∧ filenameToMAC img = "" ∨ filename = "01-" +:+ dashed hw →
     Pxe.no_nul mode → Forall (λ kv, Pxe.no_nul kv.1 ∧ Pxe.no_nul kv.2 ∧ kv.1 ≠ "") opts →
     let key := UDPAddr_String client +:+ "|" +:+ filename in
     let opts' := option_map_of ∅ opts in
     px_active px !! key = None → stored v root img content → responds opts' content client rs →
     ∃ px' t' out,
       reader_step px client (encode_RRQ filename mode opts) id = (px', Serve id key filename opts') ∧
       serveFile px' v root filename opts' (new_transfer client) {| en_fails := []; en_reads := rs |} =
         Ret (t', [], out) ∧
       rx_data (received (negotiate opts') (writes out)) = content).
Proof.
  intros Hr Hp Hm Hi Hsole Hlen Hhw Himg. split.
  - intros i e s others new_reply r peer req s' evs mods packet dst f He Htr Hoth Hq Hh Hsend.
    destruct (reloaded_entry _ _ _ _ _ _ _ _ i e Hr He) as (e0 & _ & _ & He0 & _).
    destruct (reloaded_server _ _ _ _ _ _ _ _ i e0 e Hr He0 He) as [_ H].
    destruct (H Hp) as (Hf & Hx & _). rewrite Hm in Hf.
    destruct (cloned_image images mac img hw Hi Hsole Hhw) as [Hc Hu].
    destruct (handler_sends _ _ _ _ _ _ _ _ _ _ _ Hh Hsend) as (s1 & ip & evs1 & ty & Ea & -> & ->).
    assert (pool_changed (de_srv e) (others s1)) as (ls & nx & ->).
    { etrans; [by eapply traffic_pool|]. etrans; [by eapply allocate_pool|]. apply Hoth. }
    cbn [Dhcp.set_pool Dhcp.s_macPXEBootFiles] in *. rewrite Hq, elem_of_app.
    rewrite (Dhcp.mac_file_options (Dhcp.set_pool (de_srv e) ls nx) hw img);
      [|cbn; rewrite Hf; by apply Dhcp.mac_file_lookup with (HardwareAddr_String hw)|apply Himg].
    cbn [Dhcp.set_pool Dhcp.s_ipxeBootFile]. rewrite Hx.
    assert (String.eqb (first_of [e_IPXEScript (applied_extras D fs (w_heap w) (w_reloader w));
      "boot.ipxe"]) "" = false) as ->.
    { rewrite <-or_else_first_of. apply String.eqb_neq. by apply or_else_ne. }
    cbn [negb andb]. split; [|by right]. intros [Hin|Hin]; [|done].
    unfold Dhcp.reply_modifiers in Hin. set_solver.
  - intros px0 px v root filename content mode opts client id rs Hpx Eh Hname Hmode Hopts key opts' Hk Hst Hrs.
    pose proof (reloaded_images _ _ _ _ _ _ _ _ px0 images mac img hw Hr Hpx Hm Hi Hsole Hhw) as Hl.
    assert (printable filename) as Hfn by (destruct Hname as [[-> _]| ->]; [done|by apply printable_dashed]).
    destruct (reader_starts px client filename mode opts id Hfn Hmode Hopts Hk) as (px' & E1 & E2).
    destruct (serve_stored px' v root filename img content opts' client rs) as (t' & out & E3 & E4); [|done..|].
    2: by exists px', t', out.
    unfold resolveImage. destruct Hname as [[-> Hnm]| ->].
    + by rewrite Hnm.
    + rewrite filenameToMAC_dashed by done.
      destruct (String.eqb_spec (HardwareAddr_String hw) "") as [E|_];
        [by apply HardwareAddr_String_ne in E; [|intros ->]|].
      rewrite Pxe.normalizeMAC_text, E2, Eh, Hl by done.
      by destruct (String.eqb_spec img "") as [->|]; [destruct Himg|].
Qed.

(** C8: A reservation in the extras file is what the client gets.  After a
    successful reload every DHCP server of the subnet of the reserved address
    answers the client's DISCOVER and REQUEST, whatever other clients it has
    served since, with exactly that address for the full lease time, offered or
    acknowledged, and no other client then holds a lease of it.  Reservations of
    the base configuration stand beside those of the file, which win. *)
Theorem reservation_after_reload `{U : GoUnicode} `{MO : MapOrder} D fs
    h0 c0 w1 w h' r' i e0 e mac txt hw s new_reply others r peer req ty :
  reloaded D fs h0 c0 w1 w h' r' →
  r_dhcpEntries (w_reloader w1) !! i = Some e0 → r_dhcpEntries r' !! i = Some e →
  let raw := default ∅ (e_Reservations (applied_extras D fs (w_heap w) (w_reloader w))) ∪
             view h0 (d_Reservations (scope h0 c0 (de_baseScope e0))) in
  raw !! mac = Some txt → Dhcp.only_spelling raw mac hw → Forall is_byte hw →
  let ip := To4 (ParseIP txt) in
  ip ≠ [] → IPNet_Contains (Dhcp.subnet (de_srv e0)) ip = true →
  rtc traffic (de_srv e) s → (∀ x, pool_changed x (others x)) →
  Dhcp.q_OpCode req = Dhcp.OpcodeBootRequest → Dhcp.q_ClientHWAddr req = hw →
  Dhcp.q_MessageType req = Dhcp.MessageTypeDiscover ∧ ty = Dhcp.MessageTypeOffer ∨
  Dhcp.q_MessageType req = Dhcp.MessageTypeRequest ∧ ty = Dhcp.MessageTypeAck →
  ∃ s1 options,
    let mods := Dhcp.reply_modifiers (de_srv e0) ty ip ++ options in
    Dhcp.handler new_reply others s r peer req = Ret (others s1,
      Dhcp.lease_event s ip (HardwareAddr_String hw) ++
      match new_reply req mods with
      | Some packet => [Dhcp.EvSend mods packet (Dhcp.reply_dst peer)]
      | None => []
      end) ∧
    (∀ ip', Dhcp.WithYourIP ip' ∉ options) ∧
    ∀ m l, Dhcp.s_leases s1 !! m = Some l → IP_Equal (Dhcp.l_IP l) ip = true →
      m = HardwareAddr_String hw ∧ Dhcp.l_Expires l = Dhcp.at_grant r + Dhcp.s_lease (de_srv e0).
Proof.
  intros Hr He0 He raw Hraw Hu Hhw ip Hip Hc Htr Hoth Hop Hq Hty.
  destruct (reloaded_server _ _ _ _ _ _ _ _ i e0 e Hr He0 He) as [Hres _].
  destruct (reloaded_entry _ _ _ _ _ _ _ _ i e Hr He) as (x & _ & _ & Hx & _ & _ & Hcfg).
  rewrite He0 in Hx. injection Hx as <-.
  pose proof (Dhcp.reserved_lookup (de_srv e0) raw mac txt hw Hraw Hu Hhw Hip Hc) as Hl.
  unfold raw in Hl. rewrite <-Hres in Hl. fold ip in Hl.
  destruct (traffic_pool _ _ Htr) as (ls & nx & ->).
  destruct Hcfg as (C1 & C2 & C3 & C4 & C5 & C6 & C7 & C8).
  unfold Dhcp.handler. rewrite Hop, Hq. unfold Dhcp.allocate. cbn [Dhcp.set_pool Dhcp.s_reservations].
  rewrite Hl. cbn [Z.eqb Dhcp.OpcodeBootRequest Pos.eqb negb mbind outcome_bind].
  set (s1 := Dhcp.set_leases _ _).
  exists s1, (Dhcp.replyOptions (others s1) (HardwareAddr_String hw) req).
  assert (∀ ty, Dhcp.reply_modifiers s1 ty ip = Dhcp.reply_modifiers (de_srv e0) ty ip) as Em.
  { intros ty'. unfold Dhcp.reply_modifiers, s1. cbn. by rewrite C2, C3, C6, C7, C8. }
  split; [|split].
  - destruct Hty as [[-> ->]|[-> ->]]; cbn [Z.eqb Dhcp.MessageTypeDiscover Dhcp.MessageTypeRequest
      Pos.eqb]; rewrite Em; (destruct (new_reply req _); [done|by rewrite app_nil_r]).
  - intros ip'. unfold Dhcp.replyOptions. rewrite elem_of_app. intros [Hin|Hin]; repeat case_match; set_solver.
  - intros m l. unfold s1. cbn [Dhcp.set_leases Dhcp.set_pool Dhcp.s_leases].
    rewrite Dhcp.clearLeasesForIP_filter. intros [[<- <-]|[_ [_ Hf]%map_lookup_filter_Some]]%lookup_insert_Some Hlip.
    + cbn. by rewrite C7.
    + cbn in Hf. congruence.
Qed.

(** ** A client of the demo daemon *)

#[local] Existing Instance ascii_unicode.
#[local] Existing Instance canonical_order.

(** The extras file assigns an address and an image to one client. *)
Definition net_extras : ExtrasConfig :=
  set_e_MacImages demo_new {["02-00-00-00-00-05" := "pi.img"]}.

Definition net_hw : HardwareAddr := [2; 0; 0; 0; 0; 5].

Definition net_reload : heap * reloader * option reload_error :=
  let '(_, h, r, err) := demo_reload net_extras (w_heap demo_world) (w_reloader demo_world) in (h, r, err).

Lemma net_reloaded :
  reloaded (demo_disk net_extras) demo_files demo_heap demo_live demo_world demo_world
    net_reload.1.1 net_reload.1.2.
Proof.
  split; [apply demo_booted|apply rtc_refl|]. exists demo_files.
  assert (net_reload.2 = None) as Hn by (vm_compute; reflexivity).
  assert ((demo_reload net_extras (w_heap demo_world) (w_reloader demo_world)).1.1.1 = demo_files) as Hf
    by (vm_compute; reflexivity).
  unfold net_reload in *. change (Reload (demo_disk net_extras) demo_files) with (demo_reload net_extras).
  destruct (demo_reload net_extras _ _) as [[[fs h] r] err]. cbn in *. congruence.
Qed.

Definition net_fs : fs := {[0%nat := Dir {["pi.img" := 1%nat]}; 1%nat := File [1; 2; 3]]}.

Definition net_world : Tftp.world := {|
  wo_eval_root := Some; wo_eval_full := Some; wo_open_root := λ _, Ok 0%nat;
  wo_fs := λ _, net_fs; wo_node := λ ino, default (File []) (net_fs !! ino);
  wo_stat_ok := true; wo_other_size := 4096; wo_listen_ok := true |}.

Definition net_client : UDPAddr := {| udp_IP := [10; 0; 0; 50]; udp_Port := 2070; udp_Zone := "" |}.

Lemma net_stored : stored net_world "/srv/tftp" "pi.img" [1; 2; 3].
Proof.
  split_and!; [reflexivity|vm_compute; reflexivity|].
  exists "/srv/tftp", "/srv/tftp/pi.img", "pi.img", 1%nat.
  split_and!; vm_compute; reflexivity.
Qed.

Lemma net_responds : responds (GI := int64_arch) ∅ [1; 2; 3] net_client [Packet net_client [0; 4; 0; 1]].
Proof.
  unfold responds. rewrite bool_decide_true by (vm_compute; reflexivity).
  apply (responsive_block net_client 0 1 [] net_client [0; 4; 0; 1] []);
    [constructor|cbn; unfold tftpRetries; lia|vm_compute; reflexivity|vm_compute; reflexivity|constructor].
Qed.

Lemma netboot_correct_witness :
  match r_pxeSrv net_reload.1.2 with
  | Some px => ∃ px' t' out,
      reader_step px net_client (encode_RRQ "01-02-00-00-00-00-05" "octet" []) 0%nat =
        (px', Serve 0%nat "10.0.0.50:2070|01-02-00-00-00-00-05" "01-02-00-00-00-00-05" ∅) ∧
      serveFile (GI := int64_arch) px' net_world "/srv/tftp" "01-02-00-00-00-00-05" ∅ (new_transfer net_client)
        {| en_fails := []; en_reads := [Packet net_client [0; 4; 0; 1]] |} = Ret (t', [], out) ∧
      rx_data (received (negotiate (GI := int64_arch) ∅) (writes out)) = [1; 2; 3]
  | None => False
  end.
Proof.
  destruct (netboot_correct (GI := int64_arch) _ _ _ _ _ _ _ _ {["02-00-00-00-00-05" := "pi.img"]}
    "02-00-00-00-00-05" "pi.img" net_hw net_reloaded) as [_ H].
  - vm_compute. reflexivity.
  - vm_compute. reflexivity.
  - reflexivity.
  - split; [vm_compute; reflexivity|]. intros mac' img [<- _]%lookup_singleton_Some _. reflexivity.
  - reflexivity.
  - repeat constructor; unfold is_byte; lia.
  - split; [done|]. repeat constructor; vm_compute; congruence.
  - destruct (r_pxeSrv net_reload.1.2) as [px|] eqn:E.
    + apply (H px px net_world "/srv/tftp" "01-02-00-00-00-00-05" [1; 2; 3] "octet" [] net_client 0%nat).
      * reflexivity.
      * reflexivity.
      * right. vm_compute. reflexivity.
      * unfold no_nul. repeat constructor; vm_compute; congruence.
      * constructor.
      * revert E. vm_compute. intros [= <-]. reflexivity.
      * exact net_stored.
      * exact net_responds.
    + revert E. vm_compute. discriminate.
Defined.

Definition net_request : Dhcp.Request := {|
  Dhcp.q_OpCode := 1; Dhcp.q_MessageType := Dhcp.MessageTypeRequest; Dhcp.q_ClientHWAddr := net_hw;
  Dhcp.q_Options := λ _, [] |}.

Lemma reservation_after_reload_witness :
  match r_dhcpEntries net_reload.1.2 with
  | [e] => ∃ s1 options,
      Dhcp.handler (λ _ _, Some "packet") id (de_srv e) (Dhcp.instant 9) Dhcp.demo_peer net_request =
        Ret (s1, Dhcp.lease_event (de_srv e) [10; 0; 0; 50] "02:00:00:00:00:05" ++
          [Dhcp.EvSend (Dhcp.reply_modifiers (de_srv demo_entry) Dhcp.MessageTypeAck [10; 0; 0; 50] ++ options)
             "packet" (Dhcp.reply_dst Dhcp.demo_peer)])
  | _ => False
  end.
Proof.
  destruct (r_dhcpEntries net_reload.1.2) as [|e [|? ?]] eqn:E; [revert E; vm_compute; discriminate| |
    revert E; vm_compute; discriminate].
  destruct (reservation_after_reload _ _ _ _ _ _ _ _ 0%nat demo_entry e "02-00-00-00-00-05" "10.0.0.50"
    net_hw (de_srv e) (λ _ _, Some "packet") id (Dhcp.instant 9) Dhcp.demo_peer net_request
    Dhcp.MessageTypeAck net_reloaded) as (s1 & options & H & _).
  - vm_compute. reflexivity.
  - by rewrite E.
  - vm_compute. reflexivity.
  - split; [vm_compute; reflexivity|]. intros mac' v Hm En.
    apply lookup_union_Some_raw in Hm as [Hm|[_ Hm]].
    + revert Hm. change (default _ _) with ({["02-00-00-00-00-05" := "10.0.0.50"]} : gmap string string).
      by intros [<- _]%lookup_singleton_Some.
    + exfalso. revert Hm. change (view _ _) with ({["02:00:00:00:00:01" := "10.0.0.9"]} : gmap string string).
      intros [<- _]%lookup_singleton_Some. revert En. vm_compute. discriminate.
  - repeat constructor; unfold is_byte; lia.
  - vm_compute. discriminate.
  - vm_compute. reflexivity.
  - apply rtc_refl.
  - intros x. reflexivity.
  - reflexivity.
  - reflexivity.
  - right. split; reflexivity.
  - exists s1, options. exact H.
Defined.
