(* ===== verification/ReloadSteps.v ===== *)
(** * cmd/gokrazy-router: a reload at the grain of its calls

    In Reload a reload is one step.  In the program it is a goroutine that calls
    the DHCP servers and the TFTP server one after another, and each call holds
    the lock of its server only for itself: requests are served, and leases
    expire, between any two of them.  Here the calls are the steps.  Every such
    run is one in which the calls are made at once, as Reload makes them, somewhere
    in the traffic; it ends where Reload ends, up to the leases; and what clients
    are offered in the meantime is made precise. *)

From S2P Require Import Prelude GoStrings GoStrconv GoNet Config Saving Pxe Tftp Reload Netboot.
From S2P Require Dhcp.
Open Scope Z_scope.

(** ** Calls *)

Inductive dhcp_call :=
  | CallReservations (m : gmap string string)
  | CallPXEOptions (server file : string)
  | CallLegacyBootFile (file : string)
  | CallUEFIBootFile (file : string)
  | CallIPXEBootFile (file : string)
  | CallMacPXEBootFiles (m : gmap string string).

(** A call of the reload: to the DHCP server of an entry, or to the TFTP server. *)
Inductive call :=
  | DhcpCall (i : nat) (c : dhcp_call)
  | CallMacImages (m : gmap string string)
  | CallDefaultImage (img : string).

Section calls.
Context `{U : GoUnicode} `{MO : MapOrder}.

Definition dhcp_run (s : Dhcp.Server) (c : dhcp_call) : Dhcp.Server :=
  match c with
  | CallReservations m => Dhcp.SetReservations s m
  | CallPXEOptions server file => Dhcp.SetPXEOptions s server file
  | CallLegacyBootFile file => Dhcp.SetLegacyBootFile s file
  | CallUEFIBootFile file => Dhcp.SetUEFIBootFile s file
  | CallIPXEBootFile file => Dhcp.SetIPXEBootFile s file
  | CallMacPXEBootFiles m => Dhcp.SetMacPXEBootFiles s m
  end.

(** The calls of [applyPXEBootOptions]. *)
Definition pxe_calls (pxeEnabled : bool) (tftpServer : string) (macImages : gmap string string)
    (pxeCfg : PXEConfig) : list dhcp_call :=
  if negb pxeEnabled then []
  else
    let bootFile := p_BootFile pxeCfg in
    let bootFile := if String.eqb bootFile "" && negb (String.eqb (p_DefaultImage pxeCfg) "")
                    then p_DefaultImage pxeCfg else bootFile in
    let bootFile := or_else bootFile "netboot.xyz.efi" in
    let legacy := or_else (p_LegacyBootFile pxeCfg) bootFile in
    let uefi := or_else (p_UEFIBootFile pxeCfg) "netboot.xyz.efi" in
    let ipxe := or_else (p_IPXEScript pxeCfg) "boot.ipxe" in
    (if negb (String.eqb tftpServer "") || negb (String.eqb bootFile "")
     then [CallPXEOptions tftpServer bootFile] else []) ++
    [CallLegacyBootFile legacy; CallUEFIBootFile uefi; CallIPXEBootFile ipxe;
     CallMacPXEBootFiles macImages].

(** The body of the loop over the servers. *)
Definition entry_calls (h : heap) (cfg base : Config) (extras : ExtrasConfig) (e : dhcpEntry)
    : list dhcp_call :=
  let res := mergedReservations (view h (d_Reservations (scope h base (de_baseScope e))))
               (default ∅ (e_Reservations extras)) in
  let pxe := sv_PXE (cf_Services cfg) in
  let bs := if p_Enabled pxe then de_tftpAddr e else "" in
  CallReservations res :: pxe_calls (p_Enabled pxe) bs (view h (p_MacImages pxe)) pxe.

(** The loop; [i] is the index of its first server. *)
Fixpoint server_calls (h : heap) (cfg base : Config) (extras : ExtrasConfig) (i : nat)
    (es : list dhcpEntry) : list call :=
  match es with
  | [] => []
  | e :: es => (DhcpCall i <$> entry_calls h cfg base extras e) ++ server_calls h cfg base extras (S i) es
  end.

(** Everything [Reload] calls once the configuration is changed. *)
Definition reload_calls (h : heap) (cfg base : Config) (extras : ExtrasConfig)
    (es : list dhcpEntry) (pxe : option Pxe.Server) : list call :=
  server_calls h cfg base extras 0 es ++
  match pxe with
  | Some _ => [CallMacImages (default ∅ (e_MacImages extras)); CallDefaultImage (e_DefaultImage extras)]
  | None => []
  end.

(** ** Runs *)

(** The servers with the time of each, and the calls the reload has yet to make. *)
Record state := {
  st_servers : list (Dhcp.Server * Z);
  st_pxe : option Pxe.Server;
  st_todo : list call
}.

Definition perform (c : call) (todo : list call) (st : state) : state :=
  match c with
  | DhcpCall i c => {| st_servers := alter (λ p, (dhcp_run p.1 c, p.2)) i (st_servers st);
                       st_pxe := st_pxe st; st_todo := todo |}
  | CallMacImages m => {| st_servers := st_servers st;
                          st_pxe := (λ s, Pxe.SetMacImages s m) <$> st_pxe st; st_todo := todo |}
  | CallDefaultImage img => {| st_servers := st_servers st;
                               st_pxe := (λ s, Pxe.SetDefaultImage s img) <$> st_pxe st; st_todo := todo |}
  end.

(** What a DHCP server does by itself. *)
Inductive serve : Dhcp.Server * Z → Dhcp.Server * Z → Prop :=
  | serve_allocate (MO' : MapOrder) s t r mac s' o evs :
      Dhcp.monotone r → t ≤ Dhcp.at_lookup r → Dhcp.allocate s r mac = Ret (s', o, evs) →
      serve (s, t) (s', Dhcp.at_grant r)
  | serve_reap (MO' : MapOrder) s t now : t ≤ now → serve (s, t) ((Dhcp.reap s now).1, now).

(** The next call of the reload, or something a server does: a DHCP server, the
    reader of the TFTP server, or the end of a transfer. *)
Inductive step : state → state → Prop :=
  | step_call st c todo : st_todo st = c :: todo → step st (perform c todo st)
  | step_serve st i p q :
      st_servers st !! i = Some p → serve p q →
      step st {| st_servers := <[i := q]> (st_servers st); st_pxe := st_pxe st; st_todo := st_todo st |}
  | step_read st s client pkt id :
      st_pxe st = Some s →
      step st {| st_servers := st_servers st; st_pxe := Some (Tftp.reader_step s client pkt id).1;
                 st_todo := st_todo st |}
  | step_finish st s key :
      st_pxe st = Some s →
      step st {| st_servers := st_servers st; st_pxe := Some (Tftp.finish s key); st_todo := st_todo st |}.

(** ** Lemmas: calls *)

Lemma pxe_calls_run s en tftp images p :
  fold_left dhcp_run (pxe_calls en tftp images p) s = applyPXEBootOptions s en tftp images p.
Proof.
  unfold pxe_calls, applyPXEBootOptions. destruct (negb en); [done|]. rewrite fold_left_app.
  by destruct (negb (String.eqb tftp "") || _).
Qed.

(** The calls for a server are the step of Reload. *)
Lemma entry_calls_run h cfg base extras e :
  fold_left dhcp_run (entry_calls h cfg base extras e) (de_srv e) = de_srv (reload_entry h cfg base extras e).
Proof. unfold entry_calls. cbn [fold_left dhcp_run]. apply pxe_calls_run. Qed.

(** A call does not look at the leases. *)
#[export] Instance dhcp_run_pool c : Proper (pool_changed ==> pool_changed) (λ s, dhcp_run s c).
Proof. intros s _ (l & n & ->). exists l, n. by destruct c. Qed.

Lemma pool_changed_files a b : pool_changed a b → Dhcp.s_macPXEBootFiles b = Dhcp.s_macPXEBootFiles a.
Proof. by intros (l & n & ->). Qed.

Lemma dhcp_run_step s t c : Dhcp.step (s, t) (dhcp_run s c, t).
Proof. destruct c; cbn; constructor. Qed.

Lemma serve_step p q : serve p q → Dhcp.step p q ∧ pool_changed p.1 q.1.
Proof.
  destruct 1 as [MO' s t r mac s' o evs Hm Ht Ha|MO' s t now Ht].
  - split; [by eapply Dhcp.step_allocate|by eapply allocate_pool].
  - split; [by apply Dhcp.step_reap|by do 2 eexists].
Qed.

(** ** Lemmas: boot settings and leases do not meet *)

(** The boot settings of a server, all at once. *)
Definition with_boot (v : IP * string * gmap string string * (string * string * string)) (s : Dhcp.Server)
    : Dhcp.Server :=
  let '(server, file, macs, (ipxe, uefi, legacy)) := v in Dhcp.set_boot s server file macs ipxe uefi legacy.

Lemma scan_boot `{MO' : MapOrder} v fuel k s now start ip :
  Dhcp.scan fuel k (with_boot v s) now start ip = Dhcp.scan fuel k s now start ip.
Proof.
  destruct v as [[[a b] m] [[i u] l]].
  induction fuel as [|fuel IH] in k, ip |- *; [done|]. cbn [Dhcp.scan].
  change (Dhcp.isLeasedOrReserved (with_boot (a, b, m, (i, u, l)) s)) with (Dhcp.isLeasedOrReserved s).
  change (Dhcp.next_ip (with_boot (a, b, m, (i, u, l)) s)) with (Dhcp.next_ip s).
  destruct (negb _); [done|]. destruct (Dhcp.next_ip s ip); cbn [mbind outcome_bind]; [|done..].
  destruct (IP_Equal _ _); [done|]. apply IH.
Qed.

(** An allocation does not see the boot settings, and keeps them. *)
Lemma allocate_boot `{MO' : MapOrder} v s r mac s' o evs :
  Dhcp.allocate s r mac = Ret (s', o, evs) →
  Dhcp.allocate (with_boot v s) r mac = Ret (with_boot v s', o, evs).
Proof.
  assert (Dhcp.allocate_new s r mac = Ret (s', o, evs) →
    Dhcp.allocate_new (with_boot v s) r mac = Ret (with_boot v s', o, evs)) as Hnew.
  { unfold Dhcp.allocate_new. rewrite scan_boot. destruct v as [[[a b] m] [[i u] l]].
    change (Dhcp.pool_size (with_boot _ s)) with (Dhcp.pool_size s).
    change (Dhcp.s_nextIP (with_boot _ s)) with (Dhcp.s_nextIP s).
    destruct (Dhcp.scan _ _ _ _ _ _) as [[ip|]| |]; cbn [mbind outcome_bind]; [| |done..].
    - change (Dhcp.next_ip (with_boot _ s)) with (Dhcp.next_ip s).
      destruct (Dhcp.next_ip s ip); cbn [mbind outcome_bind]; [|done..]. by intros [= <- <- <-].
    - by intros [= <- <- <-]. }
  revert Hnew. unfold Dhcp.allocate. destruct v as [[[a b] m] [[i u] l]]. intros Hnew.
  change (Dhcp.s_reservations (with_boot _ s)) with (Dhcp.s_reservations s).
  change (Dhcp.s_leases (with_boot _ s)) with (Dhcp.s_leases s).
  destruct (Dhcp.s_reservations s !! _); [by intros [= <- <- <-]|].
  destruct (Dhcp.s_leases s !! mac); [|done]. destruct (_ <? _); [by intros [= <- <- <-]|done].
Qed.

Lemma serve_boot v p q : serve p q → serve (with_boot v p.1, p.2) (with_boot v q.1, q.2).
Proof.
  destruct 1 as [MO' s t r mac s' o evs Hm Ht Ha|MO' s t now Ht]; cbn [fst snd].
  - eapply serve_allocate; [done|done|]. by apply allocate_boot.
  - destruct v as [[[a b] m] [[i u] l]].
    change (with_boot _ (Dhcp.reap s now).1) with (Dhcp.reap (with_boot (a, b, m, (i, u, l)) s) now).1.
    by apply serve_reap.
Qed.

(** The calls that set something for booting. *)
Definition boot_call (c : dhcp_call) : Prop := match c with CallReservations _ => False | _ => True end.

Lemma boot_call_run c s : boot_call c → ∃ v, ∀ s', pool_changed s s' → dhcp_run s' c = with_boot v s'.
Proof.
  destruct c as [m|srv f|f|f|f|m]; [done|intros _..].
  all: lazymatch goal with
  | |- ∃ v, ∀ s', _ → dhcp_run s' ?c = _ =>
      exists (Dhcp.s_pxeBootServer (dhcp_run s c), Dhcp.s_pxeBootFile (dhcp_run s c),
              Dhcp.s_macPXEBootFiles (dhcp_run s c), (Dhcp.s_ipxeBootFile (dhcp_run s c),
              Dhcp.s_uefiBootFile (dhcp_run s c), Dhcp.s_legacyBootFile (dhcp_run s c)))
  end; by intros s' (l & n & ->).
Qed.

Lemma serve_call c p q : boot_call c → serve p q → serve (dhcp_run p.1 c, p.2) (dhcp_run q.1 c, q.2).
Proof.
  intros Hc H. destruct (boot_call_run c p.1 Hc) as [v Hv].
  rewrite !Hv; [by apply serve_boot|by apply serve_step|reflexivity].
Qed.

(** The calls that go to a server. *)
Definition calls_of (i : nat) (l : list call) : list dhcp_call :=
  omap (λ c, match c with DhcpCall j c => if decide (j = i) then Some c else None | _ => None end) l.

Lemma calls_of_app i l k : calls_of i (l ++ k) = calls_of i l ++ calls_of i k.
Proof. apply omap_app. Qed.

Lemma calls_of_fmap i j l : calls_of i (DhcpCall j <$> l) = if decide (j = i) then l else [].
Proof.
  induction l as [|c l IH]; cbn; [by case_decide|]. unfold calls_of in IH. rewrite IH. by case_decide.
Qed.

Lemma calls_of_before h cfg base extras i n es :
  (i < n)%nat → calls_of i (server_calls h cfg base extras n es) = [].
Proof.
  induction es as [|e es IH] in n |- *; intros Hn; [done|]. cbn [server_calls].
  rewrite calls_of_app, calls_of_fmap, decide_False, IH by lia. done.
Qed.

Lemma calls_of_servers h cfg base extras i n es :
  calls_of (n + i) (server_calls h cfg base extras n es) =
  match es !! i with Some e => entry_calls h cfg base extras e | None => [] end.
Proof.
  induction es as [|e es IH] in n, i |- *; [done|]. cbn [server_calls]. rewrite calls_of_app, calls_of_fmap.
  destruct i as [|i]; cbn [lookup list_lookup].
  - rewrite decide_True, calls_of_before by lia. apply app_nil_r.
  - rewrite decide_False by lia. replace (n + S i)%nat with (S n + i)%nat by lia. apply IH.
Qed.

(** What the reload asks of one server. *)
Lemma calls_of_program h cfg base extras es pxe i :
  calls_of i (reload_calls h cfg base extras es pxe) =
  match es !! i with Some e => entry_calls h cfg base extras e | None => [] end.
Proof.
  unfold reload_calls. rewrite calls_of_app, (calls_of_servers h cfg base extras i 0).
  destruct pxe; cbn; by rewrite app_nil_r.
Qed.

(** ** Lemmas: runs *)

Definition images_run (s : Pxe.Server) (c : call) : Pxe.Server :=
  match c with
  | DhcpCall _ _ => s
  | CallMacImages m => Pxe.SetMacImages s m
  | CallDefaultImage img => Pxe.SetDefaultImage s img
  end.

(** Two states of the TFTP server with the same images. *)
Definition same_images (a b : Pxe.Server) : Prop := px_cfg b = px_cfg a ∧ px_handler b = px_handler a.

Lemma images_run_same c a b : same_images a b → same_images (images_run a c) (images_run b c).
Proof. intros [E1 E2]. destruct c; cbn; [done|by split|]. split; cbn; [by rewrite E1|done]. Qed.

Lemma images_of_servers h cfg base extras i es s :
  fold_left images_run (server_calls h cfg base extras i es) s = s.
Proof.
  induction es as [|e es IH] in i, s |- *; [done|]. cbn [server_calls]. rewrite fold_left_app, IH.
  generalize (entry_calls h cfg base extras e) as l. induction l as [|c l IHl]; [done|]. apply IHl.
Qed.

Lemma reader_step_images s client pkt id : same_images s (Tftp.reader_step s client pkt id).1.
Proof.
  unfold Tftp.reader_step. case_if; [done|]. case_if; [|done]. destruct (Pxe.parseRRQ pkt) as [[f m] o].
  case_if; [done|]. by destruct (px_active s !! _).
Qed.

(** What has happened to a server can be told as if the calls had been made at
    once: traffic, the calls, traffic. *)
Definition linear (cs : list dhcp_call) (p0 p : Dhcp.Server * Z) : Prop :=
  ∃ p1, rtc serve p0 p1 ∧ rtc serve (fold_left dhcp_run cs p1.1, p1.2) p.

Lemma linear_refl p : linear [] p p.
Proof. exists p. split; [apply rtc_refl|]. destruct p. apply rtc_refl. Qed.

Lemma linear_serve cs p0 p q : linear cs p0 p → serve p q → linear cs p0 q.
Proof. intros (p1 & H1 & H2) H. exists p1. split; [done|]. by eapply rtc_r. Qed.

(** A call of a boot setting moves before the traffic that came before it. *)
Lemma linear_call cs p0 p c : boot_call c ∨ cs = [] → linear cs p0 p → linear (cs ++ [c]) p0 (dhcp_run p.1 c, p.2).
Proof.
  intros [Hc| ->] (p1 & H1 & H2).
  - exists p1. split; [done|]. rewrite fold_left_app. cbn.
    apply (rtc_congruence (λ p, (dhcp_run p.1 c, p.2)) serve) in H2; [exact H2|]. intros ??. by apply serve_call.
  - exists p. split; [|apply rtc_refl]. destruct p1 as [s1 t1]. by etrans.
Qed.

Lemma rtc_serve_pool p q : rtc serve p q → pool_changed p.1 q.1 ∧ rtc Dhcp.step p q.
Proof.
  induction 1 as [p|p q x [H1 H2]%serve_step _ [IH1 IH2]]; [split; [reflexivity|apply rtc_refl]|].
  split; [by etrans|by eapply rtc_l].
Qed.

Lemma calls_pool cs a b : pool_changed a b → pool_changed (fold_left dhcp_run cs a) (fold_left dhcp_run cs b).
Proof. induction cs as [|c cs IH] in a, b |- *; [done|]. intros H. by apply IH, dhcp_run_pool. Qed.

Lemma calls_steps cs s t : rtc Dhcp.step (s, t) (fold_left dhcp_run cs s, t).
Proof. induction cs as [|c cs IH] in s |- *; [apply rtc_refl|]. eapply rtc_l; [apply dhcp_run_step|apply IH]. Qed.

Lemma linear_run cs p0 p :
  linear cs p0 p → pool_changed (fold_left dhcp_run cs p0.1) p.1 ∧ rtc Dhcp.step p0 p.
Proof.
  intros ([s1 t1] & [H1 H2]%rtc_serve_pool & [H3 H4]%rtc_serve_pool). split.
  - etrans; [by apply calls_pool|done].
  - etrans; [exact H2|]. etrans; [apply calls_steps|exact H4].
Qed.

(** A program that sets the reservations of a server first. *)
Definition well_ordered (program : list call) : Prop :=
  ∀ i, match calls_of i program with [] => True | _ :: cs => Forall boot_call cs end.

Lemma pxe_calls_boot en tftp images p : Forall boot_call (pxe_calls en tftp images p).
Proof. unfold pxe_calls. destruct (negb en); [constructor|]. case_if; repeat constructor. Qed.

Lemma reload_calls_ordered h cfg base extras es pxe : well_ordered (reload_calls h cfg base extras es pxe).
Proof. intros i. rewrite calls_of_program. destruct (es !! i); [apply pxe_calls_boot|done]. Qed.

Lemma well_ordered_next i done c todo :
  well_ordered (done ++ DhcpCall i c :: todo) → boot_call c ∨ calls_of i done = [].
Proof.
  intros H. specialize (H i). rewrite calls_of_app in H. cbn in H. rewrite decide_True in H by done.
  destruct (calls_of i done) as [|x l]; [by right|left]. cbn in H. apply Forall_app in H as [_ H].
  by apply Forall_cons in H as [H _].
Qed.

(** What holds of every state: which calls were made, and what they and the
    servers themselves have done. *)
Record sound (ss0 : list (Dhcp.Server * Z)) (px0 : option Pxe.Server) (done : list call) (st : state) : Prop := {
  sd_length : length (st_servers st) = length ss0;
  sd_server : ∀ i p0 p, ss0 !! i = Some p0 → st_servers st !! i = Some p → linear (calls_of i done) p0 p;
  sd_pxe : match px0, st_pxe st with
           | Some s0, Some s => same_images (fold_left images_run done s0) s
           | None, None => True
           | _, _ => False
           end
}.

Lemma sound_start ss0 px0 todo :
  sound ss0 px0 [] {| st_servers := ss0; st_pxe := px0; st_todo := todo |}.
Proof.
  split; cbn; [done| |by destruct px0]. intros i p0 p -> [= ->]. apply linear_refl.
Qed.

Lemma calls_of_snoc_other i j c l : i ≠ j → calls_of j (l ++ [DhcpCall i c]) = calls_of j l.
Proof. intros Hne. rewrite calls_of_app. cbn. by rewrite decide_False, app_nil_r. Qed.

Lemma sound_call ss0 px0 done st c todo :
  sound ss0 px0 done st → well_ordered (done ++ c :: todo) → sound ss0 px0 (done ++ [c]) (perform c todo st).
Proof.
  intros [Hl Hs Hp] Hw. destruct c as [i c|m|img]; cbn [perform].
  - split; cbn [st_servers st_pxe]; [by rewrite length_alter| |].
    + intros j p0 p H0 H. rewrite list_lookup_alter in H. case_decide as Ej.
      * subst j. apply fmap_Some in H as (q & Hq & ->). rewrite calls_of_app. cbn. rewrite decide_True by done.
        apply linear_call; [by eapply well_ordered_next|by apply Hs].
      * rewrite calls_of_snoc_other by done. by apply Hs.
    + destruct px0, (st_pxe st); try done. by rewrite fold_left_app.
  - split; cbn [st_servers st_pxe]; [done| |].
    + intros j p0 p H0 H. rewrite calls_of_app, app_nil_r. by apply Hs.
    + destruct px0, (st_pxe st); try done. rewrite fold_left_app. cbn. by apply (images_run_same (CallMacImages m)).
  - split; cbn [st_servers st_pxe]; [done| |].
    + intros j p0 p H0 H. rewrite calls_of_app, app_nil_r. by apply Hs.
    + destruct px0, (st_pxe st); try done. rewrite fold_left_app. cbn. by apply (images_run_same (CallDefaultImage img)).
Qed.

Lemma sound_serve ss0 px0 done st i p q :
  sound ss0 px0 done st → st_servers st !! i = Some p → serve p q →
  sound ss0 px0 done {| st_servers := <[i := q]> (st_servers st); st_pxe := st_pxe st; st_todo := st_todo st |}.
Proof.
  intros [Hl Hs Hp] Hi Hserve. split; cbn [st_servers st_pxe]; [by rewrite length_insert| |done].
  intros j p0 p' H0 H. apply list_lookup_insert_Some in H as [(-> & -> & _)|[_ H]]; [|by apply Hs].
  eapply linear_serve; [by apply Hs|done].
Qed.

Lemma sound_pxe ss0 px0 done st s s' :
  sound ss0 px0 done st → st_pxe st = Some s → same_images s s' →
  sound ss0 px0 done {| st_servers := st_servers st; st_pxe := Some s'; st_todo := st_todo st |}.
Proof.
  intros [Hl Hs Hp] Es [E1 E2]. split; [done|done|]. cbn [st_pxe]. rewrite Es in Hp. destruct px0; [|done].
  destruct Hp as [? ?]. split; congruence.
Qed.

(** The calls made and the calls to come are the program. *)
Definition tracked (ss0 : list (Dhcp.Server * Z)) (px0 : option Pxe.Server) (program : list call)
    (st : state) : Prop := ∃ done, program = done ++ st_todo st ∧ sound ss0 px0 done st.

Lemma step_tracked ss0 px0 program st st' :
  well_ordered program → tracked ss0 px0 program st → step st st' → tracked ss0 px0 program st'.
Proof.
  intros Hw (done & -> & Hs) H.
  destruct H as [st c todo E|st i p q Hi Hq|st s client pkt id Es|st s key Es].
  - exists (done ++ [c]). split; [by rewrite <-app_assoc, E; destruct c|].
    apply sound_call; [done|]. by rewrite <-E.
  - exists done. split; [done|]. by eapply sound_serve.
  - exists done. split; [done|]. eapply sound_pxe; [done|done|]. apply reader_step_images.
  - exists done. split; [done|]. by eapply sound_pxe.
Qed.

Lemma run_tracked ss0 px0 program st :
  well_ordered program →
  rtc step {| st_servers := ss0; st_pxe := px0; st_todo := program |} st → tracked ss0 px0 program st.
Proof.
  intros Hw H. assert (tracked ss0 px0 program {| st_servers := ss0; st_pxe := px0; st_todo := program |}) as H0.
  { exists []. split; [done|apply sound_start]. }
  remember {| st_servers := ss0; st_pxe := px0; st_todo := program |} as st0. clear Heqst0.
  induction H as [|st0 st1 st Hstep _ IH]; [done|]. by apply IH, (step_tracked _ _ _ st0 st1 Hw).
Qed.

(** The reload can always go on: no call waits for anything but a lock. *)
Lemma reload_completes st : ∃ st', nsteps step (length (st_todo st)) st st' ∧ st_todo st' = [].
Proof.
  remember (st_todo st) as l eqn:E. induction l as [|c l IH] in st, E |- *.
  { exists st. split; [constructor|done]. }
  destruct (IH (perform c l st)) as (st' & H & Ht); [by destruct c|].
  exists st'. split; [|done]. econstructor; [by apply step_call|done].
Qed.

(** The next calls of the reload, without any traffic. *)
Fixpoint perform_calls (n : nat) (st : state) : state :=
  match n, st_todo st with
  | S n, c :: todo => perform_calls n (perform c todo st)
  | _, _ => st
  end.

Lemma perform_calls_run n st : rtc step st (perform_calls n st).
Proof.
  induction n as [|n IH] in st |- *; [apply rtc_refl|]. cbn [perform_calls].
  destruct (st_todo st) as [|c todo] eqn:E; [apply rtc_refl|]. eapply rtc_l; [by apply step_call|apply IH].
Qed.

(** ** What clients are offered meanwhile *)

(** The boot files that a server with PXE always has. *)
Definition files_set (s : Dhcp.Server) : Prop :=
  Dhcp.s_ipxeBootFile s ≠ "" ∧ Dhcp.s_uefiBootFile s ≠ "" ∧ Dhcp.s_legacyBootFile s ≠ "".

Lemma applyPXEBootOptions_files s tftp images p : files_set (applyPXEBootOptions s true tftp images p).
Proof.
  unfold applyPXEBootOptions, files_set. cbn -[or_else]. split_and!; apply or_else_ne; try done.
  by repeat apply or_else_ne.
Qed.

(** So do the servers main starts, and those of every reload. *)
Lemma applyDHCPOptions_files h s d tftp images p : files_set (applyDHCPOptions h s d true tftp images p).
Proof. unfold applyDHCPOptions. cbn [negb]. apply applyPXEBootOptions_files. Qed.

Lemma reload_entry_files h cfg base extras e :
  p_Enabled (sv_PXE (cf_Services cfg)) = true → files_set (de_srv (reload_entry h cfg base extras e)).
Proof. intros H. unfold reload_entry. cbn [de_srv]. rewrite H. apply applyPXEBootOptions_files. Qed.

(** A state between two others: each file is that of one of them, and the files
    of the clients change last. *)
Definition between (o n s : Dhcp.Server) : Prop :=
  Dhcp.s_ipxeBootFile s ∈ [Dhcp.s_ipxeBootFile o; Dhcp.s_ipxeBootFile n] ∧
  Dhcp.s_uefiBootFile s ∈ [Dhcp.s_uefiBootFile o; Dhcp.s_uefiBootFile n] ∧
  Dhcp.s_legacyBootFile s ∈ [Dhcp.s_legacyBootFile o; Dhcp.s_legacyBootFile n] ∧
  (Dhcp.s_macPXEBootFiles s = Dhcp.s_macPXEBootFiles o ∨
   Dhcp.s_macPXEBootFiles s = Dhcp.s_macPXEBootFiles n ∧
   Dhcp.s_ipxeBootFile s = Dhcp.s_ipxeBootFile n ∧ Dhcp.s_uefiBootFile s = Dhcp.s_uefiBootFile n ∧
   Dhcp.s_legacyBootFile s = Dhcp.s_legacyBootFile n).

(** The new general files with the old files of the clients. *)
Definition mixed (o n : Dhcp.Server) : Dhcp.Server :=
  Dhcp.set_boot n (Dhcp.s_pxeBootServer n) (Dhcp.s_pxeBootFile n) (Dhcp.s_macPXEBootFiles o)
    (Dhcp.s_ipxeBootFile n) (Dhcp.s_uefiBootFile n) (Dhcp.s_legacyBootFile n).

Lemma select_files s mac req : files_set s →
  Dhcp.select_boot_file s mac req =
    if Dhcp.isIPXEClient req then Dhcp.s_ipxeBootFile s
    else match Dhcp.s_macPXEBootFiles s !! Dhcp.normalizeMAC mac with
         | Some f => f
         | None => if Dhcp.isUEFIClient req then Dhcp.s_uefiBootFile s else Dhcp.s_legacyBootFile s
         end.
Proof.
  intros (H1 & H2 & H3). unfold Dhcp.select_boot_file.
  by rewrite !(proj2 (String.eqb_neq _ _)) by done.
Qed.

Lemma between_offers o n s mac req :
  files_set o → files_set n → between o n s →
  Dhcp.select_boot_file s mac req ∈
    [Dhcp.select_boot_file o mac req; Dhcp.select_boot_file n mac req;
     Dhcp.select_boot_file (mixed o n) mac req].
Proof.
  intros Ho Hn (Hi & Hu & Hl & Hm).
  assert (files_set s) as Hs.
  { destruct Ho as (? & ? & ?), Hn as (? & ? & ?). unfold files_set. set_unfold. intuition congruence. }
  rewrite !select_files by done. cbn [mixed Dhcp.set_boot Dhcp.s_ipxeBootFile Dhcp.s_uefiBootFile
    Dhcp.s_legacyBootFile Dhcp.s_macPXEBootFiles].
  destruct Hm as [->|(-> & -> & -> & ->)]; [|set_solver].
  destruct (Dhcp.isIPXEClient req); [set_solver|].
  destruct (Dhcp.s_macPXEBootFiles o !! _); [set_solver|]. destruct (Dhcp.isUEFIClient req); set_solver.
Qed.

Lemma between_refl s n : between s n s.
Proof. unfold between. split_and!; [set_solver..|by left]. Qed.

Lemma prefix_cons_cases {A} (cs : list A) x l :
  cs `prefix_of` x :: l → cs = [] ∨ ∃ cs', cs = x :: cs' ∧ cs' `prefix_of` l.
Proof.
  destruct cs as [|y cs]; [by left|]. intros H. right. exists cs.
  split; [by rewrite (prefix_cons_inv_1 _ _ _ _ H)|by eapply prefix_cons_inv_2].
Qed.

(** After any of its calls a server is between its old and its new state. *)
Lemma entry_calls_between h cfg base extras e cs :
  p_Enabled (sv_PXE (cf_Services cfg)) = true →
  cs `prefix_of` entry_calls h cfg base extras e →
  between (de_srv e) (de_srv (reload_entry h cfg base extras e)) (fold_left dhcp_run cs (de_srv e)).
Proof.
  intros Hen. rewrite <-entry_calls_run. unfold entry_calls, pxe_calls. rewrite Hen. cbn [negb].
  destruct (negb (String.eqb (de_tftpAddr e) "") || _); cbn [app];
    repeat (intros [->|(? & -> & H)]%prefix_cons_cases; [|revert H]);
    try (intros ->%prefix_nil_inv); cbn [fold_left dhcp_run]; unfold between; cbn;
    (split_and!; [set_solver..|]); first [by left|by right].
Qed.

(** Without PXE only the reservations change. *)
Lemma entry_calls_no_pxe h cfg base extras e cs mac req :
  p_Enabled (sv_PXE (cf_Services cfg)) = false →
  cs `prefix_of` entry_calls h cfg base extras e →
  Dhcp.select_boot_file (fold_left dhcp_run cs (de_srv e)) mac req = Dhcp.select_boot_file (de_srv e) mac req.
Proof.
  intros Hen. unfold entry_calls, pxe_calls. rewrite Hen. cbn [negb].
  intros [->|(? & -> & ->%prefix_nil_inv)]%prefix_cons_cases; done.
Qed.

(** What a server offers after any of the calls. *)
Lemma entry_calls_offers h cfg base extras e cs s mac req :
  cs `prefix_of` entry_calls h cfg base extras e → pool_changed (fold_left dhcp_run cs (de_srv e)) s →
  files_set (de_srv e) →
  let e' := reload_entry h cfg base extras e in
  Dhcp.select_boot_file s mac req ∈
    [Dhcp.select_boot_file (de_srv e) mac req; Dhcp.select_boot_file (de_srv e') mac req;
     Dhcp.select_boot_file (mixed (de_srv e) (de_srv e')) mac req].
Proof.
  intros Hcs (l & n & ->) Hf e'.
  change (Dhcp.select_boot_file (Dhcp.set_pool ?x l n) mac req) with (Dhcp.select_boot_file x mac req).
  destruct (p_Enabled (sv_PXE (cf_Services cfg))) eqn:Hen.
  - apply between_offers; [done| |by apply entry_calls_between].
    by apply reload_entry_files.
  - rewrite (entry_calls_no_pxe h cfg base extras e cs mac req Hen Hcs). by left.
Qed.

(** The calls to the TFTP server are the last ones. *)
Lemma images_prefix h cfg base extras i es l s cs :
  cs `prefix_of` server_calls h cfg base extras i es ++ l →
  ∃ l', l' `prefix_of` l ∧ fold_left images_run cs s = fold_left images_run l' s.
Proof.
  assert (∀ ls cs, Forall (λ c, ∃ i d, c = DhcpCall i d) ls → cs `prefix_of` ls ++ l →
    ∃ l', l' `prefix_of` l ∧ fold_left images_run cs s = fold_left images_run l' s) as H.
  { induction ls as [|x ls IH]; intros cs' Hls Hp; [by exists cs'|].
    apply Forall_cons in Hls as [(j & d & ->) Hls].
    apply prefix_cons_cases in Hp as [->|(cs0 & -> & Hp)]; [|exact (IH cs0 Hls Hp)].
    exists []. split; [apply prefix_nil|done]. }
  apply H. induction es as [|e es IH] in i |- *; cbn [server_calls]; [constructor|].
  apply Forall_app. split; [|apply IH]. apply Forall_forall. intros c (d & -> & _)%list_elem_of_fmap. by do 2 eexists.
Qed.

Lemma same_images_resolve a b f : same_images a b → resolveImage b f = resolveImage a f.
Proof. intros [E1 E2]. unfold resolveImage. by rewrite E1, E2. Qed.

(** What it resolves after any of the calls. *)
Lemma images_offers h cfg base extras es o cs s :
  cs `prefix_of` reload_calls h cfg base extras es (Some o) → same_images (fold_left images_run cs o) s →
  let n := Pxe.SetDefaultImage (Pxe.SetMacImages o (default ∅ (e_MacImages extras))) (e_DefaultImage extras) in
  ∀ f, resolveImage s f ∈ [resolveImage o f; resolveImage n f; resolveImage (Pxe.set_handler o (px_handler n)) f].
Proof.
  intros Hcs Hs n f. apply images_prefix with (s := o) in Hcs as (l & Hl & E). rewrite E in Hs.
  rewrite (same_images_resolve _ _ f Hs).
  apply prefix_cons_cases in Hl as [->|(l1 & -> & Hl)]; [by left|].
  apply prefix_cons_cases in Hl as [->|(l2 & -> & ->%prefix_nil_inv)].
  - right. right. by left.
  - right. by left.
Qed.

Context (D : Disk) (fs : files).

(** The reload after it has changed the configuration, before its first call. *)
Definition reload_begun (h : heap) (r : reloader) (ts : list Z) (h' : heap) (r' : reloader) : state := {|
  st_servers := zip (de_srv <$> r_dhcpEntries r) ts;
  st_pxe := r_pxeSrv r;
  st_todo := reload_calls h' (r_cfg r') (r_base r) (applied_extras D fs h r) (r_dhcpEntries r) (r_pxeSrv r) |}.

Lemma begun_server h r ts h' r' i p :
  st_servers (reload_begun h r ts h' r') !! i = Some p →
  ∃ e t, r_dhcpEntries r !! i = Some e ∧ ts !! i = Some t ∧ p = (de_srv e, t).
Proof.
  destruct p as [s t]. cbn. intros [(e & -> & He)%list_lookup_fmap_Some Ht]%lookup_zip_Some. by exists e, t.
Qed.

(** The servers of a reload do not decide whether it succeeds. *)
Lemma reload_set_entries h r fs' h' r' es : Reload D fs h r = (fs', h', r', None) →
  Reload D fs h (set_entries r es) =
    (fs', h', set_entries r' (map (reload_entry h' (r_cfg r') (r_base r) (applied_extras D fs h r)) es), None).
Proof.
  unfold Reload, reload_with, applied_extras. cbn [set_entries r_extrasPath r_cfg r_base r_dhcpEntries r_pxeSrv].
  change (checkRestartRequired h (set_entries r es)) with (checkRestartRequired h r).
  destruct (String.eqb _ _); [done|]. destruct (loadOrCreateExtras _ _ _ _ _) as [fs1 [x|x]]; cbn [snd].
  all: destruct (checkRestartRequired _ _ _); [done|]; destruct (ApplyExtras _ _ _) as [h1 cfg].
  all: by intros [= <- <- <-].
Qed.

(** An entry whose server has been left to its traffic. *)
Definition served (p q : dhcpEntry * Z) : Prop :=
  q.1 = set_server p.1 (de_srv q.1) ∧ rtc serve (de_srv p.1, p.2) (de_srv q.1, q.2).

Lemma linear_served h cfg base extras e t p :
  linear (entry_calls h cfg base extras e) (de_srv e, t) p →
  ∃ et, served (e, t) et ∧ rtc serve (de_srv (reload_entry h cfg base extras et.1), et.2) p.
Proof.
  intros ([s1 t1] & H1 & H2). exists (set_server e s1, t1). split; [done|].
  by rewrite <-entry_calls_run.
Qed.

Lemma linear_all h cfg base extras es ts ss :
  length ts = length es → length ss = length es →
  (∀ i e t p, es !! i = Some e → ts !! i = Some t → ss !! i = Some p →
     linear (entry_calls h cfg base extras e) (de_srv e, t) p) →
  ∃ ets, Forall2 served (zip es ts) ets ∧
    Forall2 (rtc serve) (zip (de_srv <$> map (reload_entry h cfg base extras) ets.*1) ets.*2) ss.
Proof.
  induction es as [|e es IH] in ts, ss |- *; intros Ht Hs H;
    destruct ts as [|t ts], ss as [|p ss]; try discriminate; [by exists []|].
  destruct (IH ts ss) as (ets & H1 & H2); [by injection Ht|by injection Hs|intros i; apply (H (S i))|].
  destruct (linear_served h cfg base extras e t p) as (et & H3 & H4); [by apply (H 0%nat)|].
  exists (et :: ets). by split; constructor.
Qed.

(** When the calls are made, the run is one with the reload in a single step. *)
Lemma run_linearized h r ts fs' h' r' st :
  Reload D fs h r = (fs', h', r', None) → length ts = length (r_dhcpEntries r) →
  sound (zip (de_srv <$> r_dhcpEntries r) ts) (r_pxeSrv r)
    (reload_calls h' (r_cfg r') (r_base r) (applied_extras D fs h r) (r_dhcpEntries r) (r_pxeSrv r)) st →
  ∃ ets r1, Forall2 served (zip (r_dhcpEntries r) ts) ets ∧
    Reload D fs h (set_entries r ets.*1) = (fs', h', r1, None) ∧
    Forall2 (rtc serve) (zip (de_srv <$> r_dhcpEntries r1) ets.*2) (st_servers st).
Proof.
  intros Hr Hlen [Hl Hs _].
  destruct (linear_all h' (r_cfg r') (r_base r) (applied_extras D fs h r) (r_dhcpEntries r) ts (st_servers st))
    as (ets & H1 & H2); [done|..].
  - rewrite Hl, length_zip, length_fmap. lia.
  - intros i e t p He Ht Hp. specialize (Hs i (de_srv e, t) p). rewrite calls_of_program, He in Hs.
    apply Hs; [|done]. apply lookup_zip_Some. by rewrite list_lookup_fmap, He.
  - exists ets. eexists. split; [done|]. split; [by apply reload_set_entries|done].
Qed.

(** C10: A reload that runs beside the traffic of the servers implements the
    one-step reload of Reload.  However its calls interleave with requests,
    expiries and transfers: it can always finish, with exactly the calls that are
    left.  When they are made, the run is linearizable: the DHCP servers are where
    some traffic, then Reload in one step, then some traffic bring them, and so in
    the state of the one-step reload up to their leases; the TFTP server is in the
    state of the one-step reload up to its transfers.  All along every server is a
    run of the DHCP component.  In the meantime a client is offered the boot file
    of the old or of the new configuration, or of the new one without the images
    it gives to clients; the TFTP server resolves a name as before, as after, or
    with the new images and the old default. *)
Theorem reload_steps_correct h r ts fs' h' r' st :
  Reload D fs h r = (fs', h', r', None) → length ts = length (r_dhcpEntries r) →
  rtc step (reload_begun h r ts h' r') st →
  (∃ st', nsteps step (length (st_todo st)) st st' ∧ st_todo st' = []) ∧
  (st_todo st = [] → ∃ ets r1, Forall2 served (zip (r_dhcpEntries r) ts) ets ∧
     Reload D fs h (set_entries r ets.*1) = (fs', h', r1, None) ∧
     Forall2 (rtc serve) (zip (de_srv <$> r_dhcpEntries r1) ets.*2) (st_servers st)) ∧
  (∀ i e e' t0, r_dhcpEntries r !! i = Some e → r_dhcpEntries r' !! i = Some e' → ts !! i = Some t0 →
     ∃ s t, st_servers st !! i = Some (s, t) ∧ rtc Dhcp.step (de_srv e, t0) (s, t) ∧
     (st_todo st = [] → pool_changed (de_srv e') s) ∧
     (files_set (de_srv e) → ∀ mac req, Dhcp.select_boot_file s mac req ∈
        [Dhcp.select_boot_file (de_srv e) mac req; Dhcp.select_boot_file (de_srv e') mac req;
         Dhcp.select_boot_file (mixed (de_srv e) (de_srv e')) mac req])) ∧
  match r_pxeSrv r, r_pxeSrv r', st_pxe st with
  | Some o, Some n, Some s =>
      (st_todo st = [] → same_images n s) ∧
      ∀ f, resolveImage s f ∈ [resolveImage o f; resolveImage n f;
                               resolveImage (Pxe.set_handler o (px_handler n)) f]
  | None, None, None => True
  | _, _, _ => False
  end.
Proof.
  intros Hr Hlen Hrun. destruct (Reload_ok _ _ _ _ _ _ _ Hr) as (_ & _ & Ee & Ep).
  apply run_tracked in Hrun as (cs & Hcs & Hsound); [|apply reload_calls_ordered].
  pose proof Hsound as [Hl Hs Hp]. split; [apply reload_completes|]. split; [|split].
  - intros Htodo. rewrite Htodo, app_nil_r in Hcs. rewrite <-Hcs in Hsound. by eapply run_linearized.
  - intros i e e' t0 He He' Ht. rewrite Ee, list_lookup_fmap, He in He'. injection He' as <-.
    assert (zip (de_srv <$> r_dhcpEntries r) ts !! i = Some (de_srv e, t0)) as H0.
    { apply lookup_zip_Some. by rewrite list_lookup_fmap, He. }
    destruct (lookup_lt_is_Some_2 (st_servers st) i) as [[s t] Hi].
    { rewrite Hl. by eapply lookup_lt_Some. }
    destruct (linear_run _ _ _ (Hs i _ _ H0 Hi)) as [Hpool Hsteps]. exists s, t. split_and!; [done|done| |].
    all: pose proof (calls_of_program h' (r_cfg r') (r_base r) (applied_extras D fs h r) (r_dhcpEntries r) (r_pxeSrv r) i) as Hprog;
      rewrite He, Hcs, calls_of_app in Hprog.
    + intros Htodo. rewrite Htodo in Hprog. cbn in Hprog. rewrite app_nil_r in Hprog.
      rewrite Hprog in Hpool. cbn [fst] in Hpool. by rewrite entry_calls_run in Hpool.
    + intros Hf mac req. eapply entry_calls_offers; [|exact Hpool|done]. by eexists.
  - rewrite Ep. destruct (r_pxeSrv r) as [o|]; cbn [option_map]; destruct (st_pxe st) as [s|]; try done. split.
    + intros Htodo. rewrite Htodo, app_nil_r in Hcs. subst cs. unfold reload_calls in Hp.
      by rewrite fold_left_app, images_of_servers in Hp.
    + eapply images_offers; [|done]. by eexists.
Qed.
End calls.

(** ** On the demo daemon *)

#[local] Existing Instance ascii_unicode.
#[local] Existing Instance canonical_order.

(** The reload that gives a client an image, after some of its calls. *)
Definition demo_steps (n : nat) : state :=
  perform_calls n (reload_begun (demo_disk net_extras) demo_files
    (w_heap demo_world) (w_reloader demo_world) [0] net_reload.1.1 net_reload.1.2).

(** What the LAN's server offers to that client. *)
Definition demo_offer (n : nat) : option string :=
  (λ p, Dhcp.select_boot_file p.1 "02:00:00:00:00:05" net_request) <$> st_servers (demo_steps n) !! 0%nat.

(** Before the reload the file of the scope, after it the image of the client;
    in between the new general file, which neither configuration gives it. *)
Example offer_torn :
  demo_offer 0 = Some "scope.efi" ∧ demo_offer 4 = Some "global.efi" ∧ demo_offer 6 = Some "pi.img" ∧
  st_todo (demo_steps 8) = [].
Proof. by vm_compute. Qed.

(** The LAN's server after the one-step reload. *)
Definition net_entry : dhcpEntry := default demo_entry (head (r_dhcpEntries net_reload.1.2)).

Lemma reload_steps_correct_witness :
  ∃ s t, st_servers (demo_steps 8) !! 0%nat = Some (s, t) ∧ rtc Dhcp.step (de_srv demo_entry, 0) (s, t) ∧
    Dhcp.s_macPXEBootFiles s = {["02:00:00:00:00:05" := "pi.img"]}.
Proof.
  destruct (reload_steps_correct (demo_disk net_extras) demo_files
    (w_heap demo_world) (w_reloader demo_world) [0] demo_files net_reload.1.1 net_reload.1.2 (demo_steps 8))
    as (_ & _ & H & _); [by destruct net_reloaded as [_ _ [fs' E]]; rewrite E|reflexivity|apply perform_calls_run|].
  destruct (H 0%nat demo_entry net_entry 0) as (s & t & H1 & H2 & H3 & _);
    [vm_compute; reflexivity|vm_compute; reflexivity|reflexivity|].
  exists s, t. split; [exact H1|]. split; [exact H2|].
  rewrite (pool_changed_files _ _ (H3 ltac:(vm_compute; reflexivity))).
  vm_compute. reflexivity.
Defined.
