(* ===== verification/Smb.v ===== *)
(** * pkg/smb: the Samba share

    Validation of names, passwords, paths and interfaces; the generated
    smb.conf; the start of smbd or of the portable server and the creation of
    the users.  The operating system (files, processes) is an oracle that sees
    everything done so far; what the package asks of it is recorded. *)

From Stdlib Require Import Ascii.
From S2P Require Import Prelude GoStrings GoStrconv GoNet Config.
From S2P Require GoPath.
Open Scope Z_scope.

(** ** State *)

(** A process: the binary, its arguments, what is added to the environment and
    what is written to its standard input. *)
Record command := {
  c_bin : string;
  c_args : list string;
  c_env : list string;
  c_stdin : string
}.

(** [s_cmd] is the command and whether its process was started. *)
Record Server := {
  s_cfg : SMBConfig;
  s_cmd : option (command * bool);
  s_isSamba : bool;
  s_extraUsers : list SMBUser
}.

Definition New (cfg : SMBConfig) : Server :=
  {| s_cfg := cfg; s_cmd := None; s_isSamba := false; s_extraUsers := [] |}.

Definition SetExtraUsers (s : Server) (users : list SMBUser) : Server :=
  {| s_cfg := s_cfg s; s_cmd := s_cmd s; s_isSamba := s_isSamba s; s_extraUsers := users |}.

Definition set_cmd (s : Server) (c : option (command * bool)) (samba : bool) : Server :=
  {| s_cfg := s_cfg s; s_cmd := c; s_isSamba := samba; s_extraUsers := s_extraUsers s |}.

(** ** Validation *)

Inductive invalid := Empty | TooLong | BadCharacter | EmptyPassword | LongPassword | ControlCharacter.

Definition alnum (r : Z) : bool := in_range 97 122 r || in_range 65 90 r || in_range 48 57 r.

(** The test of one rune, at index [i]. *)
Definition simple_rune (ir : nat * Z) : bool :=
  let '(i, r) := ir in
  let dot := (r =? 46) || (r =? 95) || (r =? 45) in
  let ok := if (i =? 0)%nat && dot then false else dot in
  ok || alnum r.

Definition validateSimpleName (name : string) : option invalid :=
  if String.eqb name "" then Some Empty
  else if (32 <? String.length name)%nat then Some TooLong
  else if forallb simple_rune (range_runes name) then None
  else Some BadCharacter.

(** A line break or another control character but the tab. *)
Definition control (r : Z) : bool :=
  (r =? 10) || (r =? 13) || ((r <? 32) && negb (r =? 9)) || (r =? 127).

Definition no_control (s : string) : bool := forallb (λ ir, negb (control ir.2)) (range_runes s).

Definition validateUser (name password : string) : option invalid :=
  match validateSimpleName name with
  | Some e => Some e
  | None =>
      if String.eqb password "" then Some EmptyPassword
      else if (128 <? String.length password)%nat then Some LongPassword
      else if no_control password then None else Some ControlCharacter
  end.

Definition validatePath (p : string) : option invalid :=
  if String.eqb p "" then Some Empty else if no_control p then None else Some ControlCharacter.

Definition bad_interface_rune (r : Z) : bool :=
  (r =? 10) || (r =? 13) || (r =? 59) || (r =? 91) || (r =? 93) || (r <? 32) || (r =? 127).

Definition validateInterface (host : string) : option invalid :=
  if forallb (λ ir, negb (bad_interface_rune ir.2)) (range_runes host) then None
  else Some BadCharacter.

(** ** The configuration file *)

Definition conf_head : string :=
"[global]
workgroup = WORKGROUP
server role = standalone server
security = user
map to guest = never
min protocol = SMB2
passdb backend = tdbsam:/tmp/smbpassdb.tdb
pid directory = /tmp
lock directory = /tmp
state directory = /tmp
cache directory = /tmp
private dir = /tmp".

(** [confTemplate] executed. *)
Definition render (iface share path users : string) : string :=
  conf_head +:+
  (if String.eqb iface "" then "" else
"
interfaces = " +:+ iface +:+ "
bind interfaces only = yes") +:+ "
server min protocol = SMB2_10
server max protocol = SMB3_11

[" +:+ share +:+ "]
path = " +:+ path +:+ "
valid users = " +:+ users +:+ "
read only = no
browsable = yes
guest ok = no
".

(** ** The operating system *)

Inductive effect :=
  | MkdirAll (path : string)
  | WriteFile (path text : string)
  | Run (c : command)            (* started, fed and waited for *)
  | StartProcess (c : command)
  | SignalWait (c : command).    (* interrupted and waited for *)

(** How a process ended that was waited for. *)
Inductive exec_result := NotStarted | Exited (success : bool).

(** Each answer may depend on all that was done before. *)
Record Os := {
  os_stat : list effect → string → bool;
  os_mkdir : list effect → string → bool;
  os_write : list effect → string → string → bool;
  os_run : list effect → command → exec_result;
  os_start : list effect → command → bool
}.

Inductive smb_error :=
  | ErrNotConfigured | ErrNoSharePath | ErrPrimaryUser (e : invalid)
  | ErrExtraUser (name : string) (e : invalid) | ErrMkdir | ErrNoBinary | ErrExtraUsersUnsupported
  | ErrListen | ErrPort | ErrShareName (e : invalid) | ErrPath (e : invalid)
  | ErrInterface (e : invalid) | ErrWriteConfig | ErrCreateUser (name : string) | ErrStart
  | ErrNotSamba | ErrInvalidUser (e : invalid).

(** ** A monad for the effects, the server and the errors *)

Abbreviation io := (Prelude.io (list effect * Server) smb_error).

(** Fail with [f e] when a validation found [e]. *)
Definition reject (v : option invalid) (f : invalid → smb_error) : io unit :=
  match v with Some e => throw (f e) | None => mret () end.

(** Ask the system for something, and record it; the answer depends on what
    was done before. *)
Definition ask {A} (answer : list effect → A) (e : effect) : io A :=
  λ w, ((w.1 ++ [e], w.2), Ok (answer w.1)).

(** A question that changes nothing. *)
Definition query {A} (answer : list effect → A) : io A := λ w, (w, Ok (answer w.1)).

Definition get_server : io Server := λ w, (w, Ok w.2).
Definition put_server (s : Server) : io unit := λ w, ((w.1, s), Ok ()).

(** [net.SplitHostPort]; the errors carry nothing the router uses. *)
Fixpoint cut_last (c : ascii) (s : string) : option (string * string) :=
  match s with
  | EmptyString => None
  | String a s =>
      match cut_last c s with
      | Some (x, y) => Some (String a x, y)
      | None => if Ascii.eqb a c then Some ("", s) else None
      end
  end.

Definition SplitHostPort (s : string) : option (string * string) :=
  match cut_last ":" s with
  | None => None
  | Some (pre, port) =>
      match s with
      | String "[" inner =>
          match cut_char "]" inner with
          | None => None
          | Some (host, rest) =>
              (* the closing bracket just before the last colon *)
              if negb (String.eqb rest (":" +:+ port)) then None
              else if contains_char "[" inner || contains_char "]" rest then None
              else Some (host, port)
          end
      | _ =>
          if contains_char ":" pre || contains_char "[" s || contains_char "]" s then None
          else Some (pre, port)
      end
  end.

Section start.
Context `{A : GoInt} (os : Os).

(** ** Users *)

Definition smbpasswd (args : list string) (confPath password : string) : command := {|
  c_bin := "smbpasswd"; c_args := args; c_env := ["SMB_CONF_PATH=" +:+ confPath];
  c_stdin := password +:+ nl +:+ password +:+ nl |}.

(** [createUser]: add the user; if that fails, set the password of an existing
    one. *)
Definition createUser (confPath user password : string) : io unit :=
  let add := smbpasswd ["-s"; "-a"; user] confPath password in
  r ← ask (λ t, os_run os t add) (Run add);
  match r with
  | NotStarted => throw (ErrCreateUser user)
  | Exited true => mret ()
  | Exited false =>
      let upd := smbpasswd ["-s"; user] confPath password in
      r ← ask (λ t, os_run os t upd) (Run upd);
      match r with
      | Exited true => mret ()
      | _ => throw (ErrCreateUser user)
      end
  end.

Fixpoint create_users (confPath : string) (users : list SMBUser) : io unit :=
  match users with
  | [] => mret ()
  | u :: users =>
      _ ← createUser confPath (u_Name u) (u_Password u);
      create_users confPath users
  end.

Fixpoint validate_extra (users : list SMBUser) : io unit :=
  match users with
  | [] => mret ()
  | u :: users =>
      _ ← reject (validateUser (u_Name u) (u_Password u)) (ErrExtraUser (u_Name u));
      validate_extra users
  end.

(** ** Start *)

(** [s.cmd = exec.Command(...)] and [s.cmd.Start()]. *)
Definition start_process (c : command) : io unit :=
  ok ← ask (λ t, os_start os t c) (StartProcess c);
  s ← get_server;
  _ ← put_server (set_cmd s (Some (c, ok)) (s_isSamba s));
  guard_or ok ErrStart.

Definition share_name (cfg : SMBConfig) : string :=
  if String.eqb (sm_ShareName cfg) "" then "data" else sm_ShareName cfg.

Definition portable_command (cfg : SMBConfig) (bin host : string) (port : Z) : command := {|
  c_bin := bin;
  c_args := ["-ip"; host; "-port"; itoa port; "-user"; sm_User cfg; "-pass"; sm_Password cfg;
             "-folder"; sm_SharePath cfg; "-share"; share_name cfg];
  c_env := []; c_stdin := "" |}.

Definition startPortable (bin listen : string) : io unit :=
  s ← get_server;
  let cfg := s_cfg s in
  _ ← guard_or (match s_extraUsers s with [] => true | _ => false end) ErrExtraUsersUnsupported;
  match SplitHostPort listen with
  | None => throw ErrListen
  | Some (host, portStr) =>
      match atoi portStr with
      | (_, Some _) => throw ErrPort
      | (port, None) =>
          _ ← reject (validateSimpleName (share_name cfg)) ErrShareName;
          _ ← reject (validatePath (sm_SharePath cfg)) ErrPath;
          start_process (portable_command cfg bin host port)
      end
  end.

Definition confPath : string := "/tmp/smb.conf".

Definition valid_users (s : Server) : list string :=
  sm_User (s_cfg s) :: map u_Name (s_extraUsers s).

Definition smbd_command (bin : string) : command := {|
  c_bin := bin; c_args := ["--foreground"; "--no-process-group"; "-s"; confPath];
  c_env := []; c_stdin := "" |}.

(** The host that smb.conf binds to; the wildcard addresses mean all. *)
Definition bind_host (host : string) : string :=
  if negb (String.eqb host "") && (String.eqb host "0.0.0.0" || String.eqb host "::")
  then "" else host.

Definition check_host (host : string) : io unit :=
  if negb (String.eqb host "") then reject (validateInterface host) ErrInterface else mret ().

Definition startSamba (bin listen : string) : io unit :=
  s ← get_server;
  let cfg := s_cfg s in
  match SplitHostPort listen with
  | None => throw ErrListen
  | Some (host, _) =>
      let host := bind_host host in
      _ ← reject (validateSimpleName (share_name cfg)) ErrShareName;
      _ ← reject (validatePath (sm_SharePath cfg)) ErrPath;
      _ ← check_host host;
      let text := render host (share_name cfg) (sm_SharePath cfg) (join " " (valid_users s)) in
      ok ← ask (λ t, os_write os t confPath text) (WriteFile confPath text);
      _ ← guard_or ok ErrWriteConfig;
      _ ← createUser confPath (sm_User cfg) (sm_Password cfg);
      _ ← create_users confPath (s_extraUsers s);
      _ ← start_process (smbd_command bin);
      s ← get_server;
      put_server (set_cmd s (s_cmd s) true)
  end.

Definition bin_path (cfg : SMBConfig) : string :=
  if String.eqb (sm_BinPath cfg) "" then "/usr/local/bin/smbd" else sm_BinPath cfg.

Definition listen_address (cfg : SMBConfig) : string :=
  if String.eqb (sm_Listen cfg) "" then "0.0.0.0:445" else sm_Listen cfg.

Definition portable (cfg : SMBConfig) : bool :=
  sm_UsePortableServer cfg || String.eqb (GoPath.Base (bin_path cfg)) "portable-smb-server".

Definition Start : io unit :=
  s ← get_server;
  let cfg := s_cfg s in
  if negb (sm_Enabled cfg) then mret ()
  else
    _ ← guard_or (negb (String.eqb (sm_User cfg) "" || String.eqb (sm_Password cfg) ""))
                 ErrNotConfigured;
    _ ← guard_or (negb (String.eqb (sm_SharePath cfg) "")) ErrNoSharePath;
    _ ← reject (validateUser (sm_User cfg) (sm_Password cfg)) ErrPrimaryUser;
    _ ← validate_extra (s_extraUsers s);
    ok ← ask (λ t, os_mkdir os t (sm_SharePath cfg)) (MkdirAll (sm_SharePath cfg));
    _ ← guard_or ok ErrMkdir;
    ok ← query (λ t, os_stat os t (bin_path cfg));
    _ ← guard_or ok ErrNoBinary;
    if portable cfg then startPortable (bin_path cfg) (listen_address cfg)
    else startSamba (bin_path cfg) (listen_address cfg).

Definition AddUser (user password : string) : io unit :=
  s ← get_server;
  _ ← guard_or (s_isSamba s) ErrNotSamba;
  _ ← reject (validateUser user password) ErrInvalidUser;
  createUser confPath user password.

(** [Stop]: interrupt a process that was started and wait for it. *)
Definition Stop : io unit :=
  s ← get_server;
  match s_cmd s with
  | Some (c, true) => ask (λ _, ()) (SignalWait c)
  | _ => mret ()
  end.
End start.

(** ** Lemmas: validation *)

(** The bytes of a simple name. *)
Definition name_byte (b : Z) : Prop :=
  97 ≤ b ≤ 122 ∨ 65 ≤ b ≤ 90 ∨ 48 ≤ b ≤ 57 ∨ b = 46 ∨ b = 95 ∨ b = 45.

Definition simple_name (s : string) : Prop :=
  Forall name_byte (to_bytes s) ∧
  ∃ b l, to_bytes s = b :: l ∧ b ≠ 46 ∧ b ≠ 95 ∧ b ≠ 45.

Definition clean (s : string) : Prop :=
  ∀ b, b ∈ to_bytes s → (32 ≤ b ∧ b ≠ 127) ∨ b = 9.

Lemma alnum_spec r : alnum r = true ↔ 97 ≤ r ≤ 122 ∨ 65 ≤ r ≤ 90 ∨ 48 ≤ r ≤ 57.
Proof. unfold alnum, in_range. rewrite !orb_true_iff, !andb_true_iff, !Z.leb_le. tauto. Qed.

Lemma simple_rune_spec i r :
  simple_rune (i, r) = true ↔ name_byte r ∧ (i = 0%nat → r ≠ 46 ∧ r ≠ 95 ∧ r ≠ 45).
Proof.
  unfold simple_rune, name_byte. rewrite orb_true_iff, alnum_spec.
  destruct ((r =? 46) || (r =? 95) || (r =? 45)) eqn:E.
  - rewrite !orb_true_iff, !Z.eqb_eq in E. destruct (Nat.eqb_spec i 0); cbn; lia.
  - rewrite !orb_false_iff, !Z.eqb_neq in E. rewrite andb_false_r. lia.
Qed.

Lemma forallb_Forall {A} (f : A → bool) l : forallb f l = true ↔ Forall (λ x, f x = true) l.
Proof.
  rewrite forallb_forall, Forall_forall. split; intros H x Hx; apply H; by apply list_elem_of_In.
Qed.

Lemma simple_runes_spec s :
  forallb simple_rune (range_runes s) = true ↔
  Forall name_byte (to_bytes s) ∧
  ∀ b l, to_bytes s = b :: l → b ≠ 46 ∧ b ≠ 95 ∧ b ≠ 45.
Proof.
  rewrite forallb_Forall. unfold range_runes.
  assert (range_runes_from 0 0 (to_bytes s) = zip (seq 0 (length (to_bytes s))) (to_bytes s) →
    Forall (λ ir, simple_rune ir = true) (range_runes_from 0 0 (to_bytes s)) ↔
    Forall name_byte (to_bytes s) ∧
    ∀ b l, to_bytes s = b :: l → b ≠ 46 ∧ b ≠ 95 ∧ b ≠ 45) as Hz.
  { intros ->. destruct (to_bytes s) as [|b l]; [cbn; naive_solver|]. cbn [length seq].
    assert (∀ i, Forall (λ ir, simple_rune ir = true) (zip (seq (S i) (length l)) l) ↔
                 Forall name_byte l) as Hl.
    { induction l as [|x l IH]; intros i; [done|]. cbn [length seq zip zip_with].
      rewrite !Forall_cons, IH, simple_rune_spec. naive_solver. }
    cbn [zip zip_with]. rewrite !Forall_cons, Hl, simple_rune_spec. split.
    - intros ((H1 & H2) & H3). split; [done|]. intros ?? [= <- <-]. by apply H2.
    - intros ((H1 & H2) & H3). split_and!; [done|intros _; by eapply H3|done]. }
  split.
  - intros H. apply Hz; [|done]. apply range_runes_from_ascii. eapply Forall_impl; [exact H|].
    intros [i r] Hr%simple_rune_spec. cbn. unfold name_byte in Hr. lia.
  - intros H. apply Hz; [|done]. apply range_runes_from_ascii.
    destruct H as [H _]. clear Hz. generalize 0%nat at 1.
    induction H as [|b l Hb Hl IH]; intros i; [constructor|]. cbn [range_runes_from].
    rewrite decode_rune_ascii by (unfold name_byte in Hb; lia). constructor; [|by apply IH].
    cbn. unfold name_byte in Hb. lia.
Qed.

Lemma validateSimpleName_spec s :
  validateSimpleName s = None ↔ (String.length s ≤ 32)%nat ∧ simple_name s.
Proof.
  unfold validateSimpleName, simple_name. destruct (String.eqb_spec s "") as [->|Hs].
  { split; [done|]. by intros (_ & _ & ? & ? & ? & _). }
  destruct (Nat.ltb_spec 32 (String.length s)); [split; [done|lia]|].
  transitivity (forallb simple_rune (range_runes s) = true).
  { by destruct (forallb _ _). }
  rewrite simple_runes_spec. destruct (to_bytes s) as [|b l] eqn:E; [|naive_solver lia].
  by rewrite <-(of_bytes_to_bytes s), E in Hs.
Qed.

Lemma control_spec r : control r = false ↔ (32 ≤ r ∧ r ≠ 127) ∨ r = 9.
Proof.
  unfold control. rewrite !orb_false_iff, andb_false_iff, negb_false_iff, !Z.eqb_neq, Z.eqb_eq, Z.ltb_ge.
  lia.
Qed.

Lemma no_control_clean s : no_control s = true → clean s.
Proof.
  unfold no_control. rewrite forallb_Forall, Forall_forall. intros H b Hb.
  destruct (decide (b < 128)) as [Hlt|]; [|lia].
  destruct (range_runes_byte b s Hlt Hb) as [j Hj]. apply H in Hj. cbn in Hj.
  by apply negb_true_iff, control_spec in Hj.
Qed.

Lemma range_runes_from_low i k l j r :
  (j, r) ∈ range_runes_from i k l → r < 128 → r ∈ l.
Proof.
  induction l as [|b l IH] in i, k |- *; cbn [range_runes_from]; [set_solver|].
  destruct k as [|k]; [|intros H ?; right; by eapply IH].
  destruct (decode_rune (b :: l)) as [r' w] eqn:E.
  intros [[= -> ->]|H]%elem_of_cons Hr; [|right; by eapply IH].
  destruct (decide (b < 128)) as [Hb|Hb].
  - rewrite decode_rune_ascii in E by done. injection E as <- <-. by left.
  - apply decode_rune_high in E as [? _]; lia.
Qed.

Lemma clean_no_control s : no_control s = true ↔ clean s.
Proof.
  split; [apply no_control_clean|]. intros Hc. unfold no_control.
  rewrite forallb_Forall, Forall_forall. intros [j r] Hr. apply negb_true_iff, control_spec. cbn.
  destruct (decide (r < 128)) as [Hlt|]; [|lia]. apply Hc. by eapply range_runes_from_low.
Qed.

Lemma validateUser_spec name password :
  validateUser name password = None ↔
  (String.length name ≤ 32)%nat ∧ simple_name name ∧
  password ≠ "" ∧ (String.length password ≤ 128)%nat ∧ clean password.
Proof.
  unfold validateUser. rewrite <-clean_no_control.
  pose proof (validateSimpleName_spec name) as Hn.
  destruct (validateSimpleName name) as [e|]; [intuition congruence|].
  destruct (String.eqb_spec password ""); [intuition congruence|].
  destruct (Nat.ltb_spec 128 (String.length password)); [split; [done|lia]|].
  destruct (no_control password); intuition congruence.
Qed.

Lemma validatePath_spec p : validatePath p = None ↔ p ≠ "" ∧ clean p.
Proof.
  unfold validatePath. rewrite <-clean_no_control.
  destruct (String.eqb_spec p ""); [intuition congruence|]. destruct (no_control p); intuition congruence.
Qed.

(** The bytes of an interface that cannot end a line or open a section. *)
Definition plain_host (host : string) : Prop :=
  ∀ b, b ∈ to_bytes host → 32 ≤ b ∧ b ∉ [59; 91; 93; 127].

Lemma validateInterface_plain host : validateInterface host = None → plain_host host.
Proof.
  unfold validateInterface. destruct (forallb _ _) eqn:E; [|done]. intros _ b Hin.
  rewrite forallb_Forall, Forall_forall in E.
  destruct (decide (b < 128)) as [Hlt|]; [|split; [lia|set_solver by lia]].
  destruct (range_runes_byte b host Hlt Hin) as [j Hj]. apply E in Hj. cbn in Hj.
  unfold bad_interface_rune in Hj. rewrite negb_true_iff, !orb_false_iff, !Z.eqb_neq, Z.ltb_ge in Hj.
  split; [lia|set_solver by lia].
Qed.

(** ** Lemmas: addresses *)

Lemma cut_last_Some c s x y : cut_last c s = Some (x, y) → s = x +:+ String c y ∧ contains_char c y = false.
Proof.
  induction s as [|a s IH] in x |- *; cbn [cut_last]; [done|].
  destruct (cut_last c s) as [[x' y']|] eqn:E.
  - intros [= <- <-]. destruct (IH x' eq_refl) as [-> ?]. done.
  - destruct (Ascii.eqb_spec a c) as [->|]; [|done]. intros [= <- <-]. split; [done|].
    clear IH. induction s as [|b s IH]; [done|]. cbn [cut_last] in E.
    destruct (cut_last c s) as [[? ?]|]; [done|]. cbn. destruct (Ascii.eqb b c); [done|]. by apply IH.
Qed.

(** A host and a port, as they are written with a colon between them. *)
Definition host_port (l host port : string) : Prop :=
  contains_char ":" port = false ∧
  ((l = host +:+ ":" +:+ port ∧ contains_char ":" host = false) ∨ l = "[" +:+ host +:+ "]:" +:+ port).

Lemma SplitHostPort_inv l host port : SplitHostPort l = Some (host, port) → host_port l host port.
Proof.
  unfold SplitHostPort. destruct (cut_last ":" l) as [[pre p]|] eqn:E; [|done].
  apply cut_last_Some in E as [El Hp]. assert (∀ r,
    (if contains_char ":" pre || contains_char "[" l || contains_char "]" l then None else Some (pre, p)) = Some r →
    host_port l r.1 r.2) as Hplain.
  { intros r. destruct (contains_char ":" pre) eqn:Ec; [done|]. cbn [orb].
    destruct (_ || _); [done|]. intros [= <-]. split; [done|left]. by split. }
  destruct l as [|a inner]; [by intros H%Hplain|].
  destruct (Ascii.eqb_spec a "[") as [->|Ha].
  2:{ intros H. apply (Hplain (host, port)). rewrite <-H. clear H Hplain El.
      destruct a as [[] [] [] [] [] [] [] []]; try reflexivity. by destruct Ha. }
  clear Hplain. destruct (cut_char "]" inner) as [[h rest]|] eqn:E; [|done].
  apply cut_char_Some in E as [-> _]. destruct (String.eqb_spec rest (":" +:+ p)) as [->|]; [|done]. cbn [negb].
  destruct (_ || _); [done|]. intros [= <- <-]. split; [done|right]. reflexivity.
Qed.

(** ** Lemmas: the configuration file *)

Definition newline : ascii := chr 10.

Definition one_line (s : string) : Prop := contains_char newline s = false.

Lemma one_line_bytes s : one_line s ↔ 10 ∉ to_bytes s.
Proof.
  unfold one_line. rewrite <-not_true_iff_false, contains_char_bytes. done.
Qed.

Lemma clean_one_line s : clean s → one_line s.
Proof. intros H. apply one_line_bytes. intros Hin%H. lia. Qed.

Lemma simple_name_visible s : simple_name s → s ≠ "" ∧ Forall visible (to_bytes s).
Proof.
  intros [H (b & l & E & _)]. split; [by intros ->|]. eapply Forall_impl; [exact H|].
  unfold name_byte, visible. lia.
Qed.

Lemma visible_one_line s : Forall visible (to_bytes s) → one_line s.
Proof.
  intros H. apply one_line_bytes. rewrite Forall_forall in H. intros Hin%H.
  unfold visible in Hin. lia.
Qed.

Lemma join_one_line l : Forall one_line l → one_line (join " " l).
Proof.
  induction 1 as [|x l Hx Hl IH]; [done|]. destruct l as [|y l]; [done|].
  unfold one_line in *. rewrite join_cons, !contains_char_app, Hx, IH. done.
Qed.

(** The lines of the file. *)
Definition conf_lines (iface share path users : string) : list string :=
  ["[global]"; "workgroup = WORKGROUP"; "server role = standalone server"; "security = user";
   "map to guest = never"; "min protocol = SMB2"; "passdb backend = tdbsam:/tmp/smbpassdb.tdb";
   "pid directory = /tmp"; "lock directory = /tmp"; "state directory = /tmp";
   "cache directory = /tmp"; "private dir = /tmp"] ++
  (if String.eqb iface "" then []
   else ["interfaces = " +:+ iface; "bind interfaces only = yes"]) ++
  ["server min protocol = SMB2_10"; "server max protocol = SMB3_11"; "";
   "[" +:+ share +:+ "]"; "path = " +:+ path; "valid users = " +:+ users;
   "read only = no"; "browsable = yes"; "guest ok = no"; ""].

Lemma render_join iface share path users :
  render iface share path users = join (String newline "") (conf_lines iface share path users).
Proof.
  unfold render, conf_lines. destruct (String.eqb iface "");
    cbn [app join]; rewrite !str_app_assoc; reflexivity.
Qed.

Lemma render_lines iface share path users :
  one_line iface → one_line share → one_line path → one_line users →
  split_on newline (render iface share path users) = conf_lines iface share path users.
Proof.
  intros Hi Hs Hp Hu. rewrite render_join. apply split_on_join; [done|].
  unfold conf_lines. repeat (apply Forall_app; split).
  - repeat constructor.
  - destruct (String.eqb iface ""); repeat constructor. exact Hi.
  - repeat constructor; try done. unfold one_line in *.
    by rewrite !contains_char_app, Hs.
Qed.

(** ** Lemmas: the effects of the operations *)

Definition valid_user (u : SMBUser) : Prop := validateUser (u_Name u) (u_Password u) = None.

Definition all_users (s : Server) : list SMBUser :=
  {| u_Name := sm_User (s_cfg s); u_Password := sm_Password (s_cfg s) |} :: s_extraUsers s.

(** The commands that create a user. *)
Inductive user_chunk (u : SMBUser) : list effect → Prop :=
  | chunk_add : user_chunk u [Run (smbpasswd ["-s"; "-a"; u_Name u] confPath (u_Password u))]
  | chunk_update : user_chunk u [Run (smbpasswd ["-s"; "-a"; u_Name u] confPath (u_Password u));
                                 Run (smbpasswd ["-s"; u_Name u] confPath (u_Password u))].

Ltac smb_unfold := unfold ask, query, get_server, put_server; io_unfold.

Section effects.
Context `{A : GoInt} (os : Os).

Ltac case_run :=
  match goal with |- context [os_run os ?t ?c] => destruct (os_run os t c) as [|[]] end;
  cbn beta iota zeta delta [fst snd].

Lemma createUser_chunk u w :
  let '(w', r) := createUser os confPath (u_Name u) (u_Password u) w in
  w'.2 = w.2 ∧ ∃ chunk, w'.1 = w.1 ++ chunk ∧ user_chunk u chunk.
Proof.
  unfold createUser. smb_unfold.
  case_run; [split; [done|eexists; split; [done|constructor]]..|].
  case_run;
    (split; [done|]; eexists; split; [by rewrite <-app_assoc|apply chunk_update]).
Qed.

Lemma create_users_chunks users w :
  let '(w', r) := create_users os confPath users w in
  w'.2 = w.2 ∧ ∃ us chunks, w'.1 = w.1 ++ concat chunks ∧ us `prefix_of` users ∧
    Forall2 user_chunk us chunks ∧ (r = Ok () → us = users).
Proof.
  induction users as [|u users IH] in w |- *; cbn [create_users].
  { split; [done|]. exists [], []. split_and!; [by rewrite app_nil_r|done|constructor|done]. }
  pose proof (createUser_chunk u w) as H. unfold mbind, io_bind.
  destruct (createUser os confPath _ _ w) as [w1 [e|[]]].
  2: { destruct H as (E1 & chunk & T1 & C1). specialize (IH w1).
    destruct (create_users os confPath users w1) as [w2 r].
    destruct IH as (E2 & us & chunks & T2 & [k ->] & F2 & O2). split; [congruence|].
    exists (u :: us), (chunk :: chunks). split_and!.
    + rewrite T2, T1. cbn. by rewrite app_assoc.
    + by exists k.
    + by constructor.
    + intros Hr. f_equal. by apply O2. }
  - destruct H as (E1 & chunk & T1 & C1). split; [done|]. exists [u], [chunk].
    split_and!; [by rewrite T1; cbn; rewrite app_nil_r|by exists users|by repeat constructor|done].
Qed.

Lemma validate_extra_spec users w :
  let '(w', r) := validate_extra users w in w' = w ∧ (r = Ok () → Forall valid_user users).
Proof.
  induction users as [|u users IH] in w |- *; cbn [validate_extra].
  { split; [done|]. by constructor. }
  unfold mbind, io_bind, reject.
  destruct (validateUser (u_Name u) (u_Password u)) as [e|] eqn:E; cbn; [done|].
  specialize (IH w). destruct (validate_extra users w) as [w' r]. destruct IH as [-> IH].
  split; [done|]. intros Hr. constructor; [exact E|by apply IH].
Qed.

(** ** What a start may do *)

(** An option of the configuration, or its default. *)
Definition or_default (v d r : string) : Prop := (v = "" ∧ r = d) ∨ (v ≠ "" ∧ r = v).

Definition ok_name (n : string) : Prop := (String.length n ≤ 32)%nat ∧ simple_name n.

Definition ok_user (u : SMBUser) : Prop :=
  ok_name (u_Name u) ∧ u_Password u ≠ "" ∧ (String.length (u_Password u) ≤ 128)%nat ∧ clean (u_Password u).

Definition the_binary (cfg : SMBConfig) : string → Prop := or_default (sm_BinPath cfg) "/usr/local/bin/smbd".

(** The share: a valid name and a directory on one line. *)
Definition the_share (cfg : SMBConfig) (share : string) : Prop :=
  or_default (sm_ShareName cfg) "data" share ∧ ok_name share ∧ clean (sm_SharePath cfg).

Definition listens (cfg : SMBConfig) (host port : string) : Prop :=
  ∃ l, or_default (sm_Listen cfg) "0.0.0.0:445" l ∧ host_port l host port.

Definition portable_mode (cfg : SMBConfig) : Prop :=
  sm_UsePortableServer cfg = true ∨ ∃ bin, the_binary cfg bin ∧ GoPath.Base bin = "portable-smb-server".

(** The interface in smb.conf: none for the wildcards, else that of the address. *)
Definition bound_to (cfg : SMBConfig) (iface : string) : Prop :=
  ∃ host port, listens cfg host port ∧
    ((host ∈ [""; "0.0.0.0"; "::"] ∧ iface = "") ∨
     (host ∉ [""; "0.0.0.0"; "::"] ∧ iface = host ∧ plain_host iface)).

(** smbpasswd for a user, which reads the password from two whole lines. *)
Definition passwd_command (args : list string) (u : SMBUser) (c : command) : Prop :=
  c_bin c = "smbpasswd" ∧ c_args c = args ∧ c_env c = ["SMB_CONF_PATH=/tmp/smb.conf"] ∧
  split_on newline (c_stdin c) = [u_Password u; u_Password u; ""].

(** What [Start] may do with the system, whether it succeeds or not. *)
Inductive allowed (s : Server) : effect → Prop :=
  | allowed_mkdir : allowed s (MkdirAll (sm_SharePath (s_cfg s)))
  | allowed_conf text iface share users :
      ¬ portable_mode (s_cfg s) → the_share (s_cfg s) share → bound_to (s_cfg s) iface →
      split_on newline text = conf_lines iface share (sm_SharePath (s_cfg s)) users →
      fields users = map u_Name (all_users s) →
      allowed s (WriteFile "/tmp/smb.conf" text)
  | allowed_user u args c :
      ¬ portable_mode (s_cfg s) → u ∈ all_users s →
      args = ["-s"; "-a"; u_Name u] ∨ args = ["-s"; u_Name u] →
      passwd_command args u c → allowed s (Run c)
  | allowed_smbd bin :
      ¬ portable_mode (s_cfg s) → the_binary (s_cfg s) bin →
      allowed s (StartProcess {| c_bin := bin;
        c_args := ["--foreground"; "--no-process-group"; "-s"; "/tmp/smb.conf"];
        c_env := []; c_stdin := "" |})
  | allowed_portable bin host port n share :
      portable_mode (s_cfg s) → s_extraUsers s = [] → the_binary (s_cfg s) bin →
      the_share (s_cfg s) share → listens (s_cfg s) host port → atoi port = (n, None) →
      allowed s (StartProcess {| c_bin := bin;
        c_args := ["-ip"; host; "-port"; itoa n; "-user"; sm_User (s_cfg s); "-pass"; sm_Password (s_cfg s);
                   "-folder"; sm_SharePath (s_cfg s); "-share"; share];
        c_env := []; c_stdin := "" |}).

(** The commands that create a user: it is added, or else updated. *)
Inductive created (u : SMBUser) : list effect → Prop :=
  | created_add c : passwd_command ["-s"; "-a"; u_Name u] u c → created u [Run c]
  | created_update c c' :
      passwd_command ["-s"; "-a"; u_Name u] u c → passwd_command ["-s"; u_Name u] u c' →
      created u [Run c; Run c'].

(** What a successful [Start] of an enabled server has done, in this order. *)
Inductive completed (s : Server) : list effect → Server → Prop :=
  | completed_samba text chunks c s' :
      ¬ portable_mode (s_cfg s) → Forall2 created (all_users s) chunks →
      s_cmd s' = Some (c, true) → s_isSamba s' = true →
      completed s (MkdirAll (sm_SharePath (s_cfg s)) :: WriteFile "/tmp/smb.conf" text ::
                   concat chunks ++ [StartProcess c]) s'
  | completed_portable c s' :
      portable_mode (s_cfg s) → s_cmd s' = Some (c, true) → s_isSamba s' = s_isSamba s →
      completed s [MkdirAll (sm_SharePath (s_cfg s)); StartProcess c] s'.

Lemma or_default_eqb v d : or_default v d (if String.eqb v "" then d else v).
Proof. unfold or_default. destruct (String.eqb_spec v ""); auto. Qed.

Lemma or_default_fun v d r r' : or_default v d r → or_default v d r' → r = r'.
Proof. intros [[? ->]|[? ->]] [[? ->]|[? ->]]; congruence. Qed.

Lemma portable_spec cfg : portable cfg = true ↔ portable_mode cfg.
Proof.
  unfold portable, portable_mode. rewrite orb_true_iff, String.eqb_eq. split.
  - intros [?|?]; [by left|right]. exists (bin_path cfg). split; [apply or_default_eqb|done].
  - intros [?|(bin & Hb & ?)]; [by left|right].
    by rewrite (or_default_fun _ _ (bin_path cfg) bin (or_default_eqb _ _) Hb).
Qed.

Lemma share_spec cfg :
  validateSimpleName (share_name cfg) = None → validatePath (sm_SharePath cfg) = None →
  the_share cfg (share_name cfg).
Proof.
  intros [? ?]%validateSimpleName_spec [_ ?]%validatePath_spec. split_and!; try done. apply or_default_eqb.
Qed.

Lemma listens_spec cfg host port : SplitHostPort (listen_address cfg) = Some (host, port) → listens cfg host port.
Proof. intros H%SplitHostPort_inv. exists (listen_address cfg). split; [apply or_default_eqb|done]. Qed.

Lemma valid_user_ok u : valid_user u → ok_user u.
Proof. intros (? & ? & ? & ? & ?)%validateUser_spec. unfold ok_user, ok_name. tauto. Qed.

Definition started (s : Server) (w : list effect * Server)
    (r : result smb_error ()) : Prop :=
  Forall (allowed s) w.1 ∧ s_cfg w.2 = s_cfg s ∧ s_extraUsers w.2 = s_extraUsers s ∧
  (r = Ok () → completed s w.1 w.2).

(** The password as smbpasswd reads it. *)
Lemma stdin_lines u args :
  valid_user u → split_on newline (c_stdin (smbpasswd args confPath (u_Password u))) =
    [u_Password u; u_Password u; ""].
Proof.
  intros (_ & _ & _ & _ & Hc)%validateUser_spec. cbn [smbpasswd c_stdin].
  apply clean_one_line in Hc. change nl with (String newline "").
  rewrite str_app_cons, str_app_nil_l, split_on_app by done. f_equal.
  rewrite split_on_app by done. done.
Qed.

Lemma passwd_ok u args : valid_user u → passwd_command args u (smbpasswd args confPath (u_Password u)).
Proof. intros H. split_and!; try done. by apply stdin_lines. Qed.

Lemma chunk_created u chunk : valid_user u → user_chunk u chunk → created u chunk.
Proof. intros Hv [|]; constructor; by apply passwd_ok. Qed.

Lemma created_allowed s u chunk :
  ¬ portable_mode (s_cfg s) → u ∈ all_users s → created u chunk → Forall (allowed s) chunk.
Proof.
  intros Hp Hu Hc. assert (∀ args c, args = ["-s"; "-a"; u_Name u] ∨ args = ["-s"; u_Name u] →
    passwd_command args u c → allowed s (Run c)) as Ha by (intros; by eapply allowed_user).
  destruct Hc as [c H|c c' H H'].
  - apply Forall_singleton. eapply Ha; [by left|done].
  - apply Forall_cons. split; [eapply Ha; [by left|done]|]. apply Forall_singleton. eapply Ha; [by right|done].
Qed.

Lemma chunks_created us chunks :
  Forall valid_user us → Forall2 user_chunk us chunks → Forall2 created us chunks.
Proof.
  intros Hv H. induction H as [|u chunk us chunks Hu H IH]; [constructor|].
  apply Forall_cons in Hv as [Hv1 Hv2]. constructor; [by apply chunk_created|by apply IH].
Qed.

Lemma chunks_allowed s us chunks :
  ¬ portable_mode (s_cfg s) → (∀ u, u ∈ us → u ∈ all_users s) →
  Forall2 created us chunks → Forall (allowed s) (concat chunks).
Proof.
  intros Hp Hin H. induction H as [|u chunk us chunks Hu H IH]; [constructor|].
  cbn. apply Forall_app. split.
  - eapply created_allowed; [done| |done]. apply Hin. by left.
  - apply IH. intros v Hv. apply Hin. by right.
Qed.

(** The end of [Start], after the command is built. *)
Lemma start_process_spec c s t :
  start_process os c (t, s) =
    ((t ++ [StartProcess c], set_cmd s (Some (c, os_start os t c)) (s_isSamba s)),
     if os_start os t c then Ok () else Err ErrStart).
Proof. unfold start_process, guard_or. smb_unfold. by destruct (os_start os t c). Qed.

Lemma startPortable_spec s bin listen :
  portable (s_cfg s) = true → bin = bin_path (s_cfg s) → listen = listen_address (s_cfg s) →
  let '(w, r) := startPortable os bin listen ([MkdirAll (sm_SharePath (s_cfg s))], s) in
  started s w r.
Proof.
  intros Hp%portable_spec -> ->. unfold startPortable, guard_or, reject. smb_unfold.
  assert (Forall (allowed s) [MkdirAll (sm_SharePath (s_cfg s))]) as Hm by (repeat constructor).
  destruct (s_extraUsers s) as [|x l] eqn:Ex; [|done].
  destruct (SplitHostPort _) as [[host port]|] eqn:Es; [|done]. apply listens_spec in Es.
  destruct (atoi port) as [n [e|]] eqn:Ea; [done|].
  destruct (validateSimpleName _) eqn:En; [done|]. destruct (validatePath _) eqn:Ep; [done|]. smb_unfold.
  rewrite start_process_spec. set (c := portable_command _ _ _ _).
  assert (allowed s (StartProcess c)) as Hc.
  { eapply allowed_portable; [done|done|apply or_default_eqb|by apply share_spec|exact Es|exact Ea]. }
  split_and!; try done.
  - apply Forall_app. split; [done|]. by repeat constructor.
  - cbn. destruct (os_start os _ c) eqn:E; [|done]. intros _. by apply completed_portable.
Qed.

Lemma valid_users_one_line s :
  Forall valid_user (all_users s) →
  one_line (join " " (valid_users s)) ∧ fields (join " " (valid_users s)) = valid_users s.
Proof.
  intros Hv.
  assert (Forall (λ n, n ≠ "" ∧ Forall visible (to_bytes n)) (valid_users s)) as Hn.
  { change (valid_users s) with (map u_Name (all_users s)). apply Forall_fmap.
    eapply Forall_impl; [exact Hv|]. intros u (_ & Hs & _)%validateUser_spec.
    by apply simple_name_visible. }
  split; [|by apply fields_join]. apply join_one_line. eapply Forall_impl; [exact Hn|].
  intros n [_ ?]. by apply visible_one_line.
Qed.

Lemma check_host_spec host w :
  (check_host host w = (w, Ok ()) ∧ (host ≠ "" → plain_host host)) ∨ ∃ e, check_host host w = (w, Err e).
Proof.
  unfold check_host, reject. destruct (String.eqb_spec host "") as [->|_]; [by left|]. cbn.
  destruct (validateInterface host) as [e|] eqn:E; [right; by eexists|left]. split; [done|].
  intros _. by apply validateInterface_plain.
Qed.

Lemma plain_host_one_line host : (host ≠ "" → plain_host host) → one_line host.
Proof.
  intros H. destruct (decide (host = "")) as [->|Hne]; [done|]. apply one_line_bytes. intros Hin.
  destruct (H Hne 10 Hin). lia.
Qed.

Lemma bind_host_spec cfg host port :
  listens cfg host port → (bind_host host ≠ "" → plain_host (bind_host host)) → bound_to cfg (bind_host host).
Proof.
  intros Hl Hp. exists host, port. split; [done|]. revert Hp. unfold bind_host.
  destruct (String.eqb_spec host "") as [->|H1]; cbn [negb andb]; [left; split; [set_solver|done]|].
  destruct (String.eqb_spec host "0.0.0.0") as [->|H2]; cbn [orb]; [left; split; [set_solver|done]|].
  destruct (String.eqb_spec host "::") as [->|H3]; [left; split; [set_solver|done]|].
  intros Hp. right. split_and!; [set_solver|done|by apply Hp].
Qed.

Lemma startSamba_spec s bin listen :
  portable (s_cfg s) = false → bin = bin_path (s_cfg s) → listen = listen_address (s_cfg s) →
  Forall valid_user (all_users s) →
  let '(w, r) := startSamba os bin listen ([MkdirAll (sm_SharePath (s_cfg s))], s) in
  started s w r.
Proof.
  intros Hp0 -> -> Hv. assert (¬ portable_mode (s_cfg s)) as Hp by (rewrite <-portable_spec; congruence).
  unfold startSamba, guard_or, reject. smb_unfold.
  assert (allowed s (MkdirAll (sm_SharePath (s_cfg s)))) as Hm by constructor.
  assert (Forall (allowed s) [MkdirAll (sm_SharePath (s_cfg s))]) as Hm1 by (by repeat constructor).
  destruct (SplitHostPort _) as [[host port]|] eqn:Hl; [|done]. apply listens_spec in Hl.
  destruct (validateSimpleName _) as [|] eqn:Hn; [done|].
  destruct (validatePath _) as [|] eqn:Hpath; [done|]. smb_unfold.
  set (iface := bind_host host) in *.
  destruct (check_host_spec iface ([MkdirAll (sm_SharePath (s_cfg s))], s)) as [[-> Hi]|[e ->]];
    [|done].
  smb_unfold. set (text := render _ _ _ _).
  destruct (valid_users_one_line s Hv) as [Hu Hf].
  assert (allowed s (WriteFile confPath text)) as Hw.
  { eapply allowed_conf; [done|by apply share_spec|by eapply bind_host_spec| |exact Hf].
    apply render_lines; [by apply plain_host_one_line| |by apply clean_one_line, validatePath_spec|done].
    by apply visible_one_line, simple_name_visible, validateSimpleName_spec. }
  destruct (os_write os _ _ _); [|split_and!; try done; apply Forall_app; split; [done|by repeat constructor]].
  smb_unfold.
  pose proof (create_users_chunks (all_users s)
    ([MkdirAll (sm_SharePath (s_cfg s)); WriteFile confPath text], s)) as Hc.
  cbn [create_users all_users u_Name u_Password] in Hc. unfold mbind, io_bind in Hc.
  cbn [app].
  assert (∀ us chunks, us `prefix_of` all_users s → Forall2 user_chunk us chunks →
    Forall (allowed s) (MkdirAll (sm_SharePath (s_cfg s)) :: WriteFile confPath text :: concat chunks))
    as Hal.
  { intros us chunks [k Hk] H2. do 2 (apply Forall_cons; split; [done|]).
    rewrite Hk in Hv. apply Forall_app in Hv as [Hv _].
    apply (chunks_allowed s us); [done| |by apply chunks_created]. rewrite Hk. set_solver. }
  destruct (createUser os confPath _ _ _) as [w1 [e|[]]].
  { destruct Hc as (Es & us & chunks & Et & Hpre & H2 & _). cbn in Es, Et.
    split_and!; [by rewrite Et; apply (Hal us)|by rewrite Es|by rewrite Es|done]. }
  destruct (create_users os confPath _ w1) as [w2 [e|[]]];
    destruct Hc as (Es & us & chunks & Et & Hpre & H2 & Hus); cbn in Es, Et.
  { split_and!; [by rewrite Et; apply (Hal us)|by rewrite Es|by rewrite Es|done]. }
  rewrite (Hus eq_refl) in H2. destruct w2 as [t2 s2]. cbn in Es, Et. subst t2 s2.
  rewrite start_process_spec. set (c := smbd_command _).
  assert (Forall (allowed s) ((MkdirAll (sm_SharePath (s_cfg s)) :: WriteFile confPath text ::
    concat chunks) ++ [StartProcess c])) as Hfin.
  { apply Forall_app. split; [by apply (Hal (all_users s))|]. apply Forall_singleton.
    apply allowed_smbd; [done|apply or_default_eqb]. }
  destruct (os_start os _ c) eqn:E; [|by split_and!].
  split_and!; [exact Hfin|done|done|]. intros _. apply completed_samba; [done|by apply chunks_created|done|done].
Qed.
End effects.

(** ** The properties of the component *)

(** C31: whatever [Start] asks of the system is what the configuration says, on
    every path, failures included.  Nothing is asked before the server is enabled
    and every user is valid.  The only file it writes is smb.conf, whose lines
    are exactly those of the template, with a valid share name, a path without
    control characters, the interface of the listen address unless it is a
    wildcard (no name, path or interface can add a line), and whose list of valid
    users splits into exactly the primary and the extra users; smbpasswd is run
    only for those users and reads the password as two whole lines; smbd is
    started on that file, and only in its mode; the portable server only in its
    own mode and without extra users, with the host, the port, the user, the
    validated path and the validated share of the configuration as its
    arguments.  If [Start] returns nil for an enabled server, the directory was
    made, the file written and every user created, in this order, before the
    process was started. *)
Theorem Start_correct `{A : GoInt} os s :
  let '((t, s'), r) := Start os ([], s) in
  Forall (allowed s) t ∧ s_cfg s' = s_cfg s ∧ s_extraUsers s' = s_extraUsers s ∧
  (t ≠ [] → Forall ok_user (all_users s) ∧ sm_SharePath (s_cfg s) ≠ "") ∧
  (sm_Enabled (s_cfg s) = false → t = [] ∧ s' = s ∧ r = Ok ()) ∧
  (sm_Enabled (s_cfg s) = true → r = Ok () → completed s t s').
Proof.
  unfold Start, guard_or, reject. smb_unfold.
  destruct (sm_Enabled (s_cfg s)); cbn [negb]; [|done].
  set (w0 := ([] : list effect, s)).
  destruct (negb (String.eqb (sm_User _) "" || _)); [|by split_and!].
  destruct (String.eqb_spec (sm_SharePath (s_cfg s)) "") as [|Hpath]; cbn [negb]; [by split_and!|].
  destruct (validateUser _ _) as [|] eqn:Hp; [by split_and!|].
  pose proof (validate_extra_spec (s_extraUsers s) w0) as Hx.
  destruct (validate_extra (s_extraUsers s) w0) as [w [e|[]]]; destruct Hx as [-> Hx];
    [by split_and!|]. specialize (Hx eq_refl).
  assert (Forall valid_user (all_users s)) as Hv by (by constructor).
  assert (Forall ok_user (all_users s)) as Hok by (eapply Forall_impl; [exact Hv|apply valid_user_ok]).
  smb_unfold. subst w0. cbn [app fst snd].
  assert (Forall (allowed s) [MkdirAll (sm_SharePath (s_cfg s))]) as Hm by (by repeat constructor).
  destruct (os_mkdir os _ _); [|by split_and!]. destruct (os_stat os _ _); [|by split_and!].
  destruct (portable (s_cfg s)) eqn:Hport.
  - pose proof (startPortable_spec os s _ _ Hport eq_refl eq_refl) as H.
    destruct (startPortable _ _ _ _) as [[t s'] r]. destruct H as (? & ? & ? & ?). by split_and!.
  - pose proof (startSamba_spec os s _ _ Hport eq_refl eq_refl Hv) as H.
    destruct (startSamba _ _ _ _) as [[t s'] r]. destruct H as (? & ? & ? & ?). by split_and!.
Qed.

(** [validateUser] accepts exactly the names of 1 to 32 letters, digits,
    dots, underscores and hyphens that begin with a letter or a digit, with a
    password of 1 to 128 bytes without control characters other than tabs
    (bytes outside ASCII are allowed); such a name is one word of the list of
    valid users and such a password is one line for smbpasswd. *)
Theorem validateUser_correct name password :
  (validateUser name password = None ↔
     (String.length name ≤ 32)%nat ∧ simple_name name ∧
     password ≠ "" ∧ (String.length password ≤ 128)%nat ∧ clean password) ∧
  (validateUser name password = None → fields name = [name] ∧ one_line password).
Proof.
  split; [apply validateUser_spec|]. intros (_ & Hn & _ & _ & Hc)%validateUser_spec.
  split; [|by apply clean_one_line]. apply (fields_join [name]).
  constructor; [by apply simple_name_visible|constructor].
Qed.

Lemma validateUser_correct_witness : fields "al.ice-1" = ["al.ice-1"] ∧ one_line "pass word".
Proof. apply (validateUser_correct "al.ice-1" "pass word"). vm_compute. reflexivity. Defined.

(** A run on a machine where smbpasswd finds that alice exists. *)
Definition demo_os : Os := {|
  os_stat := λ _ _, true; os_mkdir := λ _ _, true; os_write := λ _ _ _, true;
  os_run := λ _ c, Exited (negb (bool_decide (c_args c = ["-s"; "-a"; "alice"])));
  os_start := λ _ _, true |}.

Definition demo_smb : Server := {|
  s_cfg := {| sm_Enabled := true; sm_BinPath := ""; sm_Listen := "10.0.0.1:445";
              sm_ShareName := ""; sm_SharePath := "/perm/share"; sm_User := "files";
              sm_Password := "pw"; sm_UsePortableServer := false |};
  s_cmd := None; s_isSamba := false;
  s_extraUsers := [{| u_Name := "alice"; u_Password := "x" |}] |}.

Example demo_start :
  let '((t, s), r) := Start (A := int64_arch) demo_os ([], demo_smb) in
  r = Ok () ∧ s_isSamba s = true ∧
  t = [MkdirAll "/perm/share";
       WriteFile confPath (render "10.0.0.1" "data" "/perm/share" "files alice");
       Run (smbpasswd ["-s"; "-a"; "files"] confPath "pw");
       Run (smbpasswd ["-s"; "-a"; "alice"] confPath "x");
       Run (smbpasswd ["-s"; "alice"] confPath "x");
       StartProcess (smbd_command "/usr/local/bin/smbd")].
Proof. vm_compute. done. Qed.

(** [AddUser] works in Samba mode only and never touches smb.conf: it runs
    the commands of one user, and only for a valid one. *)
Lemma AddUser_correct os user password w :
  let '(w', r) := AddUser os user password w in
  w'.2 = w.2 ∧
  (s_isSamba w.2 = false → w'.1 = w.1 ∧ r = Err ErrNotSamba) ∧
  (r = Ok () → s_isSamba w.2 = true ∧ validateUser user password = None) ∧
  (w'.1 = w.1 ∨ ∃ chunk, w'.1 = w.1 ++ chunk ∧
     user_chunk {| u_Name := user; u_Password := password |} chunk).
Proof.
  unfold AddUser, guard_or, reject. smb_unfold.
  destruct (s_isSamba w.2); [|by split_and!; [done|done|done|left]].
  destruct (validateUser user password); [by split_and!; [done|done|done|left]|]. smb_unfold.
  pose proof (createUser_chunk os {| u_Name := user; u_Password := password |} w) as H.
  cbn [u_Name u_Password] in H. destruct (createUser _ _ _ _ w) as [w' r].
  destruct H as (? & ?). split_and!; [done|done|done|by right].
Qed.
