(* ===== verification/NatRules.v ===== *)
(** * pkg/nat: masquerading and isolation rules

    The nftables rules the package builds and the order in which it sends
    them.  What the package asks of the nftables library is recorded as a list of
    requests; [installed] is the rule set the kernel has after them, with the
    transactions of [Flush] as nft(8) documents them, and the meaning of a rule
    for a packet is an interface whose laws state what is documented about the
    expressions used here. *)

From Stdlib Require Import Ascii.
From S2P Require Import Prelude GoStrings GoStrconv GoNet.
Open Scope Z_scope.

(** ** Rules *)

Inductive payload_base := PayloadBaseNetworkHeader.
Inductive meta_key := MetaKeyIIFNAME | MetaKeyOIFNAME.
Inductive cmp_op := CmpOpEq.
Inductive verdict_kind := VerdictDrop.

Inductive expr :=
  | Payload (DestRegister : Z) (Base : payload_base) (Offset Len : Z)
  | Bitwise (SourceRegister DestRegister Len : Z) (Mask Xor : list Z)
  | Cmp (Op : cmp_op) (Register : Z) (Data : list Z)
  | Meta (Key : meta_key) (Register : Z)
  | Masq
  | Verdict (Kind : verdict_kind).

Inductive table_family := TableFamilyIPv4.
Inductive chain_type := ChainTypeNAT | ChainTypeFilter.
Inductive chain_hook := ChainHookPostrouting | ChainHookForward.
Inductive chain_priority := ChainPriorityNATSource | ChainPriorityFilter.

Record Table := { t_Family : table_family; t_Name : string }.

Record Chain := {
  c_Name : string;
  c_Table : Table;
  c_Type : chain_type;
  c_Hooknum : chain_hook;
  c_Priority : chain_priority
}.

#[export] Instance chain_type_eq_dec : EqDecision chain_type.
Proof. solve_decision. Defined.
#[export] Instance chain_hook_eq_dec : EqDecision chain_hook.
Proof. solve_decision. Defined.
#[export] Instance table_family_eq_dec : EqDecision table_family.
Proof. solve_decision. Defined.
#[export] Instance Table_eq_dec : EqDecision Table.
Proof. solve_decision. Defined.

(** What the package asks of the library; [Flush] sends everything since the
    last one to the kernel as one transaction. *)
Inductive request :=
  | AddTable (t : Table)
  | AddChain (c : Chain)
  | AddRule (t : Table) (c : Chain) (exprs : list expr)
  | DelTable (t : Table)
  | Flush.

(** The forward chain is part of the state, since [AddIsolation] sets it through
    the pointer even if it fails. *)
Record nat_state := { requests : list request; fwdChain : option Chain }.

Record Manager := { m_table : Table; m_chain : Chain; m_outIface : string }.

Inductive nat_error := ErrNoInterface (name : string) | ErrFlush.

(** [ifname]: 16 zero bytes over which the name is copied. *)
Definition ifname (name : string) : list Z := take 16 (to_bytes name ++ replicate 16 0).

(** The rule of [Setup] and of [AddSource]. *)
Definition masquerade_rule (srcNet : IPNet) (outIface : string) : list expr :=
  [Payload 1 PayloadBaseNetworkHeader 12 4;
   Bitwise 1 1 4 (net_Mask srcNet) [0; 0; 0; 0];
   Cmp CmpOpEq 1 (To4 (net_IP srcNet));
   Meta MetaKeyOIFNAME 1;
   Cmp CmpOpEq 1 (ifname outIface);
   Masq].

Definition drop_rule (iif oif : string) : list expr :=
  [Meta MetaKeyIIFNAME 1; Cmp CmpOpEq 1 (ifname iif);
   Meta MetaKeyOIFNAME 1; Cmp CmpOpEq 1 (ifname oif);
   Verdict VerdictDrop].

Abbreviation nat_io := (io nat_state nat_error).

(** [iface_exists] is what [net.InterfaceByName] finds; [flush_ok] is the answer to
    a flush, which may depend on all requests so far. *)
Section nat.
Context (iface_exists : string → bool) (flush_ok : list request → bool).

Definition record (r : request) (w : nat_state) : nat_state :=
  {| requests := requests w ++ [r]; fwdChain := fwdChain w |}.

Definition send (r : request) : nat_io unit := λ w, (record r w, Ok ()).

Definition flush : nat_io unit :=
  λ w, (record Flush w, if flush_ok (requests w) then Ok () else Err ErrFlush).

Definition set_fwdChain (c : option Chain) : nat_io unit :=
  λ w, ({| requests := requests w; fwdChain := c |}, Ok ()).

Definition get_fwdChain : nat_io (option Chain) := λ w, (w, Ok (fwdChain w)).

(** [AddTable] and [AddChain] of the library return their argument. *)
Definition Setup (outIface : string) (srcNet : IPNet) : nat_io Manager :=
  _ ← guard_or (iface_exists outIface) (ErrNoInterface outIface);
  let table := {| t_Family := TableFamilyIPv4; t_Name := "gokrazy_nat" |} in
  _ ← send (AddTable table);
  let chain := {| c_Name := "postrouting"; c_Table := table; c_Type := ChainTypeNAT;
                  c_Hooknum := ChainHookPostrouting; c_Priority := ChainPriorityNATSource |} in
  _ ← send (AddChain chain);
  _ ← send (AddRule table chain (masquerade_rule srcNet outIface));
  _ ← flush;
  _ ← set_fwdChain None;
  mret {| m_table := table; m_chain := chain; m_outIface := outIface |}.

Definition AddSource (m : Manager) (srcNet : IPNet) : nat_io unit :=
  _ ← send (AddRule (m_table m) (m_chain m) (masquerade_rule srcNet (m_outIface m)));
  flush.

(** The forward chain, made when it is first needed. *)
Definition need_fwdChain (m : Manager) : nat_io Chain :=
  has ← get_fwdChain;
  match has with
  | Some c => mret c
  | None =>
      let c := {| c_Name := "forward"; c_Table := m_table m; c_Type := ChainTypeFilter;
                  c_Hooknum := ChainHookForward; c_Priority := ChainPriorityFilter |} in
      _ ← send (AddChain c);
      _ ← set_fwdChain (Some c);
      mret c
  end.

Fixpoint add_drops (t : Table) (c : Chain) (isolated : string) (others : list string) : nat_io unit :=
  match others with
  | [] => mret ()
  | other :: others =>
      _ ← send (AddRule t c (drop_rule isolated other));
      _ ← send (AddRule t c (drop_rule other isolated));
      add_drops t c isolated others
  end.

Definition AddIsolation (m : Manager) (isolated : string) (others : list string) : nat_io unit :=
  c ← need_fwdChain m;
  _ ← add_drops (m_table m) c isolated others;
  flush.

Definition flush_anyway : nat_io unit := λ w, ((flush w).1, Ok ()).

(** [Cleanup]; [None] is the nil manager, and an error is only logged. *)
Definition Cleanup (m : option Manager) : nat_io unit :=
  match m with
  | None => mret ()
  | Some m => _ ← send (DelTable (m_table m)); flush_anyway
  end.
End nat.

(** ** What the kernel makes of the requests *)

(** The rule set of the kernel: its tables, and its chains with their rules. *)
Record ruleset := {
  rs_tables : list Table;
  rs_chains : list (Chain * list (list expr))
}.

Definition no_rules : ruleset := {| rs_tables := []; rs_chains := [] |}.

(** A chain is named within its table. *)
Definition is_chain (t : Table) (name : string) (c : Chain * list (list expr)) : bool :=
  bool_decide (c_Table c.1 = t ∧ c_Name c.1 = name).

(** One request, as nft(8) documents it: a table or a chain that exists is left
    as it is; a chain needs its table and a rule its chain, to whose end it is
    added; a table goes with its chains. *)
Definition apply (k : ruleset) (r : request) : option ruleset :=
  match r with
  | AddTable t =>
      Some (if bool_decide (t ∈ rs_tables k) then k
            else {| rs_tables := rs_tables k ++ [t]; rs_chains := rs_chains k |})
  | AddChain c =>
      if bool_decide (c_Table c ∈ rs_tables k) then
        Some (if existsb (is_chain (c_Table c) (c_Name c)) (rs_chains k) then k
              else {| rs_tables := rs_tables k; rs_chains := rs_chains k ++ [(c, [])] |})
      else None
  | AddRule t c es =>
      if existsb (is_chain t (c_Name c)) (rs_chains k) then
        Some {| rs_tables := rs_tables k;
                rs_chains := map (λ x, if is_chain t (c_Name c) x then (x.1, x.2 ++ [es]) else x) (rs_chains k) |}
      else None
  | DelTable t =>
      if bool_decide (t ∈ rs_tables k) then
        Some {| rs_tables := filter (λ u, u ≠ t) (rs_tables k);
                rs_chains := filter (λ x, c_Table x.1 ≠ t) (rs_chains k) |}
      else None
  | Flush => Some k
  end.

(** A transaction: all its requests, in order, or none of them. *)
Fixpoint commit (k : ruleset) (batch : list request) : option ruleset :=
  match batch with
  | [] => Some k
  | r :: batch => k ← apply k r; commit k batch
  end.

(** The requests so far, those that are not sent to the kernel yet, and the rules
    of the kernel.  A flush empties the batch even if it fails. *)
Record nft_state := { nf_sent : list request; nf_batch : list request; nf_rules : ruleset }.

Definition receive (flush_ok : list request → bool) (n : nft_state) (r : request) : nft_state :=
  match r with
  | Flush =>
      {| nf_sent := nf_sent n ++ [Flush]; nf_batch := [];
         nf_rules := if flush_ok (nf_sent n) then default (nf_rules n) (commit (nf_rules n) (nf_batch n))
                     else nf_rules n |}
  | _ => {| nf_sent := nf_sent n ++ [r]; nf_batch := nf_batch n ++ [r]; nf_rules := nf_rules n |}
  end.

Definition nft_after (flush_ok : list request → bool) (k0 : ruleset) (t : list request) : nft_state :=
  fold_left (receive flush_ok) t {| nf_sent := []; nf_batch := []; nf_rules := k0 |}.

(** The rules of the kernel after the requests, from the rules [k0]. *)
Definition installed (flush_ok : list request → bool) (k0 : ruleset) (t : list request) : ruleset :=
  nf_rules (nft_after flush_ok k0 t).

(** ** What the rules mean *)

Inductive action := Masqueraded | Dropped.

(** A packet as the rules see it. *)
Record packet := {
  pk_header : list Z;
  pk_iif : string;
  pk_oif : string
}.

(** The name of a network interface: at most 15 bytes, none of them zero. *)
Definition is_ifname (s : string) : Prop :=
  (String.length s < 16)%nat ∧ Forall (λ b, b ≠ 0) (to_bytes s).

Definition source (p : packet) : IP := take 4 (drop 12 (pk_header p)).

(** An IPv4 packet between interfaces. *)
Record is_packet (p : packet) : Prop := {
  pk_length : (20 ≤ length (pk_header p))%nat;
  pk_iif_name : is_ifname (pk_iif p);
  pk_oif_name : is_ifname (pk_oif p)
}.

(** The kernel's evaluation of a rule: registers, then expressions from left
    to right until one does not match or ends the rule.  The laws are the
    documented meaning of each expression. *)
Class Nft := {
  eval : packet → (Z → list Z) → list expr → option action;
  eval_payload p rg d off len es :
    eval p rg (Payload d PayloadBaseNetworkHeader off len :: es) =
    eval p (λ r, if r =? d then take (Z.to_nat len) (drop (Z.to_nat off) (pk_header p)) else rg r) es;
  eval_bitwise p rg s d len mask xor es :
    eval p rg (Bitwise s d len mask xor :: es) =
    eval p (λ r, if r =? d then zip_with Z.lxor (zip_with Z.land (take (Z.to_nat len) (rg s)) mask) xor
                 else rg r) es;
  eval_cmp p rg r data es :
    eval p rg (Cmp CmpOpEq r data :: es) =
    if bool_decide (take (length data) (rg r) = data) then eval p rg es else None;
  eval_meta p rg k d es :
    eval p rg (Meta k d :: es) =
    eval p (λ r, if r =? d
                 then ifname (match k with MetaKeyIIFNAME => pk_iif p | MetaKeyOIFNAME => pk_oif p end)
                 else rg r) es;
  eval_masq p rg es : eval p rg (Masq :: es) = Some Masqueraded;
  eval_drop p rg es : eval p rg (Verdict VerdictDrop :: es) = Some Dropped
}.

(** The first rule of a chain that ends the evaluation; [None] is the policy of
    the chain, to accept. *)
Definition chain_action `{N : Nft} (rs : list (list expr)) (p : packet) : option action :=
  head (omap (eval p (λ _, [])) rs).

(** The rules an IPv4 packet meets at a hook, in the chains of a type. *)
Definition hook_rules (k : ruleset) (ty : chain_type) (hook : chain_hook) : list (list expr) :=
  concat (map snd (filter (λ x, c_Type x.1 = ty ∧ c_Hooknum x.1 = hook ∧
                                t_Family (c_Table x.1) = TableFamilyIPv4) (rs_chains k))).

(** A packet that is routed is masqueraded, or dropped. *)
Definition masquerades_packet `{N : Nft} (k : ruleset) (p : packet) : Prop :=
  chain_action (hook_rules k ChainTypeNAT ChainHookPostrouting) p = Some Masqueraded.

Definition drops_packet `{N : Nft} (k : ruleset) (p : packet) : Prop :=
  chain_action (hook_rules k ChainTypeFilter ChainHookForward) p = Some Dropped.

(** ** Lemmas: transactions *)

Lemma nft_after_app f k0 t1 t2 :
  nft_after f k0 (t1 ++ t2) = fold_left (receive f) t2 (nft_after f k0 t1).
Proof. apply fold_left_app. Qed.

Lemma nft_after_sent f k0 t : nf_sent (nft_after f k0 t) = t.
Proof.
  induction t as [|r t IH] using rev_ind; [done|]. rewrite nft_after_app. cbn.
  destruct r; cbn; by rewrite IH.
Qed.

Definition is_flush (r : request) : bool := match r with Flush => true | _ => false end.

Lemma receive_batch f b n :
  Forall (λ r, is_flush r = false) b →
  fold_left (receive f) b n =
    {| nf_sent := nf_sent n ++ b; nf_batch := nf_batch n ++ b; nf_rules := nf_rules n |}.
Proof.
  intros H. induction H as [|r b Hr _ IH] in n |- *; cbn; [rewrite !app_nil_r; by destruct n|].
  rewrite IH. destruct r; try done; cbn; by rewrite <-!app_assoc.
Qed.

(** Everything asked for has been sent, and the kernel has the rules [k]. *)
Definition settled (f : list request → bool) (k0 : ruleset) (w : nat_state) (k : ruleset) : Prop :=
  nf_batch (nft_after f k0 (requests w)) = [] ∧ installed f k0 (requests w) = k.

(** A transaction that succeeds. *)
Lemma settled_flush f k0 w w' k k' b :
  settled f k0 w k → requests w' = requests w ++ b ++ [Flush] →
  Forall (λ r, is_flush r = false) b → f (requests w ++ b) = true → commit k b = Some k' →
  settled f k0 w' k'.
Proof.
  intros [Hb Hk] E Hn Hf Hc. unfold settled, installed. rewrite E, nft_after_app, fold_left_app, (receive_batch f b) by done.
  cbn. unfold installed in Hk. by rewrite Hb, nft_after_sent, Hf, Hk, app_nil_l, Hc.
Qed.

(** One that may fail. *)
Lemma settled_flush_anyway f k0 w w' k k' b :
  settled f k0 w k → requests w' = requests w ++ b ++ [Flush] →
  Forall (λ r, is_flush r = false) b → commit k b = Some k' →
  settled f k0 w' (if f (requests w ++ b) then k' else k).
Proof.
  intros [Hb Hk] E Hn Hc. unfold settled, installed. rewrite E, nft_after_app, fold_left_app, (receive_batch f b) by done.
  cbn. unfold installed in Hk. rewrite Hb, nft_after_sent, Hk, app_nil_l, Hc. by destruct (f _).
Qed.

(** ** Lemmas: rules *)

Lemma ifname_length s : length (ifname s) = 16%nat.
Proof. unfold ifname. rewrite length_take, length_app, length_replicate. lia. Qed.

Lemma filter_zeros l n :
  Forall (λ b, b ≠ 0) l → filter (λ b, b ≠ 0) (l ++ replicate n 0) = l.
Proof.
  intros Hl. rewrite filter_app.
  assert (filter (λ b, b ≠ 0) (replicate n 0) = []) as -> by (induction n as [|n IH]; [done|by cbn [replicate]; rewrite filter_cons, decide_False by auto]).
  rewrite app_nil_r. induction Hl as [|b l Hb Hl IH]; [done|].
  by rewrite filter_cons, decide_True, IH by done.
Qed.

Lemma ifname_bytes s : is_ifname s → filter (λ b, b ≠ 0) (ifname s) = to_bytes s.
Proof.
  intros [Hlen Hnz]. unfold ifname. rewrite take_app_ge, take_replicate by (rewrite length_to_bytes; lia).
  by apply filter_zeros.
Qed.

Lemma ifname_inj a b : is_ifname a → is_ifname b → ifname a = ifname b → a = b.
Proof.
  intros Ha Hb E. apply to_bytes_inj. by rewrite <-(ifname_bytes a), <-(ifname_bytes b), E.
Qed.

(** An IPv4 network in its normal form, as [net.ParseCIDR] returns it. *)
Record net4 (n : IPNet) : Prop := {
  n4_ip : length (net_IP n) = 4%nat;
  n4_mask : length (net_Mask n) = 4%nat;
  n4_masked : zip_with Z.land (net_IP n) (net_Mask n) = net_IP n
}.

Lemma land_masked l m : zip_with Z.land (zip_with Z.land l m) m = zip_with Z.land l m.
Proof.
  induction l as [|a l IH] in m |- *; destruct m as [|b m]; cbn; [done..|].
  by rewrite IH, <-Z.land_assoc, Z.land_diag.
Qed.

Lemma length_cidr_bytes l n : length (cidr_bytes l n) = l.
Proof. induction l as [|l IH] in n |- *; cbn; [done|]. case_if; cbn; by rewrite IH. Qed.

(** Networks in IPv4 notation have masks of four bytes. *)
Lemma ParseCIDR_net4 s ip n :
  ParseCIDR s = Some (ip, n) → length (net_Mask n) = 4%nat → net4 n.
Proof.
  intros (addr & mask & a & k & -> & Ha & Hk & -> & Em & En)%ParseCIDR_inv Hm.
  destruct (parse_addr_bytes _ _ Ha) as [_ Hlen].
  assert (length a = 4%nat) as H4.
  { destruct Hlen as [|H16]; [done|]. rewrite Em, H16 in Hm. unfold CIDRMask in Hm.
    change (negb _) with false in Hm. cbn iota in Hm. case_if_in Hm; [done|]. by rewrite length_cidr_bytes in Hm. }
  assert (net_IP n = zip_with Z.land a (net_Mask n)) as E.
  { rewrite En. unfold as16, IP_Mask. rewrite H4, Hm. cbn [Nat.eqb andb].
    rewrite length_app, H4. cbn [Nat.eqb andb length v4InV6Prefix Nat.add].
    rewrite take_app_length', drop_app_length' by done.
    replace (list_eqb v4InV6Prefix v4InV6Prefix) with true by reflexivity.
    rewrite Hm. cbn [Nat.eqb andb]. by rewrite H4. }
  split; [|done|].
  - rewrite E, length_zip_with. lia.
  - rewrite E. apply land_masked.
Qed.

Lemma xor_zeros l : length l = 4%nat → zip_with Z.lxor l [0; 0; 0; 0] = l.
Proof.
  destruct l as [|a [|b [|c [|d [|]]]]]; try done. intros _. cbn. by rewrite !Z.lxor_0_r.
Qed.

Lemma source_length p : is_packet p → length (source p) = 4%nat.
Proof. intros [H _ _]. unfold source. rewrite length_take, length_drop. lia. Qed.

Lemma net4_contains n ip :
  net4 n → length ip = 4%nat →
  IPNet_Contains n ip = true ↔ zip_with Z.land ip (net_Mask n) = net_IP n.
Proof.
  intros [H1 H2 H3] Hip. unfold IPNet_Contains, networkNumberAndMask.
  rewrite !To4_v4 by done. destruct (net_IP n) as [|a l] eqn:E; [done|]. rewrite <-E in *. clear E a l.
  rewrite H2, H1. cbn [Nat.eqb].
  destruct ip as [|a l] eqn:E; [done|]. rewrite <-E in *. clear E a l.
  rewrite Hip, H1, H3. cbn [Nat.eqb andb]. rewrite list_eqb_eq. split; congruence.
Qed.

Section rules.
Context `{N : Nft}.

(** The masquerade rule matches the packets from the network that leave through
    the interface. *)
Lemma eval_masquerade_rule p rg n out :
  is_packet p → is_ifname out → net4 n →
  eval p rg (masquerade_rule n out) =
    if bool_decide (IPNet_Contains n (source p) = true ∧ pk_oif p = out)
    then Some Masqueraded else None.
Proof.
  intros Hp Ho Hn. pose proof (source_length p Hp) as Hs. unfold masquerade_rule.
  rewrite eval_payload, eval_bitwise, eval_cmp, eval_meta, eval_cmp, eval_masq. cbn beta.
  rewrite !Z.eqb_refl. change (Z.to_nat 4) with 4%nat. change (Z.to_nat 12) with 12%nat.
  fold (source p). destruct Hn as [H1 H2 H3] eqn:En. rewrite To4_v4, ifname_length by done.
  rewrite (take_ge (source p)) by lia.
  assert (length (zip_with Z.land (source p) (net_Mask n)) = 4%nat) as Hz by (rewrite length_zip_with; lia).
  rewrite xor_zeros, H1, !take_ge by (rewrite ?ifname_length; lia).
  pose proof (net4_contains n (source p) Hn Hs) as Hc.
  repeat case_bool_decide; try done; exfalso.
  - match goal with H : ifname _ = ifname _ |- _ => apply ifname_inj in H; [|apply Hp|done] end.
    naive_solver.
  - naive_solver congruence.
  - naive_solver.
Qed.

(** The drop rule matches the packets between the two interfaces. *)
Lemma eval_drop_rule p rg a b :
  is_packet p → is_ifname a → is_ifname b →
  eval p rg (drop_rule a b) =
    if bool_decide (pk_iif p = a ∧ pk_oif p = b) then Some Dropped else None.
Proof.
  intros Hp Ha Hb. unfold drop_rule.
  rewrite eval_meta, eval_cmp, eval_meta, eval_cmp, eval_drop. cbn beta. rewrite !Z.eqb_refl.
  rewrite !ifname_length, !take_ge by (rewrite ifname_length; lia).
  repeat case_bool_decide; try done; exfalso;
    repeat match goal with H : ifname _ = ifname _ |- _ =>
      apply ifname_inj in H; [|apply Hp|done] end; naive_solver.
Qed.

(** A rule that masquerades does nothing else. *)
Lemma masquerade_rule_only p rg n out :
  eval p rg (masquerade_rule n out) = None ∨ eval p rg (masquerade_rule n out) = Some Masqueraded.
Proof.
  unfold masquerade_rule. rewrite eval_payload, eval_bitwise, eval_cmp, eval_meta, eval_cmp, eval_masq.
  repeat case_bool_decide; auto.
Qed.

Lemma chain_action_app rs rs' p :
  chain_action (rs ++ rs') p =
    match chain_action rs p with Some a => Some a | None => chain_action rs' p end.
Proof.
  unfold chain_action. rewrite omap_app. by destruct (omap (eval p (λ _, [])) rs).
Qed.

(** A chain whose rules have one action takes it when some rule matches. *)
Lemma chain_action_one {X} (f : X → list expr) (P : X → bool) a (l : list X) p :
  (∀ x, x ∈ l → eval p (λ _, []) (f x) = if P x then Some a else None) →
  chain_action (map f l) p = if existsb P l then Some a else None.
Proof.
  unfold chain_action. induction l as [|x l IH]; intros H; [done|]. cbn.
  rewrite (H x) by set_solver. destruct (P x); [done|]. cbn. apply IH. set_solver.
Qed.
End rules.

(** ** What the operations install *)

Definition masquerades (out : string) (nets : list IPNet) : list (list expr) :=
  map (λ n, masquerade_rule n out) nets.

(** The pairs of interfaces between which packets are dropped. *)
Definition both_ways (a : string) (others : list string) : list (string * string) :=
  concat (map (λ b, [(a, b); (b, a)]) others).

Definition drops (ps : list (string * string)) : list (list expr) :=
  map (λ p, drop_rule p.1 p.2) ps.

Definition nat_table : Table := {| t_Family := TableFamilyIPv4; t_Name := "gokrazy_nat" |}.

Definition postrouting_chain : Chain := {|
  c_Name := "postrouting"; c_Table := nat_table; c_Type := ChainTypeNAT;
  c_Hooknum := ChainHookPostrouting; c_Priority := ChainPriorityNATSource |}.

Definition forward_chain : Chain := {|
  c_Name := "forward"; c_Table := nat_table; c_Type := ChainTypeFilter;
  c_Hooknum := ChainHookForward; c_Priority := ChainPriorityFilter |}.

Definition the_manager (out : string) : Manager := {|
  m_table := nat_table; m_chain := postrouting_chain; m_outIface := out |}.

(** The rule set with some networks masqueraded and, once there is a forward
    chain, some pairs of interfaces separated. *)
Definition gokrazy_rules (out : string) (nets : list IPNet) (iso : option (list (string * string)))
    : ruleset := {|
  rs_tables := [nat_table];
  rs_chains := (postrouting_chain, masquerades out nets) ::
    match iso with None => [] | Some ps => [(forward_chain, drops ps)] end |}.

Lemma hook_masquerades out nets iso :
  hook_rules (gokrazy_rules out nets iso) ChainTypeNAT ChainHookPostrouting = masquerades out nets.
Proof.
  unfold hook_rules. cbn [gokrazy_rules rs_chains]. rewrite filter_cons, decide_True by done.
  destruct iso; [rewrite filter_cons, decide_False by (by intros (? & _))|]; cbn; by rewrite app_nil_r.
Qed.

Lemma hook_drops out nets iso :
  hook_rules (gokrazy_rules out nets iso) ChainTypeFilter ChainHookForward = drops (default [] iso).
Proof.
  unfold hook_rules. cbn [gokrazy_rules rs_chains]. rewrite filter_cons, decide_False by (by intros (? & _)).
  destruct iso; [rewrite filter_cons, decide_True by done|done]; cbn; by rewrite app_nil_r.
Qed.

Lemma apply_masquerade out nets iso n :
  apply (gokrazy_rules out nets iso) (AddRule nat_table postrouting_chain (masquerade_rule n out)) =
  Some (gokrazy_rules out (nets ++ [n]) iso).
Proof. unfold gokrazy_rules, masquerades. rewrite map_app. by destruct iso. Qed.

Lemma apply_drop out nets ps a b :
  apply (gokrazy_rules out nets (Some ps)) (AddRule nat_table forward_chain (drop_rule a b)) =
  Some (gokrazy_rules out nets (Some (ps ++ [(a, b)]))).
Proof. unfold gokrazy_rules, drops. by rewrite map_app. Qed.

Definition drop_requests (ps : list (string * string)) : list request :=
  map (λ p, AddRule nat_table forward_chain (drop_rule p.1 p.2)) ps.

Lemma drop_requests_no_flush ps : Forall (λ r, is_flush r = false) (drop_requests ps).
Proof. apply Forall_forall. by intros r (p & -> & _)%list_elem_of_fmap. Qed.

Lemma commit_drops out nets ps qs :
  commit (gokrazy_rules out nets (Some ps)) (drop_requests qs) = Some (gokrazy_rules out nets (Some (ps ++ qs))).
Proof.
  induction qs as [|[a b] qs IH] in ps |- *; cbn [drop_requests map commit]; [by rewrite app_nil_r|].
  cbn [fst snd]. rewrite apply_drop. cbn [mbind option_bind]. fold (drop_requests qs).
  by rewrite IH, <-app_assoc.
Qed.

(** More networks, more packets. *)
Lemma masquerades_more `{N : Nft} out nets l iso p :
  is_packet p → is_ifname out → Forall net4 l →
  masquerades_packet (gokrazy_rules out (nets ++ l) iso) p ↔
  masquerades_packet (gokrazy_rules out nets iso) p ∨
  pk_oif p = out ∧ ∃ n, n ∈ l ∧ IPNet_Contains n (source p) = true.
Proof.
  intros Hp Ho Hl. unfold masquerades_packet. rewrite !hook_masquerades. unfold masquerades.
  rewrite map_app, chain_action_app.
  assert (chain_action (map (λ n, masquerade_rule n out) nets) p = None ∨
    chain_action (map (λ n, masquerade_rule n out) nets) p = Some Masqueraded) as Hone.
  { unfold chain_action. induction nets as [|n nets IH]; [by left|]. cbn.
    destruct (masquerade_rule_only p (λ _, []) n out) as [-> | ->]; [done|by right]. }
   destruct Hone as [-> | ->]; [|tauto].
  rewrite (chain_action_one _ (λ n, bool_decide (IPNet_Contains n (source p) = true ∧ pk_oif p = out)) Masqueraded).
  2: { intros n Hn. rewrite Forall_forall in Hl. by rewrite eval_masquerade_rule by auto. }
  destruct (existsb _ l) eqn:E.
  - apply existsb_true in E as (n & ? & []%bool_decide_eq_true). naive_solver.
  - split; [done|]. intros [|(? & n & Hin & ?)]; [done|]. apply not_true_iff_false in E. destruct E.
    apply existsb_true. exists n. by rewrite bool_decide_eq_true.
Qed.

Section installs.
Context (iface_exists : string → bool) (flush_ok : list request → bool).

(** The manager knows its forward chain when the kernel has it. *)
Definition set_up (w : nat_state) (out : string) (nets : list IPNet)
    (iso : option (list (string * string))) : Prop :=
  settled flush_ok no_rules w (gokrazy_rules out nets iso) ∧
  fwdChain w = (λ _, forward_chain) <$> iso.

Lemma Setup_set_up out n w w' m :
  settled flush_ok no_rules w no_rules →
  Setup iface_exists flush_ok out n w = (w', Ok m) →
  m = the_manager out ∧ set_up w' out [n] None.
Proof.
  intros Hs. unfold Setup, guard_or, send, flush, set_fwdChain, record. io_unfold.
  destruct (iface_exists out); [|done]. cbn [requests].
  destruct (flush_ok _) eqn:Ef; [|done]. intros [= <- <-]. split; [done|]. split; [|done].
  rewrite <-!app_assoc in Ef. eapply settled_flush; [exact Hs| | |exact Ef|].
  - cbn [requests]. by rewrite <-!app_assoc.
  - by repeat constructor.
  - done.
Qed.

Lemma AddSource_set_up out nets iso n w w' :
  set_up w out nets iso → AddSource flush_ok (the_manager out) n w = (w', Ok ()) →
  set_up w' out (nets ++ [n]) iso.
Proof.
  intros [Hs Hf]. unfold AddSource, send, flush, record. io_unfold. cbn [requests].
  destruct (flush_ok _) eqn:Ef; [|done]. intros [= <-]. split; [|done].
  eapply settled_flush; [exact Hs| | |exact Ef|].
  - cbn [requests]. by rewrite <-!app_assoc.
  - by repeat constructor.
  - cbn [commit]. by rewrite apply_masquerade.
Qed.

Lemma add_drops_run a others w :
  add_drops nat_table forward_chain a others w =
    ({| requests := requests w ++ drop_requests (both_ways a others); fwdChain := fwdChain w |}, Ok ()).
Proof.
  induction others as [|b others IH] in w |- *; cbn [add_drops].
  { cbn. rewrite app_nil_r. by destruct w. }
  unfold send, record. io_unfold. rewrite IH. cbn [requests fwdChain]. by rewrite <-!app_assoc.
Qed.

Lemma AddIsolation_set_up out nets iso a others w w' :
  set_up w out nets iso → AddIsolation flush_ok (the_manager out) a others w = (w', Ok ()) →
  set_up w' out nets (Some (default [] iso ++ both_ways a others)).
Proof.
  intros [Hs Hf]. unfold AddIsolation, need_fwdChain, get_fwdChain, set_fwdChain, send, record, flush. io_unfold.
  rewrite Hf. destruct iso as [ps|]; cbn [fmap option_fmap option_map]; rewrite add_drops_run; cbn [requests].
  - destruct (flush_ok _) eqn:Ef; [|done]. intros [= <-]. split; [|done].
    eapply settled_flush; [exact Hs| |apply drop_requests_no_flush|exact Ef|apply commit_drops].
    cbn. by rewrite <-!app_assoc.
  - destruct (flush_ok _) eqn:Ef; [|done]. intros [= <-]. split; [|done].
    rewrite <-app_assoc in Ef. eapply settled_flush; [exact Hs| | |exact Ef|].
    + cbn. by rewrite <-!app_assoc.
    + constructor; [done|]. apply drop_requests_no_flush.
    + cbn [app commit].
      change (apply (gokrazy_rules out nets None) _) with (Some (gokrazy_rules out nets (Some []))).
      cbn [mbind option_bind]. by rewrite commit_drops.
Qed.

Lemma Cleanup_set_up out nets iso w :
  set_up w out nets iso →
  (Cleanup flush_ok (Some (the_manager out)) w).2 = Ok () ∧
  installed flush_ok no_rules (requests (Cleanup flush_ok (Some (the_manager out)) w).1) =
    if flush_ok (requests w ++ [DelTable nat_table]) then no_rules else gokrazy_rules out nets iso.
Proof.
  intros [Hs _]. split; [done|].
  refine (proj2 (settled_flush_anyway flush_ok no_rules w (Cleanup flush_ok (Some (the_manager out)) w).1 _
    no_rules [DelTable nat_table] Hs _ _ _)).
  - unfold Cleanup, flush_anyway, flush, send, record. io_unfold. cbn [requests fst]. by rewrite <-app_assoc.
  - by repeat constructor.
  - by destruct iso.
Qed.
End installs.

(** ** A concrete kernel *)

Fixpoint ref_eval (p : packet) (rg : Z → list Z) (es : list expr) : option action :=
  match es with
  | [] => None
  | Payload d _ off len :: es =>
      ref_eval p (λ r, if r =? d then take (Z.to_nat len) (drop (Z.to_nat off) (pk_header p))
                       else rg r) es
  | Bitwise s d len mask xor :: es =>
      ref_eval p (λ r, if r =? d
                       then zip_with Z.lxor (zip_with Z.land (take (Z.to_nat len) (rg s)) mask) xor
                       else rg r) es
  | Cmp _ r data :: es =>
      if bool_decide (take (length data) (rg r) = data) then ref_eval p rg es else None
  | Meta k d :: es =>
      ref_eval p (λ r, if r =? d
                       then ifname (match k with MetaKeyIIFNAME => pk_iif p
                                                | MetaKeyOIFNAME => pk_oif p end)
                       else rg r) es
  | Masq :: _ => Some Masqueraded
  | Verdict _ :: _ => Some Dropped
  end.

Definition ref_nft : Nft.
Proof. by refine {| eval := ref_eval |}. Defined.

(** A packet from an address between two interfaces. *)
Definition demo_packet (src : IP) (iif oif : string) : packet :=
  {| pk_header := replicate 12 0 ++ src ++ replicate 4 0; pk_iif := iif; pk_oif := oif |}.
