(* ===== verification/Startup.v ===== *)
(** * cmd/gokrazy-router: bringing up NAT, isolation and DHCP

    The loops of main that install the NAT and isolation rules for the VLANs
    and that start a DHCP server for every scope, and the name of a VLAN's
    bridge (pkg/vlan).  They connect the configuration with the components Nat
    and Dhcp, and the running daemon of Reload with how main starts it. *)

From Stdlib Require Import Ascii.
From S2P Require Import Prelude GoStrings GoStrconv GoNet GoOs Config Saving.
From S2P Require Dhcp NatRules Reload.
Import Reload.
Open Scope Z_scope.

(** ** Names *)

(** [vlan.BridgeName]. *)
Definition BridgeName (vlanID : Z) : string := "br-vlan" +:+ itoa vlanID.

Inductive fatal :=
  | FatalNat (e : NatRules.nat_error)
  | FatalSource (id : Z) (e : NatRules.nat_error)
  | FatalLanCIDR
  | FatalIsolation (id : Z) (e : NatRules.nat_error)
  | FatalDhcpVLAN (id : Z) (e : Dhcp.new_error)
  | FatalDhcp (e : Dhcp.new_error)
  | FatalDhcpWiFi (e : Dhcp.new_error).

Abbreviation main_io := (io NatRules.nat_state fatal).

(** ** NAT and isolation *)

Section network.
Context (iface_exists : string → bool) (flush_ok : list NatRules.request → bool).

(** The loop over the VLANs; the manager is made for the first network. *)
Fixpoint nat_vlans (out : string) (mgr : option NatRules.Manager) (vs : list VLANConfig)
    : main_io (option NatRules.Manager) :=
  match vs with
  | [] => mret mgr
  | v :: vs =>
      if negb (v_NAT v) then nat_vlans out mgr vs
      else match ParseCIDR (v_Address v) with
           | None => nat_vlans out mgr vs
           | Some (_, vNet) =>
               mgr ← match mgr with
                     | None =>
                         m ← or_else_throw FatalNat (NatRules.Setup iface_exists flush_ok out vNet);
                         mret (Some m)
                     | Some m =>
                         _ ← or_else_throw (FatalSource (v_ID v)) (NatRules.AddSource flush_ok m vNet);
                         mret (Some m)
                     end;
               nat_vlans out mgr vs
           end
  end.

(** Step 3 of main. *)
Definition setup_nat (h : heap) (cfg : Config) : main_io (option NatRules.Manager) :=
  if negb (n_Enabled (cf_NAT cfg)) then mret None
  else
    let out := n_OutInterface (cf_NAT cfg) in
    match VLANs h cfg with
    | [] =>
        match ParseCIDR (lan_Address (cf_LAN cfg)) with
        | None => throw FatalLanCIDR
        | Some (_, srcNet) =>
            m ← or_else_throw FatalNat (NatRules.Setup iface_exists flush_ok out srcNet);
            mret (Some m)
        end
    | vs => nat_vlans out None vs
    end.

Fixpoint isolate_vlans (m : NatRules.Manager) (allBridges : list string) (vs : list VLANConfig)
    : main_io unit :=
  match vs with
  | [] => mret ()
  | v :: vs =>
      if negb (v_Isolated v) then isolate_vlans m allBridges vs
      else
        let isolated := BridgeName (v_ID v) in
        let others := filter (λ b, b ≠ isolated) allBridges in
        _ ← (if (0 <? length others)%nat
             then or_else_throw (FatalIsolation (v_ID v))
                    (NatRules.AddIsolation flush_ok m isolated others)
             else mret ());
        isolate_vlans m allBridges vs
  end.

(** Step 3b of main. *)
Definition setup_isolation (h : heap) (cfg : Config) (mgr : option NatRules.Manager) : main_io unit :=
  match VLANs h cfg, mgr with
  | (_ :: _) as vs, Some m => isolate_vlans m (map (λ v, BridgeName (v_ID v)) vs) vs
  | _, _ => mret ()
  end.

Definition setup_network (h : heap) (cfg : Config) : main_io (option NatRules.Manager) :=
  mgr ← setup_nat h cfg;
  _ ← setup_isolation h cfg mgr;
  mret mgr.
End network.

(** ** DHCP servers *)

Section dhcp.
Context `{U : GoUnicode} `{MO : MapOrder} `{F : GoFloat}.

(** One server: made, given its options and, with a monitor, its callbacks. *)
Definition dhcp_entry (h : heap) (cfg : Config) (mon : bool) (iface addr : string)
    (d : DHCPConfig) (ref : scope_ref) : result Dhcp.new_error dhcpEntry :=
  match Dhcp.New iface addr (d_RangeStart d) (d_RangeEnd d) (d_DNS d) (ParseLeaseDuration d) with
  | Err e => Err e
  | Ok srv =>
      let pxe := sv_PXE (cf_Services cfg) in
      let tftp := ifaceIPFromCIDR addr in
      let srv := applyDHCPOptions h srv d (p_Enabled pxe) tftp (view h (p_MacImages pxe)) pxe in
      let srv := if mon then Dhcp.OnLeaseExpired (Dhcp.OnLease srv true) true else srv in
      Ok {| de_srv := srv; de_tftpAddr := tftp; de_baseScope := ref |}
  end.

Fixpoint vlan_entries (h : heap) (cfg : Config) (mon : bool) (i : nat) (vs : list VLANConfig)
    : result fatal (list dhcpEntry) :=
  match vs with
  | [] => Ok []
  | v :: vs =>
      if negb (d_Enabled (v_DHCP v)) then vlan_entries h cfg mon (S i) vs
      else match dhcp_entry h cfg mon (BridgeName (v_ID v)) (v_Address v) (v_DHCP v) (ScopeVLAN i) with
           | Err e => Err (FatalDhcpVLAN (v_ID v) e)
           | Ok e => match vlan_entries h cfg mon (S i) vs with
                     | Err f => Err f
                     | Ok es => Ok (e :: es)
                     end
           end
  end.

(** Step 6 of main. *)
Definition wired_entries (h : heap) (cfg : Config) (mon : bool) : result fatal (list dhcpEntry) :=
  match VLANs h cfg with
  | [] =>
      let lan := cf_LAN cfg in
      if d_Enabled (lan_DHCP lan) then
        match dhcp_entry h cfg mon (lan_Bridge lan) (lan_Address lan) (lan_DHCP lan) ScopeLAN with
        | Err e => Err (FatalDhcp e)
        | Ok e => Ok [e]
        end
      else Ok []
  | vs => vlan_entries h cfg mon 0 vs
  end.

Definition wifi_iface (cfg : Config) : string :=
  if String.eqb (wi_Interface (cf_WiFi cfg)) "" then "wlan0" else wi_Interface (cf_WiFi cfg).

(** Steps 6 and 7 of main; [wifi_up] tells whether the access point runs and
    [macMap] whether it has a MAC-to-VLAN map. *)
Definition start_dhcp (h : heap) (cfg : Config) (mon wifi_up macMap : bool)
    : result fatal (list dhcpEntry) :=
  match wired_entries h cfg mon with
  | Err f => Err f
  | Ok es =>
      let w := cf_WiFi cfg in
      if wifi_up && negb (String.eqb (wi_Address w) "") && d_Enabled (wi_DHCP w) && negb macMap then
        match dhcp_entry h cfg mon (wifi_iface cfg) (wi_Address w) (wi_DHCP w) ScopeWiFi with
        | Err e => Err (FatalDhcpWiFi e)
        | Ok e => Ok (es ++ [e])
        end
      else Ok es
  end.

(** The bridge the access point is put into, or the empty string. *)
Definition wifi_bridge (h : heap) (cfg : Config) : string :=
  let w := cf_WiFi cfg in
  let vlanMode := match VLANs h cfg with [] => false | _ => true end in
  if vlanMode && negb (String.eqb (wi_MacMapFile w) "") then
    BridgeName (if wi_DefaultVLAN w =? 0 then 1 else wi_DefaultVLAN w)
  else if negb (String.eqb (wi_Bridge w) "") && String.eqb (wi_Address w) "" then wi_Bridge w
  else "".
End dhcp.

(** ** Lemmas: the rules of the set-up *)

Section requests.
Context (iface_exists : string → bool) (flush_ok : list NatRules.request → bool).

(** The networks that are masqueraded. *)
Definition nat_net (v : VLANConfig) : option IPNet :=
  if v_NAT v then snd <$> ParseCIDR (v_Address v) else None.

Definition nat_nets (h : heap) (cfg : Config) : list IPNet :=
  match VLANs h cfg with
  | [] => match ParseCIDR (lan_Address (cf_LAN cfg)) with Some (_, n) => [n] | None => [] end
  | vs => omap nat_net vs
  end.

(** What a manager, if there is one, has installed. *)
Definition manages (w : NatRules.nat_state) (out : string) (nets : list IPNet)
    (iso : option (list (string * string))) (mgr : option NatRules.Manager) : Prop :=
  match mgr with
  | None => NatRules.settled flush_ok NatRules.no_rules w NatRules.no_rules ∧ nets = [] ∧ iso = None
  | Some m => m = NatRules.the_manager out ∧ nets ≠ [] ∧ NatRules.set_up flush_ok w out nets iso
  end.

Lemma nat_vlans_manages out vs mgr w w' mgr' nets :
  manages w out nets None mgr →
  nat_vlans iface_exists flush_ok out mgr vs w = (w', Ok mgr') →
  manages w' out (nets ++ omap nat_net vs) None mgr'.
Proof.
  induction vs as [|v vs IH] in mgr, w, nets |- *; cbn [nat_vlans omap list_omap]; intros Hm.
  { intros [= <- <-]. by rewrite app_nil_r. }
  destruct (nat_net v) as [n|] eqn:En; unfold nat_net in En; destruct (v_NAT v); try done;
    cbn [negb]; [destruct (ParseCIDR (v_Address v)) as [[ip n']|]; [|done]; injection En as ->
                |destruct (ParseCIDR (v_Address v)); [done|]; by apply IH|by apply IH].
  replace (nets ++ n :: omap nat_net vs) with ((nets ++ [n]) ++ omap nat_net vs) by by rewrite <-app_assoc.
  unfold or_else_throw. io_unfold. destruct mgr as [m|].
  - destruct Hm as (-> & Hne & Hs). destruct (NatRules.AddSource flush_ok _ n w) as [w1 [e|[]]] eqn:E; [done|].
    apply (NatRules.AddSource_set_up flush_ok _ nets None) in E; [|done]. apply IH. split_and!; [done|by destruct nets|done].
  - destruct Hm as (Hs & -> & _). destruct (NatRules.Setup iface_exists flush_ok out n w) as [w1 [e|m]] eqn:E; [done|].
    apply NatRules.Setup_set_up in E as [-> E]; [|done]. by apply IH.
Qed.

Lemma setup_nat_manages h cfg w w' mgr :
  NatRules.settled flush_ok NatRules.no_rules w NatRules.no_rules →
  setup_nat iface_exists flush_ok h cfg w = (w', Ok mgr) →
  manages w' (n_OutInterface (cf_NAT cfg)) (if n_Enabled (cf_NAT cfg) then nat_nets h cfg else []) None mgr.
Proof.
  intros Hs. unfold setup_nat, nat_nets. destruct (n_Enabled (cf_NAT cfg)); cbn [negb]; [|by intros [= <- <-]].
  destruct (VLANs h cfg) as [|v vs].
  - destruct (ParseCIDR _) as [[ip n]|]; [|done]. unfold or_else_throw. io_unfold.
    destruct (NatRules.Setup _ _ _ _ w) as [w1 [e|m]] eqn:E; [done|]. intros [= <- <-].
    by apply NatRules.Setup_set_up in E as [-> E].
  - by apply (nat_vlans_manages _ (v :: vs) None w w' mgr []).
Qed.

(** The pairs of all isolated VLANs. *)
Definition isolation_pairs (all : list string) (vs : list VLANConfig) : list (string * string) :=
  concat (map (λ v, NatRules.both_ways (BridgeName (v_ID v))
                      (filter (λ b, b ≠ BridgeName (v_ID v)) all)) (filter (λ v, v_Isolated v = true) vs)).

Lemma isolate_vlans_set_up out nets iso all vs w w' :
  NatRules.set_up flush_ok w out nets iso →
  isolate_vlans flush_ok (NatRules.the_manager out) all vs w = (w', Ok ()) →
  ∃ iso', NatRules.set_up flush_ok w' out nets iso' ∧
    default [] iso' = default [] iso ++ isolation_pairs all vs.
Proof.
  induction vs as [|v vs IH] in w, iso |- *; cbn [isolate_vlans]; intros Hs.
  { intros [= <-]. exists iso. by rewrite app_nil_r. }
  unfold isolation_pairs. rewrite filter_cons. fold (isolation_pairs all vs).
  destruct (v_Isolated v); cbn [negb].
  - rewrite decide_True by done. cbn [map concat]. fold (isolation_pairs all vs).
    set (a := BridgeName (v_ID v)). set (others := filter _ all).
    unfold or_else_throw. io_unfold. destruct (Nat.ltb_spec 0 (length others)).
    + destruct (NatRules.AddIsolation flush_ok _ a others w) as [w1 [e|[]]] eqn:E; [done|].
      apply (NatRules.AddIsolation_set_up flush_ok _ nets iso) in E; [|done]. intros H1.
      destruct (IH _ _ E H1) as (iso' & H2 & H3). exists iso'. split; [done|].
      rewrite H3. cbn [default from_option id]. by rewrite <-app_assoc.
    + assert (others = []) as -> by (destruct others; [done|cbn in *; lia]). by apply IH.
  - rewrite decide_False by done. by apply IH.
Qed.

(** The bridges that are kept apart. *)
Definition separated (h : heap) (cfg : Config) : list (string * string) :=
  isolation_pairs (map (λ v, BridgeName (v_ID v)) (VLANs h cfg)) (VLANs h cfg).

(** What the whole set-up installs. *)
Lemma setup_network_manages h cfg w w' mgr :
  NatRules.requests w = [] →
  setup_network iface_exists flush_ok h cfg w = (w', Ok mgr) →
  ∃ iso, manages w' (n_OutInterface (cf_NAT cfg)) (if n_Enabled (cf_NAT cfg) then nat_nets h cfg else []) iso mgr ∧
    default [] iso = match mgr with None => [] | Some _ => separated h cfg end.
Proof.
  intros Hw. unfold setup_network, setup_isolation, separated. io_unfold.
  assert (NatRules.settled flush_ok NatRules.no_rules w NatRules.no_rules) as Hs.
  { unfold NatRules.settled, NatRules.installed. by rewrite Hw. }
  destruct (setup_nat _ _ h cfg w) as [w1 [e|mgr1]] eqn:E; [done|].
  apply setup_nat_manages in E; [|done].
  destruct (VLANs h cfg) as [|v vs]; io_unfold.
  { intros [= <- <-]. exists None. split; [done|]. by destruct mgr1. }
  destruct mgr1 as [m|]; [|intros [= <- <-]; by exists None].
  destruct E as (-> & Hne & Hu).
  destruct (isolate_vlans _ _ _ _ w1) as [w2 [e|[]]] eqn:Ei; [done|]. intros [= <- <-].
  destruct (isolate_vlans_set_up _ _ _ _ _ _ _ Hu Ei) as (iso & H1 & H2). by exists iso.
Qed.
End requests.

(** ** Lemmas: names of bridges *)

Lemma BridgeName_inj i j : BridgeName i = BridgeName j ↔ i = j.
Proof. split; [|by intros ->]. intros H%str_app_inj_l. by apply itoa_inj. Qed.

Lemma BridgeName_ifname id : 0 ≤ id < 4096 → NatRules.is_ifname (BridgeName id).
Proof.
  intros Hid.
  assert (∀ l, Forall (λ i, (String.length (itoa i) < 9)%nat) l ↔
    forallb (λ i, (String.length (itoa i) <? 9)%nat) l = true) as Hf.
  { induction l as [|x l IH]; [done|]. cbn [forallb]. by rewrite Forall_cons, IH, andb_true_iff, Nat.ltb_lt. }
  assert (Forall (λ i, (String.length (itoa i) < 9)%nat) (seqZ 0 4096)) as Hl.
  { apply Hf. vm_compute. reflexivity. }
  rewrite Forall_forall in Hl. specialize (Hl id). rewrite elem_of_seqZ in Hl. split.
  - unfold BridgeName. rewrite length_str_app. cbn [String.length]. specialize (Hl ltac:(lia)). lia.
  - unfold BridgeName. rewrite to_bytes_app. apply Forall_app. split; [repeat constructor; done|].
    eapply Forall_impl; [apply itoa_digits; lia|]. intros b Hb%is_digit_range. lia.
Qed.

(** ** What the rules do with a packet *)

Section packets.
Context `{N : NatRules.Nft}.

Lemma masquerades_action out nets p :
  NatRules.is_packet p → NatRules.is_ifname out → Forall NatRules.net4 nets →
  NatRules.chain_action (NatRules.masquerades out nets) p = Some NatRules.Masqueraded ↔
  NatRules.pk_oif p = out ∧ ∃ n, n ∈ nets ∧ IPNet_Contains n (NatRules.source p) = true.
Proof.
  intros Hp Ho Hn. rewrite Forall_forall in Hn. unfold NatRules.masquerades.
  rewrite (NatRules.chain_action_one _
    (λ n, bool_decide (IPNet_Contains n (NatRules.source p) = true ∧ NatRules.pk_oif p = out)) NatRules.Masqueraded).
  2: { intros n H. rewrite NatRules.eval_masquerade_rule by auto. done. }
  destruct (existsb _ nets) eqn:E.
  - apply existsb_true in E as (n & ? & []%bool_decide_eq_true). naive_solver.
  - split; [done|]. intros (? & n & Hin & ?). apply not_true_iff_false in E. destruct E.
    apply existsb_true. exists n. by rewrite bool_decide_eq_true.
Qed.

Lemma drops_action ps p :
  NatRules.is_packet p → (∀ a b, (a, b) ∈ ps → NatRules.is_ifname a ∧ NatRules.is_ifname b) →
  NatRules.chain_action (NatRules.drops ps) p = Some NatRules.Dropped ↔ (NatRules.pk_iif p, NatRules.pk_oif p) ∈ ps.
Proof.
  intros Hp Hn. unfold NatRules.drops.
  rewrite (NatRules.chain_action_one _
    (λ q, bool_decide (NatRules.pk_iif p = q.1 ∧ NatRules.pk_oif p = q.2)) NatRules.Dropped).
  2: { intros [a b] [? ?]%Hn. by rewrite NatRules.eval_drop_rule. }
  destruct (existsb _ ps) eqn:E.
  - apply existsb_true in E as ([a b] & Hin & [E1 E2]%bool_decide_eq_true). cbn in *. by rewrite E1, E2.
  - split; [done|]. intros Hin. apply not_true_iff_false in E. destruct E.
    apply existsb_true. eexists. split; [exact Hin|]. by apply bool_decide_eq_true.
Qed.

Lemma separated_spec h cfg a b :
  (a, b) ∈ separated h cfg ↔
  ∃ v u, v ∈ VLANs h cfg ∧ u ∈ VLANs h cfg ∧ v_Isolated v = true ∧ v_ID v ≠ v_ID u ∧
    ((a = BridgeName (v_ID v) ∧ b = BridgeName (v_ID u)) ∨
     (a = BridgeName (v_ID u) ∧ b = BridgeName (v_ID v))).
Proof.
  unfold separated, isolation_pairs, NatRules.both_ways. generalize (VLANs h cfg). intros vs. split.
  - intros (l & (v & -> & [Hi Hv]%list_elem_of_filter)%list_elem_of_fmap & Hin)%elem_of_concat.
    apply elem_of_concat in Hin as (l & (o & -> & [Hne Ho]%list_elem_of_filter)%list_elem_of_fmap & Hin).
    apply list_elem_of_fmap in Ho as (u & -> & Hu). rewrite BridgeName_inj in Hne.
    exists v, u. split_and!; try done. set_solver.
  - intros (v & u & Hv & Hu & Hi & Hne & Hab). apply elem_of_concat. eexists. split.
    { apply (list_elem_of_fmap_2 _ _ v). by apply list_elem_of_filter. }
    apply elem_of_concat. eexists. split.
    { apply (list_elem_of_fmap_2 _ _ (BridgeName (v_ID u))). apply list_elem_of_filter. split.
      - rewrite BridgeName_inj. by apply not_eq_sym.
      - by apply (list_elem_of_fmap_2 (λ v, BridgeName (v_ID v))). }
    destruct Hab as [[-> ->]|[-> ->]]; set_solver.
Qed.
End packets.

(** ** Lemmas: DHCP servers *)

Section servers.
Context `{U : GoUnicode} `{MO : MapOrder} `{F : GoFloat}.

Definition fresh_entry (t : Z) (e : dhcpEntry) : Prop :=
  ∃ s0, Dhcp.reachable s0 t (de_srv e) t.

Lemma dhcp_entry_fresh h cfg mon iface addr d ref e t :
  dhcp_entry h cfg mon iface addr d ref = Ok e → fresh_entry t e.
Proof.
  unfold dhcp_entry. destruct (Dhcp.New _ _ _ _ _ _) as [|s] eqn:E; [done|]. intros [= <-].
  exists s. split; [by do 6 eexists|]. cbn [de_srv].
  set (s1 := applyDHCPOptions _ _ _ _ _ _ _).
  transitivity (s1, t); [apply applyDHCPOptions_steps|].
  destruct mon; [|apply rtc_refl].
  eapply rtc_l; [apply Dhcp.step_OnLease|]. apply rtc_once, Dhcp.step_OnLeaseExpired.
Qed.

Lemma vlan_entries_fresh h cfg mon vs i es t :
  vlan_entries h cfg mon i vs = Ok es → Forall (fresh_entry t) es.
Proof.
  induction vs as [|v vs IH] in i, es |- *; cbn [vlan_entries]; [by intros [= <-]|].
  destruct (negb _); [apply IH|].
  destruct (dhcp_entry _ _ _ _ _ _ _) as [|e] eqn:E; [done|].
  destruct (vlan_entries _ _ _ _ vs) as [|es'] eqn:Es; [done|]. intros [= <-].
  constructor; [by eapply dhcp_entry_fresh|by eapply IH].
Qed.

Lemma start_dhcp_fresh h cfg mon wifi macMap es t :
  start_dhcp h cfg mon wifi macMap = Ok es → Forall (fresh_entry t) es.
Proof.
  unfold start_dhcp. destruct (wired_entries h cfg mon) as [|ws] eqn:E; [done|].
  assert (Forall (fresh_entry t) ws) as Hw.
  { revert E. unfold wired_entries. destruct (VLANs h cfg); [|apply vlan_entries_fresh].
    destruct (d_Enabled _); [|by intros [= <-]].
    destruct (dhcp_entry _ _ _ _ _ _ _) as [|e] eqn:E; [done|]. intros [= <-].
    constructor; [by eapply dhcp_entry_fresh|done]. }
  destruct (_ && _ && _ && _); [|by intros [= <-]].
  destruct (dhcp_entry _ _ _ _ _ _ _) as [|e] eqn:Ew; [done|]. intros [= <-].
  apply Forall_app. split; [done|]. constructor; [by eapply dhcp_entry_fresh|done].
Qed.

(** ** What main starts: the scopes and their servers *)

Record scope_start := { sc_iface : string; sc_addr : string; sc_ref : scope_ref }.

(** The wired scopes and, with an access point in routed mode, its own; those
    whose DHCP is switched on are served, in this order. *)
Definition scopes (h : heap) (cfg : Config) (wifi_up macMap : bool) : list scope_start :=
  filter (λ sc, d_Enabled (scope h cfg (sc_ref sc)) = true)
    (match VLANs h cfg with
     | [] => [{| sc_iface := lan_Bridge (cf_LAN cfg); sc_addr := lan_Address (cf_LAN cfg); sc_ref := ScopeLAN |}]
     | vs => imap (λ i v, {| sc_iface := BridgeName (v_ID v); sc_addr := v_Address v; sc_ref := ScopeVLAN i |}) vs
     end ++
     if wifi_up && negb macMap && negb (String.eqb (wi_Address (cf_WiFi cfg)) "")
     then [{| sc_iface := wifi_iface cfg; sc_addr := wi_Address (cf_WiFi cfg); sc_ref := ScopeWiFi |}]
     else []).

(** The address of a server: that of its scope, which is also the router. *)
Definition addressed (addr : string) (s : Dhcp.Server) (tftp : string) : Prop :=
  ∃ ip net, ParseCIDR addr = Some (ip, net) ∧
    Dhcp.s_serverIP s = To4 ip ∧ Dhcp.s_router s = To4 ip ∧ Dhcp.s_mask s = net_Mask net ∧
    tftp = (if bool_decide (To4 ip = []) then "" else IP_String (To4 ip)).

(** The pool is the range of the scope, with nothing leased. *)
Definition pooled (d : DHCPConfig) (s : Dhcp.Server) : Prop :=
  Dhcp.s_rangeStart s = To4 (ParseIP (d_RangeStart d)) ∧
  Dhcp.s_rangeEnd s = To4 (ParseIP (d_RangeEnd d)) ∧
  Dhcp.s_lease s = ParseLeaseDuration d ∧
  Forall2 (λ txt ip, ParseIP txt ≠ [] ∧ ip = To4 (ParseIP txt)) (d_DNS d) (Dhcp.s_dns s) ∧
  Dhcp.s_leases s = ∅ ∧ Dhcp.s_nextIP s = To4 (ParseIP (d_RangeStart d)).

(** The reservations are those of the scope that name an address of its network. *)
Definition reserved (res : gmap string string) (s : Dhcp.Server) : Prop :=
  (∀ mac ip, Dhcp.s_reservations s !! mac = Some ip →
     ∃ raw txt, res !! raw = Some txt ∧ mac = Dhcp.normalizeMAC raw ∧ To4 (ParseIP txt) = ip ∧
       IPNet_Contains (Dhcp.subnet s) ip = true) ∧
  (∀ raw txt, res !! raw = Some txt → To4 (ParseIP txt) ≠ [] →
     IPNet_Contains (Dhcp.subnet s) (To4 (ParseIP txt)) = true →
     is_Some (Dhcp.s_reservations s !! Dhcp.normalizeMAC raw)).

(** The boot options: none without PXE, else the server of the scope (its own
    address unless it names another) and the first file that is set. *)
Definition boots (p : PXEConfig) (d : DHCPConfig) (images : gmap string string) (s : Dhcp.Server) : Prop :=
  let file := first_of [d_PXEBootFile d; p_BootFile p; p_DefaultImage p; "netboot.xyz.efi"] in
  if p_Enabled p then
    Dhcp.s_pxeBootServer s =
      (if String.eqb (d_PXEBootServer d) "" then Dhcp.s_serverIP s else To4 (ParseIP (d_PXEBootServer d))) ∧
    Dhcp.s_pxeBootFile s = file ∧
    Dhcp.s_legacyBootFile s = first_of [p_LegacyBootFile p; file] ∧
    Dhcp.s_uefiBootFile s = first_of [p_UEFIBootFile p; "netboot.xyz.efi"] ∧
    Dhcp.s_ipxeBootFile s = first_of [p_IPXEScript p; "boot.ipxe"] ∧
    (∀ mac f, Dhcp.s_macPXEBootFiles s !! mac = Some f →
       ∃ raw, images !! raw = Some f ∧ mac = Dhcp.normalizeMAC raw) ∧
    (∀ raw f, images !! raw = Some f → is_Some (Dhcp.s_macPXEBootFiles s !! Dhcp.normalizeMAC raw))
  else
    Dhcp.s_pxeBootServer s = [] ∧ Dhcp.s_pxeBootFile s = "" ∧ Dhcp.s_legacyBootFile s = "" ∧
    Dhcp.s_uefiBootFile s = "" ∧ Dhcp.s_ipxeBootFile s = "" ∧ Dhcp.s_macPXEBootFiles s = ∅.

(** The server of a scope. *)
Record serves (h : heap) (cfg : Config) (mon : bool) (sc : scope_start) (e : dhcpEntry) : Prop := {
  se_iface : Dhcp.s_iface (de_srv e) = sc_iface sc;
  se_addressed : addressed (sc_addr sc) (de_srv e) (de_tftpAddr e);
  se_pooled : pooled (scope h cfg (sc_ref sc)) (de_srv e);
  se_reserved : reserved (view h (d_Reservations (scope h cfg (sc_ref sc)))) (de_srv e);
  se_boots : boots (sv_PXE (cf_Services cfg)) (scope h cfg (sc_ref sc))
    (view h (p_MacImages (sv_PXE (cf_Services cfg)))) (de_srv e);
  se_callbacks : Dhcp.s_onLease (de_srv e) = mon ∧ Dhcp.s_onLeaseExpired (de_srv e) = mon;
  se_base : de_baseScope e = sc_ref sc
}.

Lemma parse_dns_Forall2 dns l : Dhcp.parse_dns dns = Ok l →
  Forall2 (λ txt ip, ParseIP txt ≠ [] ∧ ip = To4 (ParseIP txt)) dns l.
Proof.
  induction dns as [|d dns IH] in l |- *; cbn; [intros [= <-]; constructor|].
  destruct (ParseIP d) as [|x ip] eqn:E; [done|]. destruct (Dhcp.parse_dns dns) as [|l']; [done|].
  intros [= <-]. constructor; [by rewrite E|by apply IH].
Qed.

Lemma New_spec iface addr d s :
  Dhcp.New iface addr (d_RangeStart d) (d_RangeEnd d) (d_DNS d) (ParseLeaseDuration d) = Ok s →
  Dhcp.s_iface s = iface ∧ addressed addr s (ifaceIPFromCIDR addr) ∧ pooled d s ∧
  Dhcp.s_reservations s = ∅ ∧ Dhcp.s_onLease s = false ∧ Dhcp.s_onLeaseExpired s = false ∧
  Dhcp.s_pxeBootServer s = [] ∧ Dhcp.s_pxeBootFile s = "" ∧ Dhcp.s_legacyBootFile s = "" ∧
  Dhcp.s_uefiBootFile s = "" ∧ Dhcp.s_ipxeBootFile s = "" ∧ Dhcp.s_macPXEBootFiles s = ∅.
Proof.
  unfold Dhcp.New, Dhcp.dupIP, addressed, pooled, ifaceIPFromCIDR.
  destruct (ParseCIDR addr) as [[ip net]|]; [|done].
  destruct (Dhcp.parse_dns (d_DNS d)) as [e|l] eqn:El; [done|]. apply parse_dns_Forall2 in El.
  destruct (To4 (ParseIP (d_RangeStart d))) as [|a x]; [done|].
  destruct (To4 (ParseIP (d_RangeEnd d))) as [|b y]; [done|].
  intros [= <-]. cbn. split_and!; try done. exists ip, net. split_and!; try done. by destruct (To4 ip).
Qed.

Lemma as16_bytes a : Forall is_byte a → Forall is_byte (as16 a).
Proof.
  intros H. unfold as16. case_if; [|done]. apply Forall_app. split; [|done].
  repeat constructor; unfold is_byte; lia.
Qed.

(** A scope's own address, written and read again. *)
Lemma own_boot_server addr s tftp : addressed addr s tftp →
  (if String.eqb tftp "" then [] else To4 (ParseIP tftp)) = Dhcp.s_serverIP s.
Proof.
  intros (ip & net & E & -> & _ & _ & ->).
  apply ParseCIDR_inv in E as (txt & mask & a & k & _ & Ha & _ & -> & _).
  apply parse_addr_bytes in Ha as [Hb Hlen].
  case_bool_decide as Hn; [by rewrite Hn|].
  pose proof (To4_length _ Hn) as H4.
  assert (Forall is_byte (To4 (as16 a))) as Hbytes by (by apply To4_byte, as16_bytes).
  destruct (String.eqb_spec (IP_String (To4 (as16 a))) "") as [E|_]; [|by apply ParseIP_IP_String].
  exfalso. pose proof (ParseIP_IP_String _ H4 Hbytes) as Hp. rewrite E in Hp. by rewrite <-Hp in H4.
Qed.

Lemma reserved_none s : Dhcp.s_reservations s = ∅ → reserved ∅ s.
Proof. intros E. split; [intros ??; by rewrite E|done]. Qed.

Lemma SetReservations_reserved s res : reserved res (Dhcp.SetReservations s res).
Proof.
  split.
  - intros mac ip (raw & txt & H1 & H2 & H3 & _ & H4)%Dhcp.SetReservations_lookup. by exists raw, txt.
  - intros raw txt H1 H2 H3. by eapply Dhcp.SetReservations_bound.
Qed.

Lemma reserved_ext res s s' :
  Dhcp.s_reservations s' = Dhcp.s_reservations s → Dhcp.subnet s' = Dhcp.subnet s →
  reserved res s → reserved res s'.
Proof. unfold reserved. by intros -> ->. Qed.

Lemma SetMacPXEBootFiles_spec s images :
  let files := Dhcp.s_macPXEBootFiles (Dhcp.SetMacPXEBootFiles s images) in
  (∀ mac f, files !! mac = Some f → ∃ raw, images !! raw = Some f ∧ mac = Dhcp.normalizeMAC raw) ∧
  (∀ raw f, images !! raw = Some f → is_Some (files !! Dhcp.normalizeMAC raw)).
Proof.
  cbn. split.
  - intros mac f.
    destruct (fold_insert_lookup (λ e : string * string, Some (Dhcp.normalizeMAC e.1, e.2))
      (map_range images) ∅ mac) as [->|([raw f'] & v & Hin & Hf & ->)]; [by rewrite lookup_empty|].
    intros [= ->]. apply elem_of_map_range in Hin. simplify_eq/=. eauto.
  - intros raw f H.
    destruct (fold_insert_lookup_some (λ e : string * string, Some (Dhcp.normalizeMAC e.1, e.2))
      (map_range images) ∅ (Dhcp.normalizeMAC raw)) as (a & v & _ & _ & ->); [|by eexists].
    exists (raw, f), f. by rewrite elem_of_map_range.
Qed.

(** The options leave the rest of the server alone. *)
Definition same_rest (s s' : Dhcp.Server) : Prop :=
  Dhcp.same_config s s' ∧ same_pool s s' ∧
  Dhcp.s_onLease s' = Dhcp.s_onLease s ∧ Dhcp.s_onLeaseExpired s' = Dhcp.s_onLeaseExpired s.

Lemma applyPXEBootOptions_rest s tftp images p : same_rest s (applyPXEBootOptions s true tftp images p).
Proof.
  unfold applyPXEBootOptions, same_rest, Dhcp.same_config, same_pool. cbn -[or_else String.eqb].
  destruct (negb _ || _); by split_and!.
Qed.

(** The options of a server without any. *)
Lemma applied_boots p d images addr tftp s1 :
  addressed addr s1 tftp →
  Dhcp.s_pxeBootServer s1 = [] ∧ Dhcp.s_pxeBootFile s1 = "" ∧ Dhcp.s_legacyBootFile s1 = "" ∧
    Dhcp.s_uefiBootFile s1 = "" ∧ Dhcp.s_ipxeBootFile s1 = "" ∧ Dhcp.s_macPXEBootFiles s1 = ∅ →
  let s2 := if negb (p_Enabled p) then s1
            else applyPXEBootOptions s1 true
                   (if negb (String.eqb (d_PXEBootServer d) "") then d_PXEBootServer d else tftp) images
                   (if negb (String.eqb (d_PXEBootFile d) "") then set_BootFile p (d_PXEBootFile d) else p) in
  boots p d images s2 ∧ same_rest s1 s2 ∧ Dhcp.s_reservations s2 = Dhcp.s_reservations s1.
Proof.
  intros Ha Hb. cbn zeta. unfold boots. destruct (p_Enabled p) eqn:Ep; cbn [negb]; [|by repeat split; try apply Hb].
  set (server := if negb _ then _ else tftp). set (q := if negb _ then set_BootFile p _ else p).
  pose proof (applyPXEBootOptions_spec s1 server images q) as (Hplan & _ & Hr).
  pose proof (applyPXEBootOptions_rest s1 server images q) as Hrest.
  set (s2 := applyPXEBootOptions s1 true server images q) in *.
  split; [|done]. destruct Hplan as (H1 & H2 & H3 & H4 & H5 & H6).
  assert (p_DefaultImage q = p_DefaultImage p ∧ p_LegacyBootFile q = p_LegacyBootFile p ∧
    p_UEFIBootFile q = p_UEFIBootFile p ∧ p_IPXEScript q = p_IPXEScript p ∧
    ∀ l, first_of (p_BootFile q :: l) = first_of (d_PXEBootFile d :: p_BootFile p :: l)) as (Q1 & Q2 & Q3 & Q4 & Q5).
  { unfold q. destruct (String.eqb_spec (d_PXEBootFile d) "") as [->|Hd]; cbn [negb]; split_and!; try done.
    intros l. rewrite <-!or_else_first_of. cbn [p_BootFile set_BootFile]. unfold or_else.
    by destruct (String.eqb_spec (d_PXEBootFile d) ""). }
  rewrite Q1, Q5 in H1, H2. rewrite Q2 in H2. rewrite Q3 in H3. rewrite Q4 in H4.
  split_and!; try done; try (rewrite H6; apply SetMacPXEBootFiles_spec).
  destruct Hrest as ((_ & Hip & _) & _). rewrite H5, Hip. unfold server.
  destruct (String.eqb_spec (d_PXEBootServer d) "") as [|Hd]; cbn [negb]; [by eapply own_boot_server|].
  by destruct (String.eqb_spec (d_PXEBootServer d) "").
Qed.

Lemma dhcp_entry_serves h cfg mon sc e :
  dhcp_entry h cfg mon (sc_iface sc) (sc_addr sc) (scope h cfg (sc_ref sc)) (sc_ref sc) = Ok e →
  serves h cfg mon sc e.
Proof.
  unfold dhcp_entry. set (d := scope h cfg (sc_ref sc)). set (p := sv_PXE (cf_Services cfg)).
  destruct (Dhcp.New _ _ _ _ _ _) as [|s0] eqn:E0; [done|]. apply New_spec in E0 as H0.
  intros [= <-]. unfold applyDHCPOptions.
  set (res := view h (d_Reservations d)). set (images := view h (p_MacImages p)).
  set (s1 := if (0 <? size res)%nat then _ else s0).
  assert (same_rest s0 s1 ∧ reserved res s1 ∧ Dhcp.s_pxeBootServer s1 = [] ∧ Dhcp.s_pxeBootFile s1 = "" ∧
    Dhcp.s_legacyBootFile s1 = "" ∧ Dhcp.s_uefiBootFile s1 = "" ∧ Dhcp.s_ipxeBootFile s1 = "" ∧
    Dhcp.s_macPXEBootFiles s1 = ∅) as (Hr1 & Hres & Hb1).
  { unfold s1. destruct (Nat.ltb_spec 0 (size res)) as [Hl|Hl].
    - split; [by repeat split|]. split; [apply SetReservations_reserved|]. cbn. tauto.
    - split; [by repeat split|]. assert (res = ∅) as -> by (apply map_size_empty_inv; lia).
      split; [apply reserved_none|]; tauto. }
  destruct H0 as (Hif & Had & Hpo & Hr0 & Hc1 & Hc2 & Hb0).
  assert (∀ s s' tftp, same_rest s s' → addressed (sc_addr sc) s tftp → addressed (sc_addr sc) s' tftp) as Hadr.
  { intros s s' tf ((_ & A1 & A2 & _ & _ & _ & _ & A3) & _) (ip & net & ? & ? & ? & ? & ?).
    exists ip, net. rewrite A1, A2, A3. by split_and!. }
  destruct (applied_boots p d images (sc_addr sc) (ifaceIPFromCIDR (sc_addr sc)) s1) as (Hb2 & Hr2 & Hres2);
    [by eapply Hadr|exact Hb1|]. cbn zeta in Hb2, Hr2, Hres2.
  set (s2 := if negb (p_Enabled p) then s1 else _) in *. clearbody s2. clearbody s1.
  destruct Hr1 as ((A1 & A2 & A3 & A4 & A5 & A6 & A7 & A8) & [A9 A10] & A11 & A12).
  destruct Hr2 as ((B1 & B2 & B3 & B4 & B5 & B6 & B7 & B8) & [B9 B10] & B11 & B12).
  assert (same_rest s0 s2) as Hr by (repeat split; congruence).
  assert (serves h cfg mon sc {| de_srv := if mon then Dhcp.OnLeaseExpired (Dhcp.OnLease s2 true) true else s2;
    de_tftpAddr := ifaceIPFromCIDR (sc_addr sc); de_baseScope := sc_ref sc |}) as H; [|exact H].
  assert (∀ f : Dhcp.Server → Prop, (∀ s a b, f s → f (Dhcp.set_callbacks s a b)) → f s2 →
    f (if mon then Dhcp.OnLeaseExpired (Dhcp.OnLease s2 true) true else s2)) as Hmon.
  { intros f Hf H2. destruct mon; [|done]. by apply Hf, Hf. }
  split; cbn [de_srv de_tftpAddr de_baseScope].
  - apply Hmon; [done|]. congruence.
  - apply (Hmon (λ s, addressed _ s _)); [done|]. by apply (Hadr s0).
  - apply (Hmon (pooled _)); [done|]. fold d. destruct Hpo as (P1 & P2 & P3 & P4 & P5 & P6). unfold pooled.
    rewrite B4, B5, B6, B7, B9, B10, A4, A5, A6, A7, A9, A10. by split_and!.
  - apply (Hmon (reserved _)); [done|].
    apply (reserved_ext res s1); [done| |done]. unfold Dhcp.subnet. by rewrite B2, B3.
  - by apply (Hmon (boots _ _ _)).
  - destruct mon; cbn; [done|]. split; congruence.
  - done.
Qed.

Lemma vlan_entries_serves h cfg mon l vs es :
  VLANs h cfg = l ++ vs → vlan_entries h cfg mon (length l) vs = Ok es →
  Forall2 (serves h cfg mon)
    (filter (λ sc, d_Enabled (scope h cfg (sc_ref sc)) = true)
       (imap (λ i v, {| sc_iface := BridgeName (v_ID v); sc_addr := v_Address v;
                        sc_ref := ScopeVLAN (length l + i) |}) vs)) es.
Proof.
  induction vs as [|v vs IH] in l, es |- *; cbn [vlan_entries]; intros Hv.
  { intros [= <-]. constructor. }
  assert (scope h cfg (ScopeVLAN (length l)) = v_DHCP v) as Hs.
  { cbn. rewrite Hv, lookup_app_r, Nat.sub_diag by done. done. }
  specialize (IH (l ++ [v])). rewrite length_app, Nat.add_1_r in IH.
  assert (VLANs h cfg = (l ++ [v]) ++ vs) as Hv' by by rewrite <-app_assoc.
  cbn [imap]. rewrite filter_cons. cbn [sc_ref]. rewrite Nat.add_0_r, Hs.
  rewrite (imap_ext _ (λ i v, {| sc_iface := BridgeName (v_ID v); sc_addr := v_Address v;
                                sc_ref := ScopeVLAN (S (length l) + i) |})).
  2:{ intros i x _. cbn. by rewrite <-Nat.add_succ_r. }
  destruct (d_Enabled (v_DHCP v)); cbn [negb]; [|rewrite decide_False by done; by apply IH].
  rewrite decide_True by done. rewrite <-Hs.
  destruct (dhcp_entry h cfg mon _ _ _ _) as [|e] eqn:Ee; [done|].
  destruct (vlan_entries _ _ _ _ vs) as [|es'] eqn:Es; [done|]. intros [= <-].
  constructor; [|by apply IH]. by apply dhcp_entry_serves.
Qed.

(** The servers that main starts are those of the scopes. *)
Lemma start_dhcp_serves h cfg mon wifi macMap es :
  start_dhcp h cfg mon wifi macMap = Ok es → Forall2 (serves h cfg mon) (scopes h cfg wifi macMap) es.
Proof.
  unfold start_dhcp, scopes. destruct (wired_entries h cfg mon) as [|ws] eqn:E; [done|].
  rewrite filter_app. intros H.
  assert (Forall2 (serves h cfg mon) (filter (λ sc, d_Enabled (scope h cfg (sc_ref sc)) = true)
    (match VLANs h cfg with
     | [] => [{| sc_iface := lan_Bridge (cf_LAN cfg); sc_addr := lan_Address (cf_LAN cfg); sc_ref := ScopeLAN |}]
     | vs => imap (λ i v, {| sc_iface := BridgeName (v_ID v); sc_addr := v_Address v; sc_ref := ScopeVLAN i |}) vs
     end)) ws) as Hw.
  { unfold wired_entries in E. destruct (VLANs h cfg) as [|v vs] eqn:Ev.
    - rewrite filter_cons. cbn [sc_ref scope]. destruct (d_Enabled _).
      + rewrite decide_True by done. destruct (dhcp_entry _ _ _ _ _ _ _) as [|e] eqn:Ee; [done|].
        injection E as <-. constructor; [|constructor]. by apply dhcp_entry_serves.
      + rewrite decide_False by done. injection E as <-. constructor.
    - by apply (vlan_entries_serves h cfg mon []). }
  set (w := cf_WiFi cfg) in *.
  assert (∀ b, (if wifi && b && d_Enabled (wi_DHCP w) && negb macMap then
      match dhcp_entry h cfg mon (wifi_iface cfg) (wi_Address w) (wi_DHCP w) ScopeWiFi with
      | Err e => Err (FatalDhcpWiFi e) | Ok e => Ok (ws ++ [e]) end else Ok ws) = Ok es →
    Forall2 (serves h cfg mon)
      (filter (λ sc, d_Enabled (scope h cfg (sc_ref sc)) = true)
         (if wifi && negb macMap && b
          then [{| sc_iface := wifi_iface cfg; sc_addr := wi_Address w; sc_ref := ScopeWiFi |}] else []))
      (drop (length ws) es) ∧ take (length ws) es = ws) as Hwifi.
  { intros b Hb. destruct wifi, b, macMap; cbn [andb negb] in *; rewrite ?andb_false_r in Hb; cbn [andb] in Hb;
      try (injection Hb as <-; rewrite drop_all, take_ge by lia; by split; [constructor|]).
    rewrite andb_true_r in Hb. rewrite filter_cons. cbn [sc_ref scope]. fold w.
    destruct (d_Enabled (wi_DHCP w)); [rewrite decide_True by done|rewrite decide_False by done].
    - destruct (dhcp_entry _ _ _ _ _ _ _) as [|e] eqn:Ee; [done|]. injection Hb as <-.
      rewrite drop_app_length, take_app_length. split; [|done]. constructor; [|constructor]. by apply dhcp_entry_serves.
    - injection Hb as <-. rewrite drop_all, take_ge by lia. by split; [constructor|]. }
  apply Hwifi in H as [H1 H2]. rewrite <-(take_drop (length ws) es), H2. by apply Forall2_app.
Qed.
End servers.

(** ** The properties of the component *)

(** The addresses whose networks are to be masqueraded. *)
Definition nat_address (h : heap) (cfg : Config) (addr : string) : Prop :=
  n_Enabled (cf_NAT cfg) = true ∧
  match VLANs h cfg with
  | [] => addr = lan_Address (cf_LAN cfg)
  | vs => ∃ v, v ∈ vs ∧ v_NAT v = true ∧ addr = v_Address v
  end.

Lemma nat_address_nets h cfg n :
  n ∈ (if n_Enabled (cf_NAT cfg) then nat_nets h cfg else []) ↔
  ∃ addr ip, nat_address h cfg addr ∧ ParseCIDR addr = Some (ip, n).
Proof.
  unfold nat_address, nat_nets. destruct (n_Enabled (cf_NAT cfg)); [|set_solver].
  destruct (VLANs h cfg) as [|v0 vs].
  - split.
    + destruct (ParseCIDR _) as [[ip n']|] eqn:E; [|set_solver]. intros ->%list_elem_of_singleton. eauto 6.
    + intros (addr & ip & [_ ->] & ->). set_solver.
  - rewrite list_elem_of_omap. unfold nat_net. split.
    + intros (v & Hin & H). destruct (v_NAT v) eqn:Ev; [|done].
      destruct (ParseCIDR (v_Address v)) as [[ip n']|] eqn:Ec; [|done]. injection H as ->. eauto 8.
    + intros (addr & ip & [_ (v & Hin & Ev & ->)] & Ec). exists v. by rewrite Ev, Ec.
Qed.

(** C28: when the network set-up of main succeeds, the rules that the kernel has
    installed, transaction by transaction, masquerade exactly the packets that
    leave through the outgoing interface with a source address in the network of
    a VLAN that has NAT switched on (without VLANs: of the LAN), and drop exactly
    the packets between the bridges of an isolated VLAN and of another VLAN, in
    both directions.  Its chains are the NAT chain after routing, with the
    priority of source NAT, and the filter chain of forwarding.  The isolation
    rules are installed only if there is a NAT manager, that is if NAT is enabled
    and some such network is valid.  The kernel has no rules at the start, VLAN
    ids are 802.1Q ids, NAT networks IPv4, and expressions mean what their
    interface says. *)
Theorem network_correct `{N : NatRules.Nft} iface_exists flush_ok h cfg w w' mgr p :
  NatRules.requests w = [] →
  (∀ v, v ∈ VLANs h cfg → 0 ≤ v_ID v < 4096) →
  (∀ addr ip n, nat_address h cfg addr → ParseCIDR addr = Some (ip, n) → length (net_Mask n) = 4%nat) →
  NatRules.is_ifname (n_OutInterface (cf_NAT cfg)) → NatRules.is_packet p →
  setup_network iface_exists flush_ok h cfg w = (w', Ok mgr) →
  let k := NatRules.installed flush_ok NatRules.no_rules (NatRules.requests w') in
  (NatRules.masquerades_packet k p ↔
   NatRules.pk_oif p = n_OutInterface (cf_NAT cfg) ∧
   ∃ addr ip n, nat_address h cfg addr ∧
     ParseCIDR addr = Some (ip, n) ∧ IPNet_Contains n (NatRules.source p) = true) ∧
  (NatRules.drops_packet k p ↔
   mgr ≠ None ∧ ∃ v u, v ∈ VLANs h cfg ∧ u ∈ VLANs h cfg ∧ v_Isolated v = true ∧ v_ID v ≠ v_ID u ∧
     ((NatRules.pk_iif p = BridgeName (v_ID v) ∧ NatRules.pk_oif p = BridgeName (v_ID u)) ∨
      (NatRules.pk_iif p = BridgeName (v_ID u) ∧ NatRules.pk_oif p = BridgeName (v_ID v)))) ∧
  (∀ c rs, (c, rs) ∈ NatRules.rs_chains k →
     (NatRules.c_Type c = NatRules.ChainTypeNAT ∧ NatRules.c_Hooknum c = NatRules.ChainHookPostrouting ∧
      NatRules.c_Priority c = NatRules.ChainPriorityNATSource) ∨
     (NatRules.c_Type c = NatRules.ChainTypeFilter ∧ NatRules.c_Hooknum c = NatRules.ChainHookForward ∧
      NatRules.c_Priority c = NatRules.ChainPriorityFilter)) ∧
  (mgr = None ↔ ∀ addr, nat_address h cfg addr → ParseCIDR addr = None).
Proof.
  intros Hw Hid Hmask Ho Hp E. cbn zeta.
  destruct (setup_network_manages _ _ _ _ _ _ _ Hw E) as (iso & Hm & Hiso).
  set (nets := if n_Enabled (cf_NAT cfg) then nat_nets h cfg else []) in Hm.
  assert (∀ n, n ∈ nets ↔ ∃ addr ip, nat_address h cfg addr ∧ ParseCIDR addr = Some (ip, n)) as Hnets
    by apply nat_address_nets.
  assert (Forall NatRules.net4 nets) as H4.
  { apply Forall_forall. intros n (addr & ip & Ha & Ec)%Hnets. eapply NatRules.ParseCIDR_net4; [exact Ec|by eapply Hmask]. }
  assert (nets = [] ↔ ∀ addr, nat_address h cfg addr → ParseCIDR addr = None) as Hnone.
  { split.
    - intros Hnil addr Ha. destruct (ParseCIDR addr) as [[ip n]|] eqn:Ec; [|done].
      assert (n ∈ nets) as H by (apply Hnets; eauto). rewrite Hnil in H. set_solver.
    - intros H. destruct nets as [|n l]; [done|].
      destruct (proj1 (Hnets n)) as (addr & ip & Ha & Ec); [set_solver|]. by rewrite (H addr Ha) in Ec. }
  destruct mgr as [m|]; cbn [manages] in Hm.
  - destruct Hm as (-> & Hne & [[_ ->] _]).
    unfold NatRules.masquerades_packet, NatRules.drops_packet.
    rewrite NatRules.hook_masquerades, NatRules.hook_drops, Hiso. split_and!.
    + rewrite masquerades_action by done. split.
      * intros (Eo & n & (addr & ip & Ha & Ec)%Hnets & Hc). split; [done|]. by exists addr, ip, n.
      * intros (Eo & addr & ip & n & Ha & Ec & Hc). split; [done|]. exists n. split; [|done]. apply Hnets. by exists addr, ip.
    + rewrite drops_action, separated_spec; [split; [by intros ?|by intros [_ ?]]|done|].
      intros a b (v & u & Hv1 & Hu1 & _ & _ & Hab)%separated_spec.
      destruct Hab as [[-> ->]|[-> ->]]; split; apply BridgeName_ifname; by apply Hid.
    + intros c rs [[= -> ->]|Hin]%elem_of_cons; [by left|].
      destruct iso as [ps|]; [|set_solver]. apply list_elem_of_singleton in Hin as [= -> ->]. by right.
    + split; [done|]. intros H. by destruct Hne; apply Hnone.
  - destruct Hm as ([_ ->] & Hnil & _). unfold NatRules.masquerades_packet, NatRules.drops_packet. split_and!.
    + split; [done|]. intros (_ & addr & ip & n & Ha & Ec & _). by rewrite (proj1 Hnone Hnil addr Ha) in Ec.
    + by split; [|intros [? _]].
    + intros c rs Hin. set_solver.
    + by rewrite <-Hnone.
Qed.

(** C29: main starts one DHCP server for each scope that has DHCP switched on, in
    the order of the scopes, with the interface, the address, the pool, the DNS
    servers, the lease time, the reservations and the boot options that the
    configuration with the extras gives it, its callbacks if there is a monitor
    and the base scope that reloads merge with; the daemon it so makes is one the
    theorems about reloads speak of, whatever the clock says. *)
Theorem startup_booted `{U : GoUnicode} `{MO : MapOrder} `{F : GoFloat}
    h0 c0 loaded h c base extras mon wifi macMap entries path pxe users t :
  sep h0 (config_maps h0 c0) → (cf_VLANs c0 < h_next h0)%nat →
  start_config h0 c0 loaded = (h, c, base, extras) →
  start_dhcp h c mon wifi macMap = Ok entries →
  Forall2 (serves h c mon) (scopes h c wifi macMap) entries ∧
  booted h0 c0 {| w_heap := h;
    w_reloader := {| r_cfg := c; r_base := base; r_extrasPath := path; r_dhcpEntries := entries;
                     r_pxeSrv := pxe; r_appliedSMBUsers := users |};
    w_clocks := replicate (length entries) t |}.
Proof.
  intros Hs Ha Hc Hd. split; [by apply start_dhcp_serves|].
  split; try done; cbn [w_heap w_reloader w_clocks r_dhcpEntries r_cfg r_base].
  - by exists MO, loaded, extras.
  - by rewrite length_replicate.
  - intros i e u He [-> _]%lookup_replicate.
    pose proof (start_dhcp_fresh _ _ _ _ _ _ t Hd) as Hf. rewrite Forall_lookup in Hf.
    destruct (Hf i e He) as [s0 H]. by exists s0, t.
Qed.

(** ** Concrete set-ups *)

Definition net_vlan (id : Z) (addr : string) (nat isolated : bool) : VLANConfig := {|
  v_ID := id; v_Name := ""; v_Ports := []; v_Address := addr; v_DHCP := demo_dhcp None;
  v_NAT := nat; v_Isolated := isolated |}.

(** Two VLANs, the first one isolated. *)
Definition net_heap (nat : bool) : heap := {|
  h_maps := ∅;
  h_arrays := {[3%nat := [net_vlan 10 "10.0.10.1/24" nat true; net_vlan 20 "10.0.20.1/24" nat false]]};
  h_next := 4%nat |}.

Definition no_requests : NatRules.nat_state := {| NatRules.requests := []; NatRules.fwdChain := None |}.

Definition net_setup (nat : bool) : NatRules.nat_state * result fatal (option NatRules.Manager) :=
  setup_network (λ _, true) (λ _, true) (net_heap nat) demo_config no_requests.

Lemma demo_is_packet a b : NatRules.is_ifname a → NatRules.is_ifname b →
  NatRules.is_packet (NatRules.demo_packet [10; 0; 10; 5] a b).
Proof. split; [cbn; lia|done|done]. Qed.

Lemma network_correct_witness :
  let k := NatRules.installed (λ _, true) NatRules.no_rules (NatRules.requests (net_setup true).1) in
  NatRules.masquerades_packet (N := NatRules.ref_nft) k (NatRules.demo_packet [10; 0; 10; 5] "br-vlan10" "wan") ∧
  NatRules.drops_packet (N := NatRules.ref_nft) k (NatRules.demo_packet [10; 0; 10; 5] "br-vlan20" "br-vlan10").
Proof.
  set (v10 := net_vlan 10 "10.0.10.1/24" true true). set (v20 := net_vlan 20 "10.0.20.1/24" true false).
  assert (VLANs (net_heap true) demo_config = [v10; v20]) as Ev by (vm_compute; reflexivity).
  assert (∀ v, v ∈ VLANs (net_heap true) demo_config → v = v10 ∨ v = v20) as Hv.
  { intros v Hin. rewrite Ev in Hin. set_solver. }
  assert (NatRules.is_ifname "wan") as Hwan by (split; [cbn; lia|repeat constructor; done]).
  pose proof (BridgeName_ifname 10 ltac:(lia)) as H10.
  pose proof (BridgeName_ifname 20 ltac:(lia)) as H20.
  assert (∀ addr ip n, nat_address (net_heap true) demo_config addr → ParseCIDR addr = Some (ip, n) →
    length (net_Mask n) = 4%nat) as Hmask.
  { intros addr ip n [_ Ha] E. rewrite Ev in Ha. destruct Ha as (v & Hin & _ & ->).
    rewrite <-Ev in Hin. destruct (Hv v Hin) as [-> | ->]; vm_compute in E; injection E as <- <-; reflexivity. }
  pose proof (λ a b (Pa : NatRules.is_ifname a) (Pb : NatRules.is_ifname b), network_correct (N := NatRules.ref_nft) (λ _, true) (λ _, true)
    (net_heap true) demo_config no_requests (net_setup true).1 (Some (NatRules.the_manager "wan"))
    (NatRules.demo_packet [10; 0; 10; 5] a b) ltac:(done)
    ltac:(intros v [-> | ->]%Hv; cbn; lia) Hmask
    Hwan (demo_is_packet a b Pa Pb) ltac:(vm_compute; reflexivity)) as H.
  split.
  - destruct (H "br-vlan10" "wan" H10 Hwan) as (Hm & _). apply Hm. split; [done|].
    exists "10.0.10.1/24". eexists _, _. split_and!; [split; [done|]| |].
    + rewrite Ev. exists v10. by split; [left|].
    + vm_compute. reflexivity.
    + vm_compute. reflexivity.
  - destruct (H "br-vlan20" "br-vlan10" H20 H10) as (_ & Hd & _). apply Hd. split; [done|].
    exists v10, v20. rewrite Ev. split_and!; [by left|by right; left|done|done|by right].
Defined.

(** Without a VLAN that has NAT there is no manager, and the isolation that the
    configuration asks for is not installed. *)
Example isolation_needs_nat :
  let '(w, r) := net_setup false in
  r = Ok None ∧ v_Isolated <$> VLANs (net_heap false) demo_config = [true; false] ∧
  NatRules.requests w = [].
Proof. vm_compute. done. Qed.

(** A run that ends without a cleanup, as [log.Fatalf] ends it, leaves its rules
    in the kernel, and the next run adds its own to them. *)
Example rules_of_a_failed_run_stay :
  let t := NatRules.requests (net_setup true).1 in
  let k := NatRules.installed (λ _, true) NatRules.no_rules t in
  let k' := NatRules.installed (λ _, true) k t in
  length <$> (snd <$> NatRules.rs_chains k) = [2; 2]%nat ∧
  length <$> (snd <$> NatRules.rs_chains k') = [4; 4]%nat.
Proof. vm_compute. done. Qed.

#[local] Existing Instance ascii_unicode.
#[local] Existing Instance canonical_order.
#[local] Existing Instance exact_float.

(** The second scope is served from its own address. *)
Lemma startup_booted_witness :
  ∃ h c base extras entries, start_config demo_heap demo_live (Err (ErrCreate ErrMarshal)) = (h, c, base, extras) ∧
    start_dhcp h c true false false = Ok entries ∧ length entries = 2%nat ∧
    (∃ sc e, scopes h c false false !! 1%nat = Some sc ∧ entries !! 1%nat = Some e ∧ serves h c true sc e) ∧
    ∃ w, booted demo_heap demo_live w ∧ r_dhcpEntries (w_reloader w) = entries.
Proof.
  assert (match start_config demo_heap demo_live (Err (ErrCreate ErrMarshal)) with (h, c, _, _) =>
            match start_dhcp h c true false false with Ok es => length es | Err _ => 0%nat end
          end = 2%nat) as Hl by (vm_compute; reflexivity).
  destruct (start_config demo_heap demo_live (Err (ErrCreate ErrMarshal))) as [[[h c] base] extras] eqn:E.
  destruct (start_dhcp h c true false false) as [f|entries] eqn:Ed; [done|].
  destruct (startup_booted demo_heap demo_live (Err (ErrCreate ErrMarshal)) h c base extras true false false
    entries "x" None [] 0 (bt_maps _ _ _ demo_booted) (bt_array _ _ _ demo_booted) E Ed) as [Hs Hb].
  exists h, c, base, extras, entries. split_and!; [done|done|done| |].
  - destruct (lookup_lt_is_Some_2 entries 1) as [e He]; [lia|].
    destruct (Forall2_lookup_r _ _ _ _ _ Hs He) as (sc & Hsc & H). by exists sc, e.
  - eexists. split; [exact Hb|done].
Defined.
