(* ===== verification/Wifi.v ===== *)
(** * pkg/wifi: the access point

    The checks and defaults of the configuration, the files generated for
    hostapd, the supervisor that restarts it, the events read from its output
    and the client of its control socket.  hostapd itself, its processes and
    its socket are parameters. *)

From Stdlib Require Import Ascii.
From S2P Require Import Prelude GoStrings GoStrconv GoOs Config.
From S2P Require Macmap.
Open Scope Z_scope.

(** ** State *)

Definition second : Z := 1000000000.

Definition confPath : string := "/tmp/hostapd.conf".
Definition acceptMACPath : string := "/tmp/hostapd.accept".
Definition vlanFilePath : string := "/tmp/hostapd.vlan".
Definition hostapdPath : string := "/usr/local/bin/hostapd".
Definition ctrlPath : string := "/tmp/hostapd".

Definition initialBackoff : Z := 1 * second.
Definition maxBackoff : Z := 30 * second.
Definition stableRunTime : Z := 10 * second.

Record ClientEvent := { ev_MAC : string; ev_Associated : bool }.

Record AP := {
  ap_cfg : WiFiConfig;
  ap_bridge : string;
  ap_macMap : option Macmap.MapFile;
  ap_clients : gmap string bool
}.

Definition set_clients (ap : AP) (m : gmap string bool) : AP := {|
  ap_cfg := ap_cfg ap; ap_bridge := ap_bridge ap; ap_macMap := ap_macMap ap; ap_clients := m |}.

Inductive wifi_error :=
  | ErrNoSSID | ErrNoPassphrase | ErrPassphraseLength | ErrMacMap (e : Macmap.macmap_error)
  | ErrWriteVLAN | ErrWriteAccept | ErrCreateConfig | ErrWriteConfig | ErrMkdir | ErrPipe | ErrStart.

Definition set_wifi_defaults (w : WiFiConfig) : WiFiConfig := {|
  wi_Enabled := wi_Enabled w;
  wi_Interface := if String.eqb (wi_Interface w) "" then "wlan0" else wi_Interface w;
  wi_Bridge := wi_Bridge w; wi_Address := wi_Address w; wi_DHCP := wi_DHCP w;
  wi_MacMapFile := wi_MacMapFile w; wi_DefaultVLAN := wi_DefaultVLAN w; wi_SSID := wi_SSID w;
  wi_Passphrase := wi_Passphrase w;
  wi_Channel := if wi_Channel w =? 0 then 6 else wi_Channel w;
  wi_HWMode := if String.eqb (wi_HWMode w) "" then "g" else wi_HWMode w;
  wi_HTCapab := wi_HTCapab w; wi_CountryCode := wi_CountryCode w;
  wi_WPA := if wi_WPA w =? 0 then 2 else wi_WPA w |}.

(** [New]; [load] is [macmap.Load]. *)
Definition New (load : string → result Macmap.macmap_error Macmap.MapFile)
    (cfg : WiFiConfig) (bridge : string) : result wifi_error AP :=
  let n := String.length (wi_Passphrase cfg) in
  if String.eqb (wi_SSID cfg) "" then Err ErrNoSSID
  else if String.eqb (wi_Passphrase cfg) "" then Err ErrNoPassphrase
  else if (n <? 8)%nat || (63 <? n)%nat then Err ErrPassphraseLength
  else
    let cfg := set_wifi_defaults cfg in
    if String.eqb (wi_MacMapFile cfg) "" then
      Ok {| ap_cfg := cfg; ap_bridge := bridge; ap_macMap := None; ap_clients := ∅ |}
    else match load (wi_MacMapFile cfg) with
         | Err e => Err (ErrMacMap e)
         | Ok mm => Ok {| ap_cfg := cfg; ap_bridge := bridge; ap_macMap := Some mm; ap_clients := ∅ |}
         end.

(** ** The files for hostapd *)

Definition unless_empty (s t : string) : string := if String.eqb s "" then "" else t.

(** [confTemplate] executed; [dynamicVLAN] adds the files of the VLANs. *)
Definition render (w : WiFiConfig) (bridge : string) (dynamicVLAN : bool) : string :=
  "# Generated by gokrazy-router
interface=" +:+ wi_Interface w +:+
  unless_empty bridge ("
bridge=" +:+ bridge) +:+ "
driver=nl80211
ctrl_interface=" +:+ ctrlPath +:+ "
ssid=" +:+ wi_SSID w +:+ "
hw_mode=" +:+ wi_HWMode w +:+ "
channel=" +:+ itoa (wi_Channel w) +:+
  unless_empty (wi_CountryCode w) ("
country_code=" +:+ wi_CountryCode w +:+ "
ieee80211d=1") +:+
  (if String.eqb (wi_HTCapab w) "" then "
ieee80211n=1" else "
ieee80211n=1
ht_capab=" +:+ wi_HTCapab w) +:+ "
wmm_enabled=1

# WPA2-PSK
wpa=" +:+ itoa (wi_WPA w) +:+ "
wpa_passphrase=" +:+ wi_Passphrase w +:+ "
wpa_key_mgmt=WPA-PSK
rsn_pairwise=CCMP" +:+
  (if dynamicVLAN then "

# Dynamic VLAN assignment based on MAC address
dynamic_vlan=1
vlan_file=" +:+ vlanFilePath +:+ "
accept_mac_file=" +:+ acceptMACPath +:+ "
vlan_bridge=br-vlan" else "") +:+ "

# Logging: enable all module messages to stdout
logger_stdout=-1
logger_stdout_level=2
".

Inductive effect :=
  | WriteFile (path text : string)
  | CreateConfig (text : string)   (* created, then written *)
  | MkdirAll (path : string)
  | StartProcess (bin : string) (args : list string).

(** The answers of the system: whether a file could be written, or created and
    written; a directory be made; a pipe be opened; a process be started. *)
Record Os := {
  os_write : list effect → string → bool;
  os_create : list effect → string → bool;
  os_mkdir : list effect → string → bool;
  os_pipe : list effect → bool;
  os_start : list effect → bool
}.

Abbreviation wifi_io := (io (list effect) wifi_error).

Section files.
Context `{U : GoUnicode} `{MO : MapOrder} (os : Os).

Definition ask (answer : list effect → bool) (e : effect) : wifi_io bool :=
  λ t, (t ++ [e], Ok (answer t)).

Definition vlan_lines (iface : string) (vids : list Z) : string :=
  join "" (map (λ vid, itoa vid +:+ " " +:+ iface +:+ "." +:+ itoa vid +:+ nl)
             (filter (λ vid, vid ≠ 0) vids)).

Definition writeVLANFile (ap : AP) (mm : Macmap.MapFile) : wifi_io unit :=
  ok ← ask (λ t, os_write os t vlanFilePath)
         (WriteFile vlanFilePath (vlan_lines (wi_Interface (ap_cfg ap)) (Macmap.VLANs mm)));
  guard_or ok ErrWriteVLAN.

Definition writeAcceptMACFile (mm : Macmap.MapFile) : wifi_io unit :=
  ok ← ask (λ t, os_write os t acceptMACPath)
         (WriteFile acceptMACPath (Macmap.HostapdAcceptMACFile mm));
  guard_or ok ErrWriteAccept.

(** The template is executed into the created file. *)
Definition writeConfig (ap : AP) : wifi_io unit :=
  _ ← match ap_macMap ap with
      | None => mret ()
      | Some mm =>
          _ ← writeVLANFile ap mm;
          writeAcceptMACFile mm
      end;
  let dynamicVLAN := match ap_macMap ap with Some _ => true | None => false end in
  let text := render (ap_cfg ap) (ap_bridge ap) dynamicVLAN in
  created ← (λ t, (t, Ok (os_create os t confPath)));
  _ ← guard_or created ErrCreateConfig;
  ok ← ask (λ t, os_write os t confPath) (CreateConfig text);
  guard_or ok ErrWriteConfig.

Definition launch : wifi_io unit :=
  ok ← ask (λ t, os_mkdir os t ctrlPath) (MkdirAll ctrlPath);
  _ ← guard_or ok ErrMkdir;
  piped ← (λ t, (t, Ok (os_pipe os t)));
  _ ← guard_or piped ErrPipe;
  ok ← ask (os_start os) (StartProcess hostapdPath [confPath]);
  guard_or ok ErrStart.

Definition Start (ap : AP) : wifi_io unit :=
  _ ← writeConfig ap;
  launch.
End files.

(** ** The supervisor *)

(** One turn of the loop of [supervise]: how long hostapd ran, whether the
    access point was stopped by the time it ended or while the supervisor
    waited, and whether hostapd could be started again. *)
Record turn := {
  t_ran : Z;
  t_stopped : bool;
  t_stoppedWaiting : bool;
  t_launched : bool
}.

Definition backoff_before (backoff : Z) (t : turn) : Z :=
  if stableRunTime <=? t_ran t then initialBackoff else backoff.

Definition backoff_after (backoff : Z) : Z :=
  let backoff := backoff * 2 in
  if maxBackoff <? backoff then maxBackoff else backoff.

(** The restarts: for each how long the supervisor waited before and whether it
    succeeded; and whether the supervisor has returned.  A failed restart is
    tried again in the next turn. *)
Fixpoint supervise (backoff : Z) (turns : list turn) : list (Z * bool) * bool :=
  match turns with
  | [] => ([], false)
  | t :: turns =>
      if t_stopped t then ([], true)
      else
        let wait := backoff_before backoff t in
        if t_stoppedWaiting t then ([], true)
        else let '(restarts, returned) := supervise (backoff_after wait) turns in
             ((wait, t_launched t) :: restarts, returned)
  end.

(** ** Events in the output of hostapd *)

Definition mac_char (c : ascii) : bool :=
  let b := byte_val c in in_range 48 57 b || in_range 97 102 b || (b =? 58).

Fixpoint all_chars (f : ascii → bool) (s : string) : bool :=
  match s with EmptyString => true | String c s => f c && all_chars f s end.

(** [[0-9a-f:]{17}] at the start of a string. *)
Definition mac17 (s : string) : option string :=
  let m := str_take 17 s in
  if (String.length m =? 17)%nat && all_chars mac_char m then Some m else None.

(** The leftmost match of an expression that is anchored by [m]. *)
Fixpoint find_match (m : string → option string) (s : string) : option string :=
  match m s with
  | Some x => Some x
  | None => match s with EmptyString => None | String _ s => find_match m s end
  end.

(** [prefix ([0-9a-f:]{17})] *)
Definition after_prefix (prefix s : string) : option string :=
  if has_prefix prefix s then mac17 (str_drop (String.length prefix) s) else None.

(** [STA ([0-9a-f:]{17}).*word]; a line has no line break. *)
Definition sta_word (word s : string) : option string :=
  match after_prefix "STA " s with
  | Some m => if contains (str_drop 21 s) word then Some m else None
  | None => None
  end.

Definition reConnected : string → option string := find_match (after_prefix "AP-STA-CONNECTED ").
Definition reDisconnected : string → option string :=
  find_match (after_prefix "AP-STA-DISCONNECTED ").
Definition reAssociated : string → option string := find_match (sta_word "associated").
Definition reDisassociated : string → option string := find_match (sta_word "disassociated").

Section output.
Context `{U : GoUnicode}.

(** The events of one line, in the order they are handled. *)
Definition line_events (line : string) : list ClientEvent :=
  let event a m := {| ev_MAC := to_lower m; ev_Associated := a |} in
  let first :=
    match reConnected line with
    | Some m => [event true m]
    | None =>
        match reDisconnected line with
        | Some m => [event false m]
        | None =>
            match reAssociated line with
            | Some m => match reDisassociated line with
                        | Some _ => []
                        | None => [event true m]
                        end
            | None => []
            end
        end
    end in
  first ++ match reDisassociated line with Some m => [event false m] | None => [] end.

(** [handleEvent]; the callback is called with every event. *)
Definition handleEvent (ap : AP) (ev : ClientEvent) : AP :=
  set_clients ap (<[ev_MAC ev := ev_Associated ev]> (ap_clients ap)).

(** [parseOutput]: the access point and the events the callback got. *)
Definition parseOutput (ap : AP) (lines : list string) : AP * list ClientEvent :=
  let evs := concat (map line_events lines) in
  (fold_left handleEvent evs ap, evs).

(** What the supervisor does to the clients when hostapd ends. *)
Definition clear_clients (ap : AP) : AP := set_clients ap ∅.

Definition Clients `{MO : MapOrder} (ap : AP) : list string :=
  map fst (filter (λ e, e.2 = true) (map_range (ap_clients ap))).
End output.

(** ** The control socket *)

Record StationInfo := {
  si_MAC : string;
  si_Signal : Z;
  si_TxBitrate : Z;
  si_RxBitrate : Z;
  si_Connected : Z
}.

(** [strconv.ParseFloat(s, 64)] followed by [int(f * 1000)]; the rounding of
    the floating-point number is left open. *)
Class GoParseFloat := float_kbps : string → option Z.

Definition wrap64 (z : Z) : Z := (z + 2 ^ 63) mod 2 ^ 64 - 2 ^ 63.

Section ctrl.
Context `{A : GoInt} `{PF : GoParseFloat}.

Definition wrap_int (z : Z) : Z := (z - int_min) mod (int_max - int_min + 1) + int_min.

(** Indexing the first field panics when there is none. *)
Definition parseBitrate (s : string) : outcome Z :=
  let s := trim_space s in
  let plain s := match atoi s with (_, Some _) => Ret 0 | (v, None) => Ret (wrap_int (v * 100)) end in
  if contains s "MBit/s" then
    let s := trim_suffix s " MBit/s" in
    match fields s with
    | [] => Panic
    | s :: _ => match float_kbps s with
                | Some v => Ret v
                | None => plain s
                end
    end
  else plain s.

Definition set_station (si : StationInfo) (key val : string) : outcome StationInfo :=
  if String.eqb key "signal" then
    Ret {| si_MAC := si_MAC si; si_Signal := (atoi val).1; si_TxBitrate := si_TxBitrate si;
           si_RxBitrate := si_RxBitrate si; si_Connected := si_Connected si |}
  else if String.eqb key "tx_bitrate" then
    v ← parseBitrate val;
    Ret {| si_MAC := si_MAC si; si_Signal := si_Signal si; si_TxBitrate := v;
           si_RxBitrate := si_RxBitrate si; si_Connected := si_Connected si |}
  else if String.eqb key "rx_bitrate" then
    v ← parseBitrate val;
    Ret {| si_MAC := si_MAC si; si_Signal := si_Signal si; si_TxBitrate := si_TxBitrate si;
           si_RxBitrate := v; si_Connected := si_Connected si |}
  else if String.eqb key "connected_time" then
    Ret {| si_MAC := si_MAC si; si_Signal := si_Signal si; si_TxBitrate := si_TxBitrate si;
           si_RxBitrate := si_RxBitrate si; si_Connected := wrap64 ((atoi val).1 * second) |}
  else Ret si.

(** The lines after the first; a line without [=] is skipped. *)
Fixpoint station_lines (si : StationInfo) (lines : list string) : outcome StationInfo :=
  match lines with
  | [] => Ret si
  | line :: lines =>
      match cut_char "=" line with
      | None => station_lines si lines
      | Some (key, val) => si ← set_station si key val; station_lines si lines
      end
  end.

Definition station (mac : string) : StationInfo :=
  {| si_MAC := mac; si_Signal := 0; si_TxBitrate := 0; si_RxBitrate := 0; si_Connected := 0 |}.

Definition parseStationResponse (resp : string) : outcome StationInfo :=
  match split_on (chr 10) resp with
  | [] => Ret (station "")
  | first :: lines => station_lines (station (trim_space first)) lines
  end.

(** The loop of [Stations], over the replies that hostapd gives to STA-NEXT;
    [None] is an error of the socket, which a reply that never comes becomes
    after the timeout. *)
Fixpoint stations_from (resp : string) (replies : list (option string))
    : outcome (list StationInfo * list string) :=
  let resp := trim_space resp in
  if String.eqb resp "" || String.eqb resp "FAIL" then Ret ([], [])
  else
    si ← parseStationResponse resp;
    let here := if negb (String.eqb (si_MAC si) "") then [si] else [] in
    let sent := "STA-NEXT " +:+ si_MAC si in
    match replies with
    | Some resp :: replies =>
        '(rest, asked) ← stations_from resp replies;
        Ret (here ++ rest, sent :: asked)
    | _ => Ret (here, [sent])
    end.

(** [Stations]: the stations and the requests sent, or [None] for an error. *)
Definition Stations (replies : list (option string))
    : outcome (option (list StationInfo) * list string) :=
  match replies with
  | Some resp :: replies =>
      '(sis, asked) ← stations_from resp replies;
      Ret (Some sis, "STA-FIRST" :: asked)
  | _ => Ret (None, ["STA-FIRST"])
  end.
End ctrl.

(** ** Lemmas: the supervisor *)

Lemma backoff_after_spec b : backoff_after b = Z.min (2 * b) maxBackoff.
Proof. unfold backoff_after. case_if; to_prop; lia. Qed.

Definition backoff_ok (b : Z) : Prop := initialBackoff ≤ b ≤ maxBackoff.

Lemma backoff_before_ok b t : backoff_ok b → backoff_ok (backoff_before b t).
Proof. unfold backoff_before, backoff_ok, initialBackoff, maxBackoff, second. case_if; lia. Qed.

Lemma backoff_after_ok b : backoff_ok b → backoff_ok (backoff_after b).
Proof. rewrite backoff_after_spec. unfold backoff_ok, initialBackoff, maxBackoff, second. lia. Qed.

Definition stop_turn (t : turn) : Prop := t_stopped t = true ∨ t_stoppedWaiting t = true.

(** The waits, turn by turn: the [i]-th restart belongs to the [i]-th turn, no
    earlier turn was one of a stop, and its wait follows from the one before. *)
Lemma supervise_spec b turns :
  let '(rs, returned) := supervise b turns in
  (∀ i w ok, rs !! i = Some (w, ok) → ∃ t, turns !! i = Some t ∧ ¬ stop_turn t ∧
     ok = t_launched t ∧
     w = backoff_before (match i with
                         | O => b
                         | S j => backoff_after (default 0 (fst <$> rs !! j))
                         end) t) ∧
  (returned = true ↔ Exists stop_turn turns) ∧
  (returned = false → length rs = length turns) ∧
  (returned = true → ∃ t, turns !! length rs = Some t ∧ stop_turn t).
Proof.
  induction turns as [|t turns IH] in b |- *; cbn [supervise].
  { split_and!; [done| |done|done]. split; [done|]. by intros ?%Exists_nil. }
  assert (stop_turn t → let '(rs, returned) := ([] : list (Z * bool), true) in
    (returned = true ↔ Exists stop_turn (t :: turns)) ∧
    (returned = true → ∃ t', (t :: turns) !! length rs = Some t' ∧ stop_turn t')) as Hstop.
  { intros Hs. split; [rewrite Exists_cons; tauto|]. intros _. by exists t. }
  destruct (t_stopped t) eqn:E1.
  { destruct (Hstop (or_introl E1)) as [? ?]. by split_and!. }
  destruct (t_stoppedWaiting t) eqn:E2.
  { destruct (Hstop (or_intror E2)) as [? ?]. by split_and!. }
  assert (¬ stop_turn t) as Hns by (unfold stop_turn; rewrite E1, E2; by intros []).
  specialize (IH (backoff_after (backoff_before b t))).
  destruct (supervise _ turns) as [rs returned]. destruct IH as (H1 & H2 & H3 & H4).
  split_and!.
  - intros [|i] w ok; cbn.
    + intros [= <- <-]. by exists t.
    + intros Hi. destruct (H1 i w ok Hi) as (t' & Ht & Hs & -> & ->). exists t'.
      split_and!; [done|done|done|]. destruct i as [|i]; [done|]. done.
  - rewrite Exists_cons, H2. tauto.
  - intros Hr. cbn. by rewrite H3.
  - intros Hr. by apply H4.
Qed.

Lemma supervise_waits_ok b turns i w ok :
  backoff_ok b → (supervise b turns).1 !! i = Some (w, ok) → backoff_ok w.
Proof.
  intros Hb. pose proof (supervise_spec b turns) as H. destruct (supervise b turns) as [rs r]. cbn.
  destruct H as (H & _). induction i as [|i IH] in w, ok |- *; intros Hi.
  - destruct (H _ _ _ Hi) as (t & _ & _ & _ & ->). by apply backoff_before_ok.
  - destruct (rs !! i) as [[w' ok']|] eqn:Hi'.
    2: { apply lookup_ge_None in Hi'. apply lookup_lt_Some in Hi. lia. }
    destruct (H _ _ _ Hi) as (t & _ & _ & _ & ->). rewrite Hi'. cbn.
    apply backoff_before_ok, backoff_after_ok. by eapply IH.
Qed.

(** ** Lemmas: events *)

(** An address as hostapd prints it. *)
Definition hostapd_mac (m : string) : Prop := String.length m = 17%nat ∧ all_chars mac_char m = true.

Lemma all_chars_not f c s : f c = false → all_chars f s = true → contains_char c s = false.
Proof.
  intros Hc. induction s as [|a s IH]; [done|]. cbn. intros [Ha Hs]%andb_true_iff.
  rewrite IH by done. destruct (Ascii.eqb_spec a c) as [->|]; [congruence|].
  destruct (Ascii.eqb_spec c a); [congruence|done].
Qed.

Lemma mac17_app m t : hostapd_mac m → mac17 (m +:+ t) = Some m.
Proof.
  intros [Hl Hm]. unfold mac17. rewrite <-Hl, str_take_app, Nat.eqb_refl, Hm. done.
Qed.

Lemma str_drop_mac m t : hostapd_mac m → str_drop 17 (m +:+ t) = t.
Proof. intros [<- _]. apply str_drop_app. Qed.

(** A match that starts with a character cannot start elsewhere. *)
Definition starts_with (c : ascii) (m : string → option string) : Prop :=
  m "" = None ∧ ∀ a s, a ≠ c → m (String a s) = None.

Lemma find_match_skip c m x t :
  starts_with c m → contains_char c x = false → find_match m (x +:+ t) = find_match m t.
Proof.
  intros [_ Hm]. induction x as [|a x IH]; [done|]. cbn [contains_char].
  intros [Ha Hx]%orb_false_iff. rewrite str_app_cons. cbn [find_match].
  rewrite Hm, IH; [done|done|]. intros ->. by rewrite Ascii.eqb_refl in Ha.
Qed.

Lemma find_match_none c m x :
  starts_with c m → contains_char c x = false → find_match m x = None.
Proof.
  intros Hm Hx. rewrite <-(str_app_nil_r x), (find_match_skip c m x "") by done.
  cbn. by rewrite (proj1 Hm).
Qed.

Lemma after_prefix_starts c p : starts_with c (after_prefix (String c p)).
Proof.
  split; [done|]. intros a s Ha. unfold after_prefix. cbn [has_prefix].
  destruct (Ascii.eqb_spec c a); [congruence|done].
Qed.

Lemma sta_word_starts w : starts_with "S" (sta_word w).
Proof.
  split; [done|]. intros a s Ha. unfold sta_word.
  by rewrite (proj2 (after_prefix_starts "S" "TA ") a s Ha).
Qed.

Lemma find_match_miss m c s : m (String c s) = None → find_match m (String c s) = find_match m s.
Proof. intros H. cbn. by rewrite H. Qed.

Lemma find_match_hit m s x : m s = Some x → find_match m s = Some x.
Proof. intros H. destruct s; cbn; by rewrite H. Qed.

Section lines.
Context `{U : GoUnicode} (iface mac : string).
Hypothesis iface_name : contains_char "A" iface = false ∧ contains_char "S" iface = false.
Hypothesis mac_ok : hostapd_mac mac.

Lemma mac_no c : mac_char c = false → contains_char c mac = false.
Proof. intros Hc. apply (all_chars_not mac_char); [done|apply mac_ok]. Qed.

Lemma mac_lower : to_lower mac = mac.
Proof.
  apply to_lower_id. destruct mac_ok as [_ H]. clear -H. induction mac as [|a s IH]; [constructor|].
  cbn in H. apply andb_true_iff in H as [Ha Hs]. cbn [to_bytes]. constructor; [|by apply IH].
  unfold mac_char, in_range in Ha. unfold visible.
  rewrite !orb_true_iff, !andb_true_iff, !Z.leb_le, Z.eqb_eq in Ha. lia.
Qed.

(** Pass the name of the interface and the text before a match. *)
Ltac skip :=
  rewrite ?str_app_cons, ?str_app_nil_l;
  repeat rewrite find_match_miss by reflexivity.

Lemma skip_A p x : find_match (after_prefix (String "A" p)) (iface +:+ x) =
  find_match (after_prefix (String "A" p)) x.
Proof. apply (find_match_skip "A"); [apply after_prefix_starts|apply iface_name]. Qed.

Lemma skip_S w x : find_match (sta_word w) (iface +:+ x) = find_match (sta_word w) x.
Proof. apply (find_match_skip "S"); [apply sta_word_starts|apply iface_name]. Qed.

Lemma no_A p t : contains_char "A" t = false →
  find_match (after_prefix (String "A" p)) (mac +:+ t) = None.
Proof.
  intros Ht. apply (find_match_none "A"); [apply after_prefix_starts|].
  by rewrite contains_char_app, mac_no.
Qed.

Lemma no_S w t : contains_char "S" t = false → find_match (sta_word w) (mac +:+ t) = None.
Proof.
  intros Ht. apply (find_match_none "S"); [apply sta_word_starts|].
  by rewrite contains_char_app, mac_no.
Qed.

Lemma connected_line :
  line_events (iface +:+ ": AP-STA-CONNECTED " +:+ mac) = [{| ev_MAC := mac; ev_Associated := true |}].
Proof.
  rewrite <-(str_app_nil_r mac) at 1.
  unfold line_events, reConnected, reDisassociated. rewrite skip_A, skip_S.
  assert (find_match (after_prefix "AP-STA-CONNECTED ") (": AP-STA-CONNECTED " +:+ mac +:+ "") = Some mac) as ->.
  { skip. apply find_match_hit. by apply mac17_app. }
  assert (find_match (sta_word "disassociated") (": AP-STA-CONNECTED " +:+ mac +:+ "") = None) as ->.
  { skip. by apply no_S. }
  by rewrite mac_lower.
Qed.

Lemma disconnected_line :
  line_events (iface +:+ ": AP-STA-DISCONNECTED " +:+ mac) =
    [{| ev_MAC := mac; ev_Associated := false |}].
Proof.
  rewrite <-(str_app_nil_r mac) at 1.
  unfold line_events, reConnected, reDisconnected, reDisassociated. rewrite !skip_A, skip_S.
  set (line := ": AP-STA-DISCONNECTED " +:+ mac +:+ "").
  assert (find_match (after_prefix "AP-STA-CONNECTED ") line = None) as ->.
  { unfold line. skip. by apply no_A. }
  assert (find_match (after_prefix "AP-STA-DISCONNECTED ") line = Some mac) as ->.
  { unfold line. skip. apply find_match_hit. by apply mac17_app. }
  assert (find_match (sta_word "disassociated") line = None) as ->.
  { unfold line. skip. by apply no_S. }
  by rewrite mac_lower.
Qed.

(** The lines "STA mac IEEE 802.11: word". *)
Lemma sta_line word rest :
  sta_word word ("STA " +:+ mac +:+ rest) = if contains rest word then Some mac else None.
Proof.
  unfold sta_word. change (after_prefix "STA " ("STA " +:+ mac +:+ rest)) with (mac17 (mac +:+ rest)).
  rewrite mac17_app by done.
  change (str_drop 21 ("STA " +:+ mac +:+ rest)) with (str_drop 17 (mac +:+ rest)).
  by rewrite str_drop_mac.
Qed.

Lemma find_sta_line word rest :
  contains_char "S" rest = false →
  find_match (sta_word word) (": STA " +:+ mac +:+ rest) =
    if contains rest word then Some mac else None.
Proof.
  intros Hr. change (": STA " +:+ mac +:+ rest) with (": " +:+ ("STA " +:+ mac +:+ rest)).
  rewrite (find_match_skip "S" _ ": ") by (first [apply sta_word_starts|done]).
  pose proof (sta_line word rest) as E. destruct (contains rest word).
  - by apply find_match_hit.
  - change ("STA " +:+ mac +:+ rest) with (String "S" ("TA " +:+ mac +:+ rest)) in *.
    rewrite find_match_miss by done. skip. by apply no_S.
Qed.

Lemma no_AP_line p rest :
  contains_char "A" rest = false → has_prefix "P" p = true →
  find_match (after_prefix (String "A" p)) (": STA " +:+ mac +:+ rest) = None.
Proof.
  intros Hr Hp. apply has_prefix_spec in Hp as [q ->].
  change ("P" +:+ q) with (String "P" q). skip. by apply no_A.
Qed.

Lemma associated_line :
  line_events (iface +:+ ": STA " +:+ mac +:+ " IEEE 802.11: associated") =
    [{| ev_MAC := mac; ev_Associated := true |}].
Proof.
  unfold line_events, reConnected, reDisconnected, reAssociated, reDisassociated.
  rewrite !skip_A, !skip_S, !no_AP_line, !find_sta_line by done. cbn. by rewrite mac_lower.
Qed.

Lemma disassociated_line :
  line_events (iface +:+ ": STA " +:+ mac +:+ " IEEE 802.11: disassociated") =
    [{| ev_MAC := mac; ev_Associated := false |}].
Proof.
  unfold line_events, reConnected, reDisconnected, reAssociated, reDisassociated.
  rewrite !skip_A, !skip_S, !no_AP_line, !find_sta_line by done. cbn. by rewrite mac_lower.
Qed.
End lines.

(** ** Lemmas: the clients *)

(** What the last event about a client says. *)
Definition last_event (m : string) (evs : list ClientEvent) : option bool :=
  last (omap (λ ev, if String.eqb (ev_MAC ev) m then Some (ev_Associated ev) else None) evs).

Lemma handle_events_lookup ap evs m :
  ap_clients (fold_left handleEvent evs ap) !! m =
    match last_event m evs with Some b => Some b | None => ap_clients ap !! m end.
Proof.
  unfold last_event. induction evs as [|ev evs IH] using rev_ind; [done|].
  rewrite fold_left_app, omap_app. cbn.
  destruct (String.eqb_spec (ev_MAC ev) m) as [<-|Hne]; cbn.
  - by rewrite last_snoc, lookup_insert_eq.
  - by rewrite app_nil_r, lookup_insert_ne, IH.
Qed.

Lemma elem_of_Clients `{MO : MapOrder} ap m : m ∈ Clients ap ↔ ap_clients ap !! m = Some true.
Proof.
  unfold Clients. rewrite list_elem_of_fmap. split.
  - intros ([k b] & -> & [Hb Hin]%list_elem_of_filter). cbn in *. subst b.
    by apply elem_of_map_range in Hin.
  - intros H. exists (m, true). split; [done|]. apply list_elem_of_filter. split; [done|].
    by apply elem_of_map_range.
Qed.

(** ** Lemmas: the control socket *)

Section ctrl_lemmas.
Context `{A : GoInt} `{PF : GoParseFloat}.

Lemma parseBitrate_returns s : ∃ v, parseBitrate s = Ret v.
Proof.
  unfold parseBitrate.
  assert (∀ x, ∃ v, match atoi x with (_, Some _) => Ret 0
    | (v, None) => Ret (wrap_int (v * 100)) end = Ret v) as Hp.
  { intros x. destruct (atoi x) as [v [e|]]; by eexists. }
  set (t := trim_space s). destruct (contains t "MBit/s") eqn:Ec; [|apply Hp].
  destruct (fields (trim_suffix t " MBit/s")) as [|f fs] eqn:Ef.
  2: { destruct (float_kbps f) as [v|]; [by exists v|apply Hp]. }
  exfalso. revert Ef. apply fields_nonspace.
  destruct (trim_space_first s) as [E|Hn]; fold t in E || fold t in Hn; [by rewrite E in Ec|].
  destruct (has_suffix t " MBit/s") eqn:Hs.
  - apply has_suffix_spec in Hs as [u Hu]. rewrite Hu in *. rewrite trim_suffix_app.
    rewrite to_bytes_app in Hn. eapply nonspace_first_prefix; [exact Hn|].
    intros E. rewrite E in Hn. destruct Hn as [_ Hn]. by vm_compute in Hn.
  - unfold trim_suffix. by rewrite Hs.
Qed.

Lemma station_lines_returns lines si :
  ∃ si', station_lines si lines = Ret si' ∧ si_MAC si' = si_MAC si.
Proof.
  induction lines as [|line lines IH] in si |- *; cbn [station_lines]; [by exists si|].
  destruct (cut_char "=" line) as [[key val]|]; [|apply IH].
  assert (∃ si', set_station si key val = Ret si' ∧ si_MAC si' = si_MAC si) as (si' & E & Em).
  { unfold set_station. destruct (parseBitrate_returns val) as [v ->]. cbn [mbind outcome_bind].
    repeat case_if; by eexists. }
  rewrite E. cbn [mbind outcome_bind]. destruct (IH si') as (si2 & E2 & Em2).
  exists si2. split; [done|congruence].
Qed.

(** A reply that is not empty names a station. *)
Lemma parseStationResponse_mac resp :
  nonspace_first (to_bytes resp) →
  ∃ si, parseStationResponse resp = Ret si ∧ si_MAC si ≠ "".
Proof.
  intros Hn. unfold parseStationResponse. pose proof (join_split_on (chr 10) resp) as Hj.
  destruct (split_on (chr 10) resp) as [|first lines] eqn:Es; [by apply split_on_ne in Es|].
  destruct (station_lines_returns lines (station (trim_space first))) as (si & E & Em).
  exists si. split; [done|]. rewrite Em. cbn [station si_MAC]. apply trim_space_nonspace.
  assert (∃ x, resp = first +:+ x ∧ (x = "" ∨ ∃ y, x = String (chr 10) y)) as (x & Hx & Hx').
  { destruct lines as [|l lines].
    - exists "". rewrite str_app_nil_r. split; [done|by left].
    - rewrite join_cons in Hj. rewrite <-Hj. eexists. split; [done|]. right.
      rewrite str_app_cons. by eexists. }
  rewrite Hx, to_bytes_app in Hn. eapply nonspace_first_prefix; [exact Hn|]. intros E0.
  rewrite E0 in Hn. destruct Hn as [Hne Hn]. destruct Hx' as [->|[y ->]]; [done|].
  by vm_compute in Hn.
Qed.

Lemma stations_from_returns replies resp :
  ∃ sis asked, stations_from resp replies = Ret (sis, asked) ∧
    Forall (λ si, si_MAC si ≠ "") sis ∧
    (length asked ≤ S (length replies))%nat ∧
    asked = map (λ si, "STA-NEXT " +:+ si_MAC si) sis.
Proof.
  induction replies as [|r replies IH] in resp |- *; cbn [stations_from];
    destruct (String.eqb_spec (trim_space resp) "") as [|Hne]; cbn [orb];
    try (exists [], []; split_and!; [done|constructor|cbn; lia|done]);
    destruct (String.eqb (trim_space resp) "FAIL");
    try (exists [], []; split_and!; [done|constructor|cbn; lia|done]);
    (destruct (trim_space_first resp) as [|Hn]; [done|]);
    destruct (parseStationResponse_mac _ Hn) as (si & -> & Hm); cbn [mbind outcome_bind];
    rewrite (proj2 (String.eqb_neq _ _) Hm); cbn [negb].
  - exists [si], ["STA-NEXT " +:+ si_MAC si]. split_and!; [done|by repeat constructor|cbn; lia|done].
  - destruct r as [r|].
    + destruct (IH r) as (sis & asked & -> & H1 & H2 & H3). cbn [mbind outcome_bind].
      exists (si :: sis), (("STA-NEXT " +:+ si_MAC si) :: asked).
      split_and!; [done|by constructor|cbn in *; lia|cbn; by rewrite H3].
    + exists [si], ["STA-NEXT " +:+ si_MAC si]. split_and!; [done|by repeat constructor|cbn; lia|done].
Qed.
End ctrl_lemmas.

(** ** The properties of the component *)

(** the supervisor restarts hostapd after every end that is not a stop and
    never after a stop; before a restart it waits between one and thirty
    seconds: one second if hostapd had run for at least ten seconds, else
    twice the previous wait up to the maximum, so the n-th wait of a series of
    crashes is 2^n seconds, capped. *)
Theorem supervise_correct turns :
  let '(restarts, returned) := supervise initialBackoff turns in
  (returned = true ↔ Exists stop_turn turns) ∧
  (returned = false → length restarts = length turns) ∧
  (∀ i w ok, restarts !! i = Some (w, ok) → ∃ t, turns !! i = Some t ∧ ¬ stop_turn t ∧
     ok = t_launched t ∧ initialBackoff ≤ w ≤ maxBackoff ∧
     (stableRunTime ≤ t_ran t → w = initialBackoff) ∧
     ((∀ j u, (j ≤ i)%nat → turns !! j = Some u → t_ran u < stableRunTime) →
        w = Z.min (2 ^ Z.of_nat i * second) maxBackoff)).
Proof.
  pose proof (supervise_spec initialBackoff turns) as H.
  pose proof (supervise_waits_ok initialBackoff turns) as Hok.
  destruct (supervise initialBackoff turns) as [rs returned]. destruct H as (H1 & H2 & H3 & _).
  split_and!; [done|done|]. intros i w ok Hi. destruct (H1 i w ok Hi) as (t & Ht & Hs & -> & Hw).
  assert (backoff_ok w) as [Hw1 Hw2].
  { apply (Hok i w (t_launched t)); [|done]. unfold backoff_ok, initialBackoff, maxBackoff, second. lia. }
  exists t. split_and!; [done|done|done|done|done| |].
  - intros Hr. rewrite Hw. unfold backoff_before. by rewrite (proj2 (Z.leb_le _ _) Hr).
  - clear Hw Hs Hw1 Hw2. revert w t Hi Ht. induction i as [|i IH]; intros w t Hi Ht Hj.
    + destruct (H1 _ _ _ Hi) as (u & Hu & _ & _ & ->). unfold backoff_before.
      rewrite (proj2 (Z.leb_gt _ _)) by (by eapply Hj). done.
    + destruct (rs !! i) as [[w' ok']|] eqn:Hi'.
      2: { apply lookup_ge_None in Hi'. apply lookup_lt_Some in Hi. lia. }
      destruct (H1 _ _ _ Hi') as (t' & Ht' & _ & -> & _).
      destruct (H1 _ _ _ Hi) as (u & Hu & _ & _ & ->). rewrite Hi'. unfold backoff_before.
      rewrite (proj2 (Z.leb_gt _ _)) by (by eapply Hj). cbn [default fmap option_fmap option_map fst].
      rewrite (IH w' t' eq_refl Ht') by (intros j v Hv; apply Hj; lia).
      rewrite backoff_after_spec, Nat2Z.inj_succ, Z.pow_succ_r by lia.
      unfold Datatypes.id, maxBackoff, second. lia.
Qed.

(** What hostapd prints: the messages about a client, and anything else. *)
Inductive message :=
  | Connected (mac : string)
  | Disconnected (mac : string)
  | StaAssociated (mac : string)
  | StaDisassociated (mac : string)
  | Other (line : string).

Definition text (iface : string) (msg : message) : string :=
  match msg with
  | Connected mac => iface +:+ ": AP-STA-CONNECTED " +:+ mac
  | Disconnected mac => iface +:+ ": AP-STA-DISCONNECTED " +:+ mac
  | StaAssociated mac => iface +:+ ": STA " +:+ mac +:+ " IEEE 802.11: associated"
  | StaDisassociated mac => iface +:+ ": STA " +:+ mac +:+ " IEEE 802.11: disassociated"
  | Other line => line
  end.

(** The client a message is about, and whether it is there. *)
Definition news (msg : message) : option (string * bool) :=
  match msg with
  | Connected mac | StaAssociated mac => Some (mac, true)
  | Disconnected mac | StaDisassociated mac => Some (mac, false)
  | Other _ => None
  end.

(** Addresses as hostapd prints them; another line has none of the words. *)
Definition proper (msg : message) : Prop :=
  match msg with
  | Connected mac | Disconnected mac | StaAssociated mac | StaDisassociated mac => hostapd_mac mac
  | Other line => Forall (λ w, contains line w = false) ["AP-STA-CONNECTED "; "AP-STA-DISCONNECTED "; "STA "]
  end.

Lemma find_match_absent p s : contains s p = false → find_match (after_prefix p) s = None.
Proof.
  induction s as [|c s IH]; cbn [contains find_match]; unfold after_prefix at 1.
  - rewrite orb_false_r. by intros ->.
  - intros [-> H]%orb_false_iff. by apply IH.
Qed.

Lemma find_sta_absent w s : contains s "STA " = false → find_match (sta_word w) s = None.
Proof.
  induction s as [|c s IH]; cbn [contains find_match]; unfold sta_word at 1, after_prefix at 1.
  - rewrite orb_false_r. by intros ->.
  - intros [-> H]%orb_false_iff. by apply IH.
Qed.

Lemma message_events `{U : GoUnicode} iface msg :
  contains_char "A" iface = false → contains_char "S" iface = false → proper msg →
  line_events (text iface msg) =
    match news msg with Some (mac, a) => [{| ev_MAC := mac; ev_Associated := a |}] | None => [] end.
Proof.
  intros HA HS. destruct msg as [mac|mac|mac|mac|line]; cbn [proper text news]; intros H.
  - by apply connected_line.
  - by apply disconnected_line.
  - by apply associated_line.
  - by apply disassociated_line.
  - rewrite !Forall_cons in H. destruct H as (H1 & H2 & H3 & _).
    unfold line_events, reConnected, reDisconnected, reAssociated, reDisassociated.
    by rewrite !find_match_absent, !find_sta_absent by done.
Qed.

(** C32: from whatever hostapd prints, [parseOutput] gets exactly one event for
    each line that says that a client connects, disconnects, is associated or
    disassociated, with its address, in the order of the lines, and none for
    lines without these words; afterwards the listed clients are those about
    which the last such line said that they are there, or that were listed
    before and were not mentioned. *)
Theorem output_correct `{U : GoUnicode} `{MO : MapOrder} iface ap msgs m :
  contains_char "A" iface = false → contains_char "S" iface = false → Forall proper msgs →
  let '(ap', evs) := parseOutput ap (map (text iface) msgs) in
  map (λ ev, (ev_MAC ev, ev_Associated ev)) evs = omap news msgs ∧
  (m ∈ Clients ap' ↔
     match last (filter (λ n, n.1 = m) (omap news msgs)) with
     | Some (_, there) => there = true
     | None => m ∈ Clients ap
     end).
Proof.
  intros HA HS Hp. unfold parseOutput.
  assert (concat (map line_events (map (text iface) msgs)) =
    map (λ n, {| ev_MAC := n.1; ev_Associated := n.2 |}) (omap news msgs)) as ->.
  { induction Hp as [|msg msgs H Hp IH]; [done|]. cbn [map concat]. rewrite message_events, IH by done.
    cbn. by destruct (news msg) as [[mac a]|]. }
  set (ns := omap news msgs). rewrite map_map. split.
  { etransitivity; [|apply map_id]. apply map_ext. by intros []. }
  rewrite !elem_of_Clients, handle_events_lookup.
  assert (last_event m (map (λ n : string * bool, {| ev_MAC := n.1; ev_Associated := n.2 |}) ns) =
    snd <$> last (filter (λ n, n.1 = m) ns)) as ->.
  { unfold last_event. rewrite <-fmap_last. f_equal. induction ns as [|[mac a] ns IH]; [done|].
    rewrite filter_cons. cbn. rewrite IH.
    destruct (String.eqb_spec mac m); [by rewrite decide_True|by rewrite decide_False]. }
  destruct (last _) as [[mac a]|]; cbn; [|by rewrite elem_of_Clients]. split; [by intros [= ->]|by intros ->].
Qed.

(** Two clients come and one goes. *)
Lemma output_correct_witness :
  let out := parseOutput (U := ascii_unicode) {| ap_cfg := zero_WiFi; ap_bridge := ""; ap_macMap := None; ap_clients := ∅ |}
    ["wlan0: interface state UNINITIALIZED->ENABLED"; "wlan0: AP-STA-CONNECTED aa:bb:cc:dd:ee:ff";
     "wlan0: STA 02:00:00:00:00:01 IEEE 802.11: associated"; "wlan0: AP-STA-DISCONNECTED aa:bb:cc:dd:ee:ff"] in
  ("02:00:00:00:00:01" ∈ Clients (MO := canonical_order) out.1) ∧
  ("aa:bb:cc:dd:ee:ff" ∉ Clients (MO := canonical_order) out.1) ∧ length out.2 = 3%nat.
Proof.
  set (msgs := [Other "wlan0: interface state UNINITIALIZED->ENABLED"; Connected "aa:bb:cc:dd:ee:ff";
    StaAssociated "02:00:00:00:00:01"; Disconnected "aa:bb:cc:dd:ee:ff"]).
  assert (Forall proper msgs) as Hp by (repeat constructor).
  pose proof (λ m, output_correct (U := ascii_unicode) (MO := canonical_order) "wlan0"
    {| ap_cfg := zero_WiFi; ap_bridge := ""; ap_macMap := None; ap_clients := ∅ |} msgs m eq_refl eq_refl Hp) as H.
  cbn zeta. change ["wlan0: interface state UNINITIALIZED->ENABLED"; _; _; _] with (map (text "wlan0") msgs).
  destruct (parseOutput _ (map _ msgs)) as [ap' evs]. cbn [fst snd]. split_and!.
  - apply (H "02:00:00:00:00:01"). reflexivity.
  - intros Hin. apply (H "aa:bb:cc:dd:ee:ff") in Hin. vm_compute in Hin. discriminate Hin.
  - destruct (H "") as [E _]. rewrite <-(length_map (λ ev, (ev_MAC ev, ev_Associated ev)) evs), E. reflexivity.
Defined.

(** C33: reading the stations of the control socket never panics, whatever
    hostapd replies: indexing the first field of a bit rate is safe, every
    reply that does not end the list names a station, each station is asked
    for its successor exactly once, and there are at most as many requests as
    replies. *)
Theorem Stations_correct `{A : GoInt} `{PF : GoParseFloat} replies :
  ∃ r asked, Stations replies = Ret (r, asked) ∧
    (r = None ↔ (∀ resp, head replies ≠ Some (Some resp))) ∧
    (length asked ≤ S (length replies))%nat ∧
    (∀ sis, r = Some sis → Forall (λ si, si_MAC si ≠ "") sis ∧
       asked = "STA-FIRST" :: map (λ si, "STA-NEXT " +:+ si_MAC si) sis).
Proof.
  unfold Stations. destruct replies as [|[resp|] replies].
  - exists None, ["STA-FIRST"]. split_and!; [done|by split|cbn; lia|done].
  - destruct (stations_from_returns replies resp) as (sis & asked & -> & H1 & H2 & H3).
    cbn [mbind outcome_bind]. eexists _, _. split_and!; [done| |cbn in *; lia|].
    + split; [done|]. intros H. by destruct (H resp).
    + intros ? [= <-]. by rewrite H3.
  - exists None, ["STA-FIRST"]. split_and!; [done|by split|cbn; lia|done].
Qed.

(** a successful [Start] has written the files of the VLANs (only with a
    MAC-to-VLAN map), then hostapd.conf, then started hostapd, in this order;
    a failed one has done a part of this and no more.  Every VLAN that the
    list of accepted clients assigns has its interface in the VLAN file. *)
Theorem Start_files `{U : GoUnicode} `{MO : MapOrder} os ap :
  let vlan_files mm := [WriteFile vlanFilePath (vlan_lines (wi_Interface (ap_cfg ap)) (Macmap.VLANs mm));
                        WriteFile acceptMACPath (Macmap.HostapdAcceptMACFile mm)] in
  let plan := match ap_macMap ap with Some mm => vlan_files mm | None => [] end ++
    [CreateConfig (render (ap_cfg ap) (ap_bridge ap)
       (match ap_macMap ap with Some _ => true | None => false end));
     MkdirAll ctrlPath; StartProcess hostapdPath [confPath]] in
  let '(t, r) := Start os ap [] in
  t `prefix_of` plan ∧ (r = Ok () → t = plan) ∧
  (∀ mm c, ap_macMap ap = Some mm → c ∈ Macmap.mf_Clients mm → 0 < Macmap.c_VLAN c →
     Macmap.c_VLAN c ∈ filter (λ vid, vid ≠ 0) (Macmap.VLANs mm)).
Proof.
  cbn zeta.
  assert (∀ (mm : Macmap.MapFile) c, ap_macMap ap = Some mm → c ∈ Macmap.mf_Clients mm →
    0 < Macmap.c_VLAN c → Macmap.c_VLAN c ∈ filter (λ vid, vid ≠ 0) (Macmap.VLANs mm)) as Hv.
  { intros mm c _ Hc Hp. apply list_elem_of_filter. split; [lia|]. apply Macmap.elem_of_VLANs. eauto. }
  unfold Start, writeConfig, launch, writeVLANFile, writeAcceptMACFile, ask, guard_or.
  destruct (ap_macMap ap) as [mm|]; io_unfold; cbn [app];
    repeat match goal with |- context [if ?b then _ else _] =>
      destruct b; io_unfold; cbn [app]; try (split_and!; [by eexists|done|done]) end.
Qed.

(** ** Concrete runs *)

Definition demo_wifi (ssid : string) : WiFiConfig := {|
  wi_Enabled := true; wi_Interface := ""; wi_Bridge := ""; wi_Address := ""; wi_DHCP := zero_DHCP;
  wi_MacMapFile := ""; wi_DefaultVLAN := 0; wi_SSID := ssid; wi_Passphrase := "correct horse";
  wi_Channel := 0; wi_HWMode := ""; wi_HTCapab := ""; wi_CountryCode := ""; wi_WPA := 0 |}.

(** [New] accepts a network name with a line break, which becomes a directive
    of its own in hostapd.conf. *)
Example ssid_adds_directive :
  match New (λ _, Err (Macmap.ErrReadFile "")) (demo_wifi ("home" +:+ nl +:+ "ignore_broadcast_ssid=1")) "" with
  | Ok ap => bool_decide ("ignore_broadcast_ssid=1" ∈
               split_on (chr 10) (render (ap_cfg ap) (ap_bridge ap) false)) = true
  | Err _ => False
  end.
Proof. vm_compute. reflexivity. Qed.

Definition demo_float : GoParseFloat := λ s, if String.eqb s "72.2" then Some 72200 else None.

Example demo_station :
  parseStationResponse (A := int64_arch) (PF := demo_float)
    (join nl ["aa:bb:cc:dd:ee:ff"; "flags=[AUTH]"; "signal=-42"; "connected_time=3600";
              "tx_bitrate=72.2 MBit/s MCS 7 40MHz"; "rx_bitrate=54"]) =
  Ret {| si_MAC := "aa:bb:cc:dd:ee:ff"; si_Signal := -42; si_TxBitrate := 72200;
         si_RxBitrate := 5400; si_Connected := 3600 * second |}.
Proof. vm_compute. reflexivity. Qed.

(** Three crashes at once, a stable run, another crash. *)
Example demo_supervise :
  let crash := {| t_ran := second; t_stopped := false; t_stoppedWaiting := false; t_launched := true |} in
  let stable := {| t_ran := 3600 * second; t_stopped := false; t_stoppedWaiting := false; t_launched := true |} in
  map fst (supervise initialBackoff [crash; crash; crash; stable; crash]).1 =
    [1 * second; 2 * second; 4 * second; 1 * second; 2 * second].
Proof. vm_compute. reflexivity. Qed.
