(* ===== verification/Supervisor.v ===== *)
(** * pkg/wifi: the supervisor beside Stop and the processes

    Wifi has the loop of [supervise] as a function of what it meets.  Here it is
    a goroutine: its steps interleave with the two halves of [Stop], with the
    ends of hostapd processes and with the events in their output.  The model
    shows that at most one hostapd runs, that the waits are those of Wifi, and
    where a stop comes too late. *)

From S2P Require Import Prelude GoStrings.
From S2P Require Import Wifi.
Open Scope Z_scope.

(** ** State *)

(** Where the goroutine is: in [Wait], at the first [select], in the second one
    with the time it waits, in [launch] before and after the command is made, or
    returned. *)
Inductive place :=
  | InWait
  | AfterWait (ran : Z)
  | Sleeping (ran wait : Z)
  | Launching (ran wait : Z)
  | Prepared (ran wait : Z)
  | Returned.

#[export] Instance place_eq_dec : EqDecision place.
Proof. solve_decision. Defined.

Record state := {
  su_place : place;
  su_backoff : Z;
  su_cmd : option nat;          (* the process of ap.cmd, None when it was not started *)
  su_next : nat;                (* the next process *)
  su_alive : gset nat;          (* the processes of hostapd that run *)
  su_signalled : gset nat;      (* those that got the interrupt *)
  su_stop : bool;               (* stopCh is closed *)
  su_clients : gmap string bool;
  su_turns : list turn          (* the turns of the loop so far, in the terms of Wifi *)
}.

(** After [Start]: one process runs, and the goroutine waits for it. *)
Definition started : state := {|
  su_place := InWait; su_backoff := initialBackoff; su_cmd := Some 0%nat; su_next := 1;
  su_alive := {[0%nat]}; su_signalled := ∅; su_stop := false; su_clients := ∅; su_turns := [] |}.

Definition at_place (s : state) (p : place) : state := {|
  su_place := p; su_backoff := su_backoff s; su_cmd := su_cmd s; su_next := su_next s;
  su_alive := su_alive s; su_signalled := su_signalled s; su_stop := su_stop s;
  su_clients := su_clients s; su_turns := su_turns s |}.

(** The end of a turn: back to the top of the loop, or out of it. *)
Definition end_turn (s : state) (p : place) (backoff : Z) (t : turn) : state := {|
  su_place := p; su_backoff := backoff; su_cmd := su_cmd s; su_next := su_next s;
  su_alive := su_alive s; su_signalled := su_signalled s; su_stop := su_stop s;
  su_clients := su_clients s; su_turns := su_turns s ++ [t] |}.

Definition with_clients (s : state) (m : gmap string bool) : state := {|
  su_place := su_place s; su_backoff := su_backoff s; su_cmd := su_cmd s; su_next := su_next s;
  su_alive := su_alive s; su_signalled := su_signalled s; su_stop := su_stop s;
  su_clients := m; su_turns := su_turns s |}.

Definition with_cmd (s : state) (cmd : option nat) (next : nat) (alive : gset nat) : state := {|
  su_place := su_place s; su_backoff := su_backoff s; su_cmd := cmd; su_next := next;
  su_alive := alive; su_signalled := su_signalled s; su_stop := su_stop s;
  su_clients := su_clients s; su_turns := su_turns s |}.

Definition with_stop (s : state) (stop : bool) (signalled : gset nat) : state := {|
  su_place := su_place s; su_backoff := su_backoff s; su_cmd := su_cmd s; su_next := su_next s;
  su_alive := su_alive s; su_signalled := signalled; su_stop := stop;
  su_clients := su_clients s; su_turns := su_turns s |}.

(** ** Steps *)

Inductive event :=
  | Exit (p : nat)                 (* a process of hostapd ends *)
  | Output (ev : ClientEvent)      (* parseOutput handles an event *)
  | WaitReturns (ran : Z)          (* cmd.Wait returns; the process ran so long *)
  | CheckStop                      (* the select after Wait *)
  | Timer                          (* the second select takes the timer *)
  | NoticeStop                     (* the second select takes stopCh *)
  | MakeCommand (mkdir_ok : bool)  (* launch up to the assignment of ap.cmd *)
  | StartCommand (ok : bool)       (* the pipe and cmd.Start *)
  | CloseStop                      (* Stop: stopOnce.Do *)
  | SignalStop.                    (* Stop: the signal, if there is a process *)

(** [Wait] returns at once for a command that was not started or was waited for
    before, else when the process has ended. *)
Definition waited (s : state) : bool :=
  match su_cmd s with None => true | Some p => negb (bool_decide (p ∈ su_alive s)) end.

Definition turn_of (ran : Z) (stopped stoppedWaiting launched : bool) : turn :=
  {| t_ran := ran; t_stopped := stopped; t_stoppedWaiting := stoppedWaiting; t_launched := launched |}.

Definition step (s : state) (e : event) : option state :=
  match e, su_place s with
  | Exit p, _ =>
      if bool_decide (p ∈ su_alive s)
      then Some (with_cmd s (su_cmd s) (su_next s) (su_alive s ∖ {[p]})) else None
  | Output ev, _ => Some (with_clients s (<[ev_MAC ev := ev_Associated ev]> (su_clients s)))
  | WaitReturns ran, InWait => if waited s then Some (at_place s (AfterWait ran)) else None
  | CheckStop, AfterWait ran =>
      if su_stop s then Some (end_turn s Returned (su_backoff s) (turn_of ran true false false))
      else
        let wait := backoff_before (su_backoff s) (turn_of ran false false false) in
        Some (with_clients (at_place s (Sleeping ran wait)) ∅)
  | Timer, Sleeping ran wait => Some (at_place s (Launching ran wait))
  | NoticeStop, Sleeping ran wait =>
      if su_stop s then Some (end_turn s Returned (su_backoff s) (turn_of ran false true false))
      else None
  | MakeCommand mkdir_ok, Launching ran wait =>
      if mkdir_ok then Some (with_cmd (at_place s (Prepared ran wait)) None (su_next s) (su_alive s))
      else Some (end_turn s InWait (backoff_after wait) (turn_of ran false false false))
  | StartCommand ok, Prepared ran wait =>
      let s' := end_turn s InWait (backoff_after wait) (turn_of ran false false ok) in
      if ok then Some (with_cmd s' (Some (su_next s)) (S (su_next s)) ({[su_next s]} ∪ su_alive s))
      else Some s'
  | CloseStop, _ => Some (with_stop s true (su_signalled s))
  | SignalStop, _ =>
      if su_stop s then
        Some (with_stop s true (match su_cmd s with
                                | Some p => {[p]} ∪ su_signalled s
                                | None => su_signalled s
                                end))
      else None
  | _, _ => None
  end.

Definition run : state → list event → option state := run_steps step.

(** ** Invariants *)

(** The backoff after some turns. *)
Definition backoff_of (turns : list turn) : Z :=
  fold_left (λ b t, backoff_after (backoff_before b t)) turns initialBackoff.

Arguments backoff_of : simpl never.

Lemma backoff_of_snoc ts t : backoff_of (ts ++ [t]) = backoff_after (backoff_before (backoff_of ts) t).
Proof. unfold backoff_of. by rewrite fold_left_app. Qed.

Lemma backoff_of_ok ts : backoff_ok (backoff_of ts).
Proof.
  induction ts as [|t ts IH] using rev_ind; [unfold backoff_ok; by vm_compute|].
  rewrite backoff_of_snoc. by apply backoff_after_ok, backoff_before_ok.
Qed.

(** The turn a place belongs to: how long hostapd ran, and the time to wait. *)
Definition in_turn (p : place) : option (Z * Z) :=
  match p with
  | Sleeping ran wait | Launching ran wait | Prepared ran wait => Some (ran, wait)
  | _ => None
  end.

Record good (s : state) : Prop := {
  gd_alive : ∀ p, p ∈ su_alive s → su_cmd s = Some p ∧ su_place s = InWait;
  gd_wait : ∀ ran wait, in_turn (su_place s) = Some (ran, wait) →
    wait = backoff_before (su_backoff s) (turn_of ran false false false);
  gd_turns : su_place s ≠ Returned →
    Forall (λ t, ¬ stop_turn t) (su_turns s) ∧ su_backoff s = backoff_of (su_turns s);
  gd_returned : su_place s = Returned → su_stop s = true ∧
    ∃ ts t, su_turns s = ts ++ [t] ∧ Forall (λ t, ¬ stop_turn t) ts ∧ stop_turn t
}.

(** What does not touch the loop keeps the invariant. *)
Lemma good_frame s s' :
  good s → su_place s' = su_place s → su_backoff s' = su_backoff s → su_turns s' = su_turns s →
  su_cmd s' = su_cmd s → su_alive s' ⊆ su_alive s → (su_stop s = true → su_stop s' = true) → good s'.
Proof.
  intros [H1 H2 H3 H4] Ep Eb Et Ec Ha Hs. split; rewrite ?Ep, ?Eb, ?Et, ?Ec; try done.
  - intros p Hp. apply H1. set_solver.
  - intros Hr. destruct (H4 Hr) as [? ?]. split; [by apply Hs|done].
Qed.

(** Outside of [Wait] nothing runs. *)
Lemma good_idle s : good s → su_place s ≠ InWait → su_alive s = ∅.
Proof. intros H Hp. apply set_eq. intros p. split; [|set_solver]. by intros [_ ?]%(gd_alive _ H). Qed.

(** The end of a turn that was not stopped. *)
Lemma good_end_turn s cmd next alive ran wait launched :
  good s → in_turn (su_place s) = Some (ran, wait) →
  (∀ p, p ∈ alive → cmd = Some p) →
  good (with_cmd (end_turn s InWait (backoff_after wait) (turn_of ran false false launched)) cmd next alive).
Proof.
  intros H Hp Ha. assert (su_place s ≠ Returned) as Hr by (intros E; by rewrite E in Hp).
  destruct (gd_turns _ H Hr) as [Hf Hb]. rewrite (gd_wait _ H _ _ Hp). split; cbn; try done.
  - intros p Hin. by split; [apply Ha|].
  - intros _. split.
    + apply Forall_app. split; [done|]. constructor; [|constructor]. unfold stop_turn. cbn. by intros [].
    + by rewrite backoff_of_snoc, Hb.
Qed.

Lemma good_return s ran stopped waiting :
  good s → su_place s ≠ Returned → su_place s ≠ InWait → su_stop s = true → stopped || waiting = true →
  good (end_turn s Returned (su_backoff s) (turn_of ran stopped waiting false)).
Proof.
  intros H Hr Hw Hs Ht. destruct (gd_turns _ H Hr) as [Hf _]. split; cbn; try done.
  - intros p. rewrite (good_idle _ H Hw). set_solver.
  - intros _. split; [done|]. do 2 eexists. split_and!; [done|done|].
    unfold stop_turn. cbn. destruct stopped; [by left|by right].
Qed.

Lemma step_good s e s' : good s → step s e = Some s' → good s'.
Proof.
  intros H. pose proof (good_idle s H) as Hidle.
  destruct e as [p|ev|ran| | | |mk|ok| |]; cbn [step].
  - case_bool_decide; intros [= <-]. apply (good_frame s); try done. cbn. set_solver.
  - intros [= <-]. by apply (good_frame s).
  - destruct (su_place s) eqn:Ep; try done. destruct (waited s) eqn:Ew; [|done]. intros [= <-].
    split; cbn; try done.
    + intros p Hp. destruct (gd_alive _ H p Hp) as [Hc _]. unfold waited in Ew. rewrite Hc in Ew.
      by rewrite bool_decide_true in Ew.
    + intros _. apply (gd_turns _ H). congruence.
  - destruct (su_place s) eqn:Ep; try done. destruct (su_stop s) eqn:Es; intros [= <-].
    + apply good_return; congruence || done.
    + split; cbn; try done.
      * intros p. rewrite Hidle by congruence. set_solver.
      * intros r w [= <- <-]. done.
      * intros _. apply (gd_turns _ H). congruence.
  - destruct (su_place s) eqn:Ep; try done. intros [= <-]. split; cbn; try done.
    + intros p. rewrite Hidle by congruence. set_solver.
    + intros r w [= <- <-]. apply (gd_wait _ H). by rewrite Ep.
    + intros _. apply (gd_turns _ H). congruence.
  - destruct (su_place s) eqn:Ep; try done. destruct (su_stop s) eqn:Es; [|done]. intros [= <-].
    apply good_return; congruence || done.
  - destruct (su_place s) eqn:Ep; try done. destruct mk; intros [= <-].
    + split; cbn; try done.
      * intros p. rewrite Hidle by congruence. set_solver.
      * intros r w [= <- <-]. apply (gd_wait _ H). by rewrite Ep.
      * intros _. apply (gd_turns _ H). congruence.
    + apply (good_end_turn s (su_cmd s) (su_next s) (su_alive s) ran wait false); [done|by rewrite Ep|].
      intros p. rewrite Hidle by congruence. set_solver.
  - destruct (su_place s) eqn:Ep; try done. assert (in_turn (su_place s) = Some (ran, wait)) as Hp by by rewrite Ep.
    destruct ok; intros [= <-].
    + apply good_end_turn; [done|done|]. intros p. rewrite Hidle by congruence. set_solver.
    + apply (good_end_turn s (su_cmd s) (su_next s) (su_alive s) ran wait false); [done|done|].
      intros p. rewrite Hidle by congruence. set_solver.
  - intros [= <-]. by apply (good_frame s).
  - destruct (su_stop s) eqn:Es; [|done]. intros [= <-]. by apply (good_frame s).
Qed.

Lemma started_good : good started.
Proof.
  split; cbn; try done. by intros p ->%elem_of_singleton.
Qed.

(** The goroutine has returned when [supervise] has, on the turns so far. *)
Lemma good_returned s : good s →
  (supervise initialBackoff (su_turns s)).2 = true ↔ su_place s = Returned.
Proof.
  intros H. pose proof (supervise_spec initialBackoff (su_turns s)) as Hsp.
  destruct (supervise initialBackoff (su_turns s)) as [rs r]. destruct Hsp as (_ & Hret & _). cbn [snd].
  rewrite Hret, Exists_exists. split.
  - intros Hs. destruct (decide (su_place s = Returned)) as [|Hne]; [done|].
    destruct (gd_turns _ H Hne) as [Hf _].
    rewrite Forall_forall in Hf. destruct Hs as (t & Hin & Ht). by destruct (Hf t).
  - intros Hr. destruct (gd_returned _ H Hr) as (_ & ts & t & -> & _ & Ht).
    exists t. split; [|done]. apply elem_of_app. right. by apply list_elem_of_singleton.
Qed.

(** ** After a stop *)

(** The restarts that may still come: the goroutine is past its last look at the
    channel. *)
Definition late (s : state) : nat := match in_turn (su_place s) with Some _ => 1 | None => 0 end.

Lemma step_late s e s' : su_stop s = true → step s e = Some s' →
  su_stop s' = true ∧ (su_next s' + late s' ≤ su_next s + late s)%nat.
Proof.
  intros Hs. destruct e; cbn [step]; destruct (su_place s) eqn:Ep; try done;
    repeat case_match; try done; intros [= <-]; unfold late; cbn; rewrite ?Ep; cbn;
    (split; [done|lia]) || congruence.
Qed.

Lemma run_late s es s' : su_stop s = true → run s es = Some s' →
  su_stop s' = true ∧ (su_next s' + late s' ≤ su_next s + late s)%nat.
Proof.
  intros Hs. apply (run_steps_ind step (λ _ s', su_stop s' = true ∧ (su_next s' + late s' ≤ su_next s + late s)%nat)).
  { by split. }
  intros _ s1 e s2 [H1 H2] H. apply step_late in H as [? ?]; [|done]. split; [done|lia].
Qed.

(** The steps of the goroutine itself: the others belong to hostapd, to its output
    and to the callers of [Stop]. *)
Definition goes (e : event) : bool :=
  match e with
  | WaitReturns _ | CheckStop | Timer | NoticeStop | MakeCommand _ | StartCommand _ => true
  | Exit _ | Output _ | CloseStop | SignalStop => false
  end.

Definition goroutine_steps (es : list event) : nat := length (List.filter goes es).

(** What the goroutine has left to do once it is to stop. *)
Definition left_to_do (p : place) : nat :=
  match p with
  | Sleeping _ _ => 5 | Launching _ _ => 4 | Prepared _ _ => 3
  | InWait => 2 | AfterWait _ => 1 | Returned => 0
  end.

Lemma step_left s e s' : su_stop s = true → step s e = Some s' →
  (left_to_do (su_place s') + goroutine_steps [e] ≤ left_to_do (su_place s))%nat.
Proof.
  intros Hs. unfold goroutine_steps. destruct e; cbn; destruct (su_place s) eqn:Ep; try done;
    repeat case_match; try done; intros [= <-]; cbn; rewrite ?Ep; cbn; lia.
Qed.

Lemma run_left s es s' : su_stop s = true → run s es = Some s' →
  (left_to_do (su_place s') + goroutine_steps es ≤ left_to_do (su_place s))%nat.
Proof.
  unfold run. induction es as [|e es IH] in s |- *; cbn.
  { intros _ [= ->]. unfold goroutine_steps. cbn. lia. }
  intros Hs. destruct (step s e) as [s1|] eqn:E; [|done]. intros Hr.
  destruct (step_late _ _ _ Hs E) as [Hs1 _]. pose proof (step_left _ _ _ Hs E) as H1.
  pose proof (IH s1 Hs1 Hr) as H2.
  unfold goroutine_steps in *. cbn in *. destruct (goes e); cbn in *; lia.
Qed.

(** The goroutine stands still only when it has returned, or waits for a process
    that runs. *)
Lemma goroutine_moves s : su_stop s = true →
  su_place s = Returned ∨
  (su_place s = InWait ∧ ∃ p, su_cmd s = Some p ∧ p ∈ su_alive s) ∨
  ∃ e s', goes e = true ∧ step s e = Some s'.
Proof.
  intros Hs. destruct (su_place s) as [|ran|ran wait|ran wait|ran wait|] eqn:Ep.
  - destruct (waited s) eqn:Hw.
    + right; right. exists (WaitReturns 0). eexists. split; [done|]. cbn. by rewrite Ep, Hw.
    + right; left. split; [done|]. unfold waited in Hw. destruct (su_cmd s) as [p|]; [|done].
      exists p. split; [done|]. by apply negb_false_iff, bool_decide_eq_true in Hw.
  - right; right. exists CheckStop. eexists. split; [done|]. cbn. by rewrite Ep, Hs.
  - right; right. exists NoticeStop. eexists. split; [done|]. cbn. by rewrite Ep, Hs.
  - right; right. exists (MakeCommand true). eexists. split; [done|]. cbn. by rewrite Ep.
  - right; right. exists (StartCommand false). eexists. split; [done|]. cbn. by rewrite Ep.
  - by left.
Qed.

(** The second half of [Stop] signals the process that runs. *)
Lemma signal_stop s s' : good s → step s SignalStop = Some s' →
  su_alive s' = su_alive s ∧ su_alive s ⊆ su_signalled s'.
Proof.
  intros H. cbn. destruct (su_stop s); [|done]. intros [= <-]. split; [done|].
  intros p Hp. destruct (gd_alive _ H p Hp) as [Hc _]. cbn. rewrite Hc. set_solver.
Qed.

(** Turns without a stop come first in [supervise]. *)
Lemma supervise_app b ts us :
  Forall (λ t, ¬ stop_turn t) ts →
  supervise b (ts ++ us) =
    let '(rs, returned) := supervise (fold_left (λ b t, backoff_after (backoff_before b t)) ts b) us in
    ((supervise b ts).1 ++ rs, returned).
Proof.
  intros H. induction H as [|t ts Ht _ IH] in b |- *; cbn; [by destruct (supervise b us)|].
  unfold stop_turn in Ht. destruct (t_stopped t), (t_stoppedWaiting t); try by destruct Ht; auto.
  rewrite IH. destruct (supervise (fold_left _ ts _) us) as [rs r].
  by destruct (supervise (backoff_after (backoff_before b t)) ts).
Qed.


(** ** On concrete runs *)

Definition demo_final (es : list event) : state := default started (run started es).

(** A crash after five seconds, a restart, and a stop while the second process
    runs: the process is signalled, and when it ends the goroutine returns. *)
Definition demo_run : list event :=
  [Exit 0; WaitReturns (5 * second); CheckStop; Timer; MakeCommand true; StartCommand true;
   Output {| ev_MAC := "02:00:00:00:00:01"; ev_Associated := true |};
   CloseStop; SignalStop; Exit 1; WaitReturns (60 * second); CheckStop].

Example demo_run_signals : su_signalled (demo_final demo_run) = {[1%nat]}.
Proof. by vm_compute. Qed.


(** A stop between the timer of the backoff and the start of the process comes
    too late: it closes the channel and signals the process that has ended, and
    then hostapd is started and runs on, without ever being signalled, although
    [Stop] has returned. *)
Example stop_too_late :
  let s := demo_final [Exit 0; WaitReturns (5 * second); CheckStop; Timer; CloseStop; SignalStop;
                       MakeCommand true; StartCommand true] in
  su_stop s = true ∧ su_place s = InWait ∧ su_alive s = {[1%nat]} ∧ su_signalled s = {[0%nat]}.
Proof. by vm_compute. Qed.
