(* ===== verification/Status.v ===== *)
(** * pkg/status: clients, counters and rates

    The table of clients with the counter rules that belong to them, the sampler
    that computes rates, the stations of the access point and the status that is
    served.  The kernel (its rules, counters and links), the file system and the
    clock are parameters; the requests for rules are recorded. *)

From Stdlib Require Import Ascii.
From S2P Require Import Prelude GoStrings GoStrconv GoNet.
Open Scope Z_scope.

(** ** State *)

(** Arithmetic of uint64. *)
Definition u64 (z : Z) : Z := z mod 2 ^ 64.

(** [float64(delta) / dt] for a time of [dt] nanoseconds; the rounding of the
    quotient is left open. *)
Class GoQuotient := { float : Type; zero_float : float; quotient : Z → Z → float }.

Record PortInfo := {
  pi_Name : string; pi_MAC : string; pi_Up : bool; pi_Carrier : bool; pi_Speed : Z;
  pi_Duplex : string; pi_TxBytes : Z; pi_RxBytes : Z; pi_TxPkts : Z; pi_RxPkts : Z
}.

(** A port with its sub-ports. *)
Record PortEntry := { pe_port : PortInfo; pe_Sub : list PortInfo }.

Record SummaryInfo := {
  su_Name : string; su_TxBytes : Z; su_RxBytes : Z; su_TxPkts : Z; su_RxPkts : Z
}.

Record WiFiStation := { ws_MAC : string; ws_Signal : Z; ws_TxBitrate : Z; ws_RxBitrate : Z }.

(** [WiFiStationSource]: what [StationInfoAll] answers at a time, an error or the
    stations, [None] for a nil slice. *)
Definition WiFiStationSource : Type := Z → result () (option (list WiFiStation)).

Record wifiStationInfo := { wi_LinkTxRate : Z; wi_LinkRxRate : Z; wi_Signal : Z }.

Record counterSnapshot := { sn_RxBytes : Z; sn_TxBytes : Z; sn_Time : Z }.

Definition zero_snapshot : counterSnapshot := {| sn_RxBytes := 0; sn_TxBytes := 0; sn_Time := 0 |}.

Record clientEntry := {
  ce_MAC : string; ce_IP : IP; ce_Via : string; ce_Connected : bool;
  ce_FirstSeen : Z; ce_LastSeen : Z;
  ce_HistTxBytes : Z; ce_HistRxBytes : Z; ce_HistTxPkts : Z; ce_HistRxPkts : Z
}.

Inductive chain := chainRx | chainTx.

(** The expressions of a rule; the kernel fills in the counter. *)
Inductive expr :=
  | Payload (Offset Len : Z)
  | Cmp (Data : list Z)
  | Counter (Bytes Packets : Z).

(** A rule as the kernel reports it: the handle names it in a deletion. *)
Record rule := { r_Handle : Z; r_Exprs : list expr; r_UserData : string }.

(** What the package asks the kernel for, the readings of the counters
    included. *)
Inductive request :=
  | GetRules (c : chain)
  | AddRule (c : chain) (exprs : list expr) (userData : string)
  | DelRule (c : chain) (r : rule)
  | Flush.

Inductive status_error := ErrFlush (ip : string).

Section status.
Context `{Q : GoQuotient}.

Record clientRate := { cr_RxRate : float; cr_TxRate : float }.

Record ClientInfo := {
  ci_IP : string; ci_MAC : string; ci_Via : string; ci_Connected : bool;
  ci_TxBytes : Z; ci_RxBytes : Z; ci_TxPkts : Z; ci_RxPkts : Z;
  ci_TxRate : float; ci_RxRate : float;
  ci_LinkTxRate : Z; ci_LinkRxRate : Z; ci_Signal : Z;
  ci_TotalTxBytes : Z; ci_TotalRxBytes : Z; ci_TotalTxPkts : Z; ci_TotalRxPkts : Z;
  ci_FirstSeen : Z; ci_LastSeen : Z
}.

Record Status := {
  st_Summary : list SummaryInfo; st_Ports : list PortEntry; st_Clients : list ClientInfo
}.

Record Monitor := {
  m_clients : gmap string clientEntry;
  m_gatewayIPs : gset string;
  m_wanIface : string;
  m_lanIface : string;
  m_lanPorts : list string;
  m_wifiIface : string;
  m_prevSnapshot : gmap string counterSnapshot;
  m_rates : gmap string clientRate;
  m_stopped : bool;
  m_wifiStations : gmap string wifiStationInfo;
  m_wifiSource : option WiFiStationSource
}.

(** [New], with the addresses of the interfaces found by the netlink library. *)
Definition New (addrs : string → list IP) (wanIface lanIface : string) (lanPorts : list string)
    (wifiIface : string) : Monitor := {|
  m_clients := ∅;
  m_gatewayIPs := list_to_set (map IP_String (concat (map addrs [lanIface; wifiIface; wanIface])));
  m_wanIface := wanIface; m_lanIface := lanIface; m_lanPorts := lanPorts;
  m_wifiIface := wifiIface; m_prevSnapshot := ∅; m_rates := ∅; m_stopped := false;
  m_wifiStations := ∅; m_wifiSource := None |}.

Definition set_clients (m : Monitor) (cs : gmap string clientEntry) : Monitor := {|
  m_clients := cs; m_gatewayIPs := m_gatewayIPs m; m_wanIface := m_wanIface m;
  m_lanIface := m_lanIface m; m_lanPorts := m_lanPorts m; m_wifiIface := m_wifiIface m;
  m_prevSnapshot := m_prevSnapshot m; m_rates := m_rates m; m_stopped := m_stopped m;
  m_wifiStations := m_wifiStations m; m_wifiSource := m_wifiSource m |}.

Definition set_samples (m : Monitor) (snap : gmap string counterSnapshot)
    (rates : gmap string clientRate) : Monitor := {|
  m_clients := m_clients m; m_gatewayIPs := m_gatewayIPs m; m_wanIface := m_wanIface m;
  m_lanIface := m_lanIface m; m_lanPorts := m_lanPorts m; m_wifiIface := m_wifiIface m;
  m_prevSnapshot := snap; m_rates := rates; m_stopped := m_stopped m;
  m_wifiStations := m_wifiStations m; m_wifiSource := m_wifiSource m |}.

Definition set_stations (m : Monitor) (info : gmap string wifiStationInfo) : Monitor := {|
  m_clients := m_clients m; m_gatewayIPs := m_gatewayIPs m; m_wanIface := m_wanIface m;
  m_lanIface := m_lanIface m; m_lanPorts := m_lanPorts m; m_wifiIface := m_wifiIface m;
  m_prevSnapshot := m_prevSnapshot m; m_rates := m_rates m; m_stopped := m_stopped m;
  m_wifiStations := info; m_wifiSource := m_wifiSource m |}.

Definition Stop (m : Monitor) : Monitor := {|
  m_clients := m_clients m; m_gatewayIPs := m_gatewayIPs m; m_wanIface := m_wanIface m;
  m_lanIface := m_lanIface m; m_lanPorts := m_lanPorts m; m_wifiIface := m_wifiIface m;
  m_prevSnapshot := m_prevSnapshot m; m_rates := m_rates m; m_stopped := true;
  m_wifiStations := m_wifiStations m; m_wifiSource := m_wifiSource m |}.

Definition SetWiFiSource (m : Monitor) (src : option WiFiStationSource) : Monitor := {|
  m_clients := m_clients m; m_gatewayIPs := m_gatewayIPs m; m_wanIface := m_wanIface m;
  m_lanIface := m_lanIface m; m_lanPorts := m_lanPorts m; m_wifiIface := m_wifiIface m;
  m_prevSnapshot := m_prevSnapshot m; m_rates := m_rates m; m_stopped := m_stopped m;
  m_wifiStations := m_wifiStations m; m_wifiSource := src |}.

(** ** Tags of rules *)

(** [extractIP] *)
Definition extractIP (userData suffix : string) : string :=
  let n := String.length userData in
  let k := String.length suffix in
  if (n <=? k)%nat then ""
  else if negb (String.eqb (str_drop (n - k) userData) suffix) then ""
  else str_take (n - k) userData.

Definition suffix (c : chain) : string := match c with chainRx => "/rx" | chainTx => "/tx" end.

(** The rule that counts the packets from or to a client. *)
Definition counter_rule (c : chain) (ip4 : IP) : list expr :=
  [Payload (match c with chainRx => 12 | chainTx => 16 end) 4; Cmp ip4; Counter 0 0].

(** ** The kernel

    [get_rules] is what the kernel reports for a chain after the requests so
    far, [None] an error; since each reading is a request of its own, the counters
    may stand anywhere at the next one.  [flush_ok] tells whether a flush
    succeeds. *)
Context (get_rules : list request → chain → option (list rule)) (flush_ok : list request → bool).

Abbreviation status_io := (io (list request * Monitor) status_error).

Definition send (r : request) : status_io unit := λ w, ((w.1 ++ [r], w.2), Ok ()).

Definition flush (ip : string) : status_io unit :=
  λ w, ((w.1 ++ [Flush], w.2), if flush_ok w.1 then Ok () else Err (ErrFlush ip)).

Definition read_rules (c : chain) : status_io (option (list rule)) :=
  λ w, ((w.1 ++ [GetRules c], w.2), Ok (get_rules w.1 c)).

Definition get : status_io Monitor := λ w, (w, Ok w.2).
Definition put (m : Monitor) : status_io unit := λ w, ((w.1, m), Ok ()).

(** ** Clients *)

Definition set_reconnected (e : clientEntry) (mac via : string) (now : Z) : clientEntry := {|
  ce_MAC := mac; ce_IP := ce_IP e; ce_Via := via; ce_Connected := true;
  ce_FirstSeen := ce_FirstSeen e; ce_LastSeen := now;
  ce_HistTxBytes := ce_HistTxBytes e; ce_HistRxBytes := ce_HistRxBytes e;
  ce_HistTxPkts := ce_HistTxPkts e; ce_HistRxPkts := ce_HistRxPkts e |}.

Definition new_client (ip4 : IP) (mac via : string) (now : Z) : clientEntry := {|
  ce_MAC := mac; ce_IP := ip4; ce_Via := via; ce_Connected := true;
  ce_FirstSeen := now; ce_LastSeen := now;
  ce_HistTxBytes := 0; ce_HistRxBytes := 0; ce_HistTxPkts := 0; ce_HistRxPkts := 0 |}.

Definition AddClient (ip : IP) (mac via : string) (now : Z) : status_io unit :=
  m ← get;
  let ip4 := To4 ip in
  let ipStr := IP_String ip4 in
  let via := if bool_decide (ipStr ∈ m_gatewayIPs m) then "G" else via in
  let add e :=
    _ ← put (set_clients m (<[ipStr := e]> (m_clients m)));
    _ ← send (AddRule chainRx (counter_rule chainRx ip4) (ipStr +:+ "/rx"));
    _ ← send (AddRule chainTx (counter_rule chainTx ip4) (ipStr +:+ "/tx"));
    flush ipStr in
  match m_clients m !! ipStr with
  | Some e => if ce_Connected e then mret () else add (set_reconnected e mac via now)
  | None => add (new_client ip4 mac via now)
  end.

(** The counters of a rule, added to a pair of bytes and packets. *)
Definition add_counters (acc : Z * Z) (es : list expr) : Z * Z :=
  fold_left (λ acc e, match e with
                      | Counter b p => (u64 (acc.1 + b), u64 (acc.2 + p))
                      | _ => acc
                      end) es acc.

Fixpoint read_and_delete (c : chain) (tag : string) (acc : Z * Z) (rs : list rule)
    : status_io (Z * Z) :=
  match rs with
  | [] => mret acc
  | r :: rs =>
      if negb (String.eqb (r_UserData r) tag) then read_and_delete c tag acc rs
      else _ ← send (DelRule c r); read_and_delete c tag (add_counters acc (r_Exprs r)) rs
  end.

(** [readAndDeleteRules]; an error of a deletion is only logged. *)
Definition readAndDeleteRules (c : chain) (tag : string) : status_io (Z * Z) :=
  rules ← read_rules c;
  match rules with
  | None => mret (0, 0)
  | Some rs => read_and_delete c tag (0, 0) rs
  end.

Definition set_disconnected (e : clientEntry) (rx tx : Z * Z) (now : Z) : clientEntry := {|
  ce_MAC := ce_MAC e; ce_IP := ce_IP e; ce_Via := ce_Via e; ce_Connected := false;
  ce_FirstSeen := ce_FirstSeen e; ce_LastSeen := now;
  ce_HistTxBytes := u64 (ce_HistTxBytes e + tx.1); ce_HistRxBytes := u64 (ce_HistRxBytes e + rx.1);
  ce_HistTxPkts := u64 (ce_HistTxPkts e + tx.2); ce_HistRxPkts := u64 (ce_HistRxPkts e + rx.2) |}.

Definition RemoveClient (ip : IP) (now : Z) : status_io unit :=
  m ← get;
  let ipStr := IP_String (To4 ip) in
  match m_clients m !! ipStr with
  | None => mret ()
  | Some e =>
      if negb (ce_Connected e) then mret ()
      else
        rx ← readAndDeleteRules chainRx (ipStr +:+ "/rx");
        tx ← readAndDeleteRules chainTx (ipStr +:+ "/tx");
        m ← get;
        _ ← put (set_clients m (<[ipStr := set_disconnected e rx tx now]> (m_clients m)));
        flush ipStr
  end.

(** The search of [RemoveClientByMAC]: the first connected client with the
    address; a nil address of the client counts as none. *)
Definition find_by_mac `{MapOrder} (m : Monitor) (mac : string) : option IP :=
  match head (filter (λ e, ce_MAC e.2 = mac ∧ ce_Connected e.2 = true) (map_range (m_clients m))) with
  | Some e => match ce_IP e.2 with [] => None | ip => Some ip end
  | None => None
  end.

(** A call that other calls precede. *)
Definition interleaved {A} (mid : list request * Monitor → list request * Monitor)
    (call : status_io A) : status_io A := λ w, call (mid w).

(** [RemoveClientByMAC]; the lock is released before [RemoveClient] takes it
    again, and [mid] is what other calls do in between. *)
Definition RemoveClientByMAC `{MapOrder} (mac : string) (now : Z)
    (mid : list request * Monitor → list request * Monitor) : status_io unit :=
  m ← get;
  match find_by_mac m mac with
  | None => mret ()
  | Some ip => interleaved mid (RemoveClient ip now)
  end.

(** ** Samples *)

(** The loops over the rules of a chain: the last counter for each address. *)
Definition fold_counters {V} (c : chain) (f : V → Z → Z → V) (zero : V)
    (rs : list rule) (acc : gmap string V) : gmap string V :=
  fold_left (λ acc r,
    let ip := extractIP (r_UserData r) (suffix c) in
    if String.eqb ip "" then acc
    else fold_left (λ acc e, match e with
                             | Counter b p => <[ip := f (default zero (acc !! ip)) b p]> acc
                             | _ => acc
                             end) (r_Exprs r) acc) rs acc.

Definition snapshot (rx tx : list rule) (now : Z) : gmap string counterSnapshot :=
  let acc := fold_counters chainRx (λ s b _, {| sn_RxBytes := b; sn_TxBytes := sn_TxBytes s;
                                                sn_Time := now |}) zero_snapshot rx ∅ in
  fold_counters chainTx (λ s b _, {| sn_RxBytes := sn_RxBytes s; sn_TxBytes := b;
                                     sn_Time := now |}) zero_snapshot tx acc.

(** The difference of two counters, 0 after a reset. *)
Definition delta (cur prev : Z) : Z := if prev <=? cur then cur - prev else 0.

Definition rate (prev cur : counterSnapshot) : option clientRate :=
  let dt := sn_Time cur - sn_Time prev in
  if dt <=? 0 then None
  else Some {| cr_RxRate := quotient (delta (sn_RxBytes cur) (sn_RxBytes prev)) dt;
               cr_TxRate := quotient (delta (sn_TxBytes cur) (sn_TxBytes prev)) dt |}.

Definition new_rates `{MapOrder} (prev cur : gmap string counterSnapshot) : gmap string clientRate :=
  fold_insert (λ e, match prev !! e.1 with
                    | None => None
                    | Some p => (λ r, (e.1, r)) <$> rate p e.2
                    end) (map_range cur) ∅.

Definition sample `{MapOrder} (now : Z) : status_io unit :=
  m ← get;
  rx ← read_rules chainRx;
  tx ← read_rules chainTx;
  let current := snapshot (default [] rx) (default [] tx) now in
  put (set_samples m current (new_rates (m_prevSnapshot m) current)).

(** The table of the stations that answered. *)
Definition station_table (stations : list WiFiStation) : gmap string wifiStationInfo :=
  fold_left (λ info s, <[ws_MAC s :=
    {| wi_LinkTxRate := ws_TxBitrate s; wi_LinkRxRate := ws_RxBitrate s;
       wi_Signal := ws_Signal s |}]> info) stations ∅.

(** [pollWiFiStations] with the answer of the source, [None] when there is no
    source; [Sampler] lets other calls run before the answer is stored. *)
Definition pollWiFiStations (answer : option (result () (option (list WiFiStation)))) (m : Monitor)
    : Monitor :=
  match answer with
  | Some (Ok (Some stations)) => set_stations m (station_table stations)
  | _ => m
  end.

(** ** The status *)

(** A link as the netlink library reports it. *)
Record link := {
  lk_HardwareAddr : list Z; lk_up : bool; lk_operUp : bool;
  lk_Statistics : option (Z * Z * Z * Z)   (* bytes sent and received, packets sent and received *)
}.

Section ports.
Context `{A : GoInt} (link_by_name : string → option link) (read_file : string → option string).

Definition readSysfsInt (path : string) : Z :=
  match read_file path with
  | None => 0
  | Some data => match atoi (trim_space data) with
                 | (_, Some _) => 0
                 | (v, None) => if v <? 0 then 0 else v
                 end
  end.

Definition readSysfsString (path : string) : string :=
  match read_file path with
  | None => ""
  | Some data => let s := trim_space data in if String.eqb s "unknown" then "" else s
  end.

Definition getPortInfo (name : string) : PortInfo :=
  match link_by_name name with
  | None => {| pi_Name := name; pi_MAC := ""; pi_Up := false; pi_Carrier := false; pi_Speed := 0;
               pi_Duplex := ""; pi_TxBytes := 0; pi_RxBytes := 0; pi_TxPkts := 0; pi_RxPkts := 0 |}
  | Some l =>
      let '(txb, rxb, txp, rxp) := default (0, 0, 0, 0) (lk_Statistics l) in
      {| pi_Name := name;
         pi_MAC := match lk_HardwareAddr l with [] => "" | hw => HardwareAddr_String hw end;
         pi_Up := lk_up l; pi_Carrier := lk_operUp l;
         pi_Speed := readSysfsInt ("/sys/class/net/" +:+ name +:+ "/speed");
         pi_Duplex := readSysfsString ("/sys/class/net/" +:+ name +:+ "/duplex");
         pi_TxBytes := txb; pi_RxBytes := rxb; pi_TxPkts := txp; pi_RxPkts := rxp |}
  end.

Definition renamed (p : PortInfo) (name : string) : PortInfo := {|
  pi_Name := name; pi_MAC := pi_MAC p; pi_Up := pi_Up p; pi_Carrier := pi_Carrier p;
  pi_Speed := pi_Speed p; pi_Duplex := pi_Duplex p; pi_TxBytes := pi_TxBytes p;
  pi_RxBytes := pi_RxBytes p; pi_TxPkts := pi_TxPkts p; pi_RxPkts := pi_RxPkts p |}.

Definition summary (name : string) (p : PortInfo) : SummaryInfo := {|
  su_Name := name; su_TxBytes := pi_TxBytes p; su_RxBytes := pi_RxBytes p;
  su_TxPkts := pi_TxPkts p; su_RxPkts := pi_RxPkts p |}.

(** The live counters of a chain: bytes and packets by address. *)
Definition live (c : chain) (rs : list rule) : gmap string (Z * Z) :=
  fold_counters c (λ _ b p, (b, p)) (0, 0) rs ∅.

(** The entry of one client; the times are not formatted. *)
Definition client_info (m : Monitor) (rx tx : gmap string (Z * Z)) (ip : string) (e : clientEntry)
    : ClientInfo :=
  let '(rxb, rxp) := default (0, 0) (rx !! ip) in
  let '(txb, txp) := default (0, 0) (tx !! ip) in
  let r := m_rates m !! ip in
  let w := if String.eqb (ce_Via e) "W" then m_wifiStations m !! ce_MAC e else None in
  {| ci_IP := ip; ci_MAC := ce_MAC e; ci_Via := ce_Via e; ci_Connected := ce_Connected e;
     ci_TxBytes := txb; ci_RxBytes := rxb; ci_TxPkts := txp; ci_RxPkts := rxp;
     ci_TxRate := default zero_float (cr_TxRate <$> r);
     ci_RxRate := default zero_float (cr_RxRate <$> r);
     ci_LinkTxRate := default 0 (wi_LinkTxRate <$> w); ci_LinkRxRate := default 0 (wi_LinkRxRate <$> w);
     ci_Signal := default 0 (wi_Signal <$> w);
     ci_TotalTxBytes := u64 (ce_HistTxBytes e + txb); ci_TotalRxBytes := u64 (ce_HistRxBytes e + rxb);
     ci_TotalTxPkts := u64 (ce_HistTxPkts e + txp); ci_TotalRxPkts := u64 (ce_HistRxPkts e + rxp);
     ci_FirstSeen := ce_FirstSeen e; ci_LastSeen := ce_LastSeen e |}.

Definition GetStatus `{MapOrder} (m : Monitor) (rx tx : option (list rule)) : Status :=
  let wan := getPortInfo (m_wanIface m) in
  let lan := renamed (getPortInfo (m_lanIface m)) "lan" in
  let wifi := renamed (getPortInfo (m_wifiIface m)) "wifi" in
  let rx := live chainRx (default [] rx) in
  let tx := live chainTx (default [] tx) in
  {| st_Ports := [{| pe_port := wan; pe_Sub := [] |};
                  {| pe_port := lan; pe_Sub := map getPortInfo (m_lanPorts m) |};
                  {| pe_port := wifi; pe_Sub := [] |}];
     st_Summary := [summary "wan" wan; summary "lan" lan; summary "wifi" wifi];
     st_Clients := map (λ e, client_info m rx tx e.1 e.2) (map_range (m_clients m)) |}.

(** What [ServeHTTP] answers; [GetStatus] never fails, so the status 500 does
    not occur.  [encode] is the JSON encoder, [None] for an error, after which
    the body is empty. *)
Record response := { rs_code : Z; rs_ContentType : string; rs_body : string }.

Definition ServeHTTP `{MapOrder} (encode : Status → option string) (m : Monitor)
    (rx tx : option (list rule)) : response := {|
  rs_code := 200; rs_ContentType := "application/json";
  rs_body := default "" (encode (GetStatus m rx tx)) |}.
End ports.
End status.

(** ** Lemmas: tags *)

Lemma extractIP_app ip c : ip ≠ "" → extractIP (ip +:+ suffix c) (suffix c) = ip.
Proof.
  intros Hip. unfold extractIP. rewrite length_str_app.
  destruct (Nat.leb_spec (String.length ip + String.length (suffix c)) (String.length (suffix c))) as [H|H].
  { destruct ip; [done|cbn in H; lia]. }
  replace (_ + _ - _)%nat with (String.length ip) by lia.
  by rewrite str_drop_app, String.eqb_refl, str_take_app.
Qed.

Lemma extractIP_inv userData c ip :
  extractIP userData (suffix c) = ip → ip ≠ "" → userData = ip +:+ suffix c.
Proof.
  unfold extractIP. set (n := (_ - _)%nat). case_if; [by intros <-|].
  destruct (String.eqb_spec (str_drop n userData) (suffix c)) as [E|]; cbn [negb]; [|by intros <-].
  intros <- _. rewrite <-(str_take_drop n userData) at 1. by rewrite E.
Qed.

(** What the loops over the rules leave for an address. *)
Lemma fold_counters_lookup {V} c (f : V → Z → Z → V) zero rs acc ip :
  ip ≠ "" →
  fold_counters c f zero rs acc !! ip =
    fold_left (λ v r, fold_left (λ v e, match e with
                                        | Counter b p => Some (f (default zero v) b p)
                                        | _ => v
                                        end) (r_Exprs r) v)
      (filter (λ r, r_UserData r = ip +:+ suffix c) rs) (acc !! ip).
Proof.
  intros Hip. unfold fold_counters.
  induction rs as [|r rs IH] in acc |- *; [done|]. cbn [fold_left]. rewrite IH, filter_cons. clear IH.
  destruct (String.eqb_spec (extractIP (r_UserData r) (suffix c)) "") as [E|E].
  { rewrite decide_False; [done|]. intros Er. rewrite Er, extractIP_app in E by done. done. }
  set (k := extractIP (r_UserData r) (suffix c)) in *.
  assert (r_UserData r = k +:+ suffix c) as Hk by (by apply extractIP_inv).
  case_decide as Hd.
  - assert (k = ip) as -> by (rewrite Hk in Hd; by apply str_app_inj_r in Hd).
    cbn [fold_left]. f_equal. generalize (r_Exprs r) acc.
    induction l as [|e l IHl]; intros a; [done|]. cbn [fold_left]. rewrite IHl. f_equal.
    destruct e; [done|done|]. by rewrite lookup_insert_eq.
  - assert (k ≠ ip) as Hne by (by intros ->). f_equal. generalize (r_Exprs r) acc.
    induction l as [|e l IHl]; intros a; [done|]. cbn [fold_left]. rewrite IHl.
    destruct e; [done|done|]. by rewrite lookup_insert_ne.
Qed.

(** ** The rules the kernel holds *)

(** A rule as an identity: its handle and its tag. *)
Record kernel := {
  k_rx : list (Z * string); k_tx : list (Z * string); k_next : Z; k_pending : list request
}.

Definition k_rules (k : kernel) (c : chain) : list (Z * string) :=
  match c with chainRx => k_rx k | chainTx => k_tx k end.

Definition set_rules (k : kernel) (c : chain) (l : list (Z * string)) (next : Z) : kernel :=
  match c with
  | chainRx => {| k_rx := l; k_tx := k_tx k; k_next := next; k_pending := k_pending k |}
  | chainTx => {| k_rx := k_rx k; k_tx := l; k_next := next; k_pending := k_pending k |}
  end.

(** The effect of a request of a transaction: a new rule goes to the end of its
    chain under a new handle, a deletion removes the rule with the handle. *)
Definition k_apply (k : kernel) (r : request) : kernel :=
  match r with
  | AddRule c _ tag => set_rules k c (k_rules k c ++ [(k_next k, tag)]) (k_next k + 1)
  | DelRule c r => set_rules k c (filter (λ x, x.1 ≠ r_Handle r) (k_rules k c)) (k_next k)
  | GetRules _ | Flush => k
  end.

(** Requests wait for the next flush; readings do not. *)
Definition k_step (k : kernel) (r : request) : kernel :=
  match r with
  | GetRules _ => k
  | Flush => let k' := fold_left k_apply (k_pending k) k in
             {| k_rx := k_rx k'; k_tx := k_tx k'; k_next := k_next k'; k_pending := [] |}
  | _ => {| k_rx := k_rx k; k_tx := k_tx k; k_next := k_next k; k_pending := k_pending k ++ [r] |}
  end.

Definition k_init : kernel := {| k_rx := []; k_tx := []; k_next := 0; k_pending := [] |}.

Definition kernel_after (t : list request) : kernel := fold_left k_step t k_init.

(** What the package relies on when nothing fails: flushes succeed, and the
    kernel reports the rules of a chain in order, each with one counter. *)
Record healthy (get_rules : list request → chain → option (list rule))
    (flush_ok : list request → bool) : Prop := {
  hl_flush : ∀ t, flush_ok t = true;
  hl_rules : ∀ t c, ∃ rs, get_rules t c = Some rs ∧
    map (λ r, (r_Handle r, r_UserData r)) rs = k_rules (kernel_after t) c ∧
    ∀ r, r ∈ rs → ∃ off ip b p, r_Exprs r = [Payload off 4; Cmp ip; Counter b p]
}.

Lemma kernel_after_snoc t r : kernel_after (t ++ [r]) = k_step (kernel_after t) r.
Proof. unfold kernel_after. by rewrite fold_left_app. Qed.

(** ** The invariant of the table *)

Section invariant.
Context `{Q : GoQuotient}.
Context (get_rules : list request → chain → option (list rule)) (flush_ok : list request → bool).

(** The tag of a connected client. *)
Definition connected_tag (m : Monitor) (c : chain) (x : string) : Prop :=
  ∃ ip e, m_clients m !! ip = Some e ∧ ce_Connected e = true ∧ x = ip +:+ suffix c.

Record consistent (t : list request) (m : Monitor) : Prop := {
  cs_pending : k_pending (kernel_after t) = [];
  cs_handles : ∀ c, NoDup (map fst (k_rules (kernel_after t) c));
  cs_fresh : ∀ c x, x ∈ k_rules (kernel_after t) c → x.1 < k_next (kernel_after t);
  cs_tags : ∀ c, NoDup (map snd (k_rules (kernel_after t) c));
  cs_match : ∀ c x, x ∈ map snd (k_rules (kernel_after t) c) ↔ connected_tag m c x;
  cs_names : ∀ ip e, m_clients m !! ip = Some e → ip ≠ ""
}.

Lemma New_consistent addrs wan lan ports wifi : consistent [] (New addrs wan lan ports wifi).
Proof.
  assert (∀ c, k_rules (kernel_after []) c = []) as E by (by intros []).
  split; [done|..].
  - intros c. rewrite E. constructor.
  - intros c x. rewrite E. by intros ?%elem_of_nil.
  - intros c. rewrite E. constructor.
  - intros c x. rewrite E. split; [by intros ?%elem_of_nil|]. by intros (ip & e & H & _).
  - intros ip e H. done.
Qed.

Lemma IP_String_ne ip : IP_String (To4 ip) ≠ "".
Proof.
  unfold IP_String. pose proof (To4_length ip) as Hl. destruct (To4 ip) as [|a l] eqn:E; [done|].
  specialize (Hl ltac:(done)). rewrite Hl. cbn [Nat.eqb orb]. rewrite To4_v4 by done.
  unfold dotted. destruct l as [|b l]; [done|]. cbn [map]. rewrite join_cons.
  pose proof (itoa_ne a). by destruct (itoa a).
Qed.

Lemma tag_inj ip ip' c : ip +:+ suffix c = ip' +:+ suffix c → ip = ip'.
Proof. apply str_app_inj_r. Qed.

(** The kernel after the requests of [AddClient]. *)
Lemma kernel_add t tr tt er et :
  k_pending (kernel_after t) = [] →
  let k := kernel_after (t ++ [AddRule chainRx er tr; AddRule chainTx et tt; Flush]) in
  k = {| k_rx := k_rx (kernel_after t) ++ [(k_next (kernel_after t), tr)];
         k_tx := k_tx (kernel_after t) ++ [(k_next (kernel_after t) + 1, tt)];
         k_next := k_next (kernel_after t) + 1 + 1; k_pending := [] |}.
Proof.
  intros Hp. cbn zeta. unfold kernel_after. rewrite fold_left_app. fold (kernel_after t).
  cbn [fold_left]. unfold k_step at 1 2 3. cbn [k_pending k_rx k_tx k_next]. rewrite Hp. reflexivity.
Qed.

(** A client that gets its two rules. *)
Lemma consistent_add t m ip4 s e :
  consistent t m → s ≠ "" → ce_Connected e = true →
  (∀ e', m_clients m !! s = Some e' → ce_Connected e' = false) →
  consistent (((t ++ [AddRule chainRx (counter_rule chainRx ip4) (s +:+ "/rx")]) ++
               [AddRule chainTx (counter_rule chainTx ip4) (s +:+ "/tx")]) ++ [Flush])
    (set_clients m (<[s := e]> (m_clients m))).
Proof.
  intros Hc Hs He Hno. rewrite <-!app_assoc. cbn [app].
  pose proof (kernel_add t (s +:+ "/rx") (s +:+ "/tx") (counter_rule chainRx ip4)
                (counter_rule chainTx ip4) (cs_pending _ _ Hc)) as Hk. cbn zeta in Hk.
  assert (∀ c, s +:+ suffix c ∉ map snd (k_rules (kernel_after t) c)) as Hnew.
  { intros c (ip' & e' & H1 & H2 & <-%tag_inj)%(cs_match _ _ Hc). by rewrite (Hno _ H1) in H2. }
  assert (∀ c, ∃ n, k_next (kernel_after t) ≤ n < k_next (kernel_after t) + 2 ∧
    k_rules (kernel_after (t ++ [AddRule chainRx (counter_rule chainRx ip4) (s +:+ "/rx");
      AddRule chainTx (counter_rule chainTx ip4) (s +:+ "/tx"); Flush])) c =
    k_rules (kernel_after t) c ++ [(n, s +:+ suffix c)]) as Hr.
  { intros c. rewrite Hk. destruct c; eexists; (split; [|reflexivity]); lia. }
  split.
  - by rewrite Hk.
  - intros c. destruct (Hr c) as (n & Hn & ->). rewrite map_app. apply NoDup_app.
    split_and!; [apply (cs_handles _ _ Hc)| |apply NoDup_singleton].
    intros x (y & -> & Hy)%list_elem_of_fmap. cbn. apply (cs_fresh _ _ Hc) in Hy.
    rewrite list_elem_of_singleton. lia.
  - intros c x. destruct (Hr c) as (n & Hn & ->). rewrite Hk. cbn [k_next].
    intros [Hx|Hx]%elem_of_app; [apply (cs_fresh _ _ Hc) in Hx; lia|].
    apply list_elem_of_singleton in Hx as ->. cbn. lia.
  - intros c. destruct (Hr c) as (n & Hn & ->). rewrite map_app. apply NoDup_app.
    split_and!; [apply (cs_tags _ _ Hc)| |apply NoDup_singleton].
    intros x Hx. cbn. rewrite list_elem_of_singleton. intros ->. by apply (Hnew c).
  - intros c x. destruct (Hr c) as (n & Hn & ->). rewrite map_app, elem_of_app, (cs_match _ _ Hc).
    cbn. rewrite list_elem_of_singleton. unfold connected_tag. cbn [m_clients set_clients]. split.
    + intros [(ip' & e' & H1 & H2 & ->)| ->]; [|exists s, e; by rewrite lookup_insert_eq].
      exists ip', e'. split_and!; [|done|done]. rewrite lookup_insert_ne; [done|].
      intros <-. by rewrite (Hno _ H1) in H2.
    + intros (ip' & e' & H1 & H2 & ->). apply lookup_insert_Some in H1 as [[-> ->]|[Hne H1]]; [by right|].
      left. by exists ip', e'.
  - intros ip' e' H. cbn [m_clients set_clients] in H. apply lookup_insert_Some in H as [[<- _]|[_ H]]; [done|by eapply (cs_names _ _ Hc)].
Qed.

Lemma AddClient_consistent t m ip mac via now :
  consistent t m → healthy get_rules flush_ok →
  let '((t', m'), r) := AddClient flush_ok ip mac via now (t, m) in consistent t' m' ∧ r = Ok ().
Proof.
  intros Hc Hh. unfold AddClient, get, put, send, flush. io_unfold.
  set (ip4 := To4 ip). set (s := IP_String ip4). set (via' := if bool_decide _ then "G" else via).
  assert (s ≠ "") as Hs by apply IP_String_ne.
  destruct (m_clients m !! s) as [e|] eqn:E.
  - destruct (ce_Connected e) eqn:Ec; io_unfold; [done|].
    rewrite (hl_flush _ _ Hh). split; [|done]. apply consistent_add; try done. congruence.
  - io_unfold. rewrite (hl_flush _ _ Hh). split; [|done]. apply consistent_add; try done. congruence.
Qed.

(** Readings change nothing. *)
Lemma kernel_read t c : kernel_after (t ++ [GetRules c]) = kernel_after t.
Proof. by rewrite kernel_after_snoc. Qed.

Lemma consistent_read t m c : consistent t m → consistent (t ++ [GetRules c]) m.
Proof. intros []. by split; rewrite ?kernel_read. Qed.

(** Deletions wait for the flush, so they do not change what is reported. *)
Lemma k_rules_del t c r c' : k_rules (kernel_after (t ++ [DelRule c r])) c' = k_rules (kernel_after t) c'.
Proof. rewrite kernel_after_snoc. by destruct c'. Qed.

Lemma kernel_remove t r1 r2 :
  k_pending (kernel_after t) = [] →
  let k := kernel_after (t ++ [GetRules chainRx; DelRule chainRx r1; GetRules chainTx; DelRule chainTx r2; Flush]) in
  k = {| k_rx := filter (λ x, x.1 ≠ r_Handle r1) (k_rx (kernel_after t));
         k_tx := filter (λ x, x.1 ≠ r_Handle r2) (k_tx (kernel_after t));
         k_next := k_next (kernel_after t); k_pending := [] |}.
Proof.
  intros Hp. cbn zeta. unfold kernel_after. rewrite fold_left_app. fold (kernel_after t).
  cbn [fold_left]. unfold k_step at 1 2 3 4 5. cbn [k_pending k_rx k_tx k_next]. rewrite Hp. reflexivity.
Qed.

(** Without the rule of a tag the other tags remain. *)
Lemma filter_out_tag (l : list (Z * string)) h tag x :
  NoDup (map fst l) → NoDup (map snd l) → (h, tag) ∈ l →
  x ∈ map snd (filter (λ y, y.1 ≠ h) l) ↔ x ∈ map snd l ∧ x ≠ tag.
Proof.
  intros H1 H2 Hin. split.
  - intros (y & -> & [Hy Hl]%list_elem_of_filter)%list_elem_of_fmap.
    split; [by apply list_elem_of_fmap_2|]. intros E. apply Hy.
    by rewrite (NoDup_map_eq snd l y (h, tag) H2 Hl Hin E).
  - intros [(y & -> & Hl)%list_elem_of_fmap Hne]. apply list_elem_of_fmap_2, list_elem_of_filter.
    split; [|done]. intros E. apply Hne. by rewrite (NoDup_map_eq fst l y (h, tag) H1 Hl Hin E).
Qed.

Lemma NoDup_map_filter {A B} (f : A → B) P `{∀ x, Decision (P x)} l :
  NoDup (map f l) → NoDup (map f (filter P l)).
Proof.
  intros Hd. induction l as [|x l IH]; [done|]. cbn [map] in Hd. apply NoDup_cons in Hd as [Hx Hl].
  rewrite filter_cons. case_decide; [|by apply IH]. cbn [map]. apply NoDup_cons. split; [|by apply IH].
  intros (y & E & [_ Hy]%list_elem_of_filter)%list_elem_of_fmap. apply Hx. rewrite E.
  by apply list_elem_of_fmap_2.
Qed.

Lemma read_and_delete_spec c tag acc rs t (m : Monitor) :
  let ms := filter (λ r, r_UserData r = tag) rs in
  read_and_delete c tag acc rs (t, m) =
    ((t ++ map (DelRule c) ms, m), Ok (fold_left (λ a r, add_counters a (r_Exprs r)) ms acc)).
Proof.
  cbn zeta. induction rs as [|r rs IH] in acc, t |- *; [by rewrite app_nil_r|].
  cbn [read_and_delete]. rewrite filter_cons. destruct (String.eqb_spec (r_UserData r) tag) as [E|E]; cbn [negb].
  - rewrite decide_True by done. unfold send. io_unfold. rewrite IH. cbn [map fold_left].
    by rewrite <-app_assoc.
  - by rewrite decide_False, IH.
Qed.

Lemma readAndDeleteRules_Ok c tag w : ∃ t v,
  readAndDeleteRules get_rules c tag w = ((t, w.2), Ok v).
Proof.
  unfold readAndDeleteRules, read_rules. destruct w as [t m]. io_unfold. cbn [fst snd].
  destruct (get_rules t c) as [rs|]; [|by do 2 eexists].
  rewrite read_and_delete_spec. by do 2 eexists.
Qed.

(** The reported rules of a tag. *)
Lemma reported_tags t c rs :
  healthy get_rules flush_ok → get_rules t c = Some rs →
  map r_UserData rs = map snd (k_rules (kernel_after t) c).
Proof.
  intros Hh E. destruct (hl_rules _ _ Hh t c) as (rs' & E' & Hm & _).
  rewrite E in E'. injection E' as <-. by rewrite <-Hm, map_map.
Qed.

Lemma reported_none t c rs tag :
  healthy get_rules flush_ok → get_rules t c = Some rs →
  tag ∉ map snd (k_rules (kernel_after t) c) → filter (λ r, r_UserData r = tag) rs = [].
Proof.
  intros Hh E Hn. rewrite <-(reported_tags t c rs) in Hn by done.
  destruct (filter _ rs) as [|r l] eqn:Ef; [done|]. destruct Hn.
  assert (r ∈ filter (λ r, r_UserData r = tag) rs) as [<- Hr]%list_elem_of_filter by (rewrite Ef; set_solver).
  by apply list_elem_of_fmap_2.
Qed.

Lemma reported_one t c rs tag :
  healthy get_rules flush_ok → get_rules t c = Some rs →
  NoDup (map snd (k_rules (kernel_after t) c)) → tag ∈ map snd (k_rules (kernel_after t) c) →
  ∃ r off ip b p, filter (λ r, r_UserData r = tag) rs = [r] ∧
    (r_Handle r, tag) ∈ k_rules (kernel_after t) c ∧
    r_Exprs r = [Payload off 4; Cmp ip; Counter b p].
Proof.
  intros Hh E Hd Hin. rewrite <-(reported_tags t c rs) in Hd, Hin by done.
  apply list_elem_of_fmap in Hin as (r & -> & Hr).
  destruct (hl_rules _ _ Hh t c) as (rs' & E' & Hm & He).
  rewrite E in E'. injection E' as <-. destruct (He r Hr) as (off & ip & b & p & Hx).
  exists r, off, ip, b, p. split_and!; [by apply filter_unique| |done].
  rewrite <-Hm. by apply (list_elem_of_fmap_2 (λ r, (r_Handle r, r_UserData r))).
Qed.


Lemma reported t c : healthy get_rules flush_ok → ∃ rs, get_rules t c = Some rs.
Proof. intros Hh. destruct (hl_rules _ _ Hh t c) as (rs & E & _). by exists rs. Qed.

(** The disconnection of a connected client: one rule is read and deleted in
    each chain. *)
Lemma RemoveClient_connected t m ip e now :
  let s := IP_String (To4 ip) in
  consistent t m → healthy get_rules flush_ok →
  m_clients m !! s = Some e → ce_Connected e = true →
  ∃ rs1 rs2 r1 r2 o1 i1 b1 p1 o2 i2 b2 p2,
    get_rules t chainRx = Some rs1 ∧ filter (λ r, r_UserData r = s +:+ suffix chainRx) rs1 = [r1] ∧
    (r_Handle r1, s +:+ suffix chainRx) ∈ k_rules (kernel_after t) chainRx ∧
    r_Exprs r1 = [Payload o1 4; Cmp i1; Counter b1 p1] ∧
    get_rules (t ++ [GetRules chainRx; DelRule chainRx r1]) chainTx = Some rs2 ∧
    filter (λ r, r_UserData r = s +:+ suffix chainTx) rs2 = [r2] ∧
    (r_Handle r2, s +:+ suffix chainTx) ∈ k_rules (kernel_after t) chainTx ∧
    r_Exprs r2 = [Payload o2 4; Cmp i2; Counter b2 p2] ∧
    RemoveClient get_rules flush_ok ip now (t, m) =
      ((t ++ [GetRules chainRx; DelRule chainRx r1; GetRules chainTx; DelRule chainTx r2; Flush],
        set_clients m (<[s := set_disconnected e (u64 b1, u64 p1) (u64 b2, u64 p2) now]> (m_clients m))),
       Ok ()).
Proof.
  intros s Hc Hh He Hcon.
  assert (∀ c, s +:+ suffix c ∈ map snd (k_rules (kernel_after t) c)) as Hin.
  { intros c. apply (cs_match _ _ Hc). by exists s, e. }
  destruct (reported t chainRx Hh) as [rs1 E1].
  destruct (reported_one t chainRx rs1 _ Hh E1 (cs_tags _ _ Hc _) (Hin _))
    as (r1 & o1 & i1 & b1 & p1 & F1 & M1 & X1).
  set (t1 := t ++ [GetRules chainRx; DelRule chainRx r1]).
  assert (∀ c, k_rules (kernel_after t1) c = k_rules (kernel_after t) c) as Et1.
  { intros c. unfold t1. change [GetRules chainRx; ?r] with ([GetRules chainRx] ++ [r]).
    by rewrite app_assoc, k_rules_del, kernel_read. }
  destruct (reported t1 chainTx Hh) as [rs2 E2].
  destruct (reported_one _ chainTx rs2 (s +:+ suffix chainTx) Hh E2)
    as (r2 & o2 & i2 & b2 & p2 & F2 & M2 & X2); rewrite ?Et1 in *;
    [apply (cs_tags _ _ Hc)|apply Hin|].
  exists rs1, rs2, r1, r2, o1, i1, b1, p1, o2, i2, b2, p2. split_and!; try done.
  unfold RemoveClient, get, put, flush. io_unfold. fold s. rewrite He, Hcon. cbn [negb].
  unfold readAndDeleteRules, read_rules. io_unfold. cbn [fst snd]. rewrite E1.
  rewrite read_and_delete_spec. cbn [suffix] in F1, F2.
  rewrite F1. cbn [map fold_left fst snd]. rewrite <-app_assoc. cbn [app]. fold t1. rewrite E2.
  rewrite read_and_delete_spec.
  rewrite F2. cbn [map fold_left fst snd]. rewrite X1, X2, (hl_flush _ _ Hh). unfold t1.
  by rewrite <-!app_assoc.
Qed.

Lemma RemoveClient_consistent t m ip now :
  consistent t m → healthy get_rules flush_ok →
  let '((t', m'), r) := RemoveClient get_rules flush_ok ip now (t, m) in consistent t' m' ∧ r = Ok ().
Proof.
  intros Hc Hh. set (s := IP_String (To4 ip)).
  destruct (m_clients m !! s) as [e|] eqn:He.
  2: { unfold RemoveClient, get. io_unfold. fold s. by rewrite He. }
  destruct (ce_Connected e) eqn:Hcon.
  2: { unfold RemoveClient, get. io_unfold. fold s. by rewrite He, Hcon. }
  destruct (RemoveClient_connected t m ip e now Hc Hh He Hcon)
    as (rs1 & rs2 & r1 & r2 & o1 & i1 & b1 & p1 & o2 & i2 & b2 & p2 & _ & _ & M1 & _ & _ & _ & M2 & _ & ->).
  fold s. fold s in M1, M2. set (e' := set_disconnected _ _ _ _). split; [|done].
  pose proof (kernel_remove t r1 r2 (cs_pending _ _ Hc)) as Hk. cbn zeta in Hk.
  set (t' := t ++ _) in *.
  assert (∀ c, ∃ h, (h, s +:+ suffix c) ∈ k_rules (kernel_after t) c ∧
    k_rules (kernel_after t') c = filter (λ x, x.1 ≠ h) (k_rules (kernel_after t) c)) as Hr.
  { intros []; [exists (r_Handle r1)|exists (r_Handle r2)]; (split; [done|by rewrite Hk]). }
  split.
  - by rewrite Hk.
  - intros c. destruct (Hr c) as (h & _ & ->). apply NoDup_map_filter, (cs_handles _ _ Hc).
  - intros c x. destruct (Hr c) as (h & _ & ->). intros [_ Hx]%list_elem_of_filter.
    rewrite Hk. by apply (cs_fresh _ _ Hc) in Hx.
  - intros c. destruct (Hr c) as (h & _ & ->). apply NoDup_map_filter, (cs_tags _ _ Hc).
  - intros c x. destruct (Hr c) as (h & Hin & ->).
    rewrite (filter_out_tag _ h (s +:+ suffix c)) by (done || apply Hc). rewrite (cs_match _ _ Hc).
    unfold connected_tag. cbn [m_clients set_clients]. split.
    + intros [(ip' & e1 & H1 & H2 & ->) Hne]. exists ip', e1. split_and!; [|done|done].
      rewrite lookup_insert_ne; [done|]. by intros <-.
    + intros (ip' & e1 & H1 & H2 & ->). apply lookup_insert_Some in H1 as [[-> <-]|[Hne H1]]; [done|].
      split; [by exists ip', e1|]. by intros <-%tag_inj.
  - intros ip' e1 H. cbn [m_clients set_clients] in H.
    apply lookup_insert_Some in H as [[<- _]|[_ H]]; by eapply (cs_names _ _ Hc).
Qed.

(** The calls in any order. *)
Inductive op :=
  | OpAdd (ip : IP) (mac via : string) (now : Z)
  | OpRemove (ip : IP) (now : Z)
  | OpRemoveMAC (mac : string) (now : Z)
  | OpSample (now : Z).

Definition apply_op `{MapOrder} (w : list request * Monitor) (o : op) : list request * Monitor :=
  fst match o with
      | OpAdd ip mac via now => AddClient flush_ok ip mac via now w
      | OpRemove ip now => RemoveClient get_rules flush_ok ip now w
      | OpRemoveMAC mac now => RemoveClientByMAC get_rules flush_ok mac now id w
      | OpSample now => sample get_rules now w
      end.

Lemma apply_op_consistent `{MapOrder} w o :
  consistent w.1 w.2 → healthy get_rules flush_ok →
  consistent (apply_op w o).1 (apply_op w o).2.
Proof.
  intros Hc Hh. destruct w as [t m]. cbn [fst snd] in Hc. unfold apply_op.
  destruct o as [ip mac via now|ip now|mac now|now].
  - pose proof (AddClient_consistent t m ip mac via now Hc Hh) as Ha.
    destruct (AddClient _ _ _ _ _ _) as [[t' m'] r]. apply Ha.
  - pose proof (RemoveClient_consistent t m ip now Hc Hh) as Ha.
    destruct (RemoveClient _ _ _ _ _) as [[t' m'] r]. apply Ha.
  - unfold RemoveClientByMAC, get, interleaved. io_unfold. cbn [snd id].
    destruct (find_by_mac m mac) as [ip|]; [|done].
    pose proof (RemoveClient_consistent t m ip now Hc Hh) as Ha.
    destruct (RemoveClient _ _ _ _ _) as [[t' m'] r]. apply Ha.
  - unfold sample, read_rules, get, put. io_unfold. cbn [fst snd].
    pose proof (consistent_read _ _ chainTx (consistent_read _ _ chainRx Hc)) as Hr. by split; apply Hr.
Qed.

Definition run_ops `{MapOrder} (m : Monitor) (ops : list op) : list request * Monitor :=
  fold_left apply_op ops ([], m).

Lemma run_consistent `{MapOrder} addrs wan lan ports wifi ops :
  healthy get_rules flush_ok →
  let w := run_ops (New addrs wan lan ports wifi) ops in consistent w.1 w.2.
Proof.
  intros Hh. cbn zeta. unfold run_ops.
  assert (consistent ([] : list request, New addrs wan lan ports wifi).1
            ([] : list request, New addrs wan lan ports wifi).2) as Hc by apply New_consistent.
  revert Hc. generalize ([] : list request, New addrs wan lan ports wifi).
  induction ops as [|o ops IH]; intros w Hc; [done|]. cbn [fold_left]. by apply IH, apply_op_consistent.
Qed.

(** ** Lemmas: live counters *)

Lemma live_one c rs ip r off a b p :
  ip ≠ "" → filter (λ r, r_UserData r = ip +:+ suffix c) rs = [r] →
  r_Exprs r = [Payload off 4; Cmp a; Counter b p] → live c rs !! ip = Some (b, p).
Proof. intros Hip Hf Hx. unfold live. rewrite fold_counters_lookup, Hf by done. cbn. by rewrite Hx. Qed.

Lemma live_none c rs ip :
  ip ≠ "" → filter (λ r, r_UserData r = ip +:+ suffix c) rs = [] → live c rs !! ip = None.
Proof. intros Hip Hf. unfold live. rewrite fold_counters_lookup, Hf by done. done. Qed.

Definition is_connected (m : Monitor) (ip : string) : Prop :=
  ∃ e, m_clients m !! ip = Some e ∧ ce_Connected e = true.

Lemma is_connected_tag m c ip : is_connected m ip ↔ connected_tag m c (ip +:+ suffix c).
Proof.
  split; [intros (e & H1 & H2); by exists ip, e|]. intros (ip' & e & H1 & H2 & <-%tag_inj). by exists e.
Qed.

(** In a consistent state the counters of a chain are those of the connected
    clients. *)
Lemma live_connected t m c rs ip :
  consistent t m → healthy get_rules flush_ok → get_rules t c = Some rs → ip ≠ "" →
  (∃ r off a b p, filter (λ r, r_UserData r = ip +:+ suffix c) rs = [r] ∧
     r_Exprs r = [Payload off 4; Cmp a; Counter b p] ∧ live c rs !! ip = Some (b, p) ∧ is_connected m ip) ∨
  (filter (λ r, r_UserData r = ip +:+ suffix c) rs = [] ∧ live c rs !! ip = None ∧ ¬ is_connected m ip).
Proof.
  intros Hc Hh E Hip. destruct (decide (ip +:+ suffix c ∈ map snd (k_rules (kernel_after t) c))) as [Hin|Hin].
  - left. destruct (reported_one t c rs _ Hh E (cs_tags _ _ Hc _) Hin) as (r & off & a & b & p & F & _ & X).
    exists r, off, a, b, p. split_and!; [done|done|by eapply live_one|].
    by apply (is_connected_tag m c), (cs_match _ _ Hc).
  - right. pose proof (reported_none t c rs _ Hh E Hin) as F.
    split_and!; [done|by apply live_none|]. by rewrite (is_connected_tag m c), <-(cs_match _ _ Hc).
Qed.

Lemma snapshot_lookup t m rx tx now ip :
  consistent t m → healthy get_rules flush_ok →
  get_rules t chainRx = Some rx → get_rules (t ++ [GetRules chainRx]) chainTx = Some tx → ip ≠ "" →
  snapshot rx tx now !! ip =
    match live chainRx rx !! ip, live chainTx tx !! ip with
    | Some (b1, _), Some (b2, _) => Some {| sn_RxBytes := b1; sn_TxBytes := b2; sn_Time := now |}
    | _, _ => None
    end.
Proof.
  intros Hc Hh E1 E2 Hip. unfold snapshot. rewrite !fold_counters_lookup by done.
  destruct (live_connected t m chainRx rx ip Hc Hh E1 Hip) as
    [(r & o & a & b & p & F & X & L & Hk)|(F & L & Hk)];
  destruct (live_connected _ m chainTx tx ip (consistent_read _ _ chainRx Hc) Hh E2 Hip) as
    [(r' & o' & a' & b' & p' & F' & X' & L' & Hk')|(F' & L' & Hk')]; try done;
  rewrite F, F', L; rewrite ?L'; [|done].
  cbn [fold_left]. by rewrite X, X'.
Qed.

Lemma new_rates_lookup `{MapOrder} prev cur ip :
  new_rates prev cur !! ip = cur !! ip ≫= λ c, prev !! ip ≫= λ p, rate p c.
Proof.
  unfold new_rates.
  rewrite (fold_insert_own_keys (λ k c, prev !! k ≫= λ p, rate p c)).
  - destruct (cur !! ip) as [c|]; [|done]. cbn. destruct (prev !! ip) as [q|]; [|done]. cbn.
    by destruct (rate q c).
  - intros k v _. cbn. by destruct (prev !! k).
Qed.
End invariant.

(** ** Properties *)

Lemma u64_add_l a b : u64 (u64 a + b) = u64 (a + b).
Proof. unfold u64. apply Zplus_mod_idemp_l. Qed.
Lemma u64_add_r a b : u64 (a + u64 b) = u64 (a + b).
Proof. unfold u64. apply Zplus_mod_idemp_r. Qed.

(** The totals after a session is added to the history and nothing is live. *)
Lemma u64_total h b : u64 (u64 (h + u64 b) + 0) = u64 (h + b).
Proof. by rewrite u64_add_l, Z.add_0_r, u64_add_r. Qed.

(** C23: As long as no flush fails and the kernel holds the rules it was given,
    after any sequence of calls, in any order and with any addresses, nothing
    waits to be flushed, each connected client owns exactly one rule of each
    chain, a client that is not connected owns none, and every rule belongs to a
    connected client: rules neither leak nor pile up. *)
Theorem rules_match_clients `{GoQuotient} `{MapOrder} get_rules flush_ok addrs wan lan ports wifi ops :
  healthy get_rules flush_ok →
  let '(t, m) := run_ops get_rules flush_ok (New addrs wan lan ports wifi) ops in
  k_pending (kernel_after t) = [] ∧
  ∀ c,
    (∀ ip, length (filter (λ x, x.2 = ip +:+ suffix c) (k_rules (kernel_after t) c)) =
           match m_clients m !! ip with
           | Some e => if ce_Connected e then 1 else 0
           | None => 0
           end%nat) ∧
    ∀ x, x ∈ k_rules (kernel_after t) c → ∃ ip e,
      m_clients m !! ip = Some e ∧ ce_Connected e = true ∧ x.2 = ip +:+ suffix c.
Proof.
  intros Hh. pose proof (run_consistent get_rules flush_ok addrs wan lan ports wifi ops Hh) as Hc.
  cbn zeta in Hc. destruct (run_ops _ _ _ _) as [t m]. cbn [fst snd] in Hc.
  split; [apply Hc|]. intros c. split.
  - intros ip. destruct (decide (ip +:+ suffix c ∈ map snd (k_rules (kernel_after t) c))) as [Hin|Hin].
    + pose proof Hin as (e & He & Hcon)%(cs_match _ _ Hc)%(is_connected_tag m c).
      rewrite He, Hcon. apply list_elem_of_fmap in Hin as (x & -> & Hx).
      by rewrite (filter_unique snd) by (done || apply Hc).
    + assert (filter (λ x, x.2 = ip +:+ suffix c) (k_rules (kernel_after t) c) = []) as ->.
      { destruct (filter _ _) as [|x l] eqn:Ef; [done|]. destruct Hin.
        assert (x ∈ filter (λ x, x.2 = ip +:+ suffix c) (k_rules (kernel_after t) c))
          as [<- Hx]%list_elem_of_filter by (rewrite Ef; set_solver).
        by apply list_elem_of_fmap_2. }
      destruct (m_clients m !! ip) as [e|] eqn:He; [|done]. destruct (ce_Connected e) eqn:Hcon; [|done].
      destruct Hin. apply (cs_match _ _ Hc), (is_connected_tag m c). by exists e.
  - intros x Hx. apply (cs_match _ _ Hc). by apply list_elem_of_fmap_2.
Qed.

(** C24: Disconnecting a client moves the counters that the call reads into the
    history, once, and clears the live ones: the totals that the status shows
    afterwards are those it would show for these readings, modulo 2^64, the live
    counters are zero, and the client is not connected.  The readings are those
    of the call: bytes and packets that are counted between a reading and the
    flush that deletes the rule are in no total. *)
Theorem totals_conserved `{GoQuotient} `{MapOrder} get_rules flush_ok addrs wan lan ports wifi ops ip e now :
  healthy get_rules flush_ok →
  let '(t, m) := run_ops get_rules flush_ok (New addrs wan lan ports wifi) ops in
  let s := IP_String (To4 ip) in
  m_clients m !! s = Some e → ce_Connected e = true →
  let '((t', m'), r) := RemoveClient get_rules flush_ok ip now (t, m) in
  ∃ e' rx tx,
    t' = t ++ [GetRules chainRx; DelRule chainRx rx; GetRules chainTx; DelRule chainTx tx; Flush] ∧
    r = Ok () ∧ m_clients m' !! s = Some e' ∧
    let read t c := live c (default [] (get_rules t c)) in
    let before := client_info m (read t chainRx)
                    (read (t ++ [GetRules chainRx; DelRule chainRx rx]) chainTx) s e in
    ∀ t1 t2, kernel_after t1 = kernel_after t' → kernel_after t2 = kernel_after t' →
    let after := client_info m' (read t1 chainRx) (read t2 chainTx) s e' in
    (ci_TotalTxBytes after, ci_TotalRxBytes after, ci_TotalTxPkts after, ci_TotalRxPkts after) =
    (ci_TotalTxBytes before, ci_TotalRxBytes before, ci_TotalTxPkts before, ci_TotalRxPkts before) ∧
    (ci_TxBytes after, ci_RxBytes after, ci_TxPkts after, ci_RxPkts after) = (0, 0, 0, 0) ∧
    ci_Connected after = false.
Proof.
  intros Hh. pose proof (run_consistent get_rules flush_ok addrs wan lan ports wifi ops Hh) as Hc.
  cbn zeta in Hc. destruct (run_ops _ _ _ _) as [t m]. cbn [fst snd] in Hc. cbn zeta.
  set (s := IP_String (To4 ip)). intros He Hcon. assert (s ≠ "") as Hs by apply IP_String_ne.
  pose proof (RemoveClient_consistent get_rules flush_ok t m ip now Hc Hh) as Hc'.
  destruct (RemoveClient_connected get_rules flush_ok t m ip e now Hc Hh He Hcon)
    as (rs1 & rs2 & r1 & r2 & o1 & i1 & b1 & p1 & o2 & i2 & b2 & p2 &
        E1 & F1 & _ & X1 & E2 & F2 & _ & X2 & Eq).
  rewrite Eq in Hc' |- *. destruct Hc' as [Hc' _]. fold s.
  set (t' := t ++ [GetRules chainRx; _; _; _; _]) in *. fold s in Hc'. set (m' := set_clients _ _) in *.
  eexists _, r1, r2. split_and!; [done|done|unfold m'; cbn; by rewrite lookup_insert_eq|].
  assert (¬ is_connected m' s) as Hno.
  { intros (e1 & H1 & H2). unfold m' in H1. cbn in H1. rewrite lookup_insert_eq in H1.
    by injection H1 as <-. }
  assert (∀ t1 c, kernel_after t1 = kernel_after t' → live c (default [] (get_rules t1 c)) !! s = None) as Hnone.
  { intros t1 c Ek. destruct (reported get_rules flush_ok t1 c Hh) as [rs E]. rewrite E. cbn [default from_option id].
    assert (consistent t1 m') as Hc1 by (destruct Hc'; split; by rewrite ?Ek).
    by destruct (live_connected get_rules flush_ok t1 m' c rs s Hc1 Hh E Hs)
      as [(? & ? & ? & ? & ? & _ & _ & _ & ?)|(_ & -> & _)]. }
  intros t1 t2 K1 K2. rewrite E1, E2. cbn [default from_option id]. unfold client_info.
  rewrite (live_one chainRx rs1 s r1 o1 i1 b1 p1), (live_one chainTx rs2 s r2 o2 i2 b2 p2) by done.
  rewrite !Hnone by done. cbn. by rewrite !u64_total.
Qed.

(** C25: A sample gives a client a rate exactly when it is connected, the
    previous sample knew it and time has passed since; the rate is the
    difference of the counters it reads from those of the previous sample, which
    may be any, by the time, and a counter that went backwards counts as no
    traffic.  All other rates are dropped. *)
Theorem sample_correct `{GoQuotient} `{MapOrder} get_rules flush_ok addrs wan lan ports wifi ops now ip :
  healthy get_rules flush_ok → ip ≠ "" →
  let '(t, m) := run_ops get_rules flush_ok (New addrs wan lan ports wifi) ops in
  let '((t', m'), r) := sample get_rules now (t, m) in
  let read t c := live c (default [] (get_rules t c)) !! ip in
  let rx := read t chainRx in
  let tx := read (t ++ [GetRules chainRx]) chainTx in
  let moved cur prev := if prev <=? cur then cur - prev else 0 in
  (is_Some rx ↔ is_connected m ip) ∧ (is_Some tx ↔ is_connected m ip) ∧
  t' = t ++ [GetRules chainRx; GetRules chainTx] ∧ r = Ok () ∧ m_clients m' = m_clients m ∧
  m_prevSnapshot m' !! ip =
    match rx, tx with
    | Some (rxb, _), Some (txb, _) => Some {| sn_RxBytes := rxb; sn_TxBytes := txb; sn_Time := now |}
    | _, _ => None
    end ∧
  m_rates m' !! ip =
    match rx, tx, m_prevSnapshot m !! ip with
    | Some (rxb, _), Some (txb, _), Some prev =>
        let dt := now - sn_Time prev in
        if dt <=? 0 then None
        else Some {| cr_RxRate := quotient (moved rxb (sn_RxBytes prev)) dt;
                     cr_TxRate := quotient (moved txb (sn_TxBytes prev)) dt |}
    | _, _, _ => None
    end.
Proof.
  intros Hh Hip. pose proof (run_consistent get_rules flush_ok addrs wan lan ports wifi ops Hh) as Hc.
  cbn zeta in Hc. destruct (run_ops _ _ _ _) as [t m]. cbn [fst snd] in Hc.
  unfold sample, read_rules, get, put. io_unfold. cbn [fst snd m_clients m_prevSnapshot m_rates set_samples].
  destruct (reported get_rules flush_ok t chainRx Hh) as [rx E1].
  destruct (reported get_rules flush_ok (t ++ [GetRules chainRx]) chainTx Hh) as [tx E2].
  rewrite E1, E2. cbn [default from_option id].
  pose proof (consistent_read _ _ chainRx Hc) as Hc1.
  split; [|split; [|split_and!; [by rewrite <-app_assoc|done|done|..]]].
  - destruct (live_connected get_rules flush_ok t m chainRx rx ip Hc Hh E1 Hip)
      as [(? & ? & ? & ? & ? & _ & _ & -> & ?)|(_ & -> & ?)]; split; done.
  - destruct (live_connected get_rules flush_ok _ m chainTx tx ip Hc1 Hh E2 Hip)
      as [(? & ? & ? & ? & ? & _ & _ & -> & ?)|(_ & -> & ?)]; split; done.
  - by apply (snapshot_lookup get_rules flush_ok t m).
  - rewrite new_rates_lookup, (snapshot_lookup get_rules flush_ok t m) by done.
    destruct (live chainRx rx !! ip) as [[b1 p1]|]; [|done].
    destruct (live chainTx tx !! ip) as [[b2 p2]|]; [|done]. cbn.
    by destruct (m_prevSnapshot m !! ip).
Qed.

(** When the rules of a client cannot be installed, [AddClient] reports an error
    but leaves the client connected: later calls answer that all is well and
    send nothing, so the client is never counted. *)
Lemma failed_client_uncounted `{GoQuotient} flush_ok t m ip mac via now :
  let s := IP_String (To4 ip) in
  ¬ is_connected m s → (∀ t, flush_ok t = false) →
  let '((t', m'), r) := AddClient flush_ok ip mac via now (t, m) in
  r = Err (ErrFlush s) ∧ is_connected m' s ∧
  ∀ flush_ok' mac' via' now', AddClient flush_ok' ip mac' via' now' (t', m') = ((t', m'), Ok ()).
Proof.
  intros s Hno Hf.
  assert (∀ e t, ce_Connected e = true → ∀ flush_ok' mac' via' now',
    AddClient flush_ok' ip mac' via' now' (t, set_clients m (<[s := e]> (m_clients m))) =
      ((t, set_clients m (<[s := e]> (m_clients m))), Ok ())) as Hagain.
  { intros e t' He fl mac' via' now'. unfold AddClient, get. io_unfold. fold s.
    cbn [m_clients set_clients]. by rewrite lookup_insert_eq, He. }
  unfold AddClient at 1, get at 1, put at 1 2, send at 1 2 3 4, flush at 1 2. io_unfold. fold s.
  destruct (m_clients m !! s) as [e|] eqn:He.
  - destruct (ce_Connected e) eqn:Hcon; [by destruct Hno; exists e|]. io_unfold. rewrite Hf.
    split_and!; [done| |by apply Hagain]. eexists. cbn [m_clients set_clients]. by rewrite lookup_insert_eq.
  - io_unfold. rewrite Hf. split_and!; [done| |by apply Hagain].
    eexists. cbn [m_clients set_clients]. by rewrite lookup_insert_eq.
Qed.

(** ** A kernel that works *)

(** Every counter has advanced by 1000 bytes and 10 packets at each reading. *)
Definition demo_readings (t : list request) : Z :=
  Z.of_nat (length (omap (λ r, match r with GetRules _ => Some () | _ => None end) t)).

Definition demo_rules (t : list request) (c : chain) : option (list rule) :=
  let n := demo_readings t in
  Some (map (λ x, {| r_Handle := x.1; r_UserData := x.2;
                     r_Exprs := [Payload 12 4; Cmp []; Counter (1000 * n) (10 * n)] |})
          (k_rules (kernel_after t) c)).

Lemma demo_healthy : healthy demo_rules (λ _, true).
Proof.
  split; [done|]. intros t c. eexists. split; [reflexivity|]. split.
  - rewrite map_map. cbn. rewrite <-(map_id (k_rules _ _)) at 2. apply map_ext. by intros [].
  - intros r (x & -> & _)%list_elem_of_fmap. by exists 12, [], (1000 * demo_readings t), (10 * demo_readings t).
Qed.

#[export] Instance exact_quotient : GoQuotient := {| float := Z; zero_float := 0; quotient := Z.div |}.

Definition demo_monitor : Monitor := New (λ _, [[192; 168; 0; 1]]) "wan" "br-lan" ["lan1"] "wlan0".

(** Three clients of which one leaves and one comes back. *)
Definition demo_ops : list op :=
  [OpAdd [192; 168; 0; 1] "02:00:00:00:00:01" "L" 1; OpAdd [192; 168; 0; 7] "02:00:00:00:00:07" "W" 2;
   OpSample 5; OpAdd [192; 168; 0; 9] "02:00:00:00:00:09" "W" 6; OpRemoveMAC "02:00:00:00:00:07" 7;
   OpRemove [192; 168; 0; 1] 8; OpAdd [192; 168; 0; 7] "02:00:00:00:00:08" "L" 9].

Example demo_clients :
  let w := run_ops (H := canonical_order) demo_rules (λ _, true) demo_monitor demo_ops in
  map_to_list ((λ e, (ce_Via e, ce_Connected e, ce_HistTxBytes e)) <$> m_clients w.2) =
    [("192.168.0.7", ("L", true, 3000)); ("192.168.0.9", ("W", true, 0));
     ("192.168.0.1", ("G", false, 5000))] ∧
  k_rx (kernel_after w.1) = [(4, "192.168.0.9/rx"); (6, "192.168.0.7/rx")].
Proof. vm_compute. done. Qed.

Lemma rules_match_clients_witness :
  let '(t, m) := run_ops (H := canonical_order) demo_rules (λ _, true) demo_monitor demo_ops in
  length (filter (λ x, x.2 = "192.168.0.7" +:+ suffix chainRx) (k_rules (kernel_after t) chainRx)) =
  match m_clients m !! "192.168.0.7" with
  | Some e => if ce_Connected e then 1 else 0
  | None => 0
  end%nat.
Proof.
  pose proof (rules_match_clients (H0 := canonical_order) demo_rules (λ _, true) (λ _, [[192; 168; 0; 1]])
    "wan" "br-lan" ["lan1"] "wlan0" demo_ops demo_healthy) as H.
  unfold demo_monitor. destruct (run_ops _ _ _ _) as [t m]. destruct H as [_ H]. apply (H chainRx).
Defined.

(** A client that leaves.  When its rules go, at the flush, the counter of what it
    has sent has moved on since the call has read it: these bytes are lost. *)
Example packets_lost :
  let t := [AddRule chainRx [] "192.168.0.7/rx"; AddRule chainTx [] "192.168.0.7/tx"; Flush] in
  let e := new_client [192; 168; 0; 7] "02:00:00:00:00:07" "W" 2 in
  let m := set_clients demo_monitor {["192.168.0.7" := e]} in
  let w := (RemoveClient demo_rules (λ _, true) [192; 168; 0; 7] 9
              (t ++ [GetRules chainRx; GetRules chainTx], m)).1 in
  ce_HistRxBytes <$> m_clients w.2 !! "192.168.0.7" = Some 2000 ∧
  w.1 = take 9 w.1 ++ [Flush] ∧
  live chainRx (default [] (demo_rules (take 9 w.1) chainRx)) !! "192.168.0.7" = Some (4000, 40).
Proof. vm_compute. done. Qed.

Lemma totals_conserved_witness :
  let '(t, m) := run_ops (H := canonical_order) demo_rules (λ _, true) demo_monitor demo_ops in
  match m_clients m !! "192.168.0.9" with
  | Some e => ce_Connected e = true ∧
      let '((t', m'), _) := RemoveClient demo_rules (λ _, true) [192; 168; 0; 9] 10 (t, m) in
      ∃ e', m_clients m' !! "192.168.0.9" = Some e' ∧
        ci_Connected (client_info m' (live chainRx (default [] (demo_rules t' chainRx)))
                        (live chainTx (default [] (demo_rules t' chainTx))) "192.168.0.9" e') = false
  | None => False
  end.
Proof.
  assert (match m_clients (run_ops (H := canonical_order) demo_rules (λ _, true) demo_monitor demo_ops).2
            !! "192.168.0.9" with
          | Some e => ce_Connected e = true
          | None => False
          end) as Hc by (vm_compute; done).
  unfold demo_monitor in *.
  pose proof (λ e, totals_conserved (H0 := canonical_order) demo_rules (λ _, true)
    (λ _, [[192; 168; 0; 1]]) "wan" "br-lan" ["lan1"] "wlan0" demo_ops [192; 168; 0; 9] e 10
    demo_healthy) as H.
  destruct (run_ops _ _ _ _) as [t m]. cbn [snd] in Hc. cbn zeta in H.
  change (IP_String (To4 [192; 168; 0; 9])) with "192.168.0.9" in H.
  destruct (m_clients m !! "192.168.0.9") as [e|]; [|done]. split; [done|].
  specialize (H e eq_refl Hc). destruct (RemoveClient _ _ _ _ _) as [[t' m'] r].
  destruct H as (e' & rx & tx & _ & _ & H1 & H2). exists e'. split; [exact H1|].
  apply (H2 t' t' eq_refl eq_refl).
Defined.

(** The client has sent 6000 bytes in seven nanoseconds. *)
Lemma sample_correct_witness :
  let '(t, m) := run_ops (H := canonical_order) demo_rules (λ _, true) demo_monitor demo_ops in
  let '((_, m'), _) := sample (H := canonical_order) demo_rules 12 (t, m) in
  m_rates m' !! "192.168.0.7" = Some {| cr_RxRate := quotient 6000 7; cr_TxRate := quotient 6000 7 |}.
Proof.
  pose proof (sample_correct (H0 := canonical_order) demo_rules (λ _, true) (λ _, [[192; 168; 0; 1]])
    "wan" "br-lan" ["lan1"] "wlan0" demo_ops 12 "192.168.0.7" demo_healthy ltac:(done)) as H.
  assert (match run_ops (H := canonical_order) demo_rules (λ _, true) demo_monitor demo_ops with
          | (t, m) => live chainRx (default [] (demo_rules t chainRx)) !! "192.168.0.7" = Some (6000, 60) ∧
                      live chainTx (default [] (demo_rules (t ++ [GetRules chainRx]) chainTx)) !! "192.168.0.7" =
                        Some (7000, 70) ∧
                      m_prevSnapshot m !! "192.168.0.7" =
                        Some {| sn_RxBytes := 0; sn_TxBytes := 1000; sn_Time := 5 |}
          end) as Hc by (vm_compute; split_and!; reflexivity).
  unfold demo_monitor in *. destruct (run_ops _ _ _ _) as [t m].
  destruct (sample _ _ _) as [[t' m'] r]. destruct Hc as (H1 & H2 & H3).
  destruct H as (_ & _ & _ & _ & _ & _ & ->). by rewrite H1, H2, H3.
Defined.
