(* ===== verification/Sampler.v ===== *)
(** * pkg/status: creation of the monitor and the background sampler

    [New] sets up the table of the kernel and starts the goroutine of
    [sampleLoop], which samples the counters and polls the stations until [Stop].
    The lock is free between its steps, so the other calls of the package
    interleave with them.  Sampled data only change by the goroutine, which ends
    for good after a stop. *)

From S2P Require Import Prelude GoStrings GoNet.
From S2P Require Export Status.
Open Scope Z_scope.

(** ** Creation *)

(** The requests of [New]; both chains filter the forward hook. *)
Inductive setup :=
  | AddTable (name : string)
  | AddChain (table name : string)
  | FlushSetup.

Inductive create_error := ErrCreateTable.

(** Where the goroutine of [sampleLoop] is: in its [select], after [sample], or
    with the answer of the source in [pollWiFiStations]. *)
Inductive loop_state :=
  | Waiting
  | Sampled
  | Polled (answer : option (result () (option (list WiFiStation))))
  | Ended.

Section sampler.
Context `{Q : GoQuotient}.

(** The monitor with its goroutine. *)
Record process := { pr_loop : loop_state; pr_requests : list request; pr_monitor : Monitor }.

Definition set_loop (p : process) (l : loop_state) : process :=
  {| pr_loop := l; pr_requests := pr_requests p; pr_monitor := pr_monitor p |}.

Definition set_monitor (p : process) (l : loop_state) (m : Monitor) : process :=
  {| pr_loop := l; pr_requests := pr_requests p; pr_monitor := m |}.

Section create.
Context {L : Type} (link_by_name : string → option L) (addr_list : L → option (list IP)).
Context (setup_ok : list setup → bool).

(** The addresses of an interface; one that cannot be read has none. *)
Definition iface_ips (ifname : string) : list IP :=
  match link_by_name ifname with
  | None => []
  | Some link => default [] (addr_list link)
  end.

(** The whole of [New]: the set-up of the kernel, the state, the goroutine. *)
Definition NewMonitor (wanIface lanIface : string) (lanPorts : list string) (wifiIface : string)
    : io (list setup) create_error process :=
  _ ← perform (AddTable "gokrazy_stats") (λ _, true) ErrCreateTable;
  _ ← perform (AddChain "gokrazy_stats" "client_rx") (λ _, true) ErrCreateTable;
  _ ← perform (AddChain "gokrazy_stats" "client_tx") (λ _, true) ErrCreateTable;
  _ ← perform FlushSetup setup_ok ErrCreateTable;
  mret {| pr_loop := Waiting; pr_requests := [];
          pr_monitor := New iface_ips wanIface lanIface lanPorts wifiIface |}.
End create.

(** ** The goroutine and the calls *)

(** A step of the goroutine, or a call by another one.  A poll without a source
    returns at once, which is [Polled None] here. *)
Inductive event :=
  | Tick (now : Z)             (* the ticker fires: sample *)
  | AskSource (now : Z)        (* pollWiFiStations reads the source and calls it *)
  | StoreStations              (* pollWiFiStations takes the lock again *)
  | Quit                       (* stopCh is closed *)
  | Call (o : op)
  | SetSource (src : option WiFiStationSource)
  | StopCall.

Context `{MO : MapOrder}.
Context (get_rules : list request → chain → option (list rule)) (flush_ok : list request → bool).

(** [None] when the goroutine is not at the place of the step; only the goroutine
    samples. *)
Definition sampler_step (p : process) (e : event) : option process :=
  let m := pr_monitor p in
  match e, pr_loop p with
  | Tick now, Waiting =>
      let w := (sample get_rules now (pr_requests p, m)).1 in
      Some {| pr_loop := Sampled; pr_requests := w.1; pr_monitor := w.2 |}
  | AskSource now, Sampled => Some (set_loop p (Polled ((λ src, src now) <$> m_wifiSource m)))
  | StoreStations, Polled answer => Some (set_monitor p Waiting (pollWiFiStations answer m))
  | Quit, Waiting => if m_stopped m then Some (set_loop p Ended) else None
  | Call (OpSample _), _ => None
  | Call o, l =>
      let w := apply_op get_rules flush_ok (pr_requests p, m) o in
      Some {| pr_loop := l; pr_requests := w.1; pr_monitor := w.2 |}
  | SetSource src, l => Some (set_monitor p l (SetWiFiSource m src))
  | StopCall, l => Some (set_monitor p l (Stop m))
  | _, _ => None
  end.

Definition sampler_run : process → list event → option process := run_steps sampler_step.
End sampler.

(** ** Lemmas *)

Section lemmas.
Context `{Q : GoQuotient} `{MO : MapOrder}.
Context (get_rules : list request → chain → option (list rule)) (flush_ok : list request → bool).

Abbreviation step := (sampler_step get_rules flush_ok).
Abbreviation run := (sampler_run get_rules flush_ok).

Lemma set_clients_id m : set_clients m (m_clients m) = m.
Proof. by destruct m. Qed.

(** The calls that add and remove clients change nothing but the clients. *)
Lemma RemoveClient_frame ip now w : ∃ cs,
  (RemoveClient get_rules flush_ok ip now w).1.2 = set_clients w.2 cs.
Proof.
  unfold RemoveClient, get, put, flush. io_unfold. destruct w as [t m]. cbn [snd].
  destruct (m_clients m !! _) as [e|]; [|exists (m_clients m); by rewrite set_clients_id].
  destruct (ce_Connected e); cbn [negb]; [|exists (m_clients m); by rewrite set_clients_id].
  destruct (readAndDeleteRules_Ok get_rules chainRx (IP_String (To4 ip) +:+ "/rx") (t, m))
    as (t1 & rx & ->).
  destruct (readAndDeleteRules_Ok get_rules chainTx (IP_String (To4 ip) +:+ "/tx") (t1, m))
    as (t2 & tx & E). cbn [snd] in E |- *. rewrite E. by eexists.
Qed.

Lemma call_frame w o : (∀ now, o ≠ OpSample now) → ∃ cs,
  (apply_op get_rules flush_ok w o).2 = set_clients w.2 cs.
Proof.
  intros Ho. unfold apply_op. destruct o as [ip mac via now|ip now|mac now|now]; [| | |by destruct (Ho now)].
  - unfold AddClient, get, put, send, flush. io_unfold.
    destruct (m_clients w.2 !! IP_String (To4 ip)) as [e|]; [|by eexists].
    destruct (ce_Connected e); [|by eexists]. exists (m_clients w.2). by rewrite set_clients_id.
  - apply RemoveClient_frame.
  - unfold RemoveClientByMAC, get, interleaved. io_unfold.
    destruct (find_by_mac w.2 mac) as [ip|]; [apply RemoveClient_frame|].
    exists (m_clients w.2). by rewrite set_clients_id.
Qed.

Lemma sample_frame w now : ∃ snap,
  (apply_op get_rules flush_ok w (OpSample now)).2 =
    set_samples w.2 snap (new_rates (m_prevSnapshot w.2) snap).
Proof. by eexists. Qed.

(** What the goroutine alone writes. *)
Definition sampled (m : Monitor) := (m_prevSnapshot m, m_rates m, m_wifiStations m).

(** What no step changes. *)
Definition identity (m : Monitor) :=
  (m_gatewayIPs m, m_wanIface m, m_lanIface m, m_lanPorts m, m_wifiIface m).

(** The cases of a step, with what they write. *)
Lemma sampler_step_inv p e p' : step p e = Some p' →
  (∃ now, e = Tick now ∧ pr_loop p = Waiting ∧ pr_loop p' = Sampled ∧
     apply_op get_rules flush_ok (pr_requests p, pr_monitor p) (OpSample now) =
       (pr_requests p', pr_monitor p')) ∨
  (∃ now, e = AskSource now ∧ pr_loop p = Sampled ∧
     p' = set_loop p (Polled ((λ src, src now) <$> m_wifiSource (pr_monitor p)))) ∨
  (∃ answer, e = StoreStations ∧ pr_loop p = Polled answer ∧
     p' = set_monitor p Waiting (pollWiFiStations answer (pr_monitor p))) ∨
  (e = Quit ∧ pr_loop p = Waiting ∧ m_stopped (pr_monitor p) = true ∧ p' = set_loop p Ended) ∨
  (∃ o, e = Call o ∧ (∀ now, o ≠ OpSample now) ∧ pr_loop p' = pr_loop p ∧
     apply_op get_rules flush_ok (pr_requests p, pr_monitor p) o = (pr_requests p', pr_monitor p')) ∨
  (∃ src, e = SetSource src ∧ p' = set_monitor p (pr_loop p) (SetWiFiSource (pr_monitor p) src)) ∨
  (e = StopCall ∧ p' = set_monitor p (pr_loop p) (Stop (pr_monitor p))).
Proof.
  unfold sampler_step. intros H.
  destruct e as [now|now| | |o|src|].
  - left. destruct (pr_loop p) eqn:El; try done. injection H as <-. exists now. by split_and!.
  - right. left. destruct (pr_loop p) eqn:El; try done. injection H as <-. by exists now.
  - do 2 right. left. destruct (pr_loop p) as [| |a|] eqn:El; try done. injection H as <-. by exists a.
  - do 3 right. left. destruct (pr_loop p) eqn:El; try done.
    destruct (m_stopped _) eqn:Es; [|done]. by injection H as <-.
  - do 4 right. left. exists o.
    assert (∀ now, o ≠ OpSample now) as Ho by (intros now ->; done).
    destruct o; [..|by destruct (Ho now)]; injection H as <-;
      (split_and!; [done|done|done|]); cbn [pr_requests pr_monitor]; by destruct (apply_op _ _ _ _).
  - do 5 right. left. exists src. injection H as <-. done.
  - do 6 right. injection H as <-. done.
Qed.

(** The answer [a] was given by a source that had been set, when it was asked. *)
Definition answered (es : list event) (a : result () (option (list WiFiStation))) : Prop :=
  ∃ src now, SetSource (Some src) ∈ es ∧ AskSource now ∈ es ∧ a = src now.

Lemma answered_app es e a : answered es a → answered (es ++ [e]) a.
Proof. intros (src & now & H1 & H2 & ->). exists src, now. set_solver. Qed.

Record sound (m0 : Monitor) (es : list event) (p : process) : Prop := {
  sd_identity : identity (pr_monitor p) = identity m0;
  sd_consistent : consistent (pr_requests p) (pr_monitor p);
  sd_rates : ∀ ip, is_Some (m_rates (pr_monitor p) !! ip) → is_Some (m_prevSnapshot (pr_monitor p) !! ip);
  sd_source : ∀ src, m_wifiSource (pr_monitor p) = Some src → SetSource (Some src) ∈ es;
  sd_polled : ∀ a, pr_loop p = Polled (Some a) → answered es a;
  sd_stations : m_wifiStations (pr_monitor p) = ∅ ∨
    ∃ l, answered es (Ok (Some l)) ∧ m_wifiStations (pr_monitor p) = station_table l;
  sd_ended : pr_loop p = Ended → m_stopped (pr_monitor p) = true
}.

(** Only the clients matter for the rules. *)
Lemma consistent_clients t m m' : m_clients m' = m_clients m → consistent t m → consistent t m'.
Proof. intros E H. split; try apply H; unfold connected_tag; rewrite E; apply H. Qed.

(** Sources and answers of the past remain so. *)
Lemma sound_carried m0 es e p : sound m0 es p →
  (∀ src, m_wifiSource (pr_monitor p) = Some src → SetSource (Some src) ∈ es ++ [e]) ∧
  (m_wifiStations (pr_monitor p) = ∅ ∨
   ∃ l, answered (es ++ [e]) (Ok (Some l)) ∧ m_wifiStations (pr_monitor p) = station_table l).
Proof.
  intros H. split.
  - intros src Hsrc%(sd_source _ _ _ H). set_solver.
  - destruct (sd_stations _ _ _ H) as [E|(l & Hl & E)]; [by left|right]. exists l.
    split; [by apply answered_app|done].
Qed.

(** A step that leaves the goroutine where it is and the sampled data alone. *)
Lemma sound_frame m0 es e p p' :
  sound m0 es p → pr_loop p' = pr_loop p → sampled (pr_monitor p') = sampled (pr_monitor p) →
  identity (pr_monitor p') = identity (pr_monitor p) →
  consistent (pr_requests p') (pr_monitor p') →
  (∀ src, m_wifiSource (pr_monitor p') = Some src →
     m_wifiSource (pr_monitor p) = Some src ∨ e = SetSource (Some src)) →
  (m_stopped (pr_monitor p) = true → m_stopped (pr_monitor p') = true) →
  sound m0 (es ++ [e]) p'.
Proof.
  intros H El [= E1 E2 E3] Ei Hc Hs Hst. destruct (sound_carried m0 es e p H) as [Hsrc Hsta]. split; rewrite ?El, ?E1, ?E2, ?E3, ?Ei; try apply H; [done|..].
  - intros src [H'| ->]%Hs; [by apply Hsrc|set_solver].
  - intros a Ha. by apply answered_app, (sd_polled _ _ _ H).
  - exact Hsta.
  - intros Ep. by apply Hst, (sd_ended _ _ _ H).
Qed.

Lemma step_sound m0 es p e p' : healthy get_rules flush_ok →
  sound m0 es p → step p e = Some p' → sound m0 (es ++ [e]) p'.
Proof.
  intros Hh H Hs. destruct (sound_carried m0 es e p H) as [Hsrc Hst].
  pose proof (λ o, apply_op_consistent get_rules flush_ok (pr_requests p, pr_monitor p) o
    (sd_consistent _ _ _ H) Hh) as Hop.
  apply sampler_step_inv in Hs as [(now & -> & El & El' & E)|[(now & -> & El & ->)|[(a & -> & El & ->)|
    [(-> & El & Est & ->)|[(o & -> & Ho & El & E)|[(src & -> & ->)|(-> & ->)]]]]]].
  - specialize (Hop (OpSample now)). destruct (sample_frame (pr_requests p, pr_monitor p) now) as [snap Em].
    rewrite E in Hop, Em. cbn in Hop, Em. split; rewrite ?El'; try done; rewrite Em; try done.
    + apply (sd_identity _ _ _ H).
    + intros ip. cbn. rewrite new_rates_lookup. by destruct (snap !! ip); [|intros []].
  - split; try done; try apply H; cbn.
    intros a [= Ha]. apply fmap_Some in Ha as (src & Hin%(sd_source _ _ _ H) & ->).
    exists src, now. set_solver.
  - assert (m_clients (pollWiFiStations a (pr_monitor p)) = m_clients (pr_monitor p) ∧
      identity (pollWiFiStations a (pr_monitor p)) = identity (pr_monitor p)) as [Ec Ei]
      by (by destruct a as [[|[]]|]).
    split; cbn [set_monitor pr_loop pr_monitor pr_requests]; try done.
    + rewrite Ei. apply H.
    + eapply consistent_clients; [done|apply H].
    + by destruct a as [[|[]]|]; apply H.
    + by destruct a as [[|[]]|].
    + destruct a as [[|[l|]]|]; [exact Hst| |exact Hst|exact Hst]. right. exists l. split; [|done].
      by apply answered_app, (sd_polled _ _ _ H).
  - split; try done; apply H.
  - specialize (Hop o). destruct (call_frame (pr_requests p, pr_monitor p) o Ho) as [cs Ecs].
    rewrite E in Hop, Ecs. cbn in Hop, Ecs.
    apply (sound_frame m0 es (Call o) p p'); rewrite ?Ecs in *; try done. by left.
  - apply (sound_frame m0 es (SetSource src) p); try done.
    + eapply consistent_clients, H; done.
    + intros src' [= ->]. by right.
  - apply (sound_frame m0 es StopCall p); try done.
    + eapply consistent_clients, H; done.
    + by left.
Qed.

(** After its end the goroutine does nothing, so the samples stay. *)
Lemma ended_stays p es p' : run p es = Some p' → pr_loop p = Ended →
  pr_loop p' = Ended ∧ sampled (pr_monitor p') = sampled (pr_monitor p).
Proof.
  intros Hr El. revert Hr. apply (run_steps_ind step (λ _ p', pr_loop p' = Ended ∧
    sampled (pr_monitor p') = sampled (pr_monitor p))); [done|].
  clear p' es. intros _ q e q' [Hl Hq] Hs.
  apply sampler_step_inv in Hs as [(now & -> & E & _)|[(now & -> & E & _)|[(a & -> & E & _)|
    [(-> & E & _)|[(o & -> & Ho & E & Eo)|[(src & -> & ->)|(-> & ->)]]]]]]; try congruence; try done.
  destruct (call_frame (pr_requests q, pr_monitor q) o Ho) as [cs Ecs].
  rewrite Eo in Ecs. cbn in Ecs. rewrite Ecs, E. by split.
Qed.

(** A goroutine that finds the channel closed ends after the current round. *)
Lemma stop_ends p : m_stopped (pr_monitor p) = true → ∃ es p',
  run p es = Some p' ∧ pr_loop p' = Ended ∧ (length es ≤ 3)%nat ∧
  Forall (λ e, e = Quit ∨ e = StoreStations ∨ ∃ now, e = AskSource now) es.
Proof.
  intros Hst. destruct (pr_loop p) as [| |a|] eqn:El.
  - eexists [Quit], _. cbn. rewrite El, Hst. split_and!; [done|done|cbn; lia|]. by repeat (constructor; [eauto|]).
  - eexists [AskSource 0; StoreStations; Quit], _. cbn. rewrite El. cbn.
    assert (m_stopped (pollWiFiStations ((λ src, src 0) <$> m_wifiSource (pr_monitor p)) (pr_monitor p)) = true)
      as -> by (destruct (m_wifiSource _) as [src|]; [cbn; by destruct (src 0) as [|[]]|done]).
    split_and!; [done|done|cbn; lia|]. by repeat (constructor; [eauto|]).
  - eexists [StoreStations; Quit], _. cbn. rewrite El. cbn.
    assert (m_stopped (pollWiFiStations a (pr_monitor p)) = true) as -> by (by destruct a as [[|[]]|]).
    split_and!; [done|done|cbn; lia|]. by repeat (constructor; [eauto|]).
  - exists [], p. split_and!; [done|done|cbn; lia|constructor].
Qed.
End lemmas.

(** What the set-up asks of the kernel, and the state it leaves. *)
Lemma NewMonitor_spec `{GoQuotient} {L} link_by_name (addr_list : L → option (list IP)) setup_ok
    wan lan ports wifi t :
  let '(t', r) := NewMonitor link_by_name addr_list setup_ok wan lan ports wifi t in
  let before := t ++ [AddTable "gokrazy_stats"; AddChain "gokrazy_stats" "client_rx";
                      AddChain "gokrazy_stats" "client_tx"] in
  t' = before ++ [FlushSetup] ∧
  match r with
  | Err _ => setup_ok before = false
  | Ok p => setup_ok before = true ∧ pr_loop p = Waiting ∧ pr_requests p = [] ∧
      pr_monitor p = New (iface_ips link_by_name addr_list) wan lan ports wifi ∧
      ∀ x, x ∈ m_gatewayIPs (pr_monitor p) ↔ ∃ ifname link ips ip,
        ifname ∈ [lan; wifi; wan] ∧ link_by_name ifname = Some link ∧
        addr_list link = Some ips ∧ ip ∈ ips ∧ x = IP_String ip
  end.
Proof.
  unfold NewMonitor, perform. io_unfold. rewrite <-!app_assoc. cbn [app].
  destruct (setup_ok _) eqn:E; (split; [done|]); [|done]. split_and!; [done..|]. intros x.
  cbn [pr_monitor New m_gatewayIPs]. rewrite elem_of_list_to_set, list_elem_of_fmap. split.
  - intros (ip & -> & (l & Hl & Hip)%elem_of_concat).
    apply list_elem_of_fmap in Hl as (ifname & -> & Hif). unfold iface_ips in Hip.
    destruct (link_by_name ifname) as [link|] eqn:E1; [|by apply not_elem_of_nil in Hip].
    destruct (addr_list link) as [ips|] eqn:E2; [|by apply not_elem_of_nil in Hip].
    by exists ifname, link, ips, ip.
  - intros (ifname & link & ips & ip & Hif & E1 & E2 & Hip & ->). exists ip. split; [done|].
    apply elem_of_concat. exists ips. split; [|done]. apply list_elem_of_fmap. exists ifname.
    split; [|done]. unfold iface_ips. by rewrite E1, E2.
Qed.

(** The sampler runs beside the other calls without harm.  From the creation on
    and in every interleaving, the rules of the kernel stay those of the
    connected clients, the addresses and names the monitor was made with stay,
    every rate belongs to an address of the last sample, and the stations are
    those of an answer that a source gave after it had been set.  The goroutine
    ends only after a stop; it can then always end within a round, and once it
    has ended neither the samples nor the stations change again. *)
Theorem sampler_correct `{GoQuotient} `{MapOrder} {L} get_rules flush_ok link_by_name
    (addr_list : L → option (list IP)) setup_ok wan lan ports wifi p0 es p :
  healthy get_rules flush_ok →
  (NewMonitor link_by_name addr_list setup_ok wan lan ports wifi []).2 = Ok p0 →
  sampler_run get_rules flush_ok p0 es = Some p →
  let m := pr_monitor p in
  consistent (pr_requests p) m ∧
  identity m = identity (pr_monitor p0) ∧
  (∀ ip, is_Some (m_rates m !! ip) → is_Some (m_prevSnapshot m !! ip)) ∧
  (m_wifiStations m = ∅ ∨ ∃ src now l, SetSource (Some src) ∈ es ∧ AskSource now ∈ es ∧
     src now = Ok (Some l) ∧ m_wifiStations m = station_table l) ∧
  (pr_loop p = Ended → m_stopped m = true) ∧
  (m_stopped m = true → ∃ es' p', sampler_run get_rules flush_ok p es' = Some p' ∧
     pr_loop p' = Ended ∧ (length es' ≤ 3)%nat) ∧
  (pr_loop p = Ended → ∀ es' p', sampler_run get_rules flush_ok p es' = Some p' →
     pr_loop p' = Ended ∧ sampled (pr_monitor p') = sampled m).
Proof.
  intros Hh Hn Hr. cbn zeta.
  pose proof (NewMonitor_spec link_by_name addr_list setup_ok wan lan ports wifi []) as Hs.
  destruct (NewMonitor _ _ _ _ _ _ _ _) as [t r]. cbn in Hn. subst r.
  destruct Hs as (_ & _ & El & Et & Em & _).
  assert (sound (pr_monitor p0) es p) as H1.
  { eapply (run_steps_ind (sampler_step get_rules flush_ok) (sound (pr_monitor p0))); [|by intros ????; apply step_sound|done].
    split; rewrite ?El, ?Et, ?Em; try done; [apply New_consistent|by intros ? []|by left]. }
  split_and!; try apply H1.
  - destruct (sd_stations _ _ _ H1) as [E|(l & (src & now & H2 & H3 & H4) & E)]; [by left|].
    right. by exists src, now, l.
  - intros (es' & p' & H2 & H3 & H4 & _)%(stop_ends get_rules flush_ok). by exists es', p'.
  - intros He es' p' H2. by eapply ended_stays.
Qed.

(** Two samples of one client, a station poll and a stop. *)
Definition demo_source : WiFiStationSource := λ _,
  Ok (Some [{| ws_MAC := "02:00:00:00:00:07"; ws_Signal := -50; ws_TxBitrate := 144000;
               ws_RxBitrate := 72000 |}]).

Definition demo_start : option process :=
  match (NewMonitor (λ n, if String.eqb n "wlan0" then None else Some n) (λ _, Some [[192; 168; 0; 1]])
           (λ _, true) "wan" "br-lan" ["lan1"] "wlan0" []).2 with
  | Ok p => Some p
  | Err _ => None
  end.

Definition demo_events : list event :=
  [SetSource (Some demo_source); Call (OpAdd [192; 168; 0; 7] "02:00:00:00:00:07" "W" 1);
   Tick 5; Call (OpAdd [192; 168; 0; 9] "02:00:00:00:00:09" "W" 6); AskSource 6; StoreStations;
   Tick 15; StopCall; AskSource 16; StoreStations; Quit; Call (OpRemove [192; 168; 0; 7] 17)].

Example demo_sampler :
  match p ← demo_start;
        sampler_run (MO := canonical_order) demo_rules (λ _, true) p demo_events with
  | Some p => pr_loop p = Ended ∧
      map_to_list (m_rates (pr_monitor p)) = [("192.168.0.7", {| cr_RxRate := 200; cr_TxRate := 200 |})] ∧
      map fst (map_to_list (m_wifiStations (pr_monitor p))) = ["02:00:00:00:00:07"] ∧
      elements (m_gatewayIPs (pr_monitor p)) = ["192.168.0.1"]
  | None => False
  end.
Proof. vm_compute. done. Qed.

(** Nothing but the goroutine samples, and it does not sample after its end. *)
Example no_sample_after_end p now : pr_loop p = Ended →
  sampler_step (MO := canonical_order) demo_rules (λ _, true) p (Tick now) = None.
Proof. intros E. unfold sampler_step. by rewrite E. Qed.
