(* ===== verification/Ctrl.v ===== *)
(** * pkg/wifi: the control socket of hostapd and the end of the access point

    The datagram socket over which hostapd is asked for its stations, with the
    calls made on it in order, and [Stop].  Wifi has the parser of the replies
    and the list that is made of them; here the loop runs on the socket. *)

From Stdlib Require Import Ascii.
From S2P Require Import Prelude GoStrings GoStrconv GoOs Config.
From S2P Require Import Wifi.
Open Scope Z_scope.

(** ** Calls *)

Inductive call :=
  | RemoveFile (path : string)
  | DialUnix (local remote : string)
  | SetDeadline (nanoseconds : Z)
  | WriteSocket (cmd : string)
  | ReadSocket (size : nat)
  | CloseSocket
  | CloseStopCh
  | Signal.                                (* os.Interrupt *)

Inductive ctrl_error := ErrDial | ErrWriteSocket | ErrReadSocket.

Abbreviation ctrl_io := (io (list call) ctrl_error).

Definition hostapdCtrlDir : string := "/tmp/hostapd".
Definition ctrlTimeout : Z := 2 * second.

Section ctrl.
Context `{A : GoInt} `{PF : GoParseFloat}.
Context (pid : Z).
(** What the kernel and hostapd answer after the calls so far. *)
Context (dial_ok write_ok : list call → bool) (reply : list call → option string).

Definition note (c : call) : ctrl_io unit := λ t, (t ++ [c], Ok ()).

Record CtrlClient := { localPath : string }.

(** [net.ResolveUnixAddr] fails only for an unknown network. *)
Definition NewCtrlClient (iface : string) : ctrl_io CtrlClient :=
  let remotePath := hostapdCtrlDir +:+ "/" +:+ iface in
  let local := "/tmp/hostapd_ctrl_" +:+ itoa pid in
  _ ← note (RemoveFile local);
  ok ← (λ t, (t ++ [DialUnix local remotePath], Ok (dial_ok t)));
  if ok : bool then mret {| localPath := local |}
  else _ ← note (RemoveFile local); throw ErrDial.

Definition CloseClient (c : CtrlClient) : ctrl_io unit :=
  _ ← note CloseSocket; note (RemoveFile (localPath c)).

(** A reply is cut at the size of the buffer. *)
Definition read_reply : ctrl_io string := λ t,
  (t ++ [ReadSocket 4096],
   match reply t with Some s => Ok (str_take 4096 s) | None => Err ErrReadSocket end).

(** The deadline bounds the write and the read. *)
Definition request (cmd : string) : ctrl_io string :=
  _ ← note (SetDeadline ctrlTimeout);
  _ ← perform (WriteSocket cmd) write_ok ErrWriteSocket;
  read_reply.

(** The loop of [Stations] from a reply on; nothing bounds the number of
    stations hostapd names. *)
Fixpoint station_loop (fuel : nat) (resp : string) (t : list call)
    : outcome (list StationInfo * list call) :=
  match fuel with
  | O => OutOfFuel
  | S fuel =>
      let resp := trim_space resp in
      if String.eqb resp "" || String.eqb resp "FAIL" then Ret ([], t)
      else
        si ← parseStationResponse resp;
        let here := if negb (String.eqb (si_MAC si) "") then [si] else [] in
        match request ("STA-NEXT " +:+ si_MAC si) t with
        | (t, Err _) => Ret (here, t)
        | (t, Ok resp) =>
            rest ← station_loop fuel resp t;
            Ret (here ++ rest.1, rest.2)
        end
  end.

(** [StationInfoAll]; [None] is the nil slice of a socket that is not there. *)
Definition ap_stations (fuel : nat) (iface : string) (t : list call)
    : outcome (list call * result ctrl_error (option (list StationInfo))) :=
  match NewCtrlClient iface t with
  | (t, Err _) => Ret (t, Ok None)
  | (t, Ok c) =>
      let close t r := Ret ((CloseClient c t).1, r) in
      match request "STA-FIRST" t with
      | (t, Err e) => close t (Err e)
      | (t, Ok resp) =>
          out ← station_loop fuel resp t;
          close out.2 (Ok (Some out.1))
      end
  end.

(** [Stop]: the channel is closed once, whatever happens; the process is
    signalled when there is one. *)
Definition Stop (stopped has_process : bool) (t : list call) : bool * list call :=
  (true, t ++ (if stopped then [] else [CloseStopCh]) ++ (if has_process then [Signal] else [])).
End ctrl.

(** ** The commands that are sent, and the clean-up *)

Definition sent (t : list call) : list string :=
  omap (λ c, match c with WriteSocket cmd => Some cmd | _ => None end) t.

Lemma sent_app t1 t2 : sent (t1 ++ t2) = sent t1 ++ sent t2.
Proof. apply omap_app. Qed.

Section runs.
Context `{A : GoInt} `{PF : GoParseFloat}.
Context (pid : Z) (dial_ok write_ok : list call → bool) (reply : list call → option string).

(** A request is sent once, and adds nothing but its own calls. *)
Lemma request_run cmd t : ∃ cs,
  (request write_ok reply cmd t).1 = t ++ cs ∧ sent cs = [cmd] ∧
  Forall (λ c, c ≠ CloseSocket ∧ ∀ p, c ≠ RemoveFile p) cs.
Proof.
  unfold request, note, perform, read_reply. io_unfold. destruct (write_ok _); io_unfold;
    rewrite <-!app_assoc; (eexists; split; [reflexivity|]; split; [done|]; repeat constructor; done).
Qed.

Lemma station_loop_run fuel resp t sis t' :
  station_loop write_ok reply fuel resp t = Ret (sis, t') →
  ∃ replies asked cs, stations_from resp replies = Ret (sis, asked) ∧ t' = t ++ cs ∧
    sent cs = asked ∧ Forall (λ c, c ≠ CloseSocket ∧ ∀ p, c ≠ RemoveFile p) cs.
Proof.
  induction fuel as [|fuel IH] in resp, t, sis, t' |- *; [done|]. cbn [station_loop].
  destruct (String.eqb (trim_space resp) "" || String.eqb (trim_space resp) "FAIL") eqn:Eend.
  { intros [= <- <-]. exists [], [], []. rewrite app_nil_r. split_and!; [|done..].
    cbn [stations_from]. by rewrite Eend. }
  destruct (parseStationResponse (trim_space resp)) as [si| |] eqn:Esi; [|done..]. cbn [mbind outcome_bind].
  pose proof (request_run ("STA-NEXT " +:+ si_MAC si) t) as (cs & E & Hc & Hf).
  destruct (request _ _ _ t) as [t1 [e|resp']]; cbn [fst] in E; subst t1.
  - intros [= <- <-]. exists [], ["STA-NEXT " +:+ si_MAC si], cs. split_and!; [|done..].
    cbn [stations_from]. rewrite Eend, Esi. done.
  - intros (rest & Hrest & [= <- <-])%outcome_bind_Ret. destruct rest as [sis' t2]. cbn [fst snd].
    apply IH in Hrest as (replies & asked & cs' & E' & -> & <- & Hf').
    exists (Some resp' :: replies), (("STA-NEXT " +:+ si_MAC si) :: sent cs'), (cs ++ cs').
    rewrite sent_app, Hc, app_assoc. split_and!; [|done|done|by apply Forall_app].
    cbn [stations_from]. rewrite Eend, Esi. cbn [mbind outcome_bind]. by rewrite E'.
Qed.

(** When the poll ends, what it gives is the list that Wifi makes of the replies,
    each station has been asked for its successor, and the socket that was
    opened is closed and its file removed, as the last two calls. *)
Lemma ap_stations_run fuel iface t t' r :
  ap_stations pid dial_ok write_ok reply fuel iface t = Ret (t', r) →
  let local := "/tmp/hostapd_ctrl_" +:+ itoa pid in
  let start := [RemoveFile local; DialUnix local (hostapdCtrlDir +:+ "/" +:+ iface)] in
  (r = Ok None ∧ t' = t ++ start ++ [RemoveFile local]) ∨
  ∃ replies asked cs, t' = t ++ start ++ cs ++ [CloseSocket; RemoveFile local] ∧
    Forall (λ c, c ≠ CloseSocket ∧ ∀ p, c ≠ RemoveFile p) cs ∧ sent cs = asked ∧
    match r with
    | Ok sis => Stations replies = Ret (sis, asked)
    | Err _ => Stations replies = Ret (None, asked)
    end.
Proof.
  intros H local start. revert H. unfold ap_stations, NewCtrlClient, note. io_unfold. fold local.
  set (t1 := (t ++ [RemoveFile local]) ++ [DialUnix local (hostapdCtrlDir +:+ "/" +:+ iface)]).
  assert (t1 = t ++ start) as Et1 by (unfold t1, start; by rewrite <-app_assoc).
  destruct (dial_ok _); io_unfold.
  2:{ intros [= <- <-]. left. rewrite Et1, <-!app_assoc. by split. }
  unfold CloseClient, note. io_unfold. cbn [localPath].
  pose proof (request_run "STA-FIRST" t1) as (cs & E & Hc & Hf).
  destruct (request _ _ _ t1) as [t2 [e|resp]]; cbn [fst] in E; subst t2.
  - intros [= <- <-]. right. exists [None], ["STA-FIRST"], cs. rewrite Et1, <-!app_assoc. by split_and!.
  - intros (out & Hout & [= <- <-])%outcome_bind_Ret. destruct out as [sis t3]. cbn [fst snd].
    apply station_loop_run in Hout as (replies & asked & cs' & E' & -> & <- & Hf'). right.
    exists (Some resp :: replies), ("STA-FIRST" :: sent cs'), (cs ++ cs').
    rewrite Et1, sent_app, Hc, <-!app_assoc. split_and!; [done|by apply Forall_app|done|].
    cbn [Stations]. by rewrite E'.
Qed.

(** A hostapd that names the same station again and again keeps the poll busy
    for ever. *)
Lemma station_loop_forever t fuel :
  (∀ t, write_ok t = true) → (∀ t, reply t = Some "02:00:00:00:00:01") →
  station_loop write_ok reply fuel "02:00:00:00:00:01" t = OutOfFuel.
Proof.
  set (mac := "02:00:00:00:00:01"). intros Hw Hr.
  assert (parseStationResponse mac = Ret (station mac)) as Hp by by vm_compute.
  induction fuel as [|fuel IH] in t |- *; [done|]. cbn [station_loop].
  change (trim_space mac) with mac. rewrite Hp. cbn [mbind outcome_bind].
  change (String.eqb mac "" || String.eqb mac "FAIL") with false. cbn iota.
  unfold request, note, perform, read_reply. io_unfold. rewrite Hw. io_unfold. rewrite Hr.
  change (str_take 4096 "02:00:00:00:00:01") with mac. by rewrite IH.
Qed.
End runs.
