(* ===== verification/Wait.v ===== *)
(** * The polling loops

    [waitForDevice] of pkg/mount and the two functions [waitForInterface] of
    cmd/gokrazy-router and cmd/milkv-usbnet: poll until something exists or a
    deadline has passed.  The clock and the thing waited for are functions of
    the number of the reading. *)

From S2P Require Import Prelude.
Open Scope Z_scope.

Definition millisecond : Z := 1000000.
Definition second : Z := 1000 * millisecond.

(** How a wait ended, and after how many sleeps. *)
Inductive waited := Appeared (polls : nat) | TimedOut (polls : nat).

(** The loop: the clock is read before each poll. *)
Fixpoint poll (fuel : nat) (clock : nat → Z) (exists_at : nat → bool) (deadline : Z) (i : nat)
    : option waited :=
  match fuel with
  | O => None
  | S fuel =>
      if clock (S i) <? deadline then
        if exists_at i then Some (Appeared i)
        else poll fuel clock exists_at deadline (S i)
      else Some (TimedOut i)
  end.

(** The first reading of the clock sets the deadline; the fuel is one more than
    the polls that fit into the time. *)
Definition wait (interval timeout : Z) (clock : nat → Z) (exists_at : nat → bool) : option waited :=
  poll (Z.to_nat (timeout / interval) + 2) clock exists_at (clock 0%nat + timeout) 0.

(** [mount.waitForDevice] *)
Definition waitForDevice (timeout : Z) : (nat → Z) → (nat → bool) → option waited :=
  wait (500 * millisecond) timeout.

(** [waitForInterface] of cmd/gokrazy-router *)
Definition waitForInterface (timeout : Z) : (nat → Z) → (nat → bool) → option waited :=
  wait (250 * millisecond) timeout.

(** [waitForInterface] of cmd/milkv-usbnet *)
Definition waitForUSBInterface (timeout : Z) : (nat → Z) → (nat → bool) → option waited :=
  wait (200 * millisecond) timeout.

(** A monotonic clock, read once before the loop and then between sleeps of at
    least [interval]. *)
Record ticking (interval : Z) (clock : nat → Z) : Prop := {
  tk_start : clock 0%nat ≤ clock 1%nat;
  tk_sleep : ∀ i, clock (S i) + interval ≤ clock (S (S i))
}.

Lemma ticking_bound interval clock i :
  ticking interval clock → clock 0%nat + Z.of_nat i * interval ≤ clock (S i).
Proof.
  intros Hc. induction i as [|i IH]; [pose proof (tk_start _ _ Hc); lia|].
  pose proof (tk_sleep _ _ Hc i). lia.
Qed.

Lemma poll_spec fuel interval timeout clock exists_at i :
  0 < interval → 0 ≤ timeout → ticking interval clock →
  (Z.to_nat (timeout / interval) + 1 < fuel + i)%nat → Z.of_nat i * interval < timeout + interval →
  ∃ r, poll fuel clock exists_at (clock 0%nat + timeout) i = Some r ∧
  match r with
  | Appeared n => (i ≤ n)%nat ∧ exists_at n = true ∧ clock (S n) < clock 0%nat + timeout ∧
      ∀ j, (i ≤ j < n)%nat → exists_at j = false
  | TimedOut n => (i ≤ n)%nat ∧ clock 0%nat + timeout ≤ clock (S n) ∧
      ∀ j, (i ≤ j < n)%nat → exists_at j = false ∧ clock (S j) < clock 0%nat + timeout
  end.
Proof.
  intros Hi Ht Hc. induction fuel as [|fuel IH] in i |- *; intros Hf Hb.
  - exfalso. pose proof (Z.div_pos timeout interval). pose proof (Z.mul_succ_div_gt timeout interval). nia.
  - cbn [poll]. destruct (Z.ltb_spec (clock (S i)) (clock 0%nat + timeout)) as [Hd|Hd].
    2: { eexists. split; [done|]. split; [done|]. split; [done|]. lia. }
    destruct (exists_at i) eqn:E.
    { eexists. split; [done|]. split_and!; [done|done|done|lia]. }
    destruct (IH (S i)) as (r & -> & Hr); [lia|pose proof (ticking_bound _ _ i Hc); lia|]. eexists. split; [done|].
    assert (∀ (P : nat → Prop) n, P i → (∀ j, (S i ≤ j < n)%nat → P j) → ∀ j, (i ≤ j < n)%nat → P j)
      as Hstep by (intros P n H0 HS j Hj; destruct (decide (j = i)) as [->|]; [done|apply HS; lia]).
    destruct r as [n|n]; destruct Hr as (H1 & H2 & H3).
    + destruct H3 as [H3 H4]. split_and!; [lia|done|done|]. by apply Hstep.
    + split_and!; [lia|done|]. by apply Hstep.
Qed.

(** C36: Every wait ends, after at most timeout / interval + 1 sleeps when the
    clock does not go back and a sleep lasts as long as asked: it reports the
    thing exactly when a poll before the deadline has seen it, at the first such
    poll, and the timeout exactly when all polls before the deadline failed. *)
Theorem wait_correct interval timeout clock exists_at :
  0 < interval → 0 ≤ timeout → ticking interval clock →
  ∃ r, wait interval timeout clock exists_at = Some r ∧
  match r with
  | Appeared n => exists_at n = true ∧ clock (S n) < clock 0%nat + timeout ∧
      (∀ j, (j < n)%nat → exists_at j = false) ∧ Z.of_nat n * interval < timeout
  | TimedOut n => clock 0%nat + timeout ≤ clock (S n) ∧
      (∀ j, clock (S j) < clock 0%nat + timeout → exists_at j = false) ∧
      (∀ j, (j < n)%nat → clock (S j) < clock 0%nat + timeout) ∧
      Z.of_nat n ≤ timeout / interval + 1
  end.
Proof.
  intros Hi Ht Hc. destruct (poll_spec (Z.to_nat (timeout / interval) + 2) interval timeout clock exists_at 0)
    as (r & E & Hr); [done|done|done|lia|lia|].
  exists r. split; [done|]. destruct r as [n|n].
  - destruct Hr as (_ & H1 & H2 & H3). split_and!; [done|done|intros; apply H3; lia|].
    pose proof (ticking_bound _ _ n Hc). lia.
  - destruct Hr as (_ & H1 & H2). split_and!; [done| |intros; by apply H2; lia|].
    + intros j Hj. apply H2. split; [lia|]. destruct (decide (j < n)%nat) as [|Hge]; [done|].
      exfalso. assert (clock (S n) ≤ clock (S j)); [|lia].
      clear - Hi Hc Hge. replace j with (n + (j - n))%nat by lia. generalize (j - n)%nat as k.
      induction k as [|k IH]; [by rewrite Nat.add_0_r|].
      pose proof (tk_sleep _ _ Hc (n + k)%nat). replace (n + S k)%nat with (S (n + k))%nat by lia. lia.
    + destruct n as [|n]; [pose proof (Z.div_pos timeout interval); lia|].
      destruct (H2 n) as [_ Hn]; [lia|]. pose proof (ticking_bound _ _ n Hc).
      assert (Z.of_nat n ≤ timeout / interval); [|lia]. apply Z.div_le_lower_bound; lia.
Qed.

(** A disk that appears after four seconds. *)
Definition demo_clock (n : nat) : Z := Z.of_nat n * (500 * millisecond).

Lemma demo_ticking : ticking (500 * millisecond) demo_clock.
Proof. split; [vm_compute; congruence|]. intros i. unfold demo_clock, millisecond. lia. Qed.

Lemma wait_correct_witness :
  ∃ r, waitForDevice (30 * second) demo_clock (λ n, (8 <=? n)%nat) = Some r ∧ r = Appeared 8.
Proof.
  destruct (wait_correct (500 * millisecond) (30 * second) demo_clock (λ n, (8 <=? n)%nat))
    as (r & E & _); [vm_compute; reflexivity|vm_compute; congruence|apply demo_ticking|].
  exists r. split; [exact E|]. vm_compute in E. by injection E as <-.
Defined.
