(* ===== verification/Mount.v ===== *)
(** * pkg/mount: the disk of the services

    [Mount] waits for the device, makes the target and mounts it unless
    /proc/mounts lists it; [Unmount] undoes it.  The operating system is an
    oracle that sees everything done so far; the table of mounts behind
    /proc/mounts is what the laws of the oracle speak of. *)

From Stdlib Require Import Ascii.
From S2P Require Import Prelude GoStrings GoNet Config Wait.
Open Scope Z_scope.

(** ** The operating system *)

Inductive effect :=
  | MkdirAll (path : string)
  | Run (name : string) (args : list string).

(** Each answer may depend on all that was done before; [None] and [false] are
    errors. *)
Record Os := {
  os_clock : nat → Z;
  os_stat : nat → string → bool;         (* at the time of a poll *)
  os_mkdir : list effect → string → bool;
  os_read : list effect → string → option string;
  os_run : list effect → string → list string → bool
}.

Inductive mount_error :=
  | ErrNoDevice | ErrNoTarget | ErrNotReady | ErrMkdir | ErrCheck | ErrMount | ErrUmount.

(** ** Operations *)

(** The test of a line of /proc/mounts: the second field is the target. *)
Definition line_mounts (target line : string) : bool :=
  match fields line with
  | _ :: mp :: _ :: _ => String.eqb mp target
  | _ => false
  end.

(** The scan of [isMounted]. *)
Definition lists_target (target data : string) : bool :=
  existsb (line_mounts target) (split_on "010" data).

Section operations.
Context (os : Os).

Abbreviation mount_io := (io (list effect) mount_error).

Definition isMounted (t : list effect) (target : string) : option bool :=
  lists_target target <$> os_read os t "/proc/mounts".

Definition mount_args (cfg : MountConfig) : list string :=
  ["-t"; if String.eqb (mo_FsType cfg) "" then "auto" else mo_FsType cfg] ++
  (if String.eqb (mo_Options cfg) "" then [] else ["-o"; mo_Options cfg]) ++
  [mo_Device cfg; mo_Target cfg].

(** The end of [Mount]: the command, unless the target is mounted. *)
Definition mount_unless_mounted (cfg : MountConfig) : mount_io unit := λ t,
  match isMounted t (mo_Target cfg) with
  | None => (t, Err ErrCheck)
  | Some true => (t, Ok ())
  | Some false =>
      perform (Run "mount" (mount_args cfg)) (λ t, os_run os t "mount" (mount_args cfg)) ErrMount t
  end.

Definition Mount (cfg : MountConfig) : mount_io unit :=
  if negb (mo_Enabled cfg) then mret ()
  else if String.eqb (mo_Device cfg) "" then throw ErrNoDevice
  else if String.eqb (mo_Target cfg) "" then throw ErrNoTarget
  else match waitForDevice (30 * second) (os_clock os) (λ i, os_stat os i (mo_Device cfg)) with
  | Some (Appeared _) =>
      _ ← perform (MkdirAll (mo_Target cfg)) (λ t, os_mkdir os t (mo_Target cfg)) ErrMkdir;
      mount_unless_mounted cfg
  | _ => throw ErrNotReady
  end.

Definition Unmount (cfg : MountConfig) : mount_io unit :=
  if negb (mo_Enabled cfg) || String.eqb (mo_Target cfg) "" then mret ()
  else λ t, match isMounted t (mo_Target cfg) with
            | Some true =>
                perform (Run "umount" [mo_Target cfg]) (λ t, os_run os t "umount" [mo_Target cfg]) ErrUmount t
            | _ => (t, Ok ())
            end.
End operations.

(** ** The table of mounts *)

Record entry := { me_device : string; me_target : string; me_type : string; me_options : string }.

(** The kernel writes spaces, tabs, line breaks and backslashes in octal. *)
Definition escape_char (c : ascii) : string :=
  let b := byte_val c in
  if b =? 32 then "\040" else if b =? 9 then "\011" else if b =? 10 then "\012"
  else if b =? 92 then "\134" else String c "".

Fixpoint escape (s : string) : string :=
  match s with
  | "" => ""
  | String c s => escape_char c +:+ escape s
  end.

Definition entry_line (e : entry) : string :=
  join " " [escape (me_device e); escape (me_target e); escape (me_type e); escape (me_options e); "0"; "0"].

Fixpoint proc_mounts (es : list entry) : string :=
  match es with
  | [] => ""
  | e :: es => entry_line e +:+ String "010" (proc_mounts es)
  end.

(** Text of printable ASCII characters and the escaped white space. *)
Definition text_byte (b : Z) : Prop := 32 ≤ b ≤ 126 ∨ b = 9 ∨ b = 10.
Definition mount_text (s : string) : Prop := s ≠ "" ∧ Forall text_byte (to_bytes s).
Definition entry_ok (e : entry) : Prop :=
  mount_text (me_device e) ∧ mount_text (me_target e) ∧ mount_text (me_type e) ∧ mount_text (me_options e).

(** Text without a character that is escaped. *)
Definition plain_text (s : string) : Prop := Forall (λ b, visible b ∧ b ≠ 92) (to_bytes s).

(** ** Lemmas: /proc/mounts *)

Lemma escape_char_visible c : text_byte (byte_val c) → Forall visible (to_bytes (escape_char c)).
Proof.
  intros H. unfold escape_char.
  repeat (case_if; [by repeat (constructor; [by vm_compute|])|]).
  cbn. constructor; [|done]. unfold visible, text_byte in *. lia.
Qed.

Lemma escape_char_ne c s : escape_char c +:+ s ≠ "".
Proof. unfold escape_char. by repeat case_if. Qed.

Lemma escape_visible s : mount_text s → escape s ≠ "" ∧ Forall visible (to_bytes (escape s)).
Proof.
  intros [Hne H]. split; [destruct s; [done|apply escape_char_ne]|]. clear Hne.
  induction s as [|c s IH]; [constructor|]. cbn [to_bytes] in H. apply Forall_cons in H as [Hc Hs].
  cbn [escape]. rewrite to_bytes_app, Forall_app. split; [by apply escape_char_visible|by apply IH].
Qed.

Lemma escape_plain s : plain_text s → escape s = s.
Proof.
  unfold plain_text. induction s as [|c s IH]; [done|]. cbn [to_bytes]. intros [[Hv Hb] Hs]%Forall_cons.
  cbn [escape]. rewrite IH by done. unfold escape_char, visible in *.
  repeat (case_if; [lia|]). done.
Qed.

(** Distinct texts have distinct escapes, since the backslash is escaped. *)
Lemma escape_char_inj c d s t :
  escape_char c +:+ s = escape_char d +:+ t → c = d ∧ s = t.
Proof.
  assert (∀ a b, byte_val a = byte_val b → a = b) as Hinj.
  { intros a b E. by rewrite <-(chr_byte_val a), <-(chr_byte_val b), E. }
  assert (byte_val "\" = 92) as Hb by reflexivity.
  unfold escape_char. repeat case_if; rewrite ?str_app_cons, ?str_app_nil_l;
    intros E; simplify_eq; to_prop; first [split; [apply Hinj; congruence|done]|congruence].
Qed.

Lemma escape_inj s t : escape s = escape t → s = t.
Proof.
  induction s as [|c s IH] in t |- *; destruct t as [|d t]; cbn [escape].
  - done.
  - intros E. by destruct (escape_char_ne d (escape t)).
  - intros E. by destruct (escape_char_ne c (escape s)).
  - intros [-> E]%escape_char_inj. f_equal. by apply IH.
Qed.

Lemma entry_words e :
  entry_ok e → Forall (λ s, s ≠ "" ∧ Forall visible (to_bytes s))
    [escape (me_device e); escape (me_target e); escape (me_type e); escape (me_options e); "0"; "0"].
Proof.
  intros (H1 & H2 & H3 & H4). repeat (constructor; [by apply escape_visible|]).
  repeat (constructor; [by split; [|repeat (constructor; [by vm_compute|])]|]). constructor.
Qed.

Lemma line_mounts_entry target e :
  entry_ok e → line_mounts target (entry_line e) = String.eqb (escape (me_target e)) target.
Proof. intros H. unfold line_mounts, entry_line. by rewrite fields_join by (by apply entry_words). Qed.

Lemma join_bytes l :
  Forall (λ s, s ≠ "" ∧ Forall visible (to_bytes s)) l → Forall (λ b, 32 ≤ b ≤ 126) (to_bytes (join " " l)).
Proof.
  intros Hl. induction Hl as [|x l [_ Hx] Hl IH]; [constructor|].
  assert (Forall (λ b, 32 ≤ b ≤ 126) (to_bytes x)) as Hx'.
  { eapply Forall_impl; [exact Hx|]. unfold visible. cbn. lia. }
  destruct l as [|y l]; [done|]. rewrite join_cons, !to_bytes_app, !Forall_app.
  split_and!; [done|by repeat constructor|done].
Qed.

Lemma entry_line_no_nl e : entry_ok e → contains_char "010" (entry_line e) = false.
Proof.
  intros H. apply not_true_is_false. rewrite contains_char_bytes. intros Hin.
  pose proof (join_bytes _ (entry_words e H)) as Hb. rewrite Forall_forall in Hb.
  apply Hb in Hin. vm_compute in Hin. by destruct Hin.
Qed.

(** What the scan of /proc/mounts finds. *)
Lemma lists_target_spec target es :
  Forall entry_ok es →
  lists_target target (proc_mounts es) = true ↔ ∃ e, e ∈ es ∧ escape (me_target e) = target.
Proof.
  intros Hes. unfold lists_target. induction Hes as [|e es He Hes IH].
  - cbn. split; [done|]. intros (e & H & _). set_solver.
  - cbn [proc_mounts]. rewrite split_on_app by (by apply entry_line_no_nl). cbn [existsb].
    rewrite orb_true_iff, IH, line_mounts_entry, String.eqb_eq by done. split.
    + intros [E|(e' & Hin & E)]; [exists e|exists e']; (split; [set_solver|done]).
    + intros (e' & [->|Hin]%elem_of_cons & E); [by left|right; by exists e'].
Qed.

(** ** The laws of the operating system *)

(** The last mount on a target is the one that is undone. *)
Fixpoint drop_first (target : string) (es : list entry) : list entry :=
  match es with
  | [] => []
  | e :: es => if String.eqb (me_target e) target then es else e :: drop_first target es
  end.

Definition remove_last (target : string) (es : list entry) : list entry :=
  rev (drop_first target (rev es)).

Lemma remove_last_snoc target es e : me_target e = target → remove_last target (es ++ [e]) = es.
Proof.
  intros <-. unfold remove_last. rewrite rev_app_distr. cbn. by rewrite String.eqb_refl, rev_involutive.
Qed.

(** The usage of mount(8): a type, options if there are any, the device and the
    target. *)
Inductive mount_usage : list string → string → option string → string → string → Prop :=
  | usage_plain ty dev target : mount_usage ["-t"; ty; dev; target] ty None dev target
  | usage_options ty o dev target : mount_usage ["-t"; ty; "-o"; o; dev; target] ty (Some o) dev target.

(** [mtab] is the table of mounts after what was done; [device_of] the name the
    kernel has for a device; [canonical] are the paths under which the kernel
    records a target as given.  A type other than auto is recorded as given. *)
Record lawful (os : Os) (mtab : list effect → list entry) (device_of : string → string)
    (canonical : string → Prop) : Prop := {
  lw_clock : ticking (500 * millisecond) (os_clock os);
  lw_read : ∀ t text, os_read os t "/proc/mounts" = Some text → text = proc_mounts (mtab t);
  lw_text : ∀ t, Forall entry_ok (mtab t);
  lw_mkdir : ∀ t p, mtab (t ++ [MkdirAll p]) = mtab t;
  lw_mount : ∀ t args ty o dev target, mount_usage args ty o dev target → canonical target →
    os_run os t "mount" args = true →
    ∃ e, me_device e = device_of dev ∧ me_target e = target ∧ (ty ≠ "auto" → me_type e = ty) ∧
      mtab (t ++ [Run "mount" args]) = mtab t ++ [e];
  lw_mount_fails : ∀ t args, os_run os t "mount" args = false → mtab (t ++ [Run "mount" args]) = mtab t;
  lw_umount : ∀ t target, canonical target → os_run os t "umount" [target] = true →
    mtab (t ++ [Run "umount" [target]]) = remove_last target (mtab t)
}.

(** [isMounted] on the table the kernel prints says whether the target,
    as given, is the escaped form of a mounted path: for a target without white
    space and backslashes that is whether it is mounted, and a target with one
    of them is never found, mounted or not. *)
Theorem isMounted_correct os mtab device_of canonical t target :
  lawful os mtab device_of canonical → is_Some (os_read os t "/proc/mounts") →
  ∃ b, isMounted os t target = Some b ∧
    (plain_text target → (b = true ↔ ∃ e, e ∈ mtab t ∧ me_target e = target)) ∧
    (¬ Forall visible (to_bytes target) → b = false).
Proof.
  intros Hl [text E]. unfold isMounted. rewrite E. cbn. eexists. split; [done|].
  rewrite (lw_read _ _ _ _ Hl _ _ E). pose proof (lists_target_spec target _ (lw_text _ _ _ _ Hl t)) as Hs.
  split.
  - intros Hp. rewrite Hs. split; intros (e & Hin & He); exists e; (split; [done|]).
    + apply escape_inj. by rewrite He, escape_plain.
    + by rewrite He, escape_plain.
  - intros Hv. apply not_true_is_false. rewrite Hs. intros (e & Hin & <-). apply Hv.
    pose proof (lw_text _ _ _ _ Hl t) as Ht. rewrite Forall_forall in Ht.
    by apply escape_visible, Ht.
Qed.

Lemma isMounted_spec os mtab device_of canonical t target b :
  lawful os mtab device_of canonical → plain_text target → isMounted os t target = Some b →
  b = true ↔ ∃ e, e ∈ mtab t ∧ me_target e = target.
Proof.
  intros Hl Hp. unfold isMounted. destruct (os_read os t "/proc/mounts") as [text|] eqn:E; [|done].
  cbn. intros [= <-]. rewrite (lw_read _ _ _ _ Hl _ _ E), (lists_target_spec target _ (lw_text _ _ _ _ Hl t)).
  split; intros (e & Hin & He); exists e; (split; [done|]).
  - apply escape_inj. by rewrite He, escape_plain.
  - by rewrite He, escape_plain.
Qed.

Lemma device_appeared os mtab device_of canonical device n :
  lawful os mtab device_of canonical →
  waitForDevice (30 * second) (os_clock os) (λ i, os_stat os i device) = Some (Appeared n) →
  os_stat os n device = true ∧ os_clock os (S n) < os_clock os 0%nat + 30 * second.
Proof.
  intros Hl Ew. destruct (poll_spec (Z.to_nat (30 * second / (500 * millisecond)) + 2) (500 * millisecond)
    (30 * second) (os_clock os) (λ i, os_stat os i device) 0) as (r & E & Hr);
    [vm_compute; congruence..|apply Hl|lia|vm_compute; congruence|].
  change (waitForDevice (30 * second) (os_clock os) (λ i, os_stat os i device) = Some r) in E.
  rewrite Ew in E. injection E as <-. by destruct Hr as (_ & ? & ? & _).
Qed.

(** The command that mounts a disk as it is configured: its type, or auto, its
    options if there are any, its device and its target. *)
Definition mounts_as (cfg : MountConfig) (args : list string) : Prop :=
  ∃ ty o, mount_usage args ty o (mo_Device cfg) (mo_Target cfg) ∧
    ((mo_FsType cfg = "" ∧ ty = "auto") ∨ (mo_FsType cfg ≠ "" ∧ ty = mo_FsType cfg)) ∧
    ((mo_Options cfg = "" ∧ o = None) ∨ (mo_Options cfg ≠ "" ∧ o = Some (mo_Options cfg))).

Lemma mount_args_spec cfg : mounts_as cfg (mount_args cfg).
Proof.
  unfold mounts_as, mount_args.
  destruct (String.eqb_spec (mo_FsType cfg) ""), (String.eqb_spec (mo_Options cfg) "");
    do 2 eexists; (split; [constructor|split; auto]).
Qed.

(** The disk of the configuration, in the table of mounts. *)
Definition configured (device_of : string → string) (cfg : MountConfig) (e : entry) : Prop :=
  me_device e = device_of (mo_Device cfg) ∧ me_target e = mo_Target cfg ∧
  (mo_FsType cfg ≠ "" → mo_FsType cfg ≠ "auto" → me_type e = mo_FsType cfg).

Lemma configured_mount os mtab device_of canonical cfg t :
  lawful os mtab device_of canonical → canonical (mo_Target cfg) →
  os_run os t "mount" (mount_args cfg) = true →
  ∃ e, configured device_of cfg e ∧ mtab (t ++ [Run "mount" (mount_args cfg)]) = mtab t ++ [e].
Proof.
  intros Hl Hc Hr. destruct (mount_args_spec cfg) as (ty & o & Hu & Hty & _).
  destruct (lw_mount _ _ _ _ Hl _ _ _ _ _ _ Hu Hc Hr) as (e & H1 & H2 & H3 & H4).
  exists e. unfold configured. split_and!; try done. intros Hne Hauto. destruct Hty as [[? _]|[_ ->]]; [done|by apply H3].
Qed.

Lemma unmount_restores os mtab device_of canonical cfg t t' e text es :
  lawful os mtab device_of canonical → canonical (mo_Target cfg) → plain_text (mo_Target cfg) →
  mo_Enabled cfg = true → mo_Target cfg ≠ "" → me_target e = mo_Target cfg → mtab t = es ++ [e] →
  os_read os t "/proc/mounts" = Some text → Unmount os cfg t = (t', Ok ()) → mtab t' = es.
Proof.
  intros Hl Hcan Hp Hen Htg He Ee Htext. unfold Unmount, perform. rewrite Hen.
  rewrite (proj2 (String.eqb_neq _ _) Htg). cbn [negb orb].
  destruct (isMounted os t (mo_Target cfg)) as [[|]|] eqn:Ei.
  - destruct (os_run os t "umount" _) eqn:Eu; [|done]. intros [= <-].
    rewrite (lw_umount _ _ _ _ Hl) by done. rewrite Ee. by apply remove_last_snoc.
  - exfalso. assert (false = true); [|done]. apply (isMounted_spec _ _ _ _ _ _ _ Hl Hp Ei).
    exists e. rewrite Ee. split; [set_solver|done].
  - unfold isMounted in Ei. by rewrite Htext in Ei.
Qed.

(** C35: [Mount] of an enabled mount whose target is recorded as it is spelled:
    when it returns nil the device was there within thirty seconds and the
    target is mounted; mount is run at most once, only for a target that is not
    mounted, after the directory was made, and with the type (or auto), the
    options, the device and the target of the configuration; it then adds just
    this device on this target to the table of mounts.  On every error the table
    is as before.  [Unmount] afterwards restores the table if the target was not
    mounted before. *)
Theorem Mount_correct os mtab device_of canonical cfg t :
  lawful os mtab device_of canonical → canonical (mo_Target cfg) → plain_text (mo_Target cfg) →
  mo_Enabled cfg = true →
  let mounted t := ∃ e, e ∈ mtab t ∧ me_target e = mo_Target cfg in
  let '(t', r) := Mount os cfg t in
  (r = Ok () → mounted t' ∧ mo_Device cfg ≠ "" ∧ ∃ n, os_stat os n (mo_Device cfg) = true ∧
     os_clock os (S n) < os_clock os 0%nat + 30 * second) ∧
  (r = Ok () → ¬ mounted t → ∃ e, configured device_of cfg e ∧ mtab t' = mtab t ++ [e]) ∧
  (∀ e, r = Err e → mtab t' = mtab t) ∧
  (t' = t ∨ t' = t ++ [MkdirAll (mo_Target cfg)] ∨
   (∃ args, mounts_as cfg args ∧ t' = t ++ [MkdirAll (mo_Target cfg); Run "mount" args]) ∧ ¬ mounted t) ∧
  (r = Ok () → ¬ mounted t → is_Some (os_read os t' "/proc/mounts") →
   ∀ t'', Unmount os cfg t' = (t'', Ok ()) → mtab t'' = mtab t).
Proof.
  intros Hl Hcan Hp Hen mounted. unfold Mount. rewrite Hen. cbn [negb]. io_unfold.
  assert (∀ (t : list effect) (e : mount_error), Err e = Ok () → False) as Hne by done.
  destruct (String.eqb_spec (mo_Device cfg) "") as [_|Hd]; [split_and!; by auto|].
  destruct (String.eqb_spec (mo_Target cfg) "") as [_|Htg]; [split_and!; by auto|].
  destruct (waitForDevice _ _ _) as [[n|n]|] eqn:Ew; [|split_and!; by auto..].
  pose proof (device_appeared _ _ _ _ _ _ Hl Ew) as Hn.
  unfold perform at 1. destruct (os_mkdir os t (mo_Target cfg)).
  2: { split_and!; [done|done|intros; apply (lw_mkdir _ _ _ _ Hl)|by auto|done]. }
  unfold mount_unless_mounted, perform. set (t1 := t ++ [_]).
  pose proof (lw_mkdir _ _ _ _ Hl t (mo_Target cfg)) as Em. fold t1 in Em.
  destruct (isMounted os t1 (mo_Target cfg)) as [[|]|] eqn:Ei.
  - pose proof (proj1 (isMounted_spec _ _ _ _ _ _ _ Hl Hp Ei) eq_refl) as Hm.
    assert (mounted t) as Hmt by (unfold mounted; by rewrite <-Em).
    split_and!; [intros _; split_and!; [done|done|by exists n]|done|done|by auto|done].
  - assert (¬ mounted t) as Hno.
    { intros Hm. unfold mounted in Hm. rewrite <-Em in Hm.
      by apply (isMounted_spec _ _ _ _ _ _ _ Hl Hp Ei) in Hm. }
    assert (t1 ++ [Run "mount" (mount_args cfg)] =
      t ++ [MkdirAll (mo_Target cfg); Run "mount" (mount_args cfg)]) as Et by (unfold t1; by rewrite <-app_assoc).
    assert (∃ args, mounts_as cfg args ∧ t1 ++ [Run "mount" (mount_args cfg)] =
      t ++ [MkdirAll (mo_Target cfg); Run "mount" args]) as Hargs.
    { exists (mount_args cfg). split; [apply mount_args_spec|done]. }
    destruct (os_run os t1 "mount" (mount_args cfg)) eqn:Er.
    + destruct (configured_mount _ _ _ _ cfg t1 Hl Hcan Er) as (e & He & Ee). rewrite Em in Ee.
      split_and!; [|intros _ _; by exists e|done|by right; right|].
      * intros _. split_and!; [|done|by exists n]. exists e. rewrite Ee. split; [set_solver|apply He].
      * intros _ _ [text Htext] t''. by eapply (unmount_restores os mtab device_of canonical cfg); [done|done|done|done|done|apply He|exact Ee|exact Htext].
    + split_and!; [done|done|intros e _; by rewrite (lw_mount_fails _ _ _ _ Hl)|by right; right|done].
  - split_and!; [done|done|done|by auto|done].
Qed.

(** ** A system that works *)

Definition new_entry (ty dev target : string) : entry := {|
  me_device := dev; me_target := target;
  me_type := if String.eqb ty "auto" then "ext4" else ty; me_options := "rw" |}.

Definition parse_mount (args : list string) : option (string * string * string) :=
  match args with
  | [_; ty; dev; target] | [_; ty; _; _; dev; target] => Some (ty, dev, target)
  | _ => None
  end.

#[export] Instance text_byte_dec b : Decision (text_byte b).
Proof. unfold text_byte. apply _. Defined.

Lemma literal_text s :
  String.eqb s "" = false → forallb (λ b, (32 <=? b) && (b <=? 126)) (to_bytes s) = true → mount_text s.
Proof.
  intros H1%String.eqb_neq H2. split; [done|]. rewrite forallb_forall in H2.
  apply Forall_forall. intros b Hb%list_elem_of_In%H2. unfold text_byte. lia.
Qed.

#[export] Instance mount_text_dec s : Decision (mount_text s).
Proof. unfold mount_text. apply _. Defined.

(** The entry of a mount that succeeds. *)
Definition mountable (args : list string) : option entry :=
  match parse_mount args with
  | Some (ty, dev, target) =>
      if bool_decide (mount_text ty ∧ mount_text dev ∧ mount_text target) then Some (new_entry ty dev target)
      else None
  | None => None
  end.

Definition demo_step (es : list entry) (e : effect) : list entry :=
  match e with
  | MkdirAll _ => es
  | Run name args =>
      if String.eqb name "mount" then match mountable args with Some e => es ++ [e] | None => es end
      else match args with [target] => remove_last target es | _ => es end
  end.

Definition demo_mtab (t : list effect) : list entry := fold_left demo_step t [].

Definition demo_os : Os := {|
  os_clock := demo_clock; os_stat := λ n _, (8 <=? n)%nat; os_mkdir := λ _ _, true;
  os_read := λ t _, Some (proc_mounts (demo_mtab t));
  os_run := λ _ name args, if String.eqb name "mount" then bool_decide (is_Some (mountable args)) else true |}.

Lemma demo_mtab_snoc t e : demo_mtab (t ++ [e]) = demo_step (demo_mtab t) e.
Proof. unfold demo_mtab. by rewrite fold_left_app. Qed.

Lemma mountable_ok args e : mountable args = Some e → entry_ok e.
Proof.
  unfold mountable. destruct (parse_mount args) as [[[ty dev] target]|]; [|done].
  case_bool_decide as H; [|done]. intros [= <-]. destruct H as (H1 & H2 & H3).
  split_and!; [done|done| |by apply literal_text]. cbn. by case_if; [apply literal_text|].
Qed.

Lemma Forall_drop_first P target es : Forall P es → Forall P (drop_first target es).
Proof. induction 1 as [|e es He Hes IH]; cbn; [done|]. case_if; [done|by constructor]. Qed.

Lemma demo_lawful : lawful demo_os demo_mtab (λ d, d) (λ _, True).
Proof.
  split; try done.
  - apply demo_ticking.
  - intros t text [= <-]. done.
  - intros t. induction t as [|e t IH] using rev_ind; [constructor|]. rewrite demo_mtab_snoc.
    destruct e as [p|name args]; cbn [demo_step]; [done|].
    destruct (String.eqb name "mount").
    + destruct (mountable args) as [e|] eqn:Em; [|done].
      apply Forall_app. split; [done|]. apply Forall_singleton. by eapply mountable_ok.
    + destruct args as [|target [|]]; [done| |done]. by apply Forall_rev, Forall_drop_first, Forall_rev.
  - intros t p. by rewrite demo_mtab_snoc.
  - intros t args ty o dev target Hu _ Hr. cbn in Hr. to_prop. destruct Hr as [e He].
    exists e. rewrite demo_mtab_snoc. cbn. rewrite He.
    assert (e = new_entry ty dev target) as ->.
    { unfold mountable in He. destruct Hu; cbn in He; case_bool_decide; congruence. }
    split_and!; try done. intros Hty. cbn. by rewrite (proj2 (String.eqb_neq _ _) Hty).
  - intros t args Hr. cbn in Hr. rewrite demo_mtab_snoc. cbn. to_prop.
    destruct (mountable args); [by destruct Hr|done].
  - intros t target _ _. by rewrite demo_mtab_snoc.
Qed.

Definition demo_mount (target : string) : MountConfig := {|
  mo_Enabled := true; mo_Device := "/dev/sda1"; mo_FsType := ""; mo_Target := target;
  mo_Options := "noatime" |}.

(** A target with a space is mounted again by every call and never unmounted. *)
Example space_mounted_twice :
  let cfg := demo_mount "/mnt/my disk" in
  let t := (Mount demo_os cfg (Mount demo_os cfg []).1).1 in
  map me_target (demo_mtab t) = ["/mnt/my disk"; "/mnt/my disk"] ∧
  Unmount demo_os cfg t = (t, Ok ()).
Proof. vm_compute. split; reflexivity. Qed.

Lemma isMounted_correct_witness :
  ∃ b, isMounted demo_os [] "/mnt/my disk" = Some b ∧ b = false.
Proof.
  destruct (isMounted_correct demo_os demo_mtab (λ d, d) (λ _, True) [] "/mnt/my disk" demo_lawful) as (b & H1 & _ & H2);
    [by eexists|].
  exists b. split; [exact H1|]. apply H2. intros H. rewrite Forall_forall in H.
  assert (visible 32) as [? _]; [|lia]. apply H. apply list_elem_of_lookup. exists 7%nat. reflexivity.
Defined.

(** The disk of the configuration is mounted, and can be unmounted again. *)
Lemma Mount_correct_witness :
  let cfg := demo_mount "/mnt/data" in
  (∃ e, configured (λ d, d) cfg e ∧ demo_mtab (Mount demo_os cfg []).1 = [e]) ∧
  ∀ t'', Unmount demo_os cfg (Mount demo_os cfg []).1 = (t'', Ok ()) → demo_mtab t'' = [].
Proof.
  cbn zeta.
  assert (plain_text "/mnt/data") as Hp.
  { unfold plain_text. apply Forall_forall. intros b Hb.
    assert (forallb (λ b, (33 <=? b) && (b <=? 126) && negb (b =? 92)) (to_bytes "/mnt/data") = true) as H
      by (vm_compute; reflexivity).
    rewrite forallb_forall in H. apply list_elem_of_In in Hb. apply H in Hb. to_prop.
    unfold visible. lia. }
  pose proof (Mount_correct demo_os demo_mtab (λ d, d) (λ _, True) (demo_mount "/mnt/data") [] demo_lawful I Hp eq_refl) as H.
  cbn zeta in H.
  assert ((Mount demo_os (demo_mount "/mnt/data") []).2 = Ok ()) as Hr by (vm_compute; reflexivity).
  destruct (Mount demo_os (demo_mount "/mnt/data") []) as [t r]. cbn [snd fst] in *.
  assert (¬ ∃ e : entry, e ∈ demo_mtab [] ∧ me_target e = mo_Target (demo_mount "/mnt/data")) as Hno.
  { intros (e & He & _). by apply elem_of_nil in He. }
  destruct H as (_ & H1 & _ & _ & H2). split; [by apply H1|]. by apply H2; [| |eexists].
Defined.
