(* ===== verification/NetSetup.v ===== *)
(** * pkg/vlan and pkg/netsetup: bridges, ports and addresses

    [vlan.Setup], [netsetup.Setup] and the functions that add an interface to a
    bridge or assign an address to it, over an interface of the netlink library:
    its calls, and laws about what they do to the table of links.  A reference
    implementation of the interface is at the end. *)

From Stdlib Require Import Ascii.
From S2P Require Import Prelude GoStrings GoStrconv GoNet Config.
From S2P Require Startup.
Open Scope Z_scope.

(** ** The netlink library *)

(** Errors: the thing exists already (as [os.IsExist] tells), or any other. *)
Inductive nl_error := NlExists | NlOther.

(** Errors of a lookup: there is no such link, or any other. *)
Inductive lookup_error := LookupNotFound | LookupOther.

(** What the kernel knows of a link. *)
Record iface (A : Type) := { if_master : option string; if_up : bool; if_addrs : list A }.
Arguments if_master {A} _.
Arguments if_up {A} _.
Arguments if_addrs {A} _.
Arguments Build_iface {A} _ _ _.

Definition new_iface {A} : iface A := {| if_master := None; if_up := false; if_addrs := [] |}.

Definition set_master {A} (b : string) (i : iface A) : iface A :=
  {| if_master := Some b; if_up := if_up i; if_addrs := if_addrs i |}.
Definition set_up {A} (i : iface A) : iface A :=
  {| if_master := if_master i; if_up := true; if_addrs := if_addrs i |}.
Definition add_addr `{EqDecision A} (a : A) (i : iface A) : iface A :=
  {| if_master := if_master i; if_up := if_up i;
     if_addrs := if bool_decide (a ∈ if_addrs i) then if_addrs i else if_addrs i ++ [a] |}.

(** The calls of the library on a kernel state [net], the table of links it
    stands for, and what the calls do to it: a failed call changes nothing. *)
Class Netlink := {
  net : Type;
  link : Type;
  addr : Type;
  addr_eq :: EqDecision addr;
  link_name : link → string;
  links : net → gmap string (iface addr);
  ParseAddr : string → option addr;
  LinkAdd : string → io net nl_error unit;
  LinkByName : string → net → result lookup_error link;
  LinkSetMaster : link → link → io net nl_error unit;
  LinkSetUp : link → io net nl_error unit;
  AddrAdd : link → addr → io net nl_error unit;
  LinkByName_name n w l : LinkByName n w = Ok l → link_name l = n ∧ is_Some (links w !! n);
  LinkByName_none n w : LinkByName n w = Err LookupNotFound → links w !! n = None;
  LinkAdd_ok n w w' : LinkAdd n w = (w', Ok ()) →
    links w !! n = None ∧ links w' = <[n := new_iface]> (links w);
  LinkAdd_err n w w' e : LinkAdd n w = (w', Err e) →
    links w' = links w ∧ (e = NlExists → is_Some (links w !! n));
  LinkSetMaster_ok l b w w' : LinkSetMaster l b w = (w', Ok ()) →
    links w' = alter (set_master (link_name b)) (link_name l) (links w);
  LinkSetMaster_err l b w w' e : LinkSetMaster l b w = (w', Err e) → links w' = links w;
  LinkSetUp_ok l w w' : LinkSetUp l w = (w', Ok ()) → links w' = alter set_up (link_name l) (links w);
  LinkSetUp_err l w w' e : LinkSetUp l w = (w', Err e) → links w' = links w;
  AddrAdd_ok l a w w' : AddrAdd l a w = (w', Ok ()) →
    links w' = alter (add_addr a) (link_name l) (links w);
  AddrAdd_err l a w w' e : AddrAdd l a w = (w', Err e) →
    links w' = links w ∧ (e = NlExists → ∀ i, links w !! link_name l = Some i → a ∈ if_addrs i)
}.

Inductive setup_error :=
  | ErrParseAddress | ErrCreateBridge | ErrGetBridge | ErrGetInterface
  | ErrEnslave (port : string) | ErrBringUp (name : string) | ErrAssign.

Section operations.
Context `{N : Netlink}.

Abbreviation net_io := (io net setup_error).

Definition get_link (n : string) : net_io (result lookup_error link) := λ w, (w, Ok (LinkByName n w)).

(** A call whose error [os.IsExist] is ignored. *)
Definition unless_exists (m : io net nl_error unit) (err : setup_error) : net_io unit := λ w,
  match m w with
  | (w, Err NlOther) => (w, Err err)
  | (w, _) => (w, Ok ())
  end.

Definition or_error (m : io net nl_error unit) (err : setup_error) : net_io unit :=
  or_else_throw (λ _, err) m.

(** The loop over the ports: one whose lookup fails, for whatever reason, is
    skipped. *)
Fixpoint enslave_all (br : link) (ports : list string) : net_io unit :=
  match ports with
  | [] => mret ()
  | name :: ports =>
      port ← get_link name;
      _ ← match port with
          | Err _ => mret ()
          | Ok l =>
              _ ← or_error (LinkSetMaster l br) (ErrEnslave name);
              or_error (LinkSetUp l) (ErrBringUp name)
          end;
      enslave_all br ports
  end.

(** [netsetup.Setup] *)
Definition Setup (bridgeName : string) (lanIfaces : list string) (address : string) : net_io link :=
  match ParseAddr address with
  | None => throw ErrParseAddress
  | Some ipNet =>
      _ ← unless_exists (LinkAdd bridgeName) ErrCreateBridge;
      br ← get_link bridgeName;
      match br with
      | Err _ => throw ErrGetBridge
      | Ok brLink =>
          _ ← enslave_all brLink lanIfaces;
          _ ← unless_exists (AddrAdd brLink ipNet) ErrAssign;
          _ ← or_error (LinkSetUp brLink) (ErrBringUp bridgeName);
          mret brLink
      end
  end.

Record VLANBridge := {
  vb_ID : Z; vb_Name : string; vb_Bridge : link; vb_Subnet : option IPNet
}.

(** [vlan.setupOne] *)
Definition setupOne (vc : VLANConfig) : net_io VLANBridge :=
  let bridgeName := Startup.BridgeName (v_ID vc) in
  match ParseAddr (v_Address vc) with
  | None => throw ErrParseAddress
  | Some ipNet =>
      _ ← unless_exists (LinkAdd bridgeName) ErrCreateBridge;
      br ← get_link bridgeName;
      match br with
      | Err _ => throw ErrGetBridge
      | Ok brLink =>
          _ ← enslave_all brLink (v_Ports vc);
          _ ← unless_exists (AddrAdd brLink ipNet) ErrAssign;
          _ ← or_error (LinkSetUp brLink) (ErrBringUp bridgeName);
          mret {| vb_ID := v_ID vc; vb_Name := v_Name vc; vb_Bridge := brLink;
                  vb_Subnet := snd <$> ParseCIDR (v_Address vc) |}
      end
  end.

(** [vlan.Setup]; the error is given with the id of the VLAN. *)
Fixpoint vlan_Setup (vlans : list VLANConfig) : io net (Z * setup_error) (list VLANBridge) :=
  match vlans with
  | [] => mret []
  | vc :: vlans =>
      vb ← or_else_throw (pair (v_ID vc)) (setupOne vc);
      rest ← vlan_Setup vlans;
      mret (vb :: rest)
  end.

(** The common part of [netsetup.BridgeAddIface] and [vlan.AddInterface]. *)
Definition BridgeAddIface (bridgeName ifaceName : string) : net_io unit :=
  br ← get_link bridgeName;
  match br with
  | Err _ => throw ErrGetBridge
  | Ok br =>
      i ← get_link ifaceName;
      match i with
      | Err _ => throw ErrGetInterface
      | Ok i =>
          _ ← or_error (LinkSetMaster i br) (ErrEnslave ifaceName);
          or_error (LinkSetUp i) (ErrBringUp ifaceName)
      end
  end.

Definition AddInterface (vlanID : Z) (ifaceName : string) : net_io unit :=
  BridgeAddIface (Startup.BridgeName vlanID) ifaceName.

(** [assignIP] of cmd/gokrazy-router. *)
Definition assignIP (ifaceName cidr : string) : net_io unit :=
  l ← get_link ifaceName;
  match l with
  | Err _ => throw ErrGetInterface
  | Ok l =>
      match ParseAddr cidr with
      | None => throw ErrParseAddress
      | Some a =>
          _ ← unless_exists (AddrAdd l a) ErrAssign;
          or_error (LinkSetUp l) (ErrBringUp ifaceName)
      end
  end.

(** ** What the operations mean for the table of links *)

Abbreviation table := (gmap string (iface addr)).

(** A bridge with its ports and its address. *)
Definition configure (b : string) (ports : list string) (a : addr) (m : table) : table :=
  let m := match m !! b with Some _ => m | None => <[b := new_iface]> m end in
  let m := fold_left (λ m p, alter (λ i, set_up (set_master b i)) p m) ports m in
  alter (λ i, set_up (add_addr a i)) b m.

(** The reference: the VLANs, one after the other. *)
Definition configure_vlans (vlans : list VLANConfig) (m : table) : table :=
  fold_left (λ m v, match ParseAddr (v_Address v) with
                    | Some a => configure (Startup.BridgeName (v_ID v)) (v_Ports v) a m
                    | None => m
                    end) vlans m.

(** A name whose lookup may fail although the link is there. *)
Definition flaky (n : string) : Prop := ∃ w, LinkByName n w = Err LookupOther.

(** ** Lemmas: successful runs *)

(** The ports without some of the flaky ones. *)
Inductive thinned : list string → list string → Prop :=
  | thinned_nil : thinned [] []
  | thinned_keep p ports found : thinned ports found → thinned (p :: ports) (p :: found)
  | thinned_skip p ports found : flaky p → thinned ports found → thinned (p :: ports) found.

Lemma thinned_in ports found x : thinned ports found → x ∈ found → x ∈ ports.
Proof. induction 1; set_solver. Qed.

Lemma thinned_not_flaky ports found x : thinned ports found → ¬ flaky x → x ∈ ports → x ∈ found.
Proof. induction 1; intros Hf; rewrite ?elem_of_cons; naive_solver. Qed.

Lemma thinned_same ports found : thinned ports found → (∀ p, p ∈ ports → ¬ flaky p) → found = ports.
Proof.
  induction 1 as [|p ports found _ IH|p ports found Hf _ IH]; intros Hn; [done| |].
  - f_equal. apply IH. set_solver.
  - destruct (Hn p); [by left|done].
Qed.

Lemma unless_exists_ok m err w w' :
  unless_exists m err w = (w', Ok ()) → ∃ r, m w = (w', r) ∧ r ≠ Err NlOther.
Proof. unfold unless_exists. destruct (m w) as [w1 [[|]|[]]]; intros [= <-]; eexists; split; done. Qed.

Lemma or_error_ok m err w w' : or_error m err w = (w', Ok ()) → m w = (w', Ok ()).
Proof. unfold or_error, or_else_throw. by destruct (m w) as [w1 [|[]]]; intros [= <-]. Qed.

Lemma add_bridge_ok b err w w' :
  unless_exists (LinkAdd b) err w = (w', Ok ()) →
  links w' = match links w !! b with Some _ => links w | None => <[b := new_iface]> (links w) end.
Proof.
  intros (r & E & Hr)%unless_exists_ok. destruct r as [e|[]].
  - destruct e; [|done]. destruct (LinkAdd_err _ _ _ _ E) as [-> H].
    by destruct (H eq_refl) as [i ->].
  - destruct (LinkAdd_ok _ _ _ E) as [-> ->]. done.
Qed.

Lemma assign_ok l a err w w' :
  unless_exists (AddrAdd l a) err w = (w', Ok ()) → links w' = alter (add_addr a) (link_name l) (links w).
Proof.
  intros (r & E & Hr)%unless_exists_ok. destruct r as [e|[]]; [|by apply AddrAdd_ok].
  destruct e; [|done]. destruct (AddrAdd_err _ _ _ _ _ E) as [-> H]. rewrite alter_id; [done|].
  intros i Hi. specialize (H eq_refl i Hi). destruct i. unfold add_addr. cbn in *.
  by rewrite bool_decide_eq_true_2.
Qed.

Lemma enslave_ok l br e1 e2 w w' :
  (_ ← or_error (LinkSetMaster l br) e1; or_error (LinkSetUp l) e2) w = (w', Ok ()) →
  links w' = alter (λ i, set_up (set_master (link_name br) i)) (link_name l) (links w).
Proof.
  intros (w1 & [] & E1%or_error_ok & E2%or_error_ok)%bind_ok.
  rewrite (LinkSetUp_ok _ _ _ E2), (LinkSetMaster_ok _ _ _ _ E1).
  by rewrite alter_alter_eq.
Qed.

Lemma enslave_all_ok br ports w w' :
  enslave_all br ports w = (w', Ok ()) →
  ∃ found, thinned ports found ∧
    links w' = fold_left (λ m p, alter (λ i, set_up (set_master (link_name br) i)) p m) found (links w).
Proof.
  induction ports as [|p ports IH] in w |- *; [intros [= <-]; exists []; by split; [constructor|]|].
  cbn [enslave_all]. intros (w1 & o & E & H)%bind_ok.
  apply bind_ok in H as (w2 & [] & E2 & (found & Hf & H)%IH). injection E as <- <-.
  destruct (LinkByName p w) as [e|l] eqn:El.
  - injection E2 as <-. destruct e.
    + exists (p :: found). split; [by constructor|]. cbn [fold_left]. rewrite H. f_equal. symmetry.
      apply alter_id'. by apply LinkByName_none.
    + exists found. split; [|done]. constructor; [by exists w|done].
  - exists (p :: found). split; [by constructor|]. cbn [fold_left]. rewrite H. f_equal.
    destruct (LinkByName_name _ _ _ El) as [<- _]. by eapply enslave_ok.
Qed.

Lemma Setup_ok b ports address w w' l :
  Setup b ports address w = (w', Ok l) →
  ∃ a found, ParseAddr address = Some a ∧ thinned ports found ∧ link_name l = b ∧
    links w' = configure b found a (links w).
Proof.
  unfold Setup. destruct (ParseAddr address) as [a|]; [|done].
  intros (w1 & [] & E1%add_bridge_ok & H)%bind_ok. apply bind_ok in H as (w2 & o & E2 & H).
  injection E2 as <- <-.
  destruct (LinkByName b w1) as [|br] eqn:Eb; [done|]. destruct (LinkByName_name _ _ _ Eb) as [Hn _].
  apply bind_ok in H as (w2 & [] & (found & Hf & E2)%enslave_all_ok & H).
  apply bind_ok in H as (w3 & [] & E3%assign_ok & H).
  apply bind_ok in H as (w4 & [] & E4%or_error_ok%LinkSetUp_ok & H). injection H as <- <-.
  exists a, found. split_and!; [done|done|done|]. rewrite E4, E3, E2, E1, Hn. unfold configure.
  by rewrite alter_alter_eq.
Qed.

(** [setupOne] is [netsetup.Setup] for the bridge of the VLAN. *)
Lemma setupOne_Setup vc w :
  setupOne vc w =
    (br ← Setup (Startup.BridgeName (v_ID vc)) (v_Ports vc) (v_Address vc);
     mret {| vb_ID := v_ID vc; vb_Name := v_Name vc; vb_Bridge := br;
             vb_Subnet := snd <$> ParseCIDR (v_Address vc) |}) w.
Proof.
  unfold setupOne, Setup. destruct (ParseAddr (v_Address vc)) as [a|]; [|done]. io_unfold.
  destruct (unless_exists _ _ w) as [w1 [|[]]]; [done|]. cbn.
  destruct (LinkByName _ w1) as [|br]; [done|].
  destruct (enslave_all br (v_Ports vc) w1) as [w2 [|[]]]; [done|].
  destruct (unless_exists _ _ w2) as [w3 [|[]]]; [done|]. by destruct (or_error _ _ w3) as [w4 [|[]]].
Qed.

(** A VLAN and what its set-up needs of it. *)
Definition planned (v : VLANConfig) (p : string * list string * addr) : Prop :=
  p.1.1 = Startup.BridgeName (v_ID v) ∧ thinned (v_Ports v) p.1.2 ∧ ParseAddr (v_Address v) = Some p.2.

Definition configure_all (plan : list (string * list string * addr)) (m : table) : table :=
  fold_left (λ m p, configure p.1.1 p.1.2 p.2 m) plan m.

Lemma vlan_Setup_ok vlans w w' bs :
  vlan_Setup vlans w = (w', Ok bs) →
  ∃ plan, Forall2 planned vlans plan ∧ links w' = configure_all plan (links w) ∧
    Forall2 (λ v b, vb_ID b = v_ID v ∧ link_name (vb_Bridge b) = Startup.BridgeName (v_ID v) ∧
                    vb_Subnet b = snd <$> ParseCIDR (v_Address v)) vlans bs.
Proof.
  induction vlans as [|v vlans IH] in w, bs |- *.
  - intros [= <- <-]. exists []. split_and!; constructor.
  - cbn [vlan_Setup]. intros (w1 & vb & E1 & H)%bind_ok. apply bind_ok in H as (w2 & rest & E2 & E3).
    injection E3 as <- <-. destruct (IH _ _ E2) as (plan & H1 & H2 & H3).
    unfold or_else_throw in E1. rewrite setupOne_Setup in E1.
    destruct ((br ← Setup _ _ _; _) w) as [w1' [e|vb']] eqn:E; [done|]. injection E1 as <- <-.
    apply bind_ok in E as (w3 & br & E & E3). apply Setup_ok in E as (a & found & Ha & Hf & Hn & Hl).
    injection E3 as <- <-. exists ((Startup.BridgeName (v_ID v), found, a) :: plan).
    split_and!; [by constructor| |by constructor]. by rewrite H2, Hl.
Qed.

(** ** Lemmas: one link through the set-up *)

Definition enter (b : string) (i : iface addr) : iface addr := set_up (set_master b i).
Definition address (a : addr) (i : iface addr) : iface addr := set_up (add_addr a i).

Lemma enter_enter b b' i : enter b (enter b' i) = enter b i.
Proof. reflexivity. Qed.

Lemma fold_enter_lookup b ports (m : table) x :
  fold_left (λ m p, alter (enter b) p m) ports m !! x =
    if decide (x ∈ ports) then enter b <$> m !! x else m !! x.
Proof.
  induction ports as [|p ports IH] in m |- *; [by rewrite decide_False by set_solver|].
  cbn [fold_left]. rewrite IH. destruct (decide (p = x)) as [->|Hne].
  - rewrite lookup_alter_eq, (decide_True (P := x ∈ x :: ports)) by set_solver.
    case_decide; [|done]. by destruct (m !! x).
  - rewrite lookup_alter_ne by done. by do 2 case_decide; set_solver.
Qed.

(** What the set-up of one bridge does to one link. *)
Definition step_link (x : string) (p : string * list string * addr) (o : option (iface addr))
    : option (iface addr) :=
  let o := if decide (x = p.1.1) then Some (default new_iface o) else o in
  let o := if decide (x ∈ p.1.2) then enter p.1.1 <$> o else o in
  if decide (x = p.1.1) then address p.2 <$> o else o.

Lemma configure_lookup p m x : configure p.1.1 p.1.2 p.2 m !! x = step_link x p (m !! x).
Proof.
  unfold configure, step_link. set (m1 := match m !! p.1.1 with Some _ => m | None => _ end).
  assert (m1 !! x = if decide (x = p.1.1) then Some (default new_iface (m !! x)) else m !! x) as E.
  { unfold m1. case_decide as Hx; [subst x|].
    - destruct (m !! p.1.1) as [i|] eqn:Ei; [by rewrite Ei|by rewrite lookup_insert_eq].
    - destruct (m !! p.1.1); [done|by rewrite lookup_insert_ne]. }
  rewrite <-E. clear E. pose proof (fold_enter_lookup p.1.1 p.1.2 m1 x) as Ef. unfold enter in Ef at 1.
  destruct (decide (x = p.1.1)) as [->|Hne].
  - rewrite lookup_alter_eq, Ef. done.
  - rewrite lookup_alter_ne by done. by rewrite Ef.
Qed.

Lemma configure_all_lookup plan m x :
  configure_all plan m !! x = fold_left (λ o p, step_link x p o) plan (m !! x).
Proof.
  unfold configure_all. induction plan as [|p plan IH] in m |- *; [done|].
  cbn [fold_left]. by rewrite IH, configure_lookup.
Qed.

Lemma step_link_some x p i : ∃ i', step_link x p (Some i) = Some i' ∧
  if_master i' = (if decide (x ∈ p.1.2) then Some p.1.1 else if_master i) ∧
  (if_up i = true ∨ x ∈ p.1.2 ∨ x = p.1.1 → if_up i' = true) ∧
  (∀ a, a ∈ if_addrs i ∨ x = p.1.1 ∧ a = p.2 → a ∈ if_addrs i').
Proof.
  unfold step_link. cbn [default from_option].
  assert (∀ a j, a ∈ if_addrs (add_addr p.2 j) ↔ a ∈ if_addrs j ∨ a = p.2) as Ha.
  { intros a j. unfold add_addr. cbn. case_bool_decide; set_solver. }
  repeat case_decide; eexists; (split; [reflexivity|]); unfold address, enter;
    cbn -[add_addr]; (split_and!; [done|tauto|intros a]);
    rewrite ?Ha; cbn; intros Hor; intuition congruence.
Qed.

(** A link that is there keeps its place through the set-up. *)
Lemma configure_all_some plan x i : ∃ i', fold_left (λ o p, step_link x p o) plan (Some i) = Some i' ∧
  if_master i' = match last (filter (λ p, x ∈ p.1.2) plan) with Some p => Some p.1.1 | None => if_master i end ∧
  (if_up i = true ∨ (∃ p, p ∈ plan ∧ (x ∈ p.1.2 ∨ x = p.1.1)) → if_up i' = true) ∧
  (∀ a, a ∈ if_addrs i ∨ (∃ p, p ∈ plan ∧ x = p.1.1 ∧ a = p.2) → a ∈ if_addrs i').
Proof.
  induction plan as [|p plan IH] in i |- *.
  { exists i. split_and!; [done|done|set_solver|set_solver]. }
  cbn [fold_left]. destruct (step_link_some x p i) as (i1 & -> & H1 & H2 & H3).
  destruct (IH i1) as (i' & -> & H4 & H5 & H6). exists i'. split_and!; [done| | |].
  2: { intros [Hu|(q & [->|Hq]%elem_of_cons & Hx)]; apply H5; [by auto|tauto|right; by exists q]. }
  2: { intros a [Ha|(q & [->|Hq]%elem_of_cons & Hx)]; apply H6; [by auto|by auto|right; by exists q]. }
  rewrite H4, H1, filter_cons. case_decide; [rewrite last_cons|]; by destruct (last _).
Qed.

(** The bridges are there, up, and have their addresses. *)
Lemma configure_all_bridge plan m p : p ∈ plan →
  ∃ i, configure_all plan m !! p.1.1 = Some i ∧ if_up i = true ∧ p.2 ∈ if_addrs i.
Proof.
  rewrite configure_all_lookup. intros (plan1 & plan2 & ->)%list_elem_of_split.
  rewrite fold_left_app. cbn [fold_left].
  assert (∀ o, ∃ i, step_link p.1.1 p o = Some i ∧ if_up i = true ∧ p.2 ∈ if_addrs i) as Hp.
  { intros o. destruct (step_link_some p.1.1 p (default new_iface o)) as (i & E & _ & H1 & H2).
    exists i. split_and!; [|by auto|by auto]. rewrite <-E. unfold step_link.
    by rewrite !(decide_True (P := p.1.1 = p.1.1)) by done. }
  destruct (Hp (fold_left (λ o p0, step_link p.1.1 p0 o) plan1 (m !! p.1.1))) as (i & -> & H1 & H2).
  destruct (configure_all_some plan2 p.1.1 i) as (i' & -> & _ & H3 & H4).
  exists i'. split_and!; [done|by auto|by auto].
Qed.

Lemma step_link_fixed x p i :
  x ∉ p.1.2 → if_up i = true → (x = p.1.1 → p.2 ∈ if_addrs i) → step_link x p (Some i) = Some i.
Proof.
  intros Hx Hu Ha. unfold step_link. rewrite (decide_False (P := x ∈ p.1.2)) by done.
  case_decide; [|done]. cbn. f_equal. destruct i. unfold address, add_addr, set_up. cbn in *.
  rewrite bool_decide_eq_true_2 by auto. by subst.
Qed.

(** Only the last bridge counts for a link that is no bridge itself. *)
Lemma step_link_ports x plan o :
  (∀ p, p ∈ plan → x ≠ p.1.1) →
  fold_left (λ o p, step_link x p o) plan o =
    match last (filter (λ p, x ∈ p.1.2) plan) with Some p => enter p.1.1 <$> o | None => o end.
Proof.
  induction plan as [|p plan IH] in o |- *; intros Hx; [done|]. cbn [fold_left].
  rewrite IH by set_solver. rewrite filter_cons. unfold step_link at 1 2.
  rewrite (decide_False (P := x = p.1.1)) by set_solver.
  rewrite (decide_False (P := x = p.1.1)) by set_solver. case_decide; [|done].
  rewrite last_cons. destruct (last _); [|done]. by destruct o.
Qed.

(** Repeating the set-up changes nothing. *)
Lemma configure_all_idemp plan m :
  (∀ p q, p ∈ plan → q ∈ plan → q.1.1 ∉ p.1.2) →
  configure_all plan (configure_all plan m) = configure_all plan m.
Proof.
  intros Hno. apply map_eq. intros x. rewrite configure_all_lookup.
  destruct (decide (Exists (λ p, x = p.1.1) plan)) as [Hb|Hb].
  - apply Exists_exists in Hb as (q & Hq & ->).
    destruct (configure_all_bridge plan m q Hq) as (i & E & Hu & _).
    assert (∀ p, p ∈ plan → q.1.1 = p.1.1 → p.2 ∈ if_addrs i) as Ha.
    { intros p Hp Eq. destruct (configure_all_bridge plan m p Hp) as (j & Ej & _ & Hj).
      rewrite <-Eq, E in Ej. by injection Ej as <-. }
    rewrite E. clear E. assert (∀ p, p ∈ plan → q.1.1 ∉ p.1.2) as Hq' by auto. clear Hno Hq. revert Ha Hq'.
    induction plan as [|p plan IH]; [done|]. intros Ha Hq'. cbn [fold_left].
    rewrite step_link_fixed by (first [done|set_solver]). apply IH; set_solver.
  - assert (∀ p, p ∈ plan → x ≠ p.1.1) as Hx.
    { intros p Hp ->. apply Hb, Exists_exists. by exists p. }
    rewrite configure_all_lookup, !step_link_ports by done.
    destruct (last _); [|done]. by destruct (m !! x).
Qed.
(** An added interface belongs to the bridge and is up. *)
Lemma BridgeAddIface_ok b n w w' :
  BridgeAddIface b n w = (w', Ok ()) →
  is_Some (links w !! b) ∧ is_Some (links w !! n) ∧ links w' = alter (enter b) n (links w).
Proof.
  unfold BridgeAddIface. intros (w1 & o & E & H)%bind_ok. injection E as <- <-.
  destruct (LinkByName b w) as [|br] eqn:Eb; [done|].
  apply bind_ok in H as (w2 & o & E & H). injection E as <- <-.
  destruct (LinkByName n w) as [|l] eqn:El; [done|].
  destruct (LinkByName_name _ _ _ Eb) as [<- ?]. destruct (LinkByName_name _ _ _ El) as [<- ?].
  split_and!; [done|done|]. by eapply enslave_ok.
Qed.

(** An assigned address is there, and the link is up. *)
Lemma assignIP_ok n cidr w w' :
  assignIP n cidr w = (w', Ok ()) →
  ∃ a, ParseAddr cidr = Some a ∧ is_Some (links w !! n) ∧ links w' = alter (address a) n (links w).
Proof.
  unfold assignIP. intros (w1 & o & E & H)%bind_ok. injection E as <- <-.
  destruct (LinkByName n w) as [|l] eqn:El; [done|]. destruct (LinkByName_name _ _ _ El) as [<- ?].
  destruct (ParseAddr cidr) as [a|]; [|done]. exists a. split_and!; [done|done|].
  apply bind_ok in H as (w2 & [] & E2%assign_ok & E3%or_error_ok%LinkSetUp_ok).
  by rewrite E3, E2, alter_alter_eq.
Qed.
End operations.

(** ** The properties of the component *)

Lemma last_planned `{Netlink} x vlans plan :
  Forall2 planned vlans plan → ¬ flaky x →
  (λ p, p.1.1) <$> last (filter (λ p, x ∈ p.1.2) plan) =
    (λ v, Startup.BridgeName (v_ID v)) <$> last (filter (λ v, x ∈ v_Ports v) vlans).
Proof.
  intros Hl Hx. induction Hl as [|v p vlans plan (Hp & Ht & _) Hl IH]; [done|]. rewrite !filter_cons.
  assert (x ∈ p.1.2 ↔ x ∈ v_Ports v) as Hin by (split; [by apply thinned_in|by apply thinned_not_flaky]).
  destruct (decide (x ∈ p.1.2)) as [H1|H1]; destruct (decide (x ∈ v_Ports v)) as [H2|H2]; try tauto.
  rewrite !last_cons. destruct (last (filter _ plan)), (last (filter _ vlans)); cbn in *; congruence.
Qed.

(** Without flaky ports the set-up is the reference. *)
Lemma planned_reference `{Netlink} vlans plan m :
  Forall2 planned vlans plan → (∀ v p, v ∈ vlans → p ∈ v_Ports v → ¬ flaky p) →
  configure_all plan m = configure_vlans vlans m.
Proof.
  unfold configure_all, configure_vlans. intros Hp.
  induction Hp as [|v [[b found] a] vlans plan (Hb & Ht & Ha) Hp IH] in m |- *; intros Hf; [done|].
  cbn in *. rewrite Ha, <-Hb. apply thinned_same in Ht as ->; [|intros; eapply Hf; [by left|done]].
  apply IH. intros u q Hu. apply Hf. by right.
Qed.

(** C34: When [vlan.Setup] succeeds it returns one bridge per VLAN, with its
    network.  If the lookup of a port fails only when there is no such link, the
    links are what the reference function [configure_vlans] makes of them, and
    repeating the set-up changes nothing, provided that no bridge is listed as a
    port.  In any case every VLAN's bridge exists, is up and has the VLAN's
    address; links that are neither bridge nor port are as before, and no link
    goes away.  A link that existed keeps its bridge if no VLAN lists it, and
    belongs to the bridge of the last VLAN that does, and is up, if its lookup
    fails only when it is missing; since the code skips a port on every error, a
    port whose lookup fails otherwise may keep its bridge, or belong to another
    VLAN that lists it. *)
Theorem vlan_Setup_correct `{Netlink} vlans w w' bs :
  vlan_Setup vlans w = (w', Ok bs) →
  let reliable := ∀ v p, v ∈ vlans → p ∈ v_Ports v → ¬ flaky p in
  Forall2 (λ v b, vb_ID b = v_ID v ∧ link_name (vb_Bridge b) = Startup.BridgeName (v_ID v) ∧
                  vb_Subnet b = snd <$> ParseCIDR (v_Address v)) vlans bs ∧
  (reliable → links w' = configure_vlans vlans (links w)) ∧
  (reliable → (∀ v u, v ∈ vlans → u ∈ vlans → Startup.BridgeName (v_ID u) ∉ v_Ports v) →
   ∀ w'' bs', vlan_Setup vlans w' = (w'', Ok bs') → links w'' = links w') ∧
  (∀ v, v ∈ vlans → ∃ a i, ParseAddr (v_Address v) = Some a ∧
     links w' !! Startup.BridgeName (v_ID v) = Some i ∧ if_up i = true ∧ a ∈ if_addrs i) ∧
  (∀ x, (∀ v, v ∈ vlans → x ≠ Startup.BridgeName (v_ID v) ∧ x ∉ v_Ports v) → links w' !! x = links w !! x) ∧
  (∀ x i, links w !! x = Some i → ∃ i', links w' !! x = Some i' ∧
     (¬ flaky x →
        if_master i' = match last (filter (λ v, x ∈ v_Ports v) vlans) with
                       | Some v => Some (Startup.BridgeName (v_ID v))
                       | None => if_master i
                       end ∧
        ((∃ v, v ∈ vlans ∧ x ∈ v_Ports v) → if_up i' = true)) ∧
     (if_master i' = if_master i ∨
      ∃ v, v ∈ vlans ∧ x ∈ v_Ports v ∧ if_master i' = Some (Startup.BridgeName (v_ID v)))).
Proof.
  intros E. cbn zeta. destruct (vlan_Setup_ok _ _ _ _ E) as (plan & Hp & Hl & Hb).
  assert (∀ v, v ∈ vlans → ∃ p, p ∈ plan ∧ planned v p) as Hvp.
  { intros v [i Hi]%list_elem_of_lookup. destruct (Forall2_lookup_l _ _ _ _ _ Hp Hi) as (p & Hpi & Hpl).
    exists p. split; [by eapply list_elem_of_lookup_2|done]. }
  assert (∀ p, p ∈ plan → ∃ v, v ∈ vlans ∧ planned v p) as Hpv.
  { intros p [i Hi]%list_elem_of_lookup. destruct (Forall2_lookup_r _ _ _ _ _ Hp Hi) as (v & Hvi & Hpl).
    exists v. split; [by eapply list_elem_of_lookup_2|done]. }
  split_and!; [done|..].
  - intros Hr. rewrite Hl. by apply planned_reference.
  - intros Hr Hno w'' bs' (plan' & Hp' & Hl' & _)%vlan_Setup_ok.
    rewrite Hl', Hl, (planned_reference _ plan' _ Hp' Hr), <-(planned_reference _ plan _ Hp Hr).
    apply configure_all_idemp. intros p q (v & Hv & _ & Hpq & _)%Hpv (u & Hu & Hqq & _ & _)%Hpv Hin.
    rewrite Hqq in Hin. destruct (Hno v u Hv Hu). by eapply thinned_in.
  - intros v (p & Hin & Hq & _ & Ha)%Hvp. destruct (configure_all_bridge plan (links w) p Hin) as (i & Hi & ?).
    rewrite Hq in Hi. exists p.2, i. by rewrite Hl.
  - intros x Hx. rewrite Hl, configure_all_lookup.
    assert (∀ p, p ∈ plan → ∀ o, step_link x p o = o) as Hs.
    { intros p (v & Hv & Hq & Ht & _)%Hpv o. destruct (Hx v Hv) as [H1 H2]. unfold step_link. rewrite Hq.
      rewrite !(decide_False (P := x = _)), decide_False; [done| |done..]. intros Hin. by eapply H2, thinned_in. }
    clear -Hs. induction plan as [|p plan IH]; [done|]. cbn [fold_left]. rewrite Hs by set_solver.
    apply IH. set_solver.
  - intros x i Hi. destruct (configure_all_some plan x i) as (i' & Ei & Hm & Hu & _).
    exists i'. rewrite Hl, configure_all_lookup, Hi. split_and!; [done|intros Hx; split|].
    + rewrite Hm. pose proof (last_planned x _ _ Hp Hx) as El.
      destruct (last (filter _ plan)), (last (filter _ vlans)); cbn in El; congruence.
    + intros (v & (p & Hin & _ & Ht & _)%Hvp & Hxv). apply Hu. right. exists p. split; [done|left].
      by eapply thinned_not_flaky.
    + rewrite Hm. destruct (last (filter _ plan)) as [p|] eqn:Elast; [right|by left].
      apply last_Some_elem_of in Elast. apply list_elem_of_filter in Elast as [Hxp Hin].
      destruct (Hpv p Hin) as (v & Hv & Hq & Ht & _). exists v. split_and!; [done|by eapply thinned_in|congruence].
Qed.

(** When [netsetup.Setup] succeeds the bridge it returns exists, is up and
    has the address, and every LAN interface that existed belongs to it and is
    up, if its lookup fails only when it is missing. *)
Theorem netsetup_Setup_correct `{Netlink} b ports address w w' l :
  Setup b ports address w = (w', Ok l) →
  ∃ a i, link_name l = b ∧ ParseAddr address = Some a ∧ links w' !! b = Some i ∧
    if_up i = true ∧ a ∈ if_addrs i ∧
    ∀ x, x ∈ ports → ¬ flaky x → is_Some (links w !! x) →
      ∃ j, links w' !! x = Some j ∧ if_master j = Some b ∧ if_up j = true.
Proof.
  intros (a & found & Ha & Hf & Hn & Hl)%Setup_ok.
  change (configure b found a (links w)) with (configure_all [(b, found, a)] (links w)) in Hl.
  destruct (configure_all_bridge [(b, found, a)] (links w) (b, found, a)) as (i & Hi & Hu & Hin); [set_solver|].
  exists a, i. rewrite Hl. split_and!; try done. intros x Hxp Hfl [j Hj]. assert (x ∈ found) as Hx by by eapply thinned_not_flaky.
  destruct (configure_all_some [(b, found, a)] x j) as (j' & Ej & Hm & Hup & _).
  exists j'. rewrite configure_all_lookup, Hj. split_and!; [done| |].
  - rewrite Hm. cbn. by rewrite decide_True.
  - apply Hup. right. exists (b, found, a). split; [set_solver|by left].
Qed.

(** ** A kernel in which every call succeeds that can *)

Definition ref_add (n : string) (w : gmap string (iface string)) :=
  match w !! n with
  | Some _ => (w, Err NlExists)
  | None => (<[n := new_iface]> w, Ok ())
  end.

Definition ref_addr (l a : string) (w : gmap string (iface string)) :
    gmap string (iface string) * result nl_error unit :=
  match w !! l with
  | None => (w, Err NlOther)
  | Some i => if bool_decide (a ∈ if_addrs i) then (w, Err NlExists)
              else (alter (add_addr a) l w, Ok ())
  end.

#[export] Program Instance ref_netlink : Netlink := {|
  net := gmap string (iface string); link := string; addr := string;
  link_name := λ l, l; links := λ w, w;
  ParseAddr := λ s, (λ _, s) <$> ParseCIDR s;
  LinkAdd := ref_add;
  LinkByName := λ n w, match w !! n with Some _ => Ok n | None => Err LookupNotFound end;
  LinkSetMaster := λ l b w, (alter (set_master b) l w, Ok ());
  LinkSetUp := λ l w, (alter set_up l w, Ok ());
  AddrAdd := ref_addr
|}.
Next Obligation. intros n w l. cbn. destruct (w !! n) as [i|] eqn:E; [|done]. intros [= <-]. split; [done|by exists i]. Qed.
Next Obligation. intros n w. cbn. by destruct (w !! n) eqn:E. Qed.
Next Obligation. intros n w w'. unfold ref_add. destruct (w !! n) eqn:E; [done|]. by intros [= <-]. Qed.
Next Obligation. intros n w w' e. unfold ref_add. destruct (w !! n) eqn:E; [|done]. intros [= <- <-]. split; [done|by eexists]. Qed.
Next Obligation. by intros l b w w' [= <-]. Qed.
Next Obligation. done. Qed.
Next Obligation. by intros l w w' [= <-]. Qed.
Next Obligation. done. Qed.
Next Obligation.
  intros l a w w'. unfold ref_addr. destruct (w !! l); [|done]. case_bool_decide; [done|]. by intros [= <-].
Qed.
Next Obligation.
  intros l a w w' e. unfold ref_addr. destruct (w !! l) as [i|] eqn:E; [|by intros [= <- <-]].
  case_bool_decide; [|done]. intros [= <- <-]. split; [done|]. intros _ j Hj. by injection Hj as <-.
Qed.

Lemma ref_not_flaky n : ¬ flaky (N := ref_netlink) n.
Proof. intros [w Hw]. cbn in Hw. by case_match. Qed.

(** A board with three ports and a radio, and two VLANs; [lan9] does not exist. *)
Definition demo_links : gmap string (iface string) :=
  list_to_map (map (λ n, (n, new_iface)) ["lan1"; "lan2"; "wan"; "wlan0"]).

Definition demo_vlan (id : Z) (ports : list string) (address : string) : VLANConfig := {|
  v_ID := id; v_Name := ""; v_Ports := ports; v_Address := address;
  v_DHCP := Config.demo_dhcp None; v_NAT := true; v_Isolated := false |}.

Definition demo_vlans : list VLANConfig :=
  [demo_vlan 10 ["lan1"; "lan2"; "lan9"] "10.0.10.1/24"; demo_vlan 20 ["lan2"] "10.0.20.1/24"].

Definition demo_setup : gmap string (iface string) * result (Z * setup_error) (list VLANBridge) :=
  vlan_Setup (N := ref_netlink) demo_vlans demo_links.

Lemma vlan_Setup_correct_witness :
  match demo_setup with
  | (w, Ok _) => ∃ i, w !! "lan2" = Some i ∧ if_master i = Some "br-vlan20" ∧ if_up i = true
  | _ => False
  end.
Proof.
  assert (match demo_setup with (_, Ok _) => True | _ => False end) as Hok by (vm_compute; exact I).
  pose proof (λ w bs, vlan_Setup_correct (H := ref_netlink) demo_vlans demo_links w bs) as H.
  unfold demo_setup in *. destruct (vlan_Setup _ _) as [w [e|bs]]; [done|].
  destruct (H w bs eq_refl) as (_ & _ & _ & _ & _ & Hp).
  destruct (Hp "lan2" new_iface) as (i & Hi & Hr & _); [vm_compute; reflexivity|].
  destruct Hr as [Hm Hu].
  { apply ref_not_flaky. }
  exists i. split; [exact Hi|]. split; [etransitivity; [exact Hm|vm_compute; reflexivity]|].
  apply Hu. exists (demo_vlan 20 ["lan2"] "10.0.20.1/24"). cbn.
  split; [by right; left|by left].
Defined.

Lemma netsetup_Setup_correct_witness :
  match Setup (N := ref_netlink) "br-lan" ["lan1"; "lan9"] "10.0.0.1/24" demo_links with
  | (w, Ok l) => ∃ i : iface string, w !! "br-lan" = Some i ∧ if_up i = true ∧ "10.0.0.1/24" ∈ if_addrs i
  | _ => False
  end.
Proof.
  assert (match Setup (N := ref_netlink) "br-lan" ["lan1"; "lan9"] "10.0.0.1/24" demo_links with
          | (_, Ok _) => True
          | _ => False
          end) as Hok by (vm_compute; exact I).
  pose proof (λ w l, netsetup_Setup_correct (H := ref_netlink) "br-lan" ["lan1"; "lan9"] "10.0.0.1/24"
    demo_links w l) as H.
  destruct (Setup _ _ _ _) as [w [e|l]]; [done|].
  destruct (H w l eq_refl) as (a & i & _ & Ha & Hi & Hu & Hin & _). exists i.
  vm_compute in Ha. injection Ha as <-. by split.
Defined.
