(* ===== verification/Usbnet.v ===== *)
(** * cmd/milkv-usbnet: networking over USB for the Milk-V Duo

    The GPIO registers, the LED, the USB hub, the gadget in configfs, the boot
    log and the start of the DHCP server on usb0.  The operating system is an
    oracle that sees everything done so far; what the program does to it, every
    value put on the LED and every line of the boot log is recorded. *)

From Stdlib Require Import Ascii.
From S2P Require Import Prelude GoStrings GoNet Wait.
From S2P Require GoPath Dhcp.
Open Scope Z_scope.

(** ** Registers *)

Definition gpioSWPortData : nat := 0.
Definition gpioSWPortDDR : nat := 4.

(** [binary.LittleEndian.Uint32(b[i:])]; [None] for a panic. *)
Definition Uint32 (b : list Z) (i : nat) : option Z :=
  match drop i b with
  | b0 :: b1 :: b2 :: b3 :: _ =>
      Some (Z.lor b0 (Z.lor (Z.shiftl b1 8) (Z.lor (Z.shiftl b2 16) (Z.shiftl b3 24))))
  | _ => None
  end.

Definition le_bytes (v : Z) : list Z :=
  [v mod 256; Z.shiftr v 8 mod 256; Z.shiftr v 16 mod 256; Z.shiftr v 24 mod 256].

(** [binary.LittleEndian.PutUint32(b[i:], v)] *)
Definition PutUint32 (b : list Z) (i : nat) (v : Z) : option (list Z) :=
  if (length b <? i + 4)%nat then None else Some (take i b ++ le_bytes v ++ drop (i + 4) b).

(** [1 << offset] as a uint32. *)
Definition bit32 (offset : Z) : Z := Z.shiftl 1 offset mod 2 ^ 32.

Definition gpioSetOutput (regs : list Z) (offset : Z) : option (list Z) :=
  dir ← Uint32 regs gpioSWPortDDR;
  PutUint32 regs gpioSWPortDDR (Z.lor dir (bit32 offset)).

Definition gpioSetValue (regs : list Z) (offset : Z) (val : bool) : option (list Z) :=
  data ← Uint32 regs gpioSWPortData;
  PutUint32 regs gpioSWPortData
    (if val then Z.lor data (bit32 offset) else Z.ldiff data (bit32 offset)).

(** ** The program and the system *)

Inductive effect :=
  | Sleep (d : Z)
  | Led (on : bool)                        (* a write to the mapped register *)
  | Hub (regs : list Z)                    (* the hub's registers after a write *)
  | MkdirAll (path : string)
  | WriteFile (path text : string)
  | Remove (path : string)
  | Symlink (oldname newname : string)
  | Munmap (base : Z)
  | Command (name : string) (args : list string).

(** [os_boot] says whether the file of the boot log can be opened, [os_mem]
    whether /dev/mem can; [os_mmap] gives the registers at a physical address;
    [os_ok] says whether an effect succeeds after those before it. *)
Record Os := {
  os_boot : bool;
  os_mem : list effect → bool;
  os_mmap : list effect → Z → nat → option (list Z);
  os_ok : list effect → effect → bool;
  os_exists : list effect → string → bool;
  os_read : list effect → string → option string;
  os_readdir : list effect → string → option (list string);
  os_glob : list effect → string → option (list string);
  os_clock : list effect → nat → Z;
  os_interface : list effect → string → nat → bool
}.

(** The state of the process: what it did, [ledRegs], the lines in [bootLog]
    and the addresses of [gpioRegions].  A line is the format it is printed
    with; the errors that fill it are the system's. *)
Record machine := {
  mc_done : list effect;
  mc_led : option (list Z);
  mc_log : option (list string);
  mc_regions : list Z
}.

Definition did (m : machine) (e : effect) : machine := {|
  mc_done := mc_done m ++ [e]; mc_led := mc_led m; mc_log := mc_log m; mc_regions := mc_regions m |}.

Definition with_led (m : machine) (regs : list Z) : machine := {|
  mc_done := mc_done m; mc_led := Some regs; mc_log := mc_log m; mc_regions := mc_regions m |}.

Definition with_log (m : machine) (log : option (list string)) : machine := {|
  mc_done := mc_done m; mc_led := mc_led m; mc_log := log; mc_regions := mc_regions m |}.

Definition with_region (m : machine) (base : Z) : machine := {|
  mc_done := mc_done m; mc_led := mc_led m; mc_log := mc_log m; mc_regions := mc_regions m ++ [base] |}.

(** The process when [main] begins. *)
Definition no_machine : machine := {| mc_done := []; mc_led := None; mc_log := None; mc_regions := [] |}.

Inductive usb_error :=
  | Panic
  | Unfinished                     (* the wait has used up its fuel *)
  | ErrGadget (what : string) | ErrUDC | ErrInterface | ErrAddr | ErrLinkUp
  | ErrDhcp (e : Dhcp.new_error).

Section operations.
Context (os : Os).

Abbreviation usb_io := (io machine usb_error).

Definition emit (e : effect) : usb_io unit := λ m, (did m e, Ok ()).

(** An effect whose failure is [err]. *)
Definition must (e : effect) (err : usb_error) : usb_io unit := λ m,
  (did m e, if os_ok os (mc_done m) e then Ok () else Err err).

Definition ask {A} (f : list effect → A) : usb_io A := λ m, (m, Ok (f (mc_done m))).

(** Go on, or panic. *)
Definition or_panic {A} (o : option A) : usb_io A :=
  match o with Some a => mret a | None => throw Panic end.

(** ** The boot log *)

(** An error leaves [bootLog] nil, and nothing is logged. *)
Definition initBootLog : usb_io unit := λ m, (if os_boot os then with_log m (Some []) else m, Ok ()).

(** Lines are added only to a log that was opened. *)
Definition logged (log : option (list string)) (line : string) : option (list string) :=
  (λ l, l ++ [line]) <$> log.

Definition logs (log : option (list string)) (lines : list string) : option (list string) :=
  (λ l, l ++ lines) <$> log.

Definition bootPrintf (format : string) : usb_io unit := λ m, (with_log m (logged (mc_log m) format), Ok ()).

(** ** Mapped registers *)

(** /dev/mem is closed again on every path. *)
Definition mmapReg (base : Z) (size : nat) : usb_io (option (list Z)) := λ m,
  (m, Ok (if os_mem os (mc_done m) then os_mmap os (mc_done m) base size else None)).

Definition map_region (base : Z) : usb_io unit := λ m, (with_region m base, Ok ()).

(** Nothing calls it: the regions are unmapped when the process ends. *)
Definition gpioCleanup : usb_io unit := λ m, (fold_left (λ m base, did m (Munmap base)) (mc_regions m) m, Ok ()).

(** ** The LED *)

Definition portcBase : Z := 50470912.   (* 0x3022000 *)
Definition ledBit : Z := 24.

Definition set_led (regs : list Z) : usb_io unit := λ m, (with_led m regs, Ok ()).

Definition initLED : usb_io bool :=
  regs ← mmapReg portcBase 4096;
  match regs with
  | None => _ ← bootPrintf "FAIL mmap portc: %v"; mret false
  | Some regs =>
      _ ← map_region portcBase;
      regs ← or_panic (gpioSetOutput regs ledBit);
      _ ← set_led regs;
      _ ← bootPrintf "OK portc mapped";
      mret true
  end.

Definition led (on : bool) : usb_io unit := λ m,
  match mc_led m with
  | None => (m, Ok ())
  | Some regs =>
      (regs ← or_panic (gpioSetValue regs ledBit on);
       _ ← set_led regs;
       emit (Led on)) m
  end.

Definition ledOn : usb_io unit := led true.
Definition ledOff : usb_io unit := led false.

Fixpoint blink (on off : Z) (n : nat) : usb_io unit :=
  match n with
  | O => mret ()
  | S n => _ ← ledOn; _ ← emit (Sleep on); _ ← ledOff; _ ← emit (Sleep off); blink on off n
  end.

Definition ledBlink : nat → usb_io unit := blink (150 * millisecond) (150 * millisecond).
Definition ledLongBlink : nat → usb_io unit := blink (600 * millisecond) (300 * millisecond).

(** ** The hub *)

Definition portbBase : Z := 50466816.   (* 0x3021000 *)

Definition hub_output (offset : Z) (regs : list Z) : usb_io (list Z) :=
  regs ← or_panic (gpioSetOutput regs offset); _ ← emit (Hub regs); mret regs.

Definition hub_value (offset : Z) (val : bool) (regs : list Z) : usb_io (list Z) :=
  regs ← or_panic (gpioSetValue regs offset val); _ ← emit (Hub regs); mret regs.

(** The result of the write to otg_role is only logged. *)
Definition otg_role : usb_io unit := λ m,
  let e := WriteFile "/proc/cviusb/otg_role" ("device" +:+ nl) in
  bootPrintf (if os_ok os (mc_done m) e then "OK otg_role=device" else "WARN /proc/cviusb/otg_role: %v") (did m e).

Definition setupUSBHub : usb_io bool :=
  regs ← mmapReg portbBase 4096;
  match regs with
  | None => _ ← bootPrintf "FAIL mmap portb: %v"; mret false
  | Some regs =>
      _ ← map_region portbBase;
      _ ← bootPrintf "OK portb mapped";
      regs ← hub_output 1 regs;
      regs ← hub_output 2 regs;
      regs ← hub_output 3 regs;
      _ ← bootPrintf "OK portb outputs set";
      regs ← hub_value 1 true regs;
      regs ← hub_value 2 false regs;
      regs ← hub_value 3 false regs;
      _ ← bootPrintf "OK hub device mode";
      _ ← otg_role;
      mret true
  end.

(** The three patterns are tried in turn. *)
Definition dwc2_modes (t : list effect) : list string :=
  let matches p := default [] (os_glob os t p) in
  match matches "/sys/devices/platform/*/dwc2*/mode" with
  | [] => match matches "/sys/devices/platform/soc/*/dwc2*/mode" with
          | [] => matches "/sys/devices/platform/*/usb/mode"
          | l => l
          end
  | l => l
  end.

Definition setDWC2Peripheral : usb_io unit :=
  matches ← ask dwc2_modes;
  match matches with
  | [] => mret ()
  | m :: _ => emit (WriteFile m "peripheral")
  end.

(** ** The gadget *)

Definition gadgetPath : string := "/sys/kernel/config/usb_gadget/gokrazy".
Definition vid : string := "0x3346".
Definition pid : string := "0x100C".
Definition manufacturer : string := "gokrazy".
Definition product : string := "Milk-V Duo USB Ethernet".
Definition serial : string := "0000000001".

(** [filepath.Join(gadgetPath, p)] *)
Definition gadget (p : string) : string := GoPath.Join gadgetPath p.

Definition writeFile (path value : string) (err : usb_error) : usb_io unit :=
  _ ← must (MkdirAll (GoPath.Dir path)) err;
  must (WriteFile path value) err.

Definition symlink (oldname newname : string) (err : usb_error) : usb_io unit :=
  there ← ask (λ t, os_exists os t newname);
  _ ← (if there : bool then emit (Remove newname) else mret ());
  must (Symlink oldname newname) err.

Definition findUDC : usb_io string :=
  entries ← ask (λ t, os_readdir os t "/sys/class/udc");
  match entries with
  | Some (e :: _) => mret e
  | _ => throw ErrUDC
  end.

(** Is the gadget bound to a controller? *)
Definition active (t : list effect) : bool :=
  os_exists os t (gadget "UDC") &&
  match os_read os t (gadget "UDC") with
  | Some data => negb (String.eqb (trim_space data) "")
  | None => false
  end.

(** The rest of [setupUSBGadget] for a gadget that is not bound. *)
Definition build_gadget : usb_io unit :=
  _ ← must (MkdirAll gadgetPath) (ErrGadget "mkdir gadget");
  _ ← writeFile (gadget "idVendor") (vid +:+ nl) (ErrGadget "idVendor");
  _ ← writeFile (gadget "idProduct") (pid +:+ nl) (ErrGadget "idProduct");
  _ ← must (MkdirAll (gadget "strings/0x409")) (ErrGadget "mkdir strings");
  _ ← writeFile (gadget "strings/0x409/manufacturer") (manufacturer +:+ nl) (ErrGadget "manufacturer");
  _ ← writeFile (gadget "strings/0x409/product") (product +:+ nl) (ErrGadget "product");
  _ ← writeFile (gadget "strings/0x409/serialnumber") (serial +:+ nl) (ErrGadget "serial");
  _ ← must (MkdirAll (gadget "functions/ecm.usb0")) (ErrGadget "mkdir ecm function");
  _ ← must (MkdirAll (gadget "configs/c.1")) (ErrGadget "mkdir config");
  _ ← emit (MkdirAll (gadget "configs/c.1/strings/0x409"));
  _ ← writeFile (gadget "configs/c.1/strings/0x409/configuration") ("ECM" +:+ nl) (ErrGadget "config string");
  _ ← writeFile (gadget "configs/c.1/MaxPower") ("120" +:+ nl) (ErrGadget "maxpower");
  _ ← symlink (gadget "functions/ecm.usb0") (GoPath.Join (gadget "configs/c.1") "ecm.usb0")
        (ErrGadget "symlink ecm");
  udc ← findUDC;
  writeFile (gadget "UDC") (udc +:+ nl) (ErrGadget "write UDC").

Definition setupUSBGadget : usb_io unit :=
  bound ← ask active;
  if bound : bool then mret () else build_gadget.

(** ** The network and the program *)

Definition wait_usb0 : usb_io unit := λ m,
  match waitForUSBInterface (10 * second) (os_clock os (mc_done m)) (os_interface os (mc_done m) "usb0") with
  | Some (Appeared _) => (m, Ok ())
  | Some (TimedOut _) => (m, Err ErrInterface)
  | None => (m, Err Unfinished)
  end.

Definition bringUpInterface (iface cidr : string) : usb_io unit :=
  _ ← must (Command "ip" ["addr"; "add"; cidr; "dev"; iface]) ErrAddr;
  must (Command "ip" ["link"; "set"; iface; "up"]) ErrLinkUp.

(** What fails [c] is logged before the program gives up. *)
Definition fatal (c : usb_io unit) (format : string) : usb_io unit := λ m,
  match c m with
  | (m, Ok _) => (m, Ok ())
  | (m, Err Panic) => (m, Err Panic)
  | (m, Err e) => ((bootPrintf format m).1, Err e)
  end.

(** [main] from the bound gadget up to [srv.Run]: the server it runs. *)
Definition start_network : usb_io Dhcp.Server :=
  _ ← ledLongBlink 2;
  _ ← bootPrintf "BLINK stage4: gadget OK";
  _ ← fatal wait_usb0 "FATAL interface: %v";
  _ ← bootPrintf "OK usb0 detected";
  _ ← fatal (bringUpInterface "usb0" "192.168.42.1/24") "FATAL network: %v";
  _ ← bootPrintf "OK usb0 configured";
  match Dhcp.New "usb0" "192.168.42.1/24" "192.168.42.2" "192.168.42.242"
          ["1.1.1.1"; "8.8.8.8"] (3600 * second) with
  | Err e => throw (ErrDhcp e)
  | Ok srv =>
      _ ← ledLongBlink 3;
      _ ← ledOn;
      _ ← bootPrintf "BLINK stage5: ready, LED solid on";
      _ ← bootPrintf "=== BOOT COMPLETE ===";
      mret srv
  end.

(** [main]. *)
Definition main : usb_io Dhcp.Server :=
  _ ← initBootLog;
  _ ← bootPrintf "=== BOOT START ===";
  _ ← emit (Sleep (3 * second));
  _ ← ledBlink 3;
  _ ← bootPrintf "BLINK stage1: milkv-usbnet running";
  ok ← initLED;
  _ ← (if ok : bool then _ ← ledBlink 5; bootPrintf "BLINK stage2: LED GPIO mmap OK"
       else bootPrintf "FATAL: LED init failed, giving up on LED");
  hub ← setupUSBHub;
  _ ← (if hub : bool then _ ← ledLongBlink 1; bootPrintf "BLINK stage3: USB hub OK"
       else bootPrintf "WARN: USB hub init failed, continuing anyway");
  _ ← setDWC2Peripheral;
  _ ← bootPrintf "OK DWC2 mode set";
  _ ← fatal setupUSBGadget "FATAL gadget: %v";
  start_network.
End operations.

(** ** Lemmas: registers *)

Lemma Uint32_some b i : (i + 4 ≤ length b)%nat → Forall is_byte b →
  ∃ b0 b1 b2 b3, drop i b = b0 :: b1 :: b2 :: b3 :: drop (i + 4) b ∧
    is_byte b0 ∧ is_byte b1 ∧ is_byte b2 ∧ is_byte b3.
Proof.
  intros Hl Hb. assert (length (drop i b) = length b - i)%nat as Hd by apply length_drop.
  assert (Forall is_byte (drop i b)) as Hbd by (by apply Forall_drop).
  replace (drop (i + 4) b) with (drop 4 (drop i b)) by (rewrite drop_drop; f_equal; lia).
  destruct (drop i b) as [|b0 [|b1 [|b2 [|b3 r]]]]; cbn in Hd; try lia.
  exists b0, b1, b2, b3. inversion_clear Hbd as [|? ? H0 Hr]. inversion_clear Hr as [|? ? H1 Hr'].
  inversion_clear Hr' as [|? ? H2 Hr]. inversion_clear Hr as [|? ? H3 _]. done.
Qed.

Lemma testbit_byte b n : is_byte b → 8 ≤ n → Z.testbit b n = false.
Proof.
  intros [??] Hn. destruct (decide (b = 0)) as [->|]; [apply Z.bits_0|].
  apply Z.bits_above_log2; [lia|]. apply Z.log2_lt_pow2; [lia|].
  pose proof (Z.pow_le_mono_r 2 8 n). lia.
Qed.

(** The bits of a word, byte by byte. *)
Lemma word_testbit b0 b1 b2 b3 n :
  is_byte b0 → is_byte b1 → is_byte b2 → is_byte b3 → 0 ≤ n →
  Z.testbit (Z.lor b0 (Z.lor (Z.shiftl b1 8) (Z.lor (Z.shiftl b2 16) (Z.shiftl b3 24)))) n =
    if n <? 8 then Z.testbit b0 n else if n <? 16 then Z.testbit b1 (n - 8)
    else if n <? 24 then Z.testbit b2 (n - 16) else if n <? 32 then Z.testbit b3 (n - 24) else false.
Proof.
  intros H0 H1 H2 H3 Hn. rewrite !Z.lor_spec, !Z.shiftl_spec by done.
  assert (∀ b k, is_byte b → k < 0 ∨ 8 ≤ k → Z.testbit b k = false) as Hf.
  { intros b k Hb [Hk|Hk]; [by apply Z.testbit_neg_r|by apply testbit_byte]. }
  repeat case_match; to_prop;
    rewrite ?(Hf b0 n), ?(Hf b1 (n - 8)), ?(Hf b2 (n - 16)), ?(Hf b3 (n - 24)) by (done || lia);
    by rewrite ?orb_false_r, ?orb_false_l.
Qed.

Lemma le_bytes_byte v : Forall is_byte (le_bytes v).
Proof. unfold le_bytes. repeat (constructor; [unfold is_byte; by apply Z.mod_pos_bound|]). constructor. Qed.

Lemma testbit_mod256 v k n : 0 ≤ n < 8 → 0 ≤ k → Z.testbit (Z.shiftr v k mod 256) n = Z.testbit v (n + k).
Proof.
  intros Hn Hk. change 256 with (2 ^ 8). rewrite Z.mod_pow2_bits_low by lia. by rewrite Z.shiftr_spec by lia.
Qed.

(** What is read after a write. *)
Lemma Put_Get b i v b' : PutUint32 b i v = Some b' →
  length b' = length b ∧ (Forall is_byte b → Forall is_byte b') ∧
  (∀ j, (j < i ∨ i + 4 ≤ j)%nat → b' !! j = b !! j) ∧
  ∃ w, Uint32 b' i = Some w ∧ ∀ n, 0 ≤ n < 32 → Z.testbit w n = Z.testbit v n.
Proof.
  unfold PutUint32. destruct (Nat.ltb_spec (length b) (i + 4)) as [|Hl]; [done|]. intros E.
  assert (b' = take i b ++ le_bytes v ++ drop (i + 4) b) as -> by congruence. clear E.
  assert (length (take i b) = i) as Ht by (rewrite length_take; lia).
  split_and!.
  - rewrite !length_app, length_take, length_drop. cbn. lia.
  - intros Hb. rewrite !Forall_app. split_and!; [by apply Forall_take|apply le_bytes_byte|by apply Forall_drop].
  - intros j [Hj|Hj].
    + rewrite lookup_app_l by lia. by rewrite lookup_take_lt.
    + rewrite lookup_app_r by lia. rewrite lookup_app_r by (cbn; lia). rewrite lookup_drop. f_equal. cbn. lia.
  - unfold Uint32. rewrite drop_app_length' by done. cbn [le_bytes app]. eexists. split; [done|].
    intros n Hn. rewrite word_testbit by (first [lia|by apply Z.mod_pos_bound]).
    repeat case_match; to_prop; [|rewrite testbit_mod256 by lia; f_equal; lia..|lia].
    change 256 with (2 ^ 8). by rewrite Z.mod_pow2_bits_low by lia.
Qed.

Lemma Uint32_lookup b i :
  Uint32 b i = match b !! i, b !! (i + 1)%nat, b !! (i + 2)%nat, b !! (i + 3)%nat with
               | Some b0, Some b1, Some b2, Some b3 =>
                   Some (Z.lor b0 (Z.lor (Z.shiftl b1 8) (Z.lor (Z.shiftl b2 16) (Z.shiftl b3 24))))
               | _, _, _, _ => None
               end.
Proof.
  unfold Uint32. rewrite <-!(lookup_drop b i). rewrite <-(Nat.add_0_r i) at 2. rewrite <-(lookup_drop b i).
  by destruct (drop i b) as [|b0 [|b1 [|b2 [|b3 r]]]].
Qed.

Lemma Uint32_ext b b' i :
  (∀ j, (i ≤ j < i + 4)%nat → b' !! j = b !! j) → Uint32 b' i = Uint32 b i.
Proof. intros H. rewrite !Uint32_lookup. by rewrite !H by lia. Qed.

Lemma bit32_testbit offset n : 0 ≤ offset → 0 ≤ n < 32 → Z.testbit (bit32 offset) n = (n =? offset).
Proof.
  intros Ho Hn. unfold bit32. rewrite Z.mod_pow2_bits_low, Z.shiftl_1_l by lia.
  rewrite Z.pow2_bits_eqb by done. apply Z.eqb_sym.
Qed.

(** One bit of a register. *)
Definition pin (regs : list Z) (reg : nat) (n : Z) : bool := Z.testbit (default 0 (Uint32 regs reg)) n.

(** A write of a register leaves another one alone. *)
Lemma update_register regs reg other f :
  (reg + 4 ≤ length regs)%nat → Forall is_byte regs → (other + 4 ≤ reg ∨ reg + 4 ≤ other)%nat →
  ∃ regs', PutUint32 regs reg f = Some regs' ∧ length regs' = length regs ∧ Forall is_byte regs' ∧
    (∀ n, 0 ≤ n < 32 → pin regs' reg n = Z.testbit f n) ∧ (∀ n, pin regs' other n = pin regs other n) ∧
    (∀ j, (j < reg ∨ reg + 4 ≤ j)%nat → regs' !! j = regs !! j).
Proof.
  intros Hl Hb Ho. unfold PutUint32 at 1. rewrite (proj2 (Nat.ltb_ge _ _)) by lia.
  eexists. split; [reflexivity|].
  destruct (Put_Get regs reg f (take reg regs ++ le_bytes f ++ drop (reg + 4) regs))
    as (H1 & H2 & H3 & w & H4 & H5).
  { unfold PutUint32. by rewrite (proj2 (Nat.ltb_ge _ _)) by lia. }
  split_and!; [done|by apply H2| | |done].
  - intros n Hn. unfold pin. rewrite H4. by apply H5.
  - intros n. unfold pin. rewrite (Uint32_ext regs); [done|]. intros j Hj. apply H3. lia.
Qed.

Lemma Uint32_defined b i : (i + 4 ≤ length b)%nat → Forall is_byte b → ∃ v, Uint32 b i = Some v.
Proof.
  intros Hl Hb. destruct (Uint32_some b i Hl Hb) as (b0 & b1 & b2 & b3 & E & _). unfold Uint32.
  rewrite E. by eexists.
Qed.

Ltac offset_lia := unfold gpioSWPortDDR, gpioSWPortData; lia.

Lemma gpioSetOutput_spec regs offset : (8 ≤ length regs)%nat → Forall is_byte regs → 0 ≤ offset < 32 →
  ∃ regs', gpioSetOutput regs offset = Some regs' ∧ length regs' = length regs ∧ Forall is_byte regs' ∧
    (∀ n, 0 ≤ n < 32 → pin regs' gpioSWPortDDR n = pin regs gpioSWPortDDR n || (n =? offset)) ∧
    (∀ n, pin regs' gpioSWPortData n = pin regs gpioSWPortData n) ∧
    (∀ j, (8 ≤ j)%nat → regs' !! j = regs !! j).
Proof.
  intros Hl Hb Ho. destruct (Uint32_defined regs gpioSWPortDDR) as [v Ev]; [offset_lia|done|].
  destruct (update_register regs gpioSWPortDDR gpioSWPortData (Z.lor v (bit32 offset)))
    as (regs' & E & H1 & H2 & H3 & H4 & H5); [offset_lia|done|offset_lia|].
  exists regs'. unfold gpioSetOutput. rewrite Ev. cbn [mbind option_bind]. split_and!; try done.
  2: { intros j Hj. apply H5. offset_lia. }
  intros n Hn. rewrite H3, Z.lor_spec, bit32_testbit by lia. unfold pin. by rewrite Ev.
Qed.

Lemma gpioSetValue_spec regs offset val : (8 ≤ length regs)%nat → Forall is_byte regs → 0 ≤ offset < 32 →
  ∃ regs', gpioSetValue regs offset val = Some regs' ∧ length regs' = length regs ∧ Forall is_byte regs' ∧
    (∀ n, 0 ≤ n < 32 → pin regs' gpioSWPortData n = if n =? offset then val else pin regs gpioSWPortData n) ∧
    (∀ n, pin regs' gpioSWPortDDR n = pin regs gpioSWPortDDR n) ∧
    (∀ j, (8 ≤ j)%nat → regs' !! j = regs !! j).
Proof.
  intros Hl Hb Ho. destruct (Uint32_defined regs gpioSWPortData) as [v Ev]; [offset_lia|done|].
  destruct (update_register regs gpioSWPortData gpioSWPortDDR
    (if val then Z.lor v (bit32 offset) else Z.ldiff v (bit32 offset)))
    as (regs' & E & H1 & H2 & H3 & H4 & H5); [offset_lia|done|offset_lia|].
  exists regs'. unfold gpioSetValue. rewrite Ev. cbn [mbind option_bind]. split_and!; try done.
  2: { intros j Hj. apply H5. offset_lia. }
  intros n Hn. rewrite H3 by done. unfold pin. rewrite Ev. cbn [default from_option id].
  destruct val; rewrite ?Z.lor_spec, ?Z.ldiff_spec, bit32_testbit by lia; case_if;
    by rewrite ?orb_true_r, ?orb_false_r, ?andb_false_r, ?andb_true_r.
Qed.

(** ** Lemmas: sequences of effects *)

Section follows.
Context (os : Os).
Abbreviation usb_io := (io machine usb_error).

(** Neither the LED nor the log changes. *)
Definition unlogged (m m' : machine) : Prop := mc_led m' = mc_led m ∧ mc_log m' = mc_log m.

Lemma unlogged_trans m1 m2 m3 : unlogged m1 m2 → unlogged m2 m3 → unlogged m1 m3.
Proof. intros [? ?] [? ?]. split; congruence. Qed.

Definition gadget_error (e : usb_error) : Prop := match e with ErrGadget _ | ErrUDC => True | _ => False end.

(** [c] does what [P] allows, or stops with an error of the gadget after a part of it;
    it touches neither the LED nor the log. *)
Definition follows {A} (c : usb_io A) (P : list effect → Prop) : Prop := ∀ m, ∃ es es',
  P es ∧ es' `prefix_of` es ∧ mc_done (c m).1 = mc_done m ++ es' ∧ unlogged m (c m).1 ∧
  (∀ a, (c m).2 = Ok a → es' = es) ∧ (∀ e, (c m).2 = Err e → gadget_error e).

Lemma follows_impl {A} (c : usb_io A) (P Q : list effect → Prop) :
  follows c P → (∀ es, P es → Q es) → follows c Q.
Proof. intros H HPQ m. destruct (H m) as (es & es' & ? & ?). exists es, es'. split; [by apply HPQ|done]. Qed.

Lemma follows_then {B} (c : usb_io unit) (k : usb_io B) P Q :
  follows c P → follows k Q → follows (_ ← c; k) (λ es, ∃ es1 es2, es = es1 ++ es2 ∧ P es1 ∧ Q es2).
Proof.
  intros Hc Hk m. destruct (Hc m) as (es & es' & H1 & H2 & H3 & H4 & H5 & H6). io_unfold.
  destruct (c m) as [m1 [e|[]]]; cbn [fst snd] in *.
  - destruct (Hk m) as (fs & _ & Hfs & _).
    exists (es ++ fs), es'. split_and!; [by exists es, fs|by apply prefix_app_r|done|done|done|].
    intros x [= <-]. by apply H6.
  - rewrite (H5 _ eq_refl) in *. destruct (Hk m1) as (fs & fs' & G1 & G2 & G3 & G4 & G5 & G6).
    exists (es ++ fs), (es ++ fs'). rewrite G3, H3, app_assoc.
    split_and!; [by exists es, fs|by apply prefix_app|done|by eapply unlogged_trans| |done].
    intros b Hb. by rewrite (G5 b Hb).
Qed.

Lemma follows_seq {B} (c : usb_io unit) (k : usb_io B) es1 P :
  follows c (eq es1) → follows k P → follows (_ ← c; k) (λ es, ∃ es2, es = es1 ++ es2 ∧ P es2).
Proof.
  intros Hc Hk. eapply follows_impl; [apply (follows_then _ _ _ _ Hc Hk)|].
  intros es (? & es2 & -> & <- & H2). by exists es2.
Qed.

Lemma follows_must e err : gadget_error err → follows (must os e err) (eq [e]).
Proof.
  intros Hp m. exists [e], [e]. unfold must. cbn. split_and!; try done.
  destruct (os_ok os (mc_done m) e); [done|]. by intros x [= <-].
Qed.

Lemma follows_emit e : follows (emit e) (eq [e]).
Proof. intros m. by exists [e], [e]. Qed.

Lemma follows_ask {A B} (f : list effect → A) (k : A → usb_io B) P :
  (∀ a, follows (k a) P) → follows (a ← ask f; k a) P.
Proof. intros H m. unfold ask. io_unfold. apply H. Qed.

Lemma follows_ret {A} (a : A) : follows (mret a) (eq []).
Proof. intros m. exists [], []. by split_and!; rewrite ?app_nil_r. Qed.

Definition file_steps (p v : string) : list effect := [MkdirAll (GoPath.Dir p); WriteFile p v].

Lemma follows_writeFile p v err : gadget_error err → follows (writeFile os p v err) (eq (file_steps p v)).
Proof.
  intros He. eapply follows_impl; [apply follows_seq; by apply follows_must|].
  by intros es (? & -> & <-).
Qed.

Lemma follows_symlink o n err : gadget_error err →
  follows (symlink os o n err) (λ es, ∃ there : bool, es = (if there then [Remove n] else []) ++ [Symlink o n]).
Proof.
  intros He. apply follows_ask. intros there.
  eapply follows_impl; [apply (follows_seq _ _ (if there then [Remove n] else []) (eq [Symlink o n]))|].
  - destruct there; [apply follows_emit|apply follows_ret].
  - by apply follows_must.
  - intros es (? & -> & <-). by exists there.
Qed.

(** Everything the set-up of the gadget does, in order. *)
Definition gadget_plan (there : bool) (udc : string) : list effect :=
  [MkdirAll gadgetPath] ++
  file_steps (gadget "idVendor") (vid +:+ nl) ++
  file_steps (gadget "idProduct") (pid +:+ nl) ++
  [MkdirAll (gadget "strings/0x409")] ++
  file_steps (gadget "strings/0x409/manufacturer") (manufacturer +:+ nl) ++
  file_steps (gadget "strings/0x409/product") (product +:+ nl) ++
  file_steps (gadget "strings/0x409/serialnumber") (serial +:+ nl) ++
  [MkdirAll (gadget "functions/ecm.usb0")] ++
  [MkdirAll (gadget "configs/c.1")] ++
  [MkdirAll (gadget "configs/c.1/strings/0x409")] ++
  file_steps (gadget "configs/c.1/strings/0x409/configuration") ("ECM" +:+ nl) ++
  file_steps (gadget "configs/c.1/MaxPower") ("120" +:+ nl) ++
  ((if there then [Remove (GoPath.Join (gadget "configs/c.1") "ecm.usb0")] else []) ++
   [Symlink (gadget "functions/ecm.usb0") (GoPath.Join (gadget "configs/c.1") "ecm.usb0")]) ++
  file_steps (gadget "UDC") (udc +:+ nl).

Lemma follows_findUDC {B} (k : string → usb_io B) (Q : string → list effect → Prop) :
  (∀ u, follows (k u) (Q u)) → follows (u ← findUDC os; k u) (λ es, ∃ u, Q u es).
Proof.
  intros Hk m. destruct (Hk "" m) as (es0 & _ & H0 & _).
  assert (∀ r : result usb_error B, r = Err ErrUDC → ∃ es es', (∃ u, Q u es) ∧ es' `prefix_of` es ∧
    mc_done m = mc_done m ++ es' ∧ unlogged m m ∧ (∀ a, r = Ok a → es' = es) ∧ (∀ e, r = Err e → gadget_error e)) as Herr.
  { intros r ->. exists es0, []. rewrite app_nil_r. split_and!; try done; [by exists ""|apply prefix_nil|by intros e [= <-]]. }
  unfold findUDC, ask. io_unfold. cbn [fst snd].
  destruct (os_readdir os (mc_done m) "/sys/class/udc") as [[|u us]|]; [by apply Herr| |by apply Herr].
  destruct (Hk u m) as (es & es' & H & ?). exists es, es'. split; [by exists u|done].
Qed.
End follows.

Lemma follows_build_gadget os :
  follows (build_gadget os) (λ es, ∃ there udc, es = gadget_plan there udc).
Proof.
  eapply follows_impl.
  - do 12 (eapply follows_seq; [first [apply follows_emit|by apply follows_must|by apply follows_writeFile]|]).
    eapply follows_then; [by apply follows_symlink|].
    apply (follows_findUDC os _ (λ u, eq (file_steps (gadget "UDC") (u +:+ nl)))).
    intros u. by apply follows_writeFile.
  - intros es H. unfold gadget_plan. cbn beta in H.
    repeat match goal with H : ∃ _, _ |- _ => destruct H | H : _ ∧ _ |- _ => destruct H end; subst.
    eexists _, _. reflexivity.
Qed.

(** ** Lemmas: the LED and the hub *)

(** The registers of a page of /dev/mem. *)
Definition registers (regs : list Z) : Prop := length regs = 4096%nat ∧ Forall is_byte regs.
Definition well_mapped (os : Os) : Prop := ∀ t base regs, os_mmap os t base 4096 = Some regs → registers regs.
Definition led_ok (m : machine) : Prop := ∀ regs, mc_led m = Some regs → registers regs.
Definition lit (m : machine) : bool := match mc_led m with Some _ => true | None => false end.

(** What can be seen: the values put on the LED and the pauses between them; and
    the commands that were run. *)
Inductive signal := Light (on : bool) | Pause (d : Z).

Definition leds (t : list effect) : list signal :=
  omap (λ e, match e with Led b => Some (Light b) | Sleep d => Some (Pause d) | _ => None end) t.
Definition commands (t : list effect) : list (string * list string) :=
  omap (λ e, match e with Command n args => Some (n, args) | _ => None end) t.

(** Blinks of a LED, of which only the pauses are left if it is not mapped. *)
Definition blinks (lit : bool) (on off : Z) (n : nat) : list signal :=
  concat (replicate n ((if lit then [Light true] else []) ++ [Pause on] ++
                       (if lit then [Light false] else []) ++ [Pause off])).

(** [m] has done all of [m0], and more. *)
Definition after (m0 m : machine) : Prop := mc_done m0 `prefix_of` mc_done m.

Lemma after_trans m1 m2 m3 : after m1 m2 → after m2 m3 → after m1 m3.
Proof. unfold after. by etransitivity. Qed.

Lemma after_app m m' t : mc_done m' = mc_done m ++ t → after m m'.
Proof. intros E. by exists t. Qed.

Lemma led_run on m : led_ok m → ∃ m', led on m = (m', Ok ()) ∧ led_ok m' ∧ lit m' = lit m ∧ mc_log m' = mc_log m ∧
  mc_done m' = mc_done m ++ (if lit m then [Led on] else []).
Proof.
  intros Hm. unfold led, lit. destruct (mc_led m) as [regs|] eqn:E.
  - destruct (Hm regs E) as [Hl Hb]. destruct (gpioSetValue_spec regs ledBit on) as (regs' & -> & H1 & H2 & _);
      [lia|done|done|]. io_unfold. eexists. split; [reflexivity|]. cbn. split_and!; [|done..].
    intros r [= <-]. split; [by rewrite H1|done].
  - exists m. rewrite E, app_nil_r. done.
Qed.

Lemma blink_run on off n m : led_ok m → ∃ m', blink on off n m = (m', Ok ()) ∧ led_ok m' ∧ lit m' = lit m ∧ mc_log m' = mc_log m ∧
  after m m' ∧ leds (mc_done m') = leds (mc_done m) ++ blinks (lit m) on off n ∧
  commands (mc_done m') = commands (mc_done m).
Proof.
  induction n as [|n IH] in m |- *; intros Hm.
  { exists m. split_and!; [done..|by unfold after|unfold blinks; cbn; by rewrite app_nil_r|done]. }
  cbn [blink]. unfold ledOn, ledOff, emit. io_unfold.
  destruct (led_run true m Hm) as (m1 & -> & H1 & H2 & L1 & H3). cbn [fst snd].
  destruct (led_run false (did m1 (Sleep on))) as (m2 & -> & G1 & G2 & L2 & G3); [exact H1|].
  destruct (IH (did m2 (Sleep off))) as (m3 & -> & K1 & K2 & L3 & K5 & K3 & K4); [exact G1|].
  exists m3. unfold lit in *. cbn [did mc_done mc_led mc_log] in *. rewrite G2, H2 in *.
  split_and!; [done|done|done|congruence| | |].
  - eapply after_trans; [|exact K5]. eapply after_app. cbn. by rewrite G3, H3, <-!app_assoc.
  - rewrite K3, G3, H3. unfold leds, blinks. rewrite !omap_app. cbn. destruct (mc_led m); cbn;
      by rewrite ?app_nil_r, <-?app_assoc.
  - rewrite K4, G3, H3. unfold commands. rewrite !omap_app. by destruct (mc_led m); cbn; rewrite ?app_nil_r.
Qed.

(** The registers at an address can be mapped. *)
Definition mapped (os : Os) (t : list effect) (base : Z) : bool :=
  os_mem os t && match os_mmap os t base 4096 with Some _ => true | None => false end.

(** What the boot log gets for a LED, and for a hub. *)
Definition led_lines (lit : bool) : list string :=
  if lit then ["OK portc mapped"] else ["FAIL mmap portc: %v"].
Definition hub_lines (hub role : bool) : list string :=
  if hub then ["OK portb mapped"; "OK portb outputs set"; "OK hub device mode";
               if role then "OK otg_role=device" else "WARN /proc/cviusb/otg_role: %v"]
  else ["FAIL mmap portb: %v"].

Lemma mmapReg_run os base m : well_mapped os → ∃ regs, mmapReg os base 4096 m = (m, Ok regs) ∧
  mapped os (mc_done m) base = (match regs with Some _ => true | None => false end) ∧
  ∀ r, regs = Some r → registers r.
Proof.
  intros Hw. eexists. split; [reflexivity|]. unfold mapped. destruct (os_mem os _); [|done]. split; [done|]. apply Hw.
Qed.

Lemma initLED_run os m : well_mapped os → led_ok m → mc_led m = None → ∃ m' b, initLED os m = (m', Ok b) ∧ led_ok m' ∧
  b = mapped os (mc_done m) portcBase ∧ lit m' = b ∧ mc_done m' = mc_done m ∧ mc_log m' = logs (mc_log m) (led_lines b).
Proof.
  intros Hw Hm Hn. unfold initLED. destruct (mmapReg_run os portcBase m Hw) as ([regs|] & E & Hmap & Hr).
  - destruct (Hr _ eq_refl) as [Hl Hb]. io_unfold. rewrite E.
    destruct (gpioSetOutput_spec regs ledBit) as (regs' & Eo & H1 & H2 & _); [lia|done|done|]. rewrite Eo.
    eexists _, true. split; [reflexivity|]. cbn. split_and!; [|done..].
    intros r [= <-]. split; [by rewrite H1|done].
  - io_unfold. rewrite E. eexists _, false. split; [reflexivity|]. cbn. split_and!; [done|done|unfold lit; cbn; by rewrite Hn|done..].
Qed.

(** The hub ends powered, in device mode and out of reset, its pins driven. *)
Lemma setupUSBHub_run os m : well_mapped os → ∃ m' b, setupUSBHub os m = (m', Ok b) ∧ b = mapped os (mc_done m) portbBase ∧ mc_led m' = mc_led m ∧
  (∃ role, mc_log m' = logs (mc_log m) (hub_lines b role)) ∧
  ((b = false ∧ mc_done m' = mc_done m) ∨
   ∃ r1 r2 r3 r4 r5 r6, b = true ∧
     mc_done m' = mc_done m ++ [Hub r1; Hub r2; Hub r3; Hub r4; Hub r5; Hub r6;
                                WriteFile "/proc/cviusb/otg_role" ("device" +:+ nl)] ∧
     (∀ n, 1 ≤ n ≤ 3 → pin r6 gpioSWPortDDR n = true ∧ pin r6 gpioSWPortData n = (n =? 1))).
Proof.
  intros Hw. unfold setupUSBHub, hub_output, hub_value, otg_role, or_panic, emit. io_unfold.
  destruct (mmapReg_run os portbBase m Hw) as ([r|] & -> & Hmap & Hr).
  2: { eexists _, false. split; [reflexivity|]. split; [done|]. split; [done|]. split; [exists true; reflexivity|left; by split]. }
  destruct (Hr _ eq_refl) as [Hl Hb].
  destruct (gpioSetOutput_spec r 1) as (r1 & -> & L1 & B1 & O1 & V1 & _); [lia|done|lia|]. io_unfold.
  destruct (gpioSetOutput_spec r1 2) as (r2 & -> & L2 & B2 & O2 & V2 & _); [lia|done|lia|]. io_unfold.
  destruct (gpioSetOutput_spec r2 3) as (r3 & -> & L3 & B3 & O3 & V3 & _); [lia|done|lia|]. io_unfold.
  destruct (gpioSetValue_spec r3 1 true) as (r4 & -> & L4 & B4 & V4 & O4 & _); [lia|done|lia|]. io_unfold.
  destruct (gpioSetValue_spec r4 2 false) as (r5 & -> & L5 & B5 & V5 & O5 & _); [lia|done|lia|]. io_unfold.
  destruct (gpioSetValue_spec r5 3 false) as (r6 & -> & L6 & B6 & V6 & O6 & _); [lia|done|lia|].
  eexists _, true. split; [reflexivity|]. cbn. split; [done|]. split; [done|]. split.
  { destruct (os_ok os _ _); [exists true|exists false]; destruct (mc_log m); cbn; by rewrite <-?app_assoc. }
  right. exists r1, r2, r3, r4, r5, r6. split_and!; [done|by rewrite <-!app_assoc|]. intros n Hn. split.
  - rewrite O6, O5, O4, O3, O2, O1 by lia. assert (n = 1 ∨ n = 2 ∨ n = 3) as [-> | [-> | ->]] by lia;
      by rewrite ?orb_true_r.
  - rewrite V6, V5, V4 by lia. assert (n = 1 ∨ n = 2 ∨ n = 3) as [-> | [-> | ->]] by lia; done.
Qed.

(** Only the last step of the plan binds the gadget. *)
Lemma gadget_plan_last there udc done v :
  done `prefix_of` gadget_plan there udc → WriteFile (gadget "UDC") v ∈ done →
  done = gadget_plan there udc.
Proof.
  set (binds e := match e with WriteFile p _ => String.eqb p (gadget "UDC") | _ => false end).
  assert (∃ body x, gadget_plan there udc = body ++ [x] ∧ existsb binds body = false) as (body & x & E & Hno).
  { exists (removelast (gadget_plan there udc)), (WriteFile (gadget "UDC") (udc +:+ nl)).
    split; destruct there; vm_compute; reflexivity. }
  rewrite E. intros [k Hk] Hin. destruct k as [|y k _] using rev_ind; [by rewrite app_nil_r in Hk|].
  rewrite app_assoc in Hk. apply app_inj_tail in Hk as [-> _]. exfalso.
  assert (existsb binds (done ++ k) = true) as Ht; [|by rewrite Ht in Hno].
  apply existsb_true. exists (WriteFile (gadget "UDC") v). split; [set_solver|].
  cbn. apply String.eqb_refl.
Qed.

(** ** Lemmas: the program *)

Lemma leds_app t u : leds (t ++ u) = leds t ++ leds u.
Proof. apply omap_app. Qed.
Lemma commands_app t u : commands (t ++ u) = commands t ++ commands u.
Proof. apply omap_app. Qed.

(** Neither a LED nor a command. *)
Definition quiet (t : list effect) : Prop := leds t = [] ∧ commands t = [].

Lemma quiet_prefix t u : t `prefix_of` u → quiet u → quiet t.
Proof.
  intros [k ->] [Hl Hc]. rewrite leds_app in Hl. rewrite commands_app in Hc.
  apply app_eq_nil in Hl as [Hl _]. apply app_eq_nil in Hc as [Hc _]. by split.
Qed.

Lemma gadget_plan_quiet there udc : quiet (gadget_plan there udc).
Proof. by destruct there. Qed.

(** The same LED, and nothing that shows. *)
Definition unseen (m m' : machine) : Prop :=
  after m m' ∧ mc_led m' = mc_led m ∧ leds (mc_done m') = leds (mc_done m) ∧
  commands (mc_done m') = commands (mc_done m).

Lemma unseen_quiet m m' t : mc_led m' = mc_led m → mc_done m' = mc_done m ++ t → quiet t → unseen m m'.
Proof.
  intros Hl Hd [H1 H2]. split; [by eapply after_app|]. rewrite Hd, leds_app, commands_app, H1, H2, !app_nil_r. done.
Qed.

Lemma setupUSBHub_unseen os m : well_mapped os → ∃ m' role, let b := mapped os (mc_done m) portbBase in
  setupUSBHub os m = (m', Ok b) ∧ unseen m m' ∧ mc_log m' = logs (mc_log m) (hub_lines b role).
Proof.
  intros Hw. destruct (setupUSBHub_run os m Hw) as (m' & b & E & -> & Hl & [role Hg] & H). exists m', role.
  split; [done|]. split; [|done]. destruct H as [[_ Hd]|(r1 & r2 & r3 & r4 & r5 & r6 & _ & Hd & _)].
  - unfold unseen, after. by rewrite Hl, Hd.
  - by eapply unseen_quiet.
Qed.

Lemma setDWC2Peripheral_unseen os m :
  ∃ m', setDWC2Peripheral os m = (m', Ok ()) ∧ unseen m m' ∧ mc_log m' = mc_log m.
Proof.
  unfold setDWC2Peripheral, ask. io_unfold. destruct (dwc2_modes os (mc_done m)) as [|p l].
  - exists m. unfold unseen, after. by split_and!.
  - eexists. split; [reflexivity|]. split; [by eapply unseen_quiet|done].
Qed.

Lemma setupUSBGadget_unseen os m : ∃ m' r, setupUSBGadget os m = (m', r) ∧ unseen m m' ∧
  mc_log m' = mc_log m ∧ ∀ e, r = Err e → gadget_error e.
Proof.
  unfold setupUSBGadget, ask. io_unfold. destruct (active os (mc_done m)).
  { eexists _, _. split; [reflexivity|]. unfold unseen, after. by split_and!. }
  destruct (follows_build_gadget os m) as (es & es' & (there & udc & ->) & Hp & Hd & [Hl Hg] & _ & Hn).
  destruct (build_gadget os m) as [m' r]. eexists _, _. split; [reflexivity|]. split; [|done].
  eapply unseen_quiet; [done|done|]. eapply quiet_prefix, gadget_plan_quiet. done.
Qed.

(** ** What a boot shows, runs and logs *)

(** Quick and long blinks. *)
Definition quick (lit : bool) : nat → list signal := blinks lit (150 * millisecond) (150 * millisecond).
Definition long (lit : bool) : nat → list signal := blinks lit (600 * millisecond) (300 * millisecond).

(** Up to the gadget: the blinks of the start, which come before the LED is
    mapped, those of the LED and those of the hub. *)
Definition boot_shown (lit hub : bool) : list signal :=
  [Pause (3 * second)] ++ quick false 3 ++ (if lit then quick true 5 else []) ++ (if hub then long lit 1 else []).

(** What follows, and so tells how the program ended. *)
Definition last_shown (lit : bool) (r : result usb_error Dhcp.Server) : list signal :=
  match r with
  | Err (ErrGadget _ | ErrUDC) => []
  | Err _ => long lit 2
  | Ok _ => long lit 2 ++ long lit 3 ++ (if lit then [Light true] else [])
  end.

Definition ip_addr : string * list string := ("ip", ["addr"; "add"; "192.168.42.1/24"; "dev"; "usb0"]).
Definition ip_link : string * list string := ("ip", ["link"; "set"; "usb0"; "up"]).

Definition all_commands (r : result usb_error Dhcp.Server) : list (string * list string) :=
  match r with
  | Err ErrAddr => [ip_addr]
  | Err ErrLinkUp | Ok _ => [ip_addr; ip_link]
  | Err _ => []
  end.

(** The boot log up to the gadget. *)
Definition boot_lines (lit hub role : bool) : list string :=
  ["=== BOOT START ==="; "BLINK stage1: milkv-usbnet running"] ++
  led_lines lit ++ [if lit then "BLINK stage2: LED GPIO mmap OK" else "FATAL: LED init failed, giving up on LED"] ++
  hub_lines hub role ++
  [if hub then "BLINK stage3: USB hub OK" else "WARN: USB hub init failed, continuing anyway"; "OK DWC2 mode set"].

(** What follows in it. *)
Definition last_lines (r : result usb_error Dhcp.Server) : list string :=
  match r with
  | Err (ErrGadget _ | ErrUDC) => ["FATAL gadget: %v"]
  | Err ErrInterface => ["BLINK stage4: gadget OK"; "FATAL interface: %v"]
  | Err (ErrAddr | ErrLinkUp) => ["BLINK stage4: gadget OK"; "OK usb0 detected"; "FATAL network: %v"]
  | Err (Panic | Unfinished | ErrDhcp _) => []
  | Ok _ => ["BLINK stage4: gadget OK"; "OK usb0 detected"; "OK usb0 configured";
             "BLINK stage5: ready, LED solid on"; "=== BOOT COMPLETE ==="]
  end.

(** How far [main] has come since [m0]: the state of the LED, what was shown,
    what was run, and the boot log. *)
Definition reached (m0 m : machine) (l : bool) (shown : list signal) (cmds : list (string * list string))
    (log : option (list string)) : Prop :=
  after m0 m ∧ led_ok m ∧ lit m = l ∧ leds (mc_done m) = shown ∧ commands (mc_done m) = cmds ∧ mc_log m = log.

Lemma reached_since m0 m l shown cmds log : reached m0 m l shown cmds log → reached m m l shown cmds log.
Proof. intros [_ H]. split; [by unfold after|done]. Qed.

Lemma reached_unseen m0 m m' l shown cmds log log' :
  reached m0 m l shown cmds log → unseen m m' → mc_log m' = log' → reached m0 m' l shown cmds log'.
Proof.
  intros (H0 & H1 & H2 & H3 & H4 & H5) (U0 & U1 & U2 & U3) U4. unfold reached, led_ok, lit in *.
  rewrite U1, U2, U3. split_and!; try done. by eapply after_trans.
Qed.

Lemma reached_blink on off n m0 m l shown cmds log : reached m0 m l shown cmds log →
  ∃ m', blink on off n m = (m', Ok ()) ∧ reached m0 m' l (shown ++ blinks l on off n) cmds log.
Proof.
  intros (H0 & H1 & <- & <- & <- & <-). destruct (blink_run on off n m H1) as (m' & E & G1 & G2 & G3 & G4 & G5 & G6).
  exists m'. split; [done|]. split_and!; try done. by eapply after_trans.
Qed.

(** The log after some lines. *)
Definition log_of (os : Os) (lines : list string) : option (list string) :=
  if os_boot os then Some lines else None.

Lemma logs_log_of os ls ls' : logs (log_of os ls) ls' = log_of os (ls ++ ls').
Proof. unfold log_of. by destruct (os_boot os). Qed.

Lemma reached_initLED os m0 m s ls : well_mapped os → reached m0 m false s [] (log_of os ls) →
  ∃ m', let l := mapped os (mc_done m) portcBase in
    initLED os m = (m', Ok l) ∧ reached m m' l s [] (log_of os (ls ++ led_lines l)).
Proof.
  intros Hw (H0 & H1 & H2 & H3 & H4 & H5). destruct (initLED_run os m Hw H1) as (m' & l & E & L1 & -> & L2 & L3 & L4).
  { unfold lit in H2. by destruct (mc_led m). }
  exists m'. split; [done|]. unfold reached, after. by rewrite L3, L4, H3, H4, H5, logs_log_of.
Qed.

Lemma reached_hub os m0 m l s ls : well_mapped os → reached m0 m l s [] (log_of os ls) →
  ∃ m' role, let hub := mapped os (mc_done m) portbBase in
    setupUSBHub os m = (m', Ok hub) ∧ reached m m' l s [] (log_of os (ls ++ hub_lines hub role)).
Proof.
  intros Hw H%reached_since. destruct (setupUSBHub_unseen os m Hw) as (m' & role & E & U & G).
  exists m', role. split; [done|]. eapply reached_unseen; [exact H|done|].
  by rewrite G, (proj2 (proj2 (proj2 (proj2 (proj2 H))))), logs_log_of.
Qed.

Lemma reached_boot m0 m l shown cmds log line : reached m0 m l shown cmds log →
  ∃ m', bootPrintf line m = (m', Ok ()) ∧ reached m0 m' l shown cmds (logs log [line]).
Proof. intros (H0 & H1 & H2 & H3 & H4 & <-). by eexists. Qed.

Lemma reached_led on m0 m l s c g : reached m0 m l s c g →
  ∃ m', led on m = (m', Ok ()) ∧ reached m0 m' l (s ++ (if l then [Light on] else [])) c g.
Proof.
  intros (H0 & H1 & <- & <- & <- & <-). destruct (led_run on m H1) as (m' & E & K1 & K2 & K3 & K4).
  exists m'. split; [done|]. unfold reached. rewrite K2, K3, K4, leds_app, commands_app.
  split_and!; [|done|done|by destruct (lit m)|by destruct (lit m); cbn; rewrite app_nil_r|done].
  eapply after_trans; [done|]. by eapply after_app.
Qed.

Lemma reached_did m0 m l s c g e : reached m0 m l s c g →
  reached m0 (did m e) l (s ++ leds [e]) (c ++ commands [e]) g.
Proof.
  intros (G0 & G1 & G2 & G3 & G4 & G5). unfold reached, did. cbn [mc_done].
  rewrite leds_app, commands_app, G3, G4. split_and!; try done.
  eapply after_trans; [done|]. by apply (after_app _ _ [e]).
Qed.

(** ** The properties of the component *)

(** One bit of the page: bit [i mod 8] of its byte [i / 8]. *)
Definition page_bit (regs : list Z) (i : Z) : bool :=
  Z.testbit (default 0 (regs !! Z.to_nat (i / 8))) (i mod 8).

(** The bits of a register are bits of the page. *)
Lemma pin_page_bit regs reg n :
  registers regs → (reg + 4 ≤ 4096)%nat → 0 ≤ n < 32 → pin regs reg n = page_bit regs (8 * Z.of_nat reg + n).
Proof.
  intros [Hl Hb] Hr Hn. unfold pin, page_bit. rewrite Uint32_lookup.
  assert (∀ k, (k < 4)%nat → ∃ b, regs !! (reg + k)%nat = Some b ∧ is_byte b) as Hk.
  { intros k Hk. destruct (lookup_lt_is_Some_2 regs (reg + k)) as [b E]; [lia|]. exists b. split; [done|].
    rewrite Forall_lookup in Hb. by eapply Hb. }
  destruct (Hk 0%nat) as (b0 & E0 & B0); [lia|]. destruct (Hk 1%nat) as (b1 & E1 & B1); [lia|].
  destruct (Hk 2%nat) as (b2 & E2 & B2); [lia|]. destruct (Hk 3%nat) as (b3 & E3 & B3); [lia|].
  rewrite Nat.add_0_r in E0. rewrite E0, E1, E2, E3. cbn [default from_option id].
  rewrite word_testbit by (done || lia).
  replace ((8 * Z.of_nat reg + n) / 8) with (Z.of_nat reg + n / 8) by (rewrite Z.mul_comm, Z.div_add_l; lia).
  replace ((8 * Z.of_nat reg + n) mod 8) with (n mod 8) by (rewrite Z.mul_comm, Z.add_comm, Z_mod_plus_full; lia).
  assert (∀ k, Z.of_nat k * 8 ≤ n < (Z.of_nat k + 1) * 8 →
    n / 8 = Z.of_nat k ∧ n mod 8 = n - 8 * Z.of_nat k) as Hd.
  { intros k Hnk. split; [symmetry; apply (Z.div_unique n 8 _ (n - 8 * Z.of_nat k)); lia|].
    symmetry. apply (Z.mod_unique n 8 (Z.of_nat k)); lia. }
  repeat case_match; to_prop; try lia.
  - destruct (Hd 0%nat) as [-> ->]; [lia|]. replace (Z.to_nat (Z.of_nat reg + Z.of_nat 0)) with reg by lia.
    rewrite E0. cbn. f_equal. lia.
  - destruct (Hd 1%nat) as [-> ->]; [lia|]. replace (Z.to_nat (Z.of_nat reg + Z.of_nat 1)) with (reg + 1)%nat by lia.
    by rewrite E1.
  - destruct (Hd 2%nat) as [-> ->]; [lia|]. replace (Z.to_nat (Z.of_nat reg + Z.of_nat 2)) with (reg + 2)%nat by lia.
    by rewrite E2.
  - destruct (Hd 3%nat) as [-> ->]; [lia|]. replace (Z.to_nat (Z.of_nat reg + Z.of_nat 3)) with (reg + 3)%nat by lia.
    by rewrite E3.
Qed.

(** The bits of the page are those of the two registers and the rest. *)
Lemma page_bits regs regs' (f : Z → bool) :
  registers regs → registers regs' →
  (∀ n, 0 ≤ n < 32 → pin regs' gpioSWPortData n = f n) →
  (∀ n, 0 ≤ n < 32 → pin regs' gpioSWPortDDR n = f (32 + n)) →
  (∀ j, (8 ≤ j)%nat → regs' !! j = regs !! j) → (∀ i, 64 ≤ i → f i = page_bit regs i) →
  ∀ i, 0 ≤ i → page_bit regs' i = f i.
Proof.
  intros H H' Hd Ho Hr Hf i Hi. destruct (decide (i < 32)); [|destruct (decide (i < 64))].
  - rewrite <-Hd, pin_page_bit by (done || offset_lia). f_equal; offset_lia.
  - replace i with (32 + (i - 32)) by lia. rewrite <-Ho, pin_page_bit by (done || offset_lia).
    f_equal; offset_lia.
  - rewrite Hf by lia. unfold page_bit. rewrite Hr; [done|].
    assert (8 ≤ i / 8) by (apply Z.div_le_lower_bound; lia). lia.
Qed.

(** C38: Setting an output or a value changes exactly one bit of the mapped page:
    the bit of the pin in the direction register (the second word) is switched
    on, the bit of the pin in the data register (the first word) takes the
    value, and every other bit of the 4096 bytes keeps its value; the page stays
    a page of bytes and no access is out of bounds. *)
Theorem gpio_correct regs offset :
  registers regs → 0 ≤ offset < 32 →
  (∃ regs', gpioSetOutput regs offset = Some regs' ∧ registers regs' ∧
     ∀ i, 0 ≤ i → page_bit regs' i = if i =? 32 + offset then true else page_bit regs i) ∧
  (∀ val, ∃ regs', gpioSetValue regs offset val = Some regs' ∧ registers regs' ∧
     ∀ i, 0 ≤ i → page_bit regs' i = if i =? offset then val else page_bit regs i).
Proof.
  intros Hreg Ho. destruct Hreg as [Hl Hb] eqn:E. clear E. split.
  - destruct (gpioSetOutput_spec regs offset) as (r & E & H1 & H2 & H3 & H4 & H5); [lia|done|done|].
    assert (registers r) as Hr by (split; [by rewrite H1|done]).
    exists r. split_and!; [done|done|]. apply (page_bits regs); [done|done| | |done|].
    + intros n Hn. rewrite H4, pin_page_bit by (done || offset_lia).
      destruct (Z.eqb_spec n (32 + offset)); [lia|]. done.
    + intros n Hn. rewrite H3, pin_page_bit by (done || offset_lia).
      destruct (Z.eqb_spec n offset), (Z.eqb_spec (32 + n) (32 + offset)); try lia; by rewrite ?orb_true_r, ?orb_false_r.
    + intros i Hi. destruct (Z.eqb_spec i (32 + offset)); [lia|done].
  - intros val. destruct (gpioSetValue_spec regs offset val) as (r & E & H1 & H2 & H3 & H4 & H5); [lia|done|done|].
    assert (registers r) as Hr by (split; [by rewrite H1|done]).
    exists r. split_and!; [done|done|]. apply (page_bits regs); [done|done| | |done|].
    + intros n Hn. rewrite H3, pin_page_bit by (done || offset_lia). done.
    + intros n Hn. rewrite H4, pin_page_bit by (done || offset_lia).
      destruct (Z.eqb_spec (32 + n) offset); [lia|done].
    + intros i Hi. destruct (Z.eqb_spec i offset); [lia|done].
Qed.

(** [setupUSBGadget] does nothing when the gadget is bound; otherwise it
    performs its plan, in order, or an initial part of it before it fails.  The
    name of the controller is written last, so a gadget is bound only when all
    its descriptors, its function and its configuration are in place. *)
Theorem setupUSBGadget_correct os m :
  let '(m', r) := setupUSBGadget os m in
  mc_led m' = mc_led m ∧
  if active os (mc_done m) then m' = m ∧ r = Ok ()
  else ∃ there udc done, mc_done m' = mc_done m ++ done ∧ done `prefix_of` gadget_plan there udc ∧
    (r = Ok () → done = gadget_plan there udc) ∧
    ∀ v, WriteFile (gadget "UDC") v ∈ done → done = gadget_plan there udc.
Proof.
  unfold setupUSBGadget, ask. io_unfold. destruct (active os (mc_done m)); [done|].
  destruct (follows_build_gadget os m) as (es & es' & (there & udc & ->) & Hp & Hd & Hl & Hok & _).
  destruct (build_gadget os m) as [m' r]. cbn [fst snd] in *. split; [apply Hl|].
  exists there, udc, es'. split_and!; [done|done|apply Hok|]. intros v. by apply gadget_plan_last.
Qed.

Lemma bringUp_run os m0 m l s g : reached m0 m l s [] g →
  ∃ m' r, bringUpInterface os "usb0" "192.168.42.1/24" m = (m', r) ∧
    match r with
    | Ok _ => reached m0 m' l s [ip_addr; ip_link] g
    | Err e => (e = ErrAddr ∨ e = ErrLinkUp) ∧ reached m0 m' l s (all_commands (Err e)) g
    end.
Proof.
  intros H. unfold bringUpInterface, must. io_unfold.
  apply (reached_did _ _ _ _ _ _ (Command "ip" ["addr"; "add"; "192.168.42.1/24"; "dev"; "usb0"])) in H.
  destruct (os_ok os _ _).
  - apply (reached_did _ _ _ _ _ _ (Command "ip" ["link"; "set"; "usb0"; "up"])) in H.
    cbn in H. rewrite !app_nil_r in H.
    eexists _, _. split; [reflexivity|]. destruct (os_ok os _ _); [done|]. split; [by right|done].
  - cbn in H. rewrite app_nil_r in H. eexists _, _. split; [reflexivity|]. split; [by left|done].
Qed.

(** What [main] has shown, run and logged when it stops. *)
Definition stopped (os : Os) (m : machine) (r : result usb_error Dhcp.Server) : Prop :=
  r ≠ Err Panic ∧ r ≠ Err Unfinished ∧ (∀ e, r ≠ Err (ErrDhcp e)) ∧
  ∃ t1 t2 (role : bool), t1 `prefix_of` t2 ∧ t2 `prefix_of` mc_done m ∧
    let lit := mapped os t1 50470912 in
    let hub := mapped os t2 50466816 in
    leds (mc_done m) = boot_shown lit hub ++ last_shown lit r ∧
    commands (mc_done m) = all_commands r ∧
    mc_log m = (if os_boot os then Some (boot_lines lit hub role ++ last_lines r) else None) ∧
    ∀ srv, r = Ok srv →
      Dhcp.s_iface srv = "usb0" ∧ Dhcp.s_serverIP srv = [192; 168; 42; 1] ∧
      Dhcp.s_rangeStart srv = [192; 168; 42; 2] ∧ Dhcp.s_rangeEnd srv = [192; 168; 42; 242].

Lemma stopped_reached os m0 m t1 t2 role e :
  let lit := mapped os t1 portcBase in
  let hub := mapped os t2 portbBase in
  t1 `prefix_of` t2 → t2 `prefix_of` mc_done m0 →
  reached m0 m lit (boot_shown lit hub ++ last_shown lit (Err e)) (all_commands (Err e))
    (log_of os (boot_lines lit hub role ++ last_lines (Err e))) →
  e ≠ Panic → e ≠ Unfinished → (∀ x, e ≠ ErrDhcp x) → stopped os m (Err e).
Proof.
  intros lit hub H1 H2 (H0 & _ & _ & Hs & Hc & Hg) He1 He2 He3.
  split; [congruence|]. split; [congruence|]. split; [intros x [= ->]; by eapply He3|]. exists t1, t2, role.
  split; [done|]. split; [by etransitivity|]. cbn zeta. split_and!; [exact Hs|exact Hc|exact Hg|done].
Qed.

Lemma usb_server : ∃ srv,
  Dhcp.New "usb0" "192.168.42.1/24" "192.168.42.2" "192.168.42.242" ["1.1.1.1"; "8.8.8.8"]
    (3600 * second) = Ok srv ∧ Dhcp.s_iface srv = "usb0" ∧ Dhcp.s_serverIP srv = [192; 168; 42; 1] ∧
  Dhcp.s_rangeStart srv = [192; 168; 42; 2] ∧ Dhcp.s_rangeEnd srv = [192; 168; 42; 242].
Proof. eexists. split; [vm_compute; reflexivity|]. split_and!; vm_compute; reflexivity. Qed.

(** Run the next line of the log, or the next blinks, in the state [H] describes. *)
Ltac boot_step H :=
  lazymatch type of H with
  | reached ?m0 ?m _ _ _ _ =>
      match goal with
      | |- context [bootPrintf ?line m] =>
          let m' := fresh "m" in let H' := fresh "H" in
          destruct (reached_boot m0 m _ _ _ _ line H) as (m' & -> & H'); clear H; rename H' into H;
          rewrite ?logs_log_of in H
      | |- context [blink ?on ?off ?n m] =>
          let m' := fresh "m" in let H' := fresh "H" in
          destruct (reached_blink on off n m0 m _ _ _ _ H) as (m' & -> & H'); clear H; rename H' into H
      end
  end.

(** A stage of [main] that blinks, or only logs a warning. *)
Lemma reached_stage on off n (b : bool) ok ko os m0 m l s ls : reached m0 m l s [] (log_of os ls) →
  ∃ m', (if b then _ ← blink on off n; bootPrintf ok else bootPrintf ko) m = (m', Ok ()) ∧
    reached m0 m' l (s ++ (if b then blinks l on off n else [])) [] (log_of os (ls ++ [if b then ok else ko])).
Proof.
  intros H. destruct b; io_unfold; rewrite ?app_nil_r.
  - boot_step H. boot_step H. by eexists.
  - boot_step H. by eexists.
Qed.

(** The same, for a stage that [io_unfold] has unfolded. *)
Ltac stage_step H m' :=
  lazymatch type of H with
  | reached ?m0 ?m ?l _ _ _ =>
      match goal with
      | |- context [(if ?b then (λ s, let (_, _) := blink ?on ?off ?n s in match _ with Err _ => _ | Ok _ => bootPrintf ?ok _ end)
                     else bootPrintf ?ko) m] =>
          let H' := fresh "H" in let E := fresh "E" in
          destruct (reached_stage on off n b ok ko _ m0 m _ _ _ H) as (m' & E & H');
          unfold mbind, io_bind in E; cbn beta iota in E; rewrite E; clear H E; rename H' into H
      end
  end.

Lemma wait_usb0_run os m : ticking (200 * millisecond) (os_clock os (mc_done m)) →
  wait_usb0 os m = (m, Ok ()) ∨ wait_usb0 os m = (m, Err ErrInterface).
Proof.
  intros Hc. unfold wait_usb0.
  destruct (poll_spec (Z.to_nat (10 * second / (200 * millisecond)) + 2) (200 * millisecond)
    (10 * second) (os_clock os (mc_done m)) (os_interface os (mc_done m) "usb0") 0) as (r & E & _);
    [vm_compute; congruence..|exact Hc|lia|vm_compute; congruence|].
  change (waitForUSBInterface (10 * second) (os_clock os (mc_done m)) (os_interface os (mc_done m) "usb0") = Some r) in E.
  rewrite E. destruct r; auto.
Qed.

Lemma start_network_stops os m0 m t1 t2 role :
  let lit := mapped os t1 portcBase in
  let hub := mapped os t2 portbBase in
  (∀ t, ticking (200 * millisecond) (os_clock os t)) →
  t1 `prefix_of` t2 → t2 `prefix_of` mc_done m0 →
  reached m0 m lit (boot_shown lit hub) [] (log_of os (boot_lines lit hub role)) →
  let '(m', r) := start_network os m in stopped os m' r.
Proof.
  intros lit hub Ht H1 H2 H. unfold start_network, ledLongBlink, fatal. io_unfold.
  boot_step H. boot_step H.
  match goal with |- context [wait_usb0 os ?x] => destruct (wait_usb0_run os x (Ht _)) as [-> | ->] end.
  2: { boot_step H. rewrite <-app_assoc in H. eapply (stopped_reached os m0 _ t1 t2 role); [exact H1|exact H2|exact H|done..]. }
  boot_step H.
  destruct (bringUp_run os _ _ _ _ _ H) as (m9 & r & -> & Hr). clear H.
  destruct r as [e|[]].
  { destruct Hr as ([-> | ->] & H); boot_step H; rewrite <-!app_assoc in H;
      (eapply (stopped_reached os m0 _ t1 t2 role); [exact H1|exact H2|exact H|done..]). }
  rename Hr into H. boot_step H. destruct usb_server as (srv & -> & Hsrv). boot_step H.
  unfold ledOn. destruct (reached_led true _ _ _ _ _ _ H) as (m11 & -> & H11). clear H. rename H11 into H.
  boot_step H. boot_step H. rewrite <-!app_assoc in H. destruct H as (G0 & _ & _ & G3 & G4 & G5).
  split; [done|]. split; [done|]. split; [done|]. exists t1, t2, role.
  split; [done|]. split; [by etransitivity|]. cbn zeta. split_and!; [exact G3|exact G4|exact G5|].
  by intros ? [= <-].
Qed.


(** ** A board on which everything works *)

Definition page : list Z := replicate 4096 0.

Lemma page_registers : registers page.
Proof. split; [apply length_replicate|]. apply Forall_replicate. by split. Qed.

Definition demo_os : Os := {|
  os_boot := true;
  os_mem := λ _, true;
  os_mmap := λ _ _ _, Some page;
  os_ok := λ _ _, true;
  os_exists := λ t p, existsb (λ e, match e with WriteFile q _ => String.eqb q p | _ => false end) t;
  os_read := λ _ _, Some ("4340000.usb" +:+ nl);
  os_readdir := λ _ _, Some ["4340000.usb"];
  os_glob := λ _ p, if String.eqb p "/sys/devices/platform/*/usb/mode"
                    then Some ["/sys/devices/platform/4340000.usb/usb/mode"] else Some [];
  os_clock := λ _, demo_clock;
  os_interface := λ _ _ n, (2 <=? n)%nat
|}.

Lemma demo_well_mapped : well_mapped demo_os.
Proof. intros t base regs [= <-]. apply page_registers. Qed.

Lemma gpio_correct_witness :
  ∃ regs', gpioSetValue page 24 true = Some regs' ∧ page_bit regs' 24 = true ∧ page_bit regs' 56 = false.
Proof.
  destruct (gpio_correct page 24 page_registers) as [_ H]; [split; [done|reflexivity]|].
  destruct (H true) as (regs' & E & _ & Hp). exists regs'. split; [exact E|].
  split; [rewrite (Hp 24); [reflexivity|done]|]. rewrite (Hp 56); [vm_compute; reflexivity|done].
Defined.

Lemma demo_clock_ticking : ticking (200 * millisecond) demo_clock.
Proof.
  destruct demo_ticking as [H1 H2]. split; [done|]. intros i. specialize (H2 i). unfold millisecond in *. lia.
Qed.

