(* ===== verification/Cli.v ===== *)
(** * cmd/router-cli: the command line client

    The extras commands, which edit the runtime configuration, the export of
    the known clients as a MAC-to-VLAN file, the tables of the status command
    and the formatting of numbers.  What a run prints and writes is recorded; an
    exit with an error is the failure of the run. *)

From Stdlib Require Import Ascii.
From S2P Require Import Prelude GoStrings GoStrconv GoNet GoOs Config.
From S2P Require Macmap.
Open Scope Z_scope.

(** ** Data of the status API *)

Inductive PortInfo := {
  pi_Name : string; pi_MAC : string; pi_Up : bool; pi_Carrier : bool;
  pi_Speed : Z; pi_Duplex : string;
  pi_TxBytes : Z; pi_RxBytes : Z; pi_TxPkts : Z; pi_RxPkts : Z;
  pi_Sub : list PortInfo
}.

Record SummaryInfo := {
  su_Name : string; su_TxBytes : Z; su_RxBytes : Z; su_TxPkts : Z; su_RxPkts : Z
}.

(** Floating-point numbers, as far as the tables need them. *)
Class GoFloat64 := {
  float64 : Type;
  of_int : Z → float64;
  div : float64 → float64 → float64;
  lt : float64 → float64 → bool;
  eq : float64 → float64 → bool;
  format : Z → float64 → string     (* %.nf *)
}.

(** ** Runs

    A table is its rows of cells; their alignment is left to text/tabwriter. *)

Inductive output :=
  | Print (line : string)
  | Table (rows : list (list string))
  | Raw (data : string).

Inductive effect :=
  | Stdout (o : output)
  | Stderr (line : string)
  | Save (path : string) (e : ExtrasConfig).

(** [os.Exit] with the code. *)
Abbreviation cli_io := (io (list effect) Z).

Section cli.
Context `{FL : GoFloat64} `{U : GoUnicode} `{MO : MapOrder}.

Record ClientInfo := {
  ci_IP : string; ci_MAC : string; ci_Via : string; ci_Connected : bool;
  ci_TxBytes : Z; ci_RxBytes : Z; ci_TxPkts : Z; ci_RxPkts : Z;
  ci_TxRate : float64; ci_RxRate : float64;
  ci_LinkTxRate : Z; ci_LinkRxRate : Z; ci_Signal : Z;
  ci_TotalTxBytes : Z; ci_TotalRxBytes : Z; ci_TotalTxPkts : Z; ci_TotalRxPkts : Z;
  ci_FirstSeen : string; ci_LastSeen : string
}.

Record Status := {
  st_Summary : list SummaryInfo; st_Ports : list PortInfo; st_Clients : list ClientInfo
}.

(** ** Formatting *)

(** The nearest integer of a quotient, to even when in the middle. *)
Definition round_half_even (n d : Z) : Z :=
  let q := n / d in
  let r := 2 * (n mod d) in
  if r <? d then q else if d <? r then q + 1 else if Z.even q then q else q + 1.

(** [float64(b)] of a uint64, an integer of at most 53 significant bits. *)
Definition float64_of (b : Z) : Z :=
  if b <? 2 ^ 53 then b
  else let e := Z.log2 b - 52 in round_half_even b (2 ^ e) * 2 ^ e.

(** [%.1f] of [float64(b) / 2^k], in tenths: the quotient is exact. *)
Definition tenths (b k : Z) : Z := round_half_even (10 * float64_of b) (2 ^ k).

Definition fixed1 (t : Z) : string := itoa (t / 10) +:+ "." +:+ itoa (t mod 10).

Definition humanBytes (b : Z) : string :=
  if 2 ^ 30 <=? b then fixed1 (tenths b 30) +:+ " GiB"
  else if 2 ^ 20 <=? b then fixed1 (tenths b 20) +:+ " MiB"
  else if 2 ^ 10 <=? b then fixed1 (tenths b 10) +:+ " KiB"
  else itoa b +:+ " B".

Definition formatSpeed (speed : Z) (duplex : string) : string :=
  if speed <=? 0 then "-"
  else let s := itoa speed +:+ " Mbps" in
       if String.eqb duplex "" then s else s +:+ "/" +:+ duplex.

Definition humanRate (bytesPerSec : float64) : string :=
  let ge k := lt (of_int k) bytesPerSec || eq (of_int k) bytesPerSec in
  if lt bytesPerSec (of_int 1) then "0 B/s"
  else if ge (2 ^ 30) then format 1 (div bytesPerSec (of_int (2 ^ 30))) +:+ " GiB/s"
  else if ge (2 ^ 20) then format 1 (div bytesPerSec (of_int (2 ^ 20))) +:+ " MiB/s"
  else if ge (2 ^ 10) then format 1 (div bytesPerSec (of_int (2 ^ 10))) +:+ " KiB/s"
  else format 0 bytesPerSec +:+ " B/s".

Definition formatLinkRate (txKbps rxKbps : Z) : string :=
  if (txKbps <=? 0) && (rxKbps <=? 0) then "-"
  else
    let tx := div (of_int txKbps) (of_int 1000) in
    let rx := div (of_int rxKbps) (of_int 1000) in
    if eq tx rx then format 1 tx +:+ " Mbps"
    else format 1 tx +:+ "/" +:+ format 1 rx +:+ " Mbps".

Definition formatSignal (dBm : Z) : string := if dBm =? 0 then "-" else itoa dBm +:+ " dBm".

(** ** The status tables *)

Definition port_row (p : PortInfo) : list string :=
  [pi_Name p; pi_MAC p; formatSpeed (pi_Speed p) (pi_Duplex p); humanBytes (pi_RxBytes p);
   humanBytes (pi_TxBytes p); itoa (pi_RxPkts p); itoa (pi_TxPkts p)].

(** A port with sub-ports is shown by these. *)
Definition port_rows (p : PortInfo) : list (list string) :=
  match pi_Sub p with [] => [port_row p] | sub => map port_row sub end.

Definition via_cell (via : string) : string := if String.eqb via "" then "?" else via.

Definition connected_row (c : ClientInfo) : list string :=
  [via_cell (ci_Via c); ci_IP c; ci_MAC c; humanRate (ci_RxRate c); humanRate (ci_TxRate c);
   formatLinkRate (ci_LinkTxRate c) (ci_LinkRxRate c); formatSignal (ci_Signal c);
   humanBytes (ci_RxBytes c); humanBytes (ci_TxBytes c);
   humanBytes (ci_TotalRxBytes c); humanBytes (ci_TotalTxBytes c)].

Definition disconnected_row (c : ClientInfo) : list string :=
  [via_cell (ci_Via c); ci_IP c; ci_MAC c; humanBytes (ci_TotalRxBytes c);
   humanBytes (ci_TotalTxBytes c); ci_LastSeen c].

Definition wifi_note : list output :=
  [Print ""; Print "NOTE: WiFi is in routed mode (separate subnet). LAN and WiFi";
   Print "      clients can reach each other — no inter-subnet firewall";
   Print "      rules are configured."].

Definition client_tables (cs : list ClientInfo) : list output :=
  let connected := filter (λ c, ci_Connected c = true) cs in
  let disconnected := filter (λ c, ci_Connected c = false) cs in
  [Print ""; Print "CONNECTED CLIENTS"] ++
  match connected with
  | [] => [Print "  (none)"]
  | _ =>
      Table (["VIA"; "IP"; "MAC"; "UL RATE"; "DL RATE"; "LINK"; "SIGNAL"; "UL"; "DL"; "TOTAL UL"; "TOTAL DL"]
             :: map connected_row connected) ::
      (if existsb (λ c, String.eqb (ci_Via c) "W") connected then wifi_note else [])
  end ++
  match disconnected with
  | [] => []
  | _ => [Print ""; Print "DISCONNECTED CLIENTS (historical)";
          Table (["VIA"; "IP"; "MAC"; "TOTAL UL"; "TOTAL DL"; "LAST SEEN"]
                 :: map disconnected_row disconnected)]
  end.

Definition status_tables (s : Status) : list output :=
  Table (["IFACE"; "MAC"; "SPEED"; "RX"; "TX"; "RX PKTS"; "TX PKTS"]
         :: concat (map port_rows (st_Ports s))) ::
  match st_Clients s with
  | [] => [Print (nl +:+ "No clients connected.")]
  | cs => client_tables cs
  end.

Definition say (e : effect) : cli_io unit := λ t, (t ++ [e], Ok ()).
Definition print (s : string) : cli_io unit := say (Stdout (Print s)).
Definition fail_with (s : string) : cli_io unit := _ ← say (Stderr s); throw 1.

(** ** Printing and the extras command *)

Definition defaultExtrasFile : string := "/mnt/data/router-extras.toml".

Section extras.
Context (read_file : string → result file_error string) (decode_toml : string → option ExtrasConfig)
        (save_ok : string → ExtrasConfig → bool).

Definition empty_extras : ExtrasConfig := {|
  e_Reservations := None; e_MacImages := None; e_DefaultImage := ""; e_PXEBootFile := "";
  e_LegacyBootFile := ""; e_UEFIBootFile := ""; e_IPXEScript := ""; e_SMBUsers := [];
  e_VLANAddresses := None; e_DNS := [] |}.

(** The text of an error is left out. *)
Definition loadExtras (path : string) : cli_io ExtrasConfig :=
  match LoadExtras read_file decode_toml path with
  | Ok e => mret e
  | Err (ErrOpen NotExist) => mret empty_extras
  | Err _ => _ ← say (Stderr ("error loading " +:+ path)); throw 1
  end.

Definition saveExtras (path : string) (e : ExtrasConfig) : cli_io unit :=
  _ ← say (Save path e);
  if save_ok path e then mret () else fail_with ("error saving " +:+ path).

Definition print_map (m : option (gmap string string)) : cli_io unit :=
  foldr (λ kv k, _ ← print ("  " +:+ kv.1 +:+ " = " +:+ kv.2); k) (mret ()) (map_range (default ∅ m)).

Definition print_users (us : list SMBUser) : cli_io unit :=
  foldr (λ u k, _ ← print ("  name = " +:+ u_Name u); k) (mret ()) us.

(** A section of the list, if it has entries. *)
Definition print_section (title : string) (n : nat) (body : cli_io unit) : cli_io unit :=
  if (n =? 0)%nat then mret () else _ ← print title; _ ← body; print "".

Definition runExtrasList (file : string) : cli_io unit :=
  e ← loadExtras file;
  let r := size (default ∅ (e_Reservations e)) in
  let i := size (default ∅ (e_MacImages e)) in
  let u := length (e_SMBUsers e) in
  if (r =? 0)%nat && (i =? 0)%nat && (u =? 0)%nat then print "(empty)"
  else
    _ ← print_section "[reservations]" r (print_map (e_Reservations e));
    _ ← print_section "[macImages]" i (print_map (e_MacImages e));
    print_section "[[smbUsers]]" u (print_users (e_SMBUsers e)).

(** The common shape of the four editing commands: an edit that reports
    [ErrNotModified] is not saved. *)
Definition edit_extras (file : string) (edit : ExtrasConfig → ExtrasConfig * option config_error)
    (unchanged changed : string) : cli_io unit :=
  e ← loadExtras file;
  match edit e with
  | (_, Some ErrNotModified) => print unchanged
  | (e, _) => _ ← saveExtras file e; print changed
  end.

Definition runExtrasSetReservation (file : string) (args : list string) : cli_io unit :=
  match args with
  | [mac; ip] =>
      edit_extras file (λ e, SetReservation e mac ip)
        ("reservation for " +:+ mac +:+ " unchanged (" +:+ ip +:+ ")")
        ("reservation set: " +:+ mac +:+ " -> " +:+ ip)
  | _ => fail_with "usage: router-cli extras set-reservation <mac> <ip>"
  end.

Definition runExtrasRemoveReservation (file : string) (args : list string) : cli_io unit :=
  match args with
  | [mac] =>
      edit_extras file (λ e, RemoveReservation e mac)
        ("no reservation found for " +:+ mac) ("reservation removed: " +:+ mac)
  | _ => fail_with "usage: router-cli extras remove-reservation <mac>"
  end.

Definition runExtrasSetMacImage (file : string) (args : list string) : cli_io unit :=
  match args with
  | [mac; img] =>
      edit_extras file (λ e, SetMacImage e mac img)
        ("mac image for " +:+ mac +:+ " unchanged (" +:+ img +:+ ")")
        ("mac image set: " +:+ mac +:+ " -> " +:+ img)
  | _ => fail_with "usage: router-cli extras set-mac-image <mac> <image>"
  end.

Definition runExtrasRemoveMacImage (file : string) (args : list string) : cli_io unit :=
  match args with
  | [mac] =>
      edit_extras file (λ e, RemoveMacImage e mac)
        ("no mac image found for " +:+ mac) ("mac image removed: " +:+ mac)
  | _ => fail_with "usage: router-cli extras remove-mac-image <mac>"
  end.

Definition printExtrasUsage : cli_io unit :=
  say (Stderr ("Usage: router-cli extras [--file <path>] <command> [args]

Commands:
  list                          Show current extras config
  set-reservation <mac> <ip>    Add or update a DHCP reservation
  remove-reservation <mac>      Remove a DHCP reservation
  set-mac-image <mac> <image>   Set PXE boot image for a MAC
  remove-mac-image <mac>        Remove PXE boot image for a MAC

Default file: " +:+ defaultExtrasFile +:+ nl)).

(** The subcommand, once the file is known. *)
Definition extras_command (file : string) (args : list string) : cli_io unit :=
  match args with
  | [] => _ ← printExtrasUsage; throw 1
  | sub :: subArgs =>
      if String.eqb sub "list" then runExtrasList file
      else if String.eqb sub "set-reservation" then runExtrasSetReservation file subArgs
      else if String.eqb sub "remove-reservation" then runExtrasRemoveReservation file subArgs
      else if String.eqb sub "set-mac-image" then runExtrasSetMacImage file subArgs
      else if String.eqb sub "remove-mac-image" then runExtrasRemoveMacImage file subArgs
      else _ ← say (Stderr ("unknown extras subcommand: " +:+ sub)); _ ← printExtrasUsage; throw 1
  end.

Definition runExtras (args : list string) : cli_io unit :=
  match args with
  | [] => _ ← printExtrasUsage; throw 1
  | flag :: rest =>
      if String.eqb flag "--file" then
        match rest with
        | [] => fail_with "error: --file requires a path"
        | file :: args => extras_command file args
        end
      else extras_command defaultExtrasFile args
  end.
End extras.

(** ** The export of the known clients *)

Section export.
Context (read_file : string → option string) (toml_unmarshal : string → option Macmap.MapFile)
        (encode : Macmap.MapFile → option string).

Definition export_client (c : ClientInfo) : Macmap.Client :=
  let via := if String.eqb (ci_Via c) "W" then "wifi"
             else if String.eqb (ci_Via c) "L" then "lan" else ci_Via c in
  {| Macmap.c_MAC := ci_MAC c; Macmap.c_VLAN := 0;
     Macmap.c_Name := if String.eqb (ci_IP c) "" then ""
                      else ci_IP c +:+ " (" +:+ via +:+ ")";
     Macmap.c_Hostname := "" |}.

(** The clients with a MAC address. *)
Definition exported (s : Status) (default_vlan : Z) : Macmap.MapFile := {|
  Macmap.mf_DefaultVLAN := default_vlan;
  Macmap.mf_Clients := map export_client (filter (λ c, ci_MAC c ≠ "") (st_Clients s)) |}.

Definition write_map (mf : Macmap.MapFile) : cli_io unit :=
  match encode mf with
  | None => fail_with "error encoding TOML"
  | Some data => say (Stdout (Raw data))
  end.

Definition exportMACMap (s : Status) (mergeFile : string) : cli_io unit :=
  if String.eqb mergeFile "" then
    _ ← say (Stderr "# Exported MAC addresses from router status API.");
    _ ← say (Stderr "# Edit VLAN assignments, then deploy to the router.");
    _ ← say (Stderr "# Use --merge to add new clients to an existing file.");
    write_map (exported s 1)
  else
    match Macmap.Load toml_unmarshal read_file mergeFile with
    | Err _ => fail_with ("error loading " +:+ mergeFile)
    | Ok existing => write_map (Macmap.Merge existing (exported s 0))
    end.

(** ** The status command *)

Record status_options := { so_host : string; so_json : bool; so_export : bool; so_merge : string }.

Definition default_options : status_options :=
  {| so_host := "10.0.0.1:8080"; so_json := false; so_export := false; so_merge := "" |}.

(** What package flag knows of a name: how its text sets the options, and
    whether it is a switch. *)
Inductive flag_kind :=
  | Text (set : string → status_options → status_options)
  | Switch (set : bool → status_options → status_options).

Definition formal (name : string) : option flag_kind :=
  if String.eqb name "host" then
    Some (Text (λ v o, {| so_host := v; so_json := so_json o; so_export := so_export o; so_merge := so_merge o |}))
  else if String.eqb name "json" then
    Some (Switch (λ v o, {| so_host := so_host o; so_json := v; so_export := so_export o; so_merge := so_merge o |}))
  else if String.eqb name "export-toml" then
    Some (Switch (λ v o, {| so_host := so_host o; so_json := so_json o; so_export := v; so_merge := so_merge o |}))
  else if String.eqb name "merge" then
    Some (Text (λ v o, {| so_host := so_host o; so_json := so_json o; so_export := so_export o; so_merge := v |}))
  else None.

Definition parse_bool (s : string) : option bool :=
  if existsb (String.eqb s) ["1"; "t"; "T"; "true"; "TRUE"; "True"] then Some true
  else if existsb (String.eqb s) ["0"; "f"; "F"; "false"; "FALSE"; "False"] then Some false
  else None.

(** An argument [-name], [--name], [-name=value] or [--name=value]; the exit is
    with code 0 after a request for help and with 2 after an error; the usage
    text that package flag prints is left out. *)
Inductive argument :=
  | Flag (name : string) (value : option string)
  | EndOfFlags
  | BadFlag.

Definition flag_argument (s : string) : argument :=
  let name := str_drop (if has_prefix "--" s then 2 else 1) s in
  if (String.length s <? 2)%nat || negb (has_prefix "-" s) || String.eqb s "--" then EndOfFlags
  else if String.eqb name "" || has_prefix "-" name || has_prefix "=" name then BadFlag
  else match cut_char "=" name with
       | Some (name, value) => Flag name (Some value)
       | None => Flag name None
       end.

Definition usage_error (s : string) : cli_io status_options := _ ← say (Stderr s); throw 2.

Fixpoint parse_flags (args : list string) (o : status_options) : cli_io status_options :=
  match args with
  | [] => mret o
  | arg :: args =>
      match flag_argument arg with
      | EndOfFlags => mret o
      | BadFlag => usage_error ("bad flag syntax: " +:+ arg)
      | Flag name value =>
          match formal name with
          | None => if String.eqb name "help" || String.eqb name "h" then throw 0
                    else usage_error ("flag provided but not defined: -" +:+ name)
          | Some (Switch set) =>
              match parse_bool (default "true" value) with
              | Some v => parse_flags args (set v o)
              | None => usage_error ("invalid boolean value for -" +:+ name)
              end
          | Some (Text set) =>
              match value, args with
              | Some v, _ => parse_flags args (set v o)
              | None, v :: args => parse_flags args (set v o)
              | None, [] => usage_error ("flag needs an argument: -" +:+ name)
              end
          end
      end
  end.

Inductive fetch_error := ErrGet | ErrDecodeStatus.

Context (fetch : string → result fetch_error Status) (encode_json : Status → string).

Definition show_status (o : status_options) : cli_io unit :=
  match fetch ("http://" +:+ so_host o +:+ "/status") with
  | Err ErrGet => fail_with "error"
  | Err ErrDecodeStatus => fail_with "error decoding response"
  | Ok s =>
      if so_export o then exportMACMap s (so_merge o)
      else if so_json o then say (Stdout (Raw (encode_json s)))
      else foldr (λ x k, _ ← say (Stdout x); k) (mret ()) (status_tables s)
  end.

Definition runStatus (args : list string) : cli_io unit :=
  o ← parse_flags args default_options; show_status o.
End export.

(** ** The command line *)

Definition printUsage : cli_io unit :=
  say (Stderr "Usage: router-cli <subcommand> [options]

Subcommands:
  status      Query router status API
  extras      Manage runtime extras config (reservations, PXE images)

Run 'router-cli status --help' or 'router-cli extras --help' for details.
").

Definition main (read_file : string → result file_error string)
    (decode_toml : string → option ExtrasConfig) (save_ok : string → ExtrasConfig → bool)
    (toml_unmarshal : string → option Macmap.MapFile) (encode : Macmap.MapFile → option string)
    (fetch : string → result fetch_error Status) (encode_json : Status → string)
    (args : list string) : cli_io unit :=
  let read path := match read_file path with Ok data => Some data | Err _ => None end in
  match args with
  | [] => _ ← printUsage; throw 1
  | cmd :: args =>
      if String.eqb cmd "status" then
        runStatus read toml_unmarshal encode fetch encode_json args
      else if String.eqb cmd "extras" then runExtras read_file decode_toml save_ok args
      else _ ← say (Stderr ("unknown subcommand: " +:+ cmd)); _ ← printUsage; throw 1
  end.
End cli.

(** ** Lemmas: rounding *)

Lemma round_half_even_bound n d : 0 < d → 2 * Z.abs (round_half_even n d * d - n) ≤ d.
Proof.
  intros Hd. pose proof (Z.div_mod n d ltac:(lia)). pose proof (Z.mod_pos_bound n d Hd).
  unfold round_half_even. repeat case_if; to_prop; nia.
Qed.

Lemma float64_of_bound b : 0 ≤ b < 2 ^ 64 →
  Z.abs (float64_of b - b) ≤ (if b <? 2 ^ 53 then 0 else 2 ^ 10).
Proof.
  intros Hb. unfold float64_of. destruct (Z.ltb_spec b (2 ^ 53)) as [|H]; [lia|].
  assert (53 ≤ Z.log2 b < 64) as Hl.
  { split; [by apply Z.log2_le_pow2; lia|apply Z.log2_lt_pow2; lia]. }
  pose proof (round_half_even_bound b (2 ^ (Z.log2 b - 52))) as Hr.
  assert (0 < 2 ^ (Z.log2 b - 52) ≤ 2 ^ 11) as Hp.
  { split; [apply Z.pow_pos_nonneg; lia|apply Z.pow_le_mono_r; lia]. }
  change (2 ^ 11) with (2 * 2 ^ 10) in Hp. specialize (Hr ltac:(lia)). lia.
Qed.

Lemma tenths_bound b k : 0 ≤ b < 2 ^ 64 → 0 ≤ k →
  2 * Z.abs (tenths b k * 2 ^ k - 10 * b) ≤ 2 ^ k + (if b <? 2 ^ 53 then 0 else 20 * 2 ^ 10).
Proof.
  intros Hb Hk. unfold tenths. pose proof (round_half_even_bound (10 * float64_of b) (2 ^ k)) as H1.
  pose proof (float64_of_bound b Hb) as H2. specialize (H1 ltac:(apply Z.pow_pos_nonneg; lia)).
  destruct (b <? 2 ^ 53); lia.
Qed.

(** ** The extras command, abstractly *)

Inductive command :=
  | CList
  | CSetReservation (mac ip : string)
  | CRemoveReservation (mac : string)
  | CSetMacImage (mac image : string)
  | CRemoveMacImage (mac : string).

(** What the arguments ask for, and of which file. *)
Definition parse_command (args : list string) : option command :=
  match args with
  | [] => None
  | sub :: args =>
      if String.eqb sub "list" then Some CList
      else if String.eqb sub "set-reservation" then
        match args with [mac; ip] => Some (CSetReservation mac ip) | _ => None end
      else if String.eqb sub "remove-reservation" then
        match args with [mac] => Some (CRemoveReservation mac) | _ => None end
      else if String.eqb sub "set-mac-image" then
        match args with [mac; image] => Some (CSetMacImage mac image) | _ => None end
      else if String.eqb sub "remove-mac-image" then
        match args with [mac] => Some (CRemoveMacImage mac) | _ => None end
      else None
  end.

Definition parse_args (args : list string) : option (string * command) :=
  match args with
  | flag :: rest =>
      if String.eqb flag "--file" then
        match rest with file :: args => pair file <$> parse_command args | [] => None end
      else pair defaultExtrasFile <$> parse_command args
  | [] => None
  end.

(** The two maps that the commands edit, and all the rest of a file. *)
Definition entries (e : ExtrasConfig) : gmap string string * gmap string string :=
  (default ∅ (e_Reservations e), default ∅ (e_MacImages e)).

Definition others (e : ExtrasConfig) :=
  (e_DefaultImage e, e_PXEBootFile e, e_LegacyBootFile e, e_UEFIBootFile e, e_IPXEScript e,
   e_SMBUsers e, e_VLANAddresses e, e_DNS e).

Section edits.
Context `{U : GoUnicode}.

Definition command_effect (c : command) (m : gmap string string * gmap string string) :=
  match c with
  | CList => m
  | CSetReservation mac ip => (<[normalizeMAC mac := ip]> m.1, m.2)
  | CRemoveReservation mac => (delete (normalizeMAC mac) m.1, m.2)
  | CSetMacImage mac image => (m.1, <[normalizeMAC mac := image]> m.2)
  | CRemoveMacImage mac => (m.1, delete (normalizeMAC mac) m.2)
  end.

(** An empty value means a missing entry to the setters. *)
Definition non_empty (c : command) : Prop :=
  match c with CSetReservation _ v | CSetMacImage _ v => v ≠ "" | _ => True end.

(** An edit that does what [f] says, and tells whether that is a change. *)
Definition edits (edit : ExtrasConfig → ExtrasConfig * option config_error)
    (f : gmap string string * gmap string string → gmap string string * gmap string string) : Prop :=
  ∀ e, match edit e with
       | (_, Some ErrNotModified) => f (entries e) = entries e
       | (e', None) => f (entries e) = entries e' ∧ entries e' ≠ entries e ∧ others e' = others e
       | _ => False
       end.

Lemma insert_changes (m : gmap string string) k v : v ≠ "" →
  if String.eqb (get m k) v then <[k := v]> m = m else <[k := v]> m ≠ m.
Proof.
  intros Hv. unfold get. destruct (String.eqb_spec (default "" (m !! k)) v) as [E|E].
  - apply insert_id. destruct (m !! k); cbn in E; congruence.
  - intros Em. apply E. rewrite <-Em. by rewrite lookup_insert_eq.
Qed.

Lemma delete_changes (m : gmap string string) k x : m !! k = Some x → delete k m ≠ m.
Proof. intros E Em. rewrite <-Em, lookup_delete_eq in E. done. Qed.

Lemma SetReservation_edits mac ip : ip ≠ "" →
  edits (λ e, SetReservation e mac ip) (command_effect (CSetReservation mac ip)).
Proof.
  intros Hip e. unfold SetReservation. pose proof (insert_changes (default ∅ (e_Reservations e)) (normalizeMAC mac) ip Hip) as H.
  case_if; unfold entries; cbn; [by rewrite H|]. split_and!; [done|congruence|done].
Qed.

Lemma SetMacImage_edits mac image : image ≠ "" →
  edits (λ e, SetMacImage e mac image) (command_effect (CSetMacImage mac image)).
Proof.
  intros Hip e. unfold SetMacImage. pose proof (insert_changes (default ∅ (e_MacImages e)) (normalizeMAC mac) image Hip) as H.
  case_if; unfold entries; cbn; [by rewrite H|]. split_and!; [done|congruence|done].
Qed.

Lemma RemoveReservation_edits mac :
  edits (λ e, RemoveReservation e mac) (command_effect (CRemoveReservation mac)).
Proof.
  intros e. unfold RemoveReservation, entries. cbn. destruct (e_Reservations e) as [m|]; cbn; [|by rewrite delete_empty].
  destruct (m !! normalizeMAC mac) eqn:E; cbn; [|by rewrite delete_id].
  split_and!; [done| |done]. intros [= H]. by eapply delete_changes.
Qed.

Lemma RemoveMacImage_edits mac :
  edits (λ e, RemoveMacImage e mac) (command_effect (CRemoveMacImage mac)).
Proof.
  intros e. unfold RemoveMacImage, entries. cbn. destruct (e_MacImages e) as [m|]; cbn; [|by rewrite delete_empty].
  destruct (m !! normalizeMAC mac) eqn:E; cbn; [|by rewrite delete_id].
  split_and!; [done| |done]. intros [= H]. by eapply delete_changes.
Qed.
End edits.

(** What was saved. *)
Definition saves (t : list effect) : list (string * ExtrasConfig) :=
  omap (λ e, match e with Save p x => Some (p, x) | _ => None end) t.

Section runs.
Context `{U : GoUnicode} `{MO : MapOrder}.
Context (read_file : string → result file_error string) (decode_toml : string → option ExtrasConfig)
        (save_ok : string → ExtrasConfig → bool).

(** The file a command works on. *)
Definition opened (file : string) : option ExtrasConfig :=
  match LoadExtras read_file decode_toml file with
  | Ok e => Some e
  | Err (ErrOpen NotExist) => Some empty_extras
  | Err _ => None
  end.

Lemma loadExtras_run file t :
  match opened file with
  | Some e => loadExtras read_file decode_toml file t = (t, Ok e)
  | None => ∃ s, loadExtras read_file decode_toml file t = (t ++ [Stderr s], Err 1)
  end.
Proof.
  unfold opened, loadExtras. destruct (LoadExtras read_file decode_toml file) as [[|[]|]|e]; try done;
    by eexists.
Qed.

Lemma saves_app t u : saves (t ++ u) = saves t ++ saves u.
Proof. apply omap_app. Qed.

(** Printing saves nothing and succeeds. *)
Definition prints (c : cli_io unit) : Prop := ∀ t, ∃ u, c t = (t ++ u, Ok ()) ∧ saves u = [].

Lemma prints_say e : (∀ p x, e ≠ Save p x) → prints (say e).
Proof. intros H t. exists [e]. split; [done|]. destruct e; [done|done|]. by destruct (H path e). Qed.

Lemma prints_ret : prints (mret ()).
Proof. intros t. exists []. by rewrite app_nil_r. Qed.

Lemma prints_seq c k : prints c → prints k → prints (_ ← c; k).
Proof.
  intros Hc Hk t. destruct (Hc t) as (u & E & Hu). destruct (Hk (t ++ u)) as (v & Ev & Hv).
  exists (u ++ v). unfold mbind, io_bind. rewrite E, Ev, app_assoc, saves_app, Hu, Hv. done.
Qed.

Lemma prints_foldr {A} (f : A → cli_io unit) l :
  (∀ x, prints (f x)) → prints (foldr (λ x k, _ ← f x; k) (mret ()) l).
Proof. intros Hf. induction l as [|x l IH]; [apply prints_ret|]. by apply prints_seq. Qed.

Lemma prints_section title n body : prints body → prints (print_section title n body).
Proof.
  intros Hb. unfold print_section. case_if; [apply prints_ret|].
  apply prints_seq; [by apply prints_say|]. apply prints_seq; [done|by apply prints_say].
Qed.

Lemma edit_extras_run file edit f unchanged changed e :
  opened file = Some e → edits edit f →
  let '(t, r) := edit_extras read_file decode_toml save_ok file edit unchanged changed [] in
  (f (entries e) = entries e → saves t = [] ∧ r = Ok ()) ∧
  (f (entries e) ≠ entries e → ∃ e', saves t = [(file, e')] ∧ entries e' = f (entries e) ∧
     others e' = others e ∧ r = if save_ok file e' then Ok () else Err 1).
Proof.
  intros Ho He. unfold edit_extras. pose proof (loadExtras_run file []) as Hl. rewrite Ho in Hl.
  io_unfold. rewrite Hl. specialize (He e). destruct (edit e) as [e' [[]|]]; try done.
  destruct He as (H1 & H2 & H3). unfold saveExtras, say, print, fail_with. io_unfold. rewrite H1.
  destruct (save_ok file e') eqn:Es; io_unfold; (split; [done|]); intros _; exists e'; by rewrite Es.
Qed.
Lemma edit_extras_closed file edit unchanged changed :
  opened file = None →
  let '(t, r) := edit_extras read_file decode_toml save_ok file edit unchanged changed [] in
  r = Err 1 ∧ saves t = [].
Proof.
  intros Ho. unfold edit_extras. pose proof (loadExtras_run file []) as Hl. rewrite Ho in Hl.
  destruct Hl as [s Hl]. io_unfold. by rewrite Hl.
Qed.

(** What a run of a command does to the file, as a predicate on its record. *)
Definition command_outcome (file : string) (c : command) (t : list effect) (r : result Z ()) : Prop :=
  match opened file with
  | None => r = Err 1 ∧ saves t = []
  | Some e => non_empty c →
      let new := command_effect c (entries e) in
      (new = entries e → saves t = [] ∧ r = Ok ()) ∧
      (new ≠ entries e → ∃ e', saves t = [(file, e')] ∧ entries e' = new ∧ others e' = others e ∧
         r = if save_ok file e' then Ok () else Err 1)
  end.

Lemma edit_outcome file c edit unchanged changed :
  (non_empty c → edits edit (command_effect c)) →
  let '(t, r) := edit_extras read_file decode_toml save_ok file edit unchanged changed [] in
  command_outcome file c t r.
Proof.
  intros He. unfold command_outcome. destruct (opened file) as [e|] eqn:Ho.
  - pose proof (λ H, edit_extras_run file edit _ unchanged changed e Ho (He H)) as Hr.
    destruct (edit_extras _ _ _ _ _ _ _ _) as [t r]. exact Hr.
  - by apply edit_extras_closed.
Qed.

Lemma list_outcome file :
  let '(t, r) := runExtrasList read_file decode_toml file [] in command_outcome file CList t r.
Proof.
  unfold runExtrasList, command_outcome. pose proof (loadExtras_run file []) as Hl.
  destruct (opened file) as [e|]; [|destruct Hl as [s Hl]; unfold mbind, io_bind; by rewrite Hl].
  unfold mbind at 1, io_bind at 1. rewrite Hl.
  assert (∀ c, prints c → let '(t, r) := c [] in saves t = [] ∧ r = Ok ()) as Hp.
  { intros c Hc. by destruct (Hc []) as (u & -> & Hu). }
  lazymatch goal with |- let '(t, r) := ?c [] in _ => assert (prints c) as Hc end.
  { case_if; [by apply prints_say|].
    repeat apply prints_seq; apply prints_section, prints_foldr; intros x; by apply prints_say. }
  apply Hp in Hc. destruct (_ []) as [t r]. intros _. by split.
Qed.

Lemma extras_command_run file args :
  let '(t, r) := extras_command read_file decode_toml save_ok file args [] in
  match parse_command args with
  | None => r = Err 1 ∧ saves t = []
  | Some c => command_outcome file c t r
  end.
Proof.
  destruct args as [|sub args]; [done|]. unfold extras_command, parse_command.
  destruct (String.eqb sub "list"); [apply list_outcome|].
  destruct (String.eqb sub "set-reservation").
  { destruct args as [|mac [|ip [|]]]; try done. apply edit_outcome. apply SetReservation_edits. }
  destruct (String.eqb sub "remove-reservation").
  { destruct args as [|mac [|]]; try done. apply edit_outcome. intros _. apply RemoveReservation_edits. }
  destruct (String.eqb sub "set-mac-image").
  { destruct args as [|mac [|image [|]]]; try done. apply edit_outcome. apply SetMacImage_edits. }
  destruct (String.eqb sub "remove-mac-image"); [|done].
  destruct args as [|mac [|]]; try done. apply edit_outcome. intros _. apply RemoveMacImage_edits.
Qed.
End runs.

(** ** The properties of the component *)

(** C39: The extras command does what its arguments ask for and nothing else.
    Arguments it does not understand and a file it cannot read end it with exit
    code 1 and nothing is written.  Otherwise the file, empty if it does not
    exist, is written exactly when the command changes an entry: once, under the
    given name, with the one entry set or removed under the normalized address
    and everything else kept; the exit code tells whether that worked. *)
Theorem runExtras_correct `{GoUnicode} `{MapOrder} read_file decode_toml save_ok args :
  let '(t, r) := runExtras read_file decode_toml save_ok args [] in
  match parse_args args with
  | None => r = Err 1 ∧ saves t = []
  | Some (file, c) =>
      match opened read_file decode_toml file with
      | None => r = Err 1 ∧ saves t = []
      | Some e => non_empty c →
          let new := command_effect c (entries e) in
          (new = entries e → saves t = [] ∧ r = Ok ()) ∧
          (new ≠ entries e → ∃ e', saves t = [(file, e')] ∧ entries e' = new ∧ others e' = others e ∧
             r = if save_ok file e' then Ok () else Err 1)
      end
  end.
Proof.
  destruct args as [|flag rest]; [done|]. unfold runExtras, parse_args.
  destruct (String.eqb flag "--file").
  - destruct rest as [|file args]; [done|]. pose proof (extras_command_run read_file decode_toml save_ok file args) as Hcmd.
    destruct (extras_command _ _ _ file args []) as [t r]. by destruct (parse_command args).
  - pose proof (extras_command_run read_file decode_toml save_ok defaultExtrasFile (flag :: rest)) as Hcmd.
    destruct (extras_command _ _ _ _ (flag :: rest) []) as [t r]. by destruct (parse_command (flag :: rest)).
Qed.

(** The options of the status command are read back from their long form. *)
Definition long_form (o : status_options) : list string :=
  let switch (b : bool) := if b then "=true" else "=false" in
  ["--host"; so_host o; "--json" +:+ switch (so_json o);
   "--export-toml" +:+ switch (so_export o); "--merge"; so_merge o].

Lemma parse_flags_long o o' t : parse_flags (long_form o) o' t = (t, Ok o).
Proof. by destruct o as [h [] [] m]. Qed.

(** A request for help ends with code 0, an unknown flag with code 2. *)
Example parse_flags_help t : parse_flags ["-json"; "-h"] default_options t = (t, Err 0).
Proof. done. Qed.

Example parse_flags_unknown :
  (parse_flags ["--host=10.0.0.2:80"; "--toml"] default_options []).2 = Err 2.
Proof. done. Qed.

(** [humanBytes] picks the largest binary unit that fits and shows the
    number to the nearest tenth: the shown value is off by at most half a tenth
    of the unit, plus the rounding of the conversion to floating point for
    numbers of 2^53 and more. *)
Theorem humanBytes_correct b :
  0 ≤ b < 2 ^ 64 →
  (b < 2 ^ 10 → humanBytes b = itoa b +:+ " B") ∧
  (2 ^ 10 ≤ b → ∃ k u t,
     humanBytes b = itoa (t / 10) +:+ "." +:+ itoa (t mod 10) +:+ u ∧
     (k, u) ∈ [(10, " KiB"); (20, " MiB"); (30, " GiB")] ∧
     2 ^ k ≤ b ∧ (b < 2 ^ (k + 10) ∨ k = 30) ∧
     2 * Z.abs (t * 2 ^ k - 10 * b) ≤ 2 ^ k + (if b <? 2 ^ 53 then 0 else 20 * 2 ^ 10)).
Proof.
  intros Hb. unfold humanBytes.
  assert (∀ k, fixed1 (tenths b k) = itoa (tenths b k / 10) +:+ "." +:+ itoa (tenths b k mod 10)) as Hf by done.
  change (2 ^ 10) with 1024. change (2 ^ 20) with 1048576. change (2 ^ 30) with 1073741824.
  split.
  - intros H. by rewrite !(proj2 (Z.leb_gt _ _)) by lia.
  - intros H. destruct (Z.leb_spec 1073741824 b) as [H30|H30]; [|destruct (Z.leb_spec 1048576 b) as [H20|H20]].
    + exists 30, " GiB", (tenths b 30). rewrite Hf, !str_app_assoc.
      split_and!; [done|set_solver|done|by right|by apply tenths_bound].
    + exists 20, " MiB", (tenths b 20). rewrite Hf, !str_app_assoc.
      split_and!; [done|set_solver|done|by left|by apply tenths_bound].
    + rewrite (proj2 (Z.leb_le _ _)) by done. exists 10, " KiB", (tenths b 10). rewrite Hf, !str_app_assoc.
      split_and!; [done|set_solver|done|by left|by apply tenths_bound].
Qed.

(** The status client names its address in normal form, as the DHCP server does. *)
Definition normal_clients `{GoFloat64} `{GoUnicode} (s : Status) : Prop :=
  Forall (λ c, ci_MAC c ≠ "" → Macmap.normalizeMAC (ci_MAC c) = Some (ci_MAC c)) (st_Clients s).

Lemma exported_normal `{GoFloat64} `{GoUnicode} s d : normal_clients s →
  Forall (λ c, Macmap.normalizeMAC (Macmap.c_MAC c) = Some (Macmap.c_MAC c)) (Macmap.mf_Clients (exported s d)).
Proof.
  intros Hs. cbn. apply Forall_forall. intros c' (c & -> & [Hne Hc]%list_elem_of_filter)%list_elem_of_fmap.
  cbn. unfold normal_clients in Hs. rewrite Forall_forall in Hs. by apply Hs.
Qed.

Lemma exported_vlan `{GoFloat64} s d : Forall (λ c, Macmap.c_VLAN c = 0) (Macmap.mf_Clients (exported s d)).
Proof. cbn. apply Forall_forall. by intros c' (c & -> & _)%list_elem_of_fmap. Qed.

(** A file of normal, distinct addresses and valid VLANs is read as it is. *)
Lemma parsed_macs `{GoUnicode} raw mf : Macmap.parsed_from raw mf →
  Forall (λ c, Macmap.normalizeMAC (Macmap.c_MAC c) = Some (Macmap.c_MAC c)) (Macmap.mf_Clients raw) →
  map Macmap.c_MAC (Macmap.mf_Clients mf) = map Macmap.c_MAC (Macmap.mf_Clients raw).
Proof.
  intros (_ & Hn & _). induction Hn as [|c c' cs cs' (m & Hm & ->) Hn IH]; [done|].
  intros [Hc Hcs]%Forall_cons. cbn. f_equal; [congruence|by apply IH].
Qed.

(** Merging exported clients into a file that was read gives a file that reads
    as it is. *)
Lemma merge_parsed `{GoFloat64} `{GoUnicode} raw existing s :
  Macmap.parsed_from raw existing → normal_clients s →
  let merged := Macmap.Merge existing (exported s 0) in Macmap.parsed_from merged merged.
Proof.
  intros Hp Hs. pose proof (exported_normal s 0 Hs) as Hx. pose proof (Macmap.parsed_normal _ _ Hp) as Hn.
  destruct Hp as (_ & _ & Hnd & Hv & Hdef).
  destruct (Macmap.merge_fold_spec (Macmap.mf_Clients (exported s 0)) (Macmap.mf_Clients existing)
    (list_to_set (map Macmap.c_MAC (Macmap.mf_Clients existing)))) as (Hnd' & (added & E & Hsub) & _); [|done|done|].
  { eapply Forall_impl; [exact Hx|]. intros c Hc. cbn in Hc.
    apply Macmap.canonical_mac_lower. by eapply Macmap.normalizeMAC_canonical. }
  assert (∀ c, c ∈ added → c ∈ Macmap.mf_Clients (exported s 0)) as Hin.
  { intros c Hc. by eapply sublist_subseteq. }
  assert (Macmap.mf_Clients (Macmap.Merge existing (exported s 0)) = Macmap.mf_Clients existing ++ added) as Em by exact E.
  apply Macmap.normal_parsed; [|done| |done]; rewrite Em; apply Forall_app; (split; [done|]).
  - rewrite Forall_forall in Hx. apply Forall_forall. auto.
  - pose proof (exported_vlan s 0) as Hz. rewrite Forall_forall in Hz. apply Forall_forall.
    intros c Hc. rewrite (Hz c) by auto. lia.
Qed.

Lemma exported_macs `{GoFloat64} s d :
  map Macmap.c_MAC (Macmap.mf_Clients (exported s d)) = filter (.≠ "") (map ci_MAC (st_Clients s)).
Proof.
  cbn. rewrite map_map. cbn. induction (st_Clients s) as [|c cs IH]; [done|].
  cbn [map]. rewrite !filter_cons. repeat case_decide; cbn; by rewrite ?IH.
Qed.

(** ** What is exported

    The entry of a client: its MAC address on no VLAN, named after its IP
    address and the way it is reached. *)
Definition way (via : string) : string :=
  match via with "W" => "wifi" | "L" => "lan" | _ => via end.

Definition entry_of `{GoFloat64} (c : ClientInfo) (e : Macmap.Client) : Prop :=
  Macmap.c_MAC e = ci_MAC c ∧ Macmap.c_VLAN e = 0 ∧ Macmap.c_Hostname e = "" ∧
  Macmap.c_Name e = match ci_IP c with "" => "" | ip => ip +:+ " (" +:+ way (ci_Via c) +:+ ")" end.

(** The entries of the clients that are not known, in order: one for each
    address, at its first occurrence. *)
Inductive first_entries `{GoFloat64} : list string → list ClientInfo → list Macmap.Client → Prop :=
  | first_none known : first_entries known [] []
  | first_skip known c cs es :
      ci_MAC c = "" ∨ ci_MAC c ∈ known → first_entries known cs es → first_entries known (c :: cs) es
  | first_add known c cs e es :
      ci_MAC c ≠ "" → ci_MAC c ∉ known → entry_of c e → first_entries (ci_MAC c :: known) cs es →
      first_entries known (c :: cs) (e :: es).

Lemma export_entry `{GoFloat64} c : entry_of c (export_client c).
Proof.
  unfold entry_of, export_client. cbn. split_and!; [done..|].
  assert (∀ v, (if String.eqb v "W" then "wifi" else if String.eqb v "L" then "lan" else v) = way v) as ->.
  { intros v. destruct (String.eqb_spec v "W") as [->|HW]; [done|].
    destruct (String.eqb_spec v "L") as [->|HL]; [done|].
    unfold way. repeat case_match; congruence. }
  by destruct (ci_IP c).
Qed.

Lemma exported_entries `{GoFloat64} s d :
  Forall2 entry_of (filter (λ c, ci_MAC c ≠ "") (st_Clients s)) (Macmap.mf_Clients (exported s d)).
Proof. cbn. induction (filter _ _); constructor; eauto using export_entry. Qed.

(** The merge appends the first entries. *)
Lemma merge_first_entries `{GoFloat64} `{GoUnicode} cs es ex known :
  Forall (λ c, ci_MAC c ≠ "" → Macmap.normalizeMAC (ci_MAC c) = Some (ci_MAC c)) cs →
  (∀ m, m ∈ ex ↔ m ∈ known) →
  ∃ added, (fold_left Macmap.merge_step (map export_client (filter (λ c, ci_MAC c ≠ "") cs)) (es, ex)).1 = es ++ added ∧
    first_entries known cs added.
Proof.
  intros Hs. revert es ex known. induction Hs as [|c cs Hc Hs IH]; intros es ex known Hex.
  { exists []. cbn. rewrite app_nil_r. split; [done|constructor]. }
  rewrite filter_cons. case_decide as Hne; cycle 1.
  { destruct (IH es ex known Hex) as (added & E & Hf). exists added. split; [exact E|].
    apply first_skip; [left; destruct (decide (ci_MAC c = "")); [done|by destruct Hne]|done]. }
  specialize (Hc Hne). apply Macmap.normalizeMAC_canonical, Macmap.canonical_mac_lower in Hc.
  cbn. change (Macmap.c_MAC (export_client c)) with (ci_MAC c). rewrite Hc. case_bool_decide as Hin.
  - destruct (IH es ex known Hex) as (added & E & Hf). exists added. split; [exact E|].
    apply first_skip; [right; by apply Hex|done].
  - destruct (IH (es ++ [export_client c]) ({[ci_MAC c]} ∪ ex) (ci_MAC c :: known)) as (added & E & Hf); [set_solver|].
    exists (export_client c :: added). rewrite E, <-(assoc_L (++)). split; [done|].
    apply first_add; [done|by rewrite <-Hex|apply export_entry|done].
Qed.

(** C40: The MAC-to-VLAN file that the client writes holds the clients of the
    status, and the router can load it. With --merge it always can: what is read
    back is the existing file, every entry and the default VLAN as they were,
    followed by exactly one entry for each address of the status that it lacked,
    in order of first occurrence, on no VLAN and named after the client's IP
    address. Without --merge the file has one such entry for every client with an
    address and the default VLAN 1; it is read back as it is, and it can be
    exactly when no address occurs twice in the status, which lists a device once
    per IP address it had. The only error is a file to merge with that cannot be
    loaded. *)
Theorem exportMACMap_correct `{GoFloat64} `{GoUnicode} read_file toml_unmarshal encode s mergeFile :
  normal_clients s → (∀ mf, is_Some (encode mf)) →
  (∀ mf data, encode mf = Some data → toml_unmarshal data = Some mf) →
  match exportMACMap read_file toml_unmarshal encode s mergeFile [] with
  | (t, Ok _) => ∃ data t0, t = t0 ++ [Stdout (Raw data)] ∧
      Forall (λ x, ∃ line, x = Stderr line) t0 ∧
      if String.eqb mergeFile "" then
        ∃ es, Forall2 entry_of (filter (λ c, ci_MAC c ≠ "") (st_Clients s)) es ∧
          if decide (NoDup (filter (.≠ "") (map ci_MAC (st_Clients s)))) then
            Macmap.Parse toml_unmarshal data =
              Ok {| Macmap.mf_DefaultVLAN := 1; Macmap.mf_Clients := es |}
          else ∃ e, Macmap.Parse toml_unmarshal data = Err e
      else ∃ existing added, Macmap.Load toml_unmarshal read_file mergeFile = Ok existing ∧
        first_entries (map Macmap.c_MAC (Macmap.mf_Clients existing)) (st_Clients s) added ∧
        Macmap.Parse toml_unmarshal data =
          Ok {| Macmap.mf_DefaultVLAN := Macmap.mf_DefaultVLAN existing;
                Macmap.mf_Clients := Macmap.mf_Clients existing ++ added |}
  | (t, Err code) => code = 1 ∧ mergeFile ≠ "" ∧
      ∃ e, Macmap.Load toml_unmarshal read_file mergeFile = Err e
  end.
Proof.
  intros Hs He Hdec. unfold exportMACMap, write_map. destruct (String.eqb_spec mergeFile "") as [->|Hne].
  - unfold say. io_unfold. destruct (He (exported s 1)) as [data E]. rewrite E.
    exists data, [Stderr "# Exported MAC addresses from router status API.";
      Stderr "# Edit VLAN assignments, then deploy to the router.";
      Stderr "# Use --merge to add new clients to an existing file."]. split; [done|].
    split; [repeat constructor; by eexists|].
    exists (Macmap.mf_Clients (exported s 1)). split; [apply exported_entries|].
    pose proof (exported_macs s 1) as Em. case_decide as Hd; rewrite <-Em in Hd.
    + apply Macmap.Parse_parsed. exists (exported s 1). split; [by apply Hdec|].
      apply Macmap.normal_parsed; [by apply exported_normal|done| |cbn; lia].
      eapply Forall_impl; [apply exported_vlan|]. cbn. lia.
    + destruct (Macmap.Parse toml_unmarshal data) as [e|mf] eqn:Ep; [by exists e|].
      destruct Hd. apply Macmap.Parse_parsed in Ep as (raw & Er & Hp).
      rewrite (Hdec _ _ E) in Er. injection Er as <-.
      rewrite <-(parsed_macs _ mf) by (done || by apply exported_normal). apply Hp.
  - destruct (Macmap.Load toml_unmarshal read_file mergeFile) as [e|existing] eqn:El.
    { unfold fail_with, say. io_unfold. split_and!; [done|done|by exists e]. }
    destruct (He (Macmap.Merge existing (exported s 0))) as [data E]. rewrite E. unfold say.
    exists data, []. split_and!; [done|done|].
    unfold Macmap.Load in El. destruct (read_file mergeFile) as [d|] eqn:Er; [|done].
    apply Macmap.Parse_parsed in El as (raw & Hraw & Hp).
    destruct (merge_first_entries (st_Clients s) (Macmap.mf_Clients existing)
      (list_to_set (map Macmap.c_MAC (Macmap.mf_Clients existing)))
      (map Macmap.c_MAC (Macmap.mf_Clients existing)) Hs) as (added & Ea & Hf).
    { intros m. by rewrite elem_of_list_to_set. }
    exists existing, added. split_and!; [done|done|].
    apply Macmap.Parse_parsed. eexists. split; [by apply Hdec|]. rewrite <-Ea.
    apply (merge_parsed raw existing s Hp Hs).
Qed.

(** ** Witnesses *)

(** Rationals, which divide exactly. *)
#[local] Instance exact_rates : GoFloat64 := {|
  float64 := Z * Z;
  of_int n := (n, 1);
  div x y := (x.1 * y.2, x.2 * y.1);
  lt x y := x.1 * y.2 <? y.1 * x.2;
  eq x y := x.1 * y.2 =? y.1 * x.2;
  format n x := if n =? 0 then itoa (round_half_even x.1 x.2)
                else fixed1 (round_half_even (10 * x.1) x.2) |}.

Lemma humanBytes_correct_witness :
  0 ≤ 1536 < 2 ^ 64 ∧ humanBytes 1536 = "1.5 KiB" ∧ humanBytes (2 ^ 40) = "1024.0 GiB" ∧
  (2 ^ 10 ≤ 1536 → ∃ k u t,
     humanBytes 1536 = itoa (t / 10) +:+ "." +:+ itoa (t mod 10) +:+ u ∧
     (k, u) ∈ [(10, " KiB"); (20, " MiB"); (30, " GiB")] ∧
     2 ^ k ≤ 1536 ∧ (1536 < 2 ^ (k + 10) ∨ k = 30) ∧
     2 * Z.abs (t * 2 ^ k - 10 * 1536) ≤ 2 ^ k + (if 1536 <? 2 ^ 53 then 0 else 20 * 2 ^ 10)).
Proof.
  split; [lia|]. split; [by vm_compute|]. split; [by vm_compute|].
  apply (humanBytes_correct 1536). lia.
Defined.

Definition some_client ip mac via : ClientInfo := {|
  ci_IP := ip; ci_MAC := mac; ci_Via := via; ci_Connected := true; ci_TxBytes := 0; ci_RxBytes := 0;
  ci_TxPkts := 0; ci_RxPkts := 0; ci_TotalTxPkts := 0; ci_TotalRxPkts := 0; ci_FirstSeen := "";
  ci_TxRate := of_int 0; ci_RxRate := of_int 0; ci_LinkTxRate := 0; ci_LinkRxRate := 0; ci_Signal := 0;
  ci_TotalTxBytes := 0; ci_TotalRxBytes := 0; ci_LastSeen := "" |}.

(** A device that had two addresses, and one without a MAC. *)
Definition some_status : Status := {|
  st_Summary := []; st_Ports := [];
  st_Clients := [some_client "10.0.0.5" "aa:bb:cc:dd:ee:01" "L"; some_client "10.0.0.6" "" "L";
                 some_client "10.1.0.5" "aa:bb:cc:dd:ee:01" "W"] |}.

Definition some_map : Macmap.MapFile := {|
  Macmap.mf_DefaultVLAN := 7;
  Macmap.mf_Clients := [{| Macmap.c_MAC := "aa:bb:cc:dd:ee:02"; Macmap.c_VLAN := 20;
                           Macmap.c_Name := "nas"; Macmap.c_Hostname := "" |}] |}.

(** A lossless encoding of files, in place of TOML. *)
Definition map_tuple (mf : Macmap.MapFile) : Z * list (string * Z * string * string) :=
  (Macmap.mf_DefaultVLAN mf,
   map (λ c, (Macmap.c_MAC c, Macmap.c_VLAN c, Macmap.c_Name c, Macmap.c_Hostname c)) (Macmap.mf_Clients mf)).

Definition tuple_map (t : Z * list (string * Z * string * string)) : Macmap.MapFile :=
  {| Macmap.mf_DefaultVLAN := t.1;
     Macmap.mf_Clients := map (λ '(m, v, n, h),
       {| Macmap.c_MAC := m; Macmap.c_VLAN := v; Macmap.c_Name := n; Macmap.c_Hostname := h |}) t.2 |}.

Fixpoint pos_text (p : positive) : string :=
  match p with
  | xH => EmptyString
  | xO p => String "0" (pos_text p)
  | xI p => String "1" (pos_text p)
  end%char.

Fixpoint text_pos (s : string) : positive :=
  match s with
  | EmptyString => xH
  | String c s => if Ascii.eqb c "0" then xO (text_pos s) else xI (text_pos s)
  end%char.

Lemma text_pos_text p : text_pos (pos_text p) = p.
Proof. induction p as [p IH|p IH|]; cbn; by rewrite ?IH. Qed.

Definition encode_map (mf : Macmap.MapFile) : option string := Some (pos_text (encode (map_tuple mf))).
Definition decode_map (data : string) : option Macmap.MapFile := tuple_map <$> decode (text_pos data).

Lemma decode_encode_map mf data : encode_map mf = Some data → decode_map data = Some mf.
Proof.
  intros [= <-]. unfold decode_map. rewrite text_pos_text, decode_encode. cbn. f_equal.
  destruct mf as [d cs]. unfold tuple_map, map_tuple. cbn. f_equal.
  rewrite map_map. induction cs as [|[] cs IH]; [done|]. cbn. by rewrite IH.
Qed.

Definition map_at (path : string) : option string :=
  if String.eqb path "map.toml" then encode_map some_map else None.

#[local] Existing Instance ascii_unicode.

Lemma normal_status : normal_clients some_status.
Proof. by repeat constructor; intros H; first [by destruct H | vm_compute]. Qed.

Lemma exportMACMap_correct_witness :
  normal_clients some_status ∧
  match exportMACMap map_at decode_map encode_map some_status "map.toml" [] with
  | (t, Ok _) => ∃ data existing added,
      last t = Some (Stdout (Raw data)) ∧ Macmap.Load decode_map map_at "map.toml" = Ok existing ∧
      first_entries (map Macmap.c_MAC (Macmap.mf_Clients existing)) (st_Clients some_status) added ∧
      Macmap.Parse decode_map data = Ok {| Macmap.mf_DefaultVLAN := Macmap.mf_DefaultVLAN existing;
        Macmap.mf_Clients := Macmap.mf_Clients existing ++ added |}
  | (_, Err _) => False
  end.
Proof.
  split; [exact normal_status|].
  pose proof (exportMACMap_correct map_at decode_map encode_map some_status "map.toml" normal_status
    (λ mf, ltac:(by eexists)) decode_encode_map) as H.
  destruct (exportMACMap map_at decode_map encode_map some_status "map.toml" []) as [t [code|[]]] eqn:E.
  - exfalso. apply (f_equal snd) in E. vm_compute in E. discriminate E.
  - destruct H as (data & t0 & -> & _ & existing & added & HL & Hf & Hp).
    exists data, existing, added. split; [apply last_snoc|]. split; [exact HL|]. by split.
Defined.

(** The merged file: the existing entry, then one for the new device. *)
Example export_merged :
  match exportMACMap map_at decode_map encode_map some_status "map.toml" [] with
  | ([Stdout (Raw data)], Ok _) => match Macmap.Parse decode_map data with
      | Ok mf => bool_decide (map_tuple mf = (7,
          [("aa:bb:cc:dd:ee:02", 20, "nas", ""); ("aa:bb:cc:dd:ee:01", 0, "10.0.0.5 (lan)", "")]))
      | Err _ => false end
  | _ => false
  end = true.
Proof. by vm_compute. Qed.

(** The two entries of one device make a file that the router refuses. *)
Example export_duplicate :
  match exportMACMap map_at decode_map encode_map some_status "" [] with
  | (t, Ok _) => match last t with
      | Some (Stdout (Raw data)) =>
          match Macmap.Parse decode_map data with Err _ => True | Ok _ => False end
      | _ => False
      end
  | _ => False
  end.
Proof. by vm_compute. Qed.

(** An entry written by hand with an upper-case address cannot be removed. *)
Example remove_upper_case :
  let m : gmap string string := {["AA:BB:CC:DD:EE:01" := "10.0.0.9"]} in
  (RemoveReservation (set_e_Reservations demo_extras m) "AA:BB:CC:DD:EE:01").2 = Some ErrNotModified.
Proof. by vm_compute. Qed.

(** The list does not show the other settings: a file that sets the DNS servers
    is listed as empty. *)
Example list_hides_settings :
  let e := {| e_Reservations := None; e_MacImages := None; e_DefaultImage := "x.img"; e_PXEBootFile := "";
              e_LegacyBootFile := ""; e_UEFIBootFile := ""; e_IPXEScript := ""; e_SMBUsers := [];
              e_VLANAddresses := None; e_DNS := ["9.9.9.9"] |} in
  runExtrasList (MO := canonical_order) (λ _, Ok "extras") (λ _, Some e) "router-extras.toml" [] =
    ([Stdout (Print "(empty)")], Ok ()).
Proof. done. Qed.
