(* ===== verification/Tracking.v ===== *)
(** * cmd/gokrazy-router: the DHCP servers and the table of clients together

    main connects the components Dhcp, Wifi and Status by callbacks: a new
    lease adds a client to the monitor, an expired one and a station that leaves
    the access point remove it.  The callbacks of new leases run in goroutines
    of their own and those of expired leases after the reaper has released the
    lock, so both may come late and in any order. *)

From Stdlib Require Import Ascii.
From S2P Require Import Prelude GoStrings GoStrconv GoNet.
From S2P Require Dhcp Status Wifi.
Import Dhcp.
Open Scope Z_scope.

(** ** The callbacks *)

Section tracking.
Context `{U : GoUnicode} `{MO : MapOrder} `{Q : Status.GoQuotient}.
Context (get_rules : list Status.request → Status.chain → option (list Status.rule))
        (flush_ok : list Status.request → bool).

Abbreviation world := (list Status.request * Status.Monitor)%type.

(** Errors are only logged. *)
Definition ignore_error {A} (c : io world Status.status_error A) (w : world) : world := (c w).1.

(** The callbacks of a DHCP server whose clients are listed under [via]. *)
Definition lease_callback (via : string) (ev : event) (now : Z) : world → world :=
  match ev with
  | EvLease ip mac => ignore_error (Status.AddClient flush_ok ip mac via now)
  | EvLeaseExpired ip _ => ignore_error (Status.RemoveClient get_rules flush_ok ip now)
  | EvSend _ _ _ => id
  end.

(** The callback of the access point; nothing is done for a client that comes. *)
Definition client_callback (ev : Wifi.ClientEvent) (now : Z) : world → world :=
  if Wifi.ev_Associated ev then id
  else ignore_error (Status.RemoveClientByMAC get_rules flush_ok (Wifi.ev_MAC ev) now id).

(** ** The composed system *)

Record scope := { sc_srv : Server; sc_via : string }.

Record system := {
  sy_scopes : list scope;
  sy_pending : list (string * event);   (* callbacks that have not run yet *)
  sy_world : world
}.

Context (new_reply : Request → list modifier → option string).

Inductive action :=
  | Serve (i : nat) (r : readings) (peer : Addr) (req : Request)
  | Reap (i : nat) (now : Z)
  | Reserve (i : nat) (reservations : gmap string string)
  | Deliver (n : nat) (now : Z)
  | WiFiClient (ev : Wifi.ClientEvent) (now : Z)
  | Sample (now : Z).

(** Replies are sent at once; the callbacks are left to run. *)
Definition is_callback (ev : event) : bool := match ev with EvSend _ _ _ => false | _ => true end.

(** Scope [i] after an operation of its server with the events [evs]. *)
Definition issue (σ : system) (i : nat) (sc : scope) (srv : Server) (evs : list event) : system := {|
  sy_scopes := <[i := {| sc_srv := srv; sc_via := sc_via sc |}]> (sy_scopes σ);
  sy_pending := sy_pending σ ++ map (pair (sc_via sc)) (List.filter is_callback evs);
  sy_world := sy_world σ |}.

Definition set_world (σ : system) (pending : list (string * event)) (w : world) : system :=
  {| sy_scopes := sy_scopes σ; sy_pending := pending; sy_world := w |}.

Definition act (σ : system) (a : action) : outcome system :=
  match a with
  | Serve i r peer req =>
      match sy_scopes σ !! i with
      | None => Ret σ
      | Some sc =>
          out ← handler new_reply id (sc_srv sc) r peer req;
          Ret (issue σ i sc out.1 out.2)
      end
  | Reap i now =>
      match sy_scopes σ !! i with
      | None => Ret σ
      | Some sc => let '(srv, evs) := reap (sc_srv sc) now in Ret (issue σ i sc srv evs)
      end
  | Reserve i m =>
      match sy_scopes σ !! i with
      | None => Ret σ
      | Some sc => Ret (issue σ i sc (SetReservations (sc_srv sc) m) [])
      end
  | Deliver n now =>
      match sy_pending σ !! n with
      | None => Ret σ
      | Some (via, ev) =>
          Ret (set_world σ (delete n (sy_pending σ)) (lease_callback via ev now (sy_world σ)))
      end
  | WiFiClient ev now => Ret (set_world σ (sy_pending σ) (client_callback ev now (sy_world σ)))
  | Sample now =>
      Ret (set_world σ (sy_pending σ) (ignore_error (Status.sample get_rules now) (sy_world σ)))
  end.

Fixpoint run (σ : system) (acts : list action) : outcome system :=
  match acts with
  | [] => Ret σ
  | a :: acts => σ ← act σ a; run σ acts
  end.

(** A DHCP server as main makes it, with both callbacks. *)
Definition tracked (s : Server) : Server := OnLeaseExpired (OnLease s true) true.

(** The system at start. *)
Definition boot (scopes : list (Server * string)) (mon : Status.Monitor) : system := {|
  sy_scopes := map (λ '(s, via), {| sc_srv := tracked s; sc_via := via |}) scopes;
  sy_pending := []; sy_world := ([], mon) |}.
End tracking.

(** ** Lemmas: what the callbacks do to the table *)

Section clients.
Context `{U : GoUnicode} `{MO : MapOrder} `{Q : Status.GoQuotient}.
Context (get_rules : list Status.request → Status.chain → option (list Status.rule))
        (flush_ok : list Status.request → bool).

Definition key (ip : IP) : string := IP_String (To4 ip).

(** The label of a connected client. *)
Definition labelled (m : Status.Monitor) (k via : string) : Prop :=
  ∃ e, Status.m_clients m !! k = Some e ∧ Status.ce_Connected e = true ∧ Status.ce_Via e = via.

Lemma labelled_connected m k : Status.is_connected m k ↔ ∃ v, labelled m k v.
Proof.
  split; [intros (e & H & Hc); by exists (Status.ce_Via e), e|]. intros (v & e & H & Hc & _). by exists e.
Qed.

#[global] Instance is_connected_dec m k : Decision (Status.is_connected m k).
Proof.
  destruct (Status.m_clients m !! k) as [e|] eqn:E.
  - destruct (Status.ce_Connected e) eqn:Ec; [left; by exists e|].
    right. intros (e' & He & Hc). congruence.
  - right. intros (e' & He & _). congruence.
Defined.

Lemma AddClient_clients ip mac via now w k v :
  labelled (ignore_error (Status.AddClient flush_ok ip mac via now) w).2 k v ↔
  labelled w.2 k v ∨
  (k = key ip ∧ ¬ Status.is_connected w.2 k ∧
   v = if bool_decide (k ∈ Status.m_gatewayIPs w.2) then "G" else via).
Proof.
  destruct w as [t m]. unfold ignore_error, Status.AddClient, Status.get, Status.put, Status.send, Status.flush.
  io_unfold. fold (key ip).
  assert (∀ e, Status.ce_Connected e = true → ¬ Status.is_connected m (key ip) →
    labelled (Status.set_clients m (<[key ip := e]> (Status.m_clients m))) k v ↔
    labelled m k v ∨ (k = key ip ∧ ¬ Status.is_connected m k ∧ v = Status.ce_Via e)) as Hins.
  { intros e He Hno. unfold labelled. cbn [Status.m_clients Status.set_clients]. split.
    - intros (e' & [[<- <-]|[Hne H]]%lookup_insert_Some & Hc & <-); [by right|left; by exists e'].
    - intros [(e' & H & Hc & <-)|(-> & _ & ->)]; [|exists e; by rewrite lookup_insert_eq].
      exists e'. split; [|done]. rewrite lookup_insert_ne; [done|]. intros <-. apply Hno. by exists e'. }
  assert (∀ e, Status.is_connected m (key ip) → labelled m k v ↔ labelled m k v ∨
    (k = key ip ∧ ¬ Status.is_connected m k ∧ v = e)) as Hkeep.
  { intros e Hc. split; [by left|]. by intros [H|(-> & Hno & _)]. }
  destruct (Status.m_clients m !! key ip) as [e|] eqn:E;
    [destruct (Status.ce_Connected e) eqn:Ec|]; io_unfold.
  - apply Hkeep. by exists e.
  - rewrite Hins; [|done|intros (e' & H & ?); congruence].
    split; (intros [H|(-> & H)]; [by left|by right]).
  - rewrite Hins; [|done|intros (e' & H & ?); congruence].
    split; (intros [H|(-> & H)]; [by left|by right]).
Qed.

Lemma AddClient_connects ip mac via now w :
  ∃ v, labelled (ignore_error (Status.AddClient flush_ok ip mac via now) w).2 (key ip) v.
Proof.
  destruct (decide (Status.is_connected w.2 (key ip))) as [[v Hv]%labelled_connected|Hno].
  - exists v. apply AddClient_clients. by left.
  - eexists. apply AddClient_clients. right. by split_and!.
Qed.

Lemma RemoveClient_clients ip now w k v :
  labelled (ignore_error (Status.RemoveClient get_rules flush_ok ip now) w).2 k v ↔
  labelled w.2 k v ∧ k ≠ key ip.
Proof.
  destruct w as [t m]. unfold ignore_error, Status.RemoveClient, Status.get, Status.put, Status.flush.
  io_unfold. fold (key ip).
  assert (¬ Status.is_connected m (key ip) → labelled m k v ↔ labelled m k v ∧ k ≠ key ip) as Hskip.
  { intros Hno. split; [|by intros [? _]]. intros (e & H & Hc & Hv). split; [by exists e|].
    intros ->. apply Hno. by exists e. }
  destruct (Status.m_clients m !! key ip) as [e|] eqn:E;
    [|apply Hskip; intros (e & H & _); congruence].
  destruct (Status.ce_Connected e) eqn:Ec; cbn [negb];
    [|io_unfold; apply Hskip; intros (e' & H & ?); congruence].
  destruct (Status.readAndDeleteRules_Ok get_rules Status.chainRx (key ip +:+ "/rx") (t, m)) as (t1 & rx & ->).
  destruct (Status.readAndDeleteRules_Ok get_rules Status.chainTx (key ip +:+ "/tx") (t1, m)) as (t2 & tx & E2).
  cbn [snd]. rewrite E2. cbn [snd fst]. unfold labelled. cbn [Status.m_clients Status.set_clients]. split.
  - intros (e' & [[<- <-]|[Hne H]]%lookup_insert_Some & Hc & Hv); [done|].
    split; [by exists e'|done].
  - intros [(e' & H & Hc & Hv) Hne]. exists e'. by rewrite lookup_insert_ne by done.
Qed.
End clients.

(** ** Lemmas: the invariant of the composition *)

Section invariant.
Context `{U : GoUnicode} `{MO : MapOrder} `{Q : Status.GoQuotient}.
Context (get_rules : list Status.request → Status.chain → option (list Status.rule))
        (flush_ok : list Status.request → bool) (new_reply : Request → list modifier → option string).
Context (mon : Status.Monitor).

(** The addresses a server can hand out: its pool, and the rest of its subnet by
    reservations. *)
Definition serves (s : Server) (ip : IP) : Prop :=
  v4 ip ∧ (in_pool s ip ∨ IPNet_Contains (subnet s) ip = true).

Definition leased_by (scopes : list scope) (via : string) (ip : IP) : Prop :=
  ∃ i sc, scopes !! i = Some sc ∧ sc_via sc = via ∧ serves (sc_srv sc) ip.

Definition sound (s : Server) : Prop :=
  wf s ∧ ∀ m ip, s_reservations s !! m = Some ip → IPNet_Contains (subnet s) ip = true.

Record tracks (σ : system) : Prop := {
  tr_scopes : ∀ i sc, sy_scopes σ !! i = Some sc → sound (sc_srv sc);
  tr_pending : ∀ via ip mac, (via, EvLease ip mac) ∈ sy_pending σ → leased_by (sy_scopes σ) via ip;
  tr_shown : ∀ k v, labelled (sy_world σ).2 k v → ∃ via ip,
    k = key ip ∧ (v = via ∨ v = "G") ∧ leased_by (sy_scopes σ) via ip;
  tr_ops : ∃ ops, sy_world σ = Status.run_ops get_rules flush_ok mon ops
}.

Lemma serves_config s s' ip : same_config s s' → serves s ip → serves s' ip.
Proof.
  intros (_ & E1 & E2 & E3 & E4 & _) [Hv H]. split; [done|].
  unfold in_pool, at_index, pool_at, pool_size, subnet in *. by rewrite E1, E2, E3, E4.
Qed.

Lemma alloc_spec_sound s r mac s' o evs :
  sound s → alloc_spec s r mac s' o evs →
  sound s' ∧ same_config s s' ∧ ∀ ip m, EvLease ip m ∈ evs → serves s' ip.
Proof.
  intros [Hwf Hres] Ha. pose proof (alloc_spec_wf _ _ _ _ _ _ Hwf Ha) as Hwf'.
  pose proof (alloc_spec_config _ _ _ _ _ _ Ha) as Hc.
  split_and!; [split; [done|]; by destruct Ha|done|].
  intros ip m Hin. apply (serves_config s); [done|].
  destruct Ha as [ip' Hr|l|ip' n _ _ Hp _ _ _|]; unfold lease_event in Hin;
    try (by apply not_elem_of_nil in Hin); destruct (s_onLease s);
    try (by apply not_elem_of_nil in Hin); apply list_elem_of_singleton in Hin; injection Hin as -> ->.
  - split; [by eapply wf_res|right; by eapply Hres].
  - split; [by eapply in_pool_v4|by left].
Qed.

Lemma handler_sound s r peer req :
  sound s → ∃ s' evs, handler new_reply id s r peer req = Ret (s', evs) ∧
    sound s' ∧ same_config s s' ∧ ∀ ip m, EvLease ip m ∈ evs → serves s' ip.
Proof.
  intros Hs. assert (∃ s' evs, Ret (s, []) = Ret (s', evs) ∧ sound s' ∧ same_config s s' ∧
    ∀ ip m, EvLease ip m ∈ evs → serves s' ip) as Hsame.
  { exists s, []. split_and!; try done. by intros ?? ?%not_elem_of_nil. }
  unfold handler. destruct (negb _); [done|].
  destruct (allocate_spec s r (HardwareAddr_String (q_ClientHWAddr req)) (proj1 Hs))
    as (s1 & o & evs & -> & (H1 & H2 & H3)%alloc_spec_sound); [|done].
  cbn [mbind outcome_bind id].
  repeat case_if; try done; (destruct o as [ip|]; [case_match|]; (do 2 eexists; split; [reflexivity|];
    split_and!; [done..|])); try done;
    intros ip' m [Hin|Hin%list_elem_of_singleton]%elem_of_app; (done || by eapply H3).
Qed.

Lemma SetReservations_sound s m : sound s → sound (SetReservations s m).
Proof.
  intros [Hwf _]. split.
  - destruct Hwf. split; try done. intros k ip (_ & _ & _ & _ & _ & Hv & _)%SetReservations_lookup. done.
  - intros k ip (_ & _ & _ & _ & _ & _ & Hc)%SetReservations_lookup. exact Hc.
Qed.

Lemma reap_sound s now : sound s →
  sound (reap s now).1 ∧ same_config s (reap s now).1 ∧ ∀ ip m, EvLease ip m ∉ (reap s now).2.
Proof.
  intros [Hwf Hres]. split_and!; [split; [|done]|done|].
  - apply wf_set_pool; [done| |by apply wf_next]. intros m l Hl.
    assert (s_leases (reap s now).1 !! m = Some l) as Hl' by done.
    rewrite reap_leases in Hl'. apply map_lookup_filter_Some in Hl' as [? _]. by eapply wf_leases.
  - intros ip m. cbn. destruct (s_onLeaseExpired s); [|apply not_elem_of_nil].
    by intros (e & ? & _)%list_elem_of_fmap.
Qed.

Lemma issue_tracks σ i sc srv evs :
  tracks σ → sy_scopes σ !! i = Some sc → sound srv → same_config (sc_srv sc) srv →
  (∀ ip m, EvLease ip m ∈ evs → serves srv ip) → tracks (issue σ i sc srv evs).
Proof.
  intros [H1 H2 H3 H4] Hi Hs Hc He. pose proof (lookup_lt_Some _ _ _ Hi) as Hlt.
  assert (∀ via ip, leased_by (sy_scopes σ) via ip → leased_by (sy_scopes (issue σ i sc srv evs)) via ip) as Hl.
  { intros via ip (j & sc' & Hj & Hv & Hip). cbn. destruct (decide (j = i)) as [->|Hne].
    - exists i. eexists. rewrite list_lookup_insert_eq by done. split; [done|]. simplify_eq.
      split; [done|]. by eapply serves_config.
    - exists j, sc'. by rewrite list_lookup_insert_ne by done. }
  split.
  - intros j sc'. cbn. intros [(<- & <- & _)|[_ Hj]]%list_lookup_insert_Some; [done|by eapply H1].
  - intros via ip mac. cbn. intros [Hin|(ev & [= -> <-] & [Hin _]%list_elem_of_In%filter_In)%list_elem_of_fmap]%elem_of_app.
    + by apply Hl, (H2 _ _ mac).
    + exists i. eexists. rewrite list_lookup_insert_eq by done. split_and!; [done|done|].
      eapply He. by apply list_elem_of_In.
  - intros k v (via & ip & ? & ? & ?)%H3. exists via, ip. split_and!; [done..|by apply Hl].
  - exact H4.
Qed.

(** The calls of the monitor that an action of the system makes. *)
Definition ops_of (σ : system) (a : action) : list Status.op :=
  match a with
  | Deliver n now =>
      match sy_pending σ !! n with
      | Some (via, EvLease ip mac) => [Status.OpAdd ip mac via now]
      | Some (_, EvLeaseExpired ip _) => [Status.OpRemove ip now]
      | _ => []
      end
  | WiFiClient ev now => if Wifi.ev_Associated ev then [] else [Status.OpRemoveMAC (Wifi.ev_MAC ev) now]
  | Sample now => [Status.OpSample now]
  | _ => []
  end.

Lemma set_world_tracks σ pending w ops :
  tracks σ → (∀ x, x ∈ pending → x ∈ sy_pending σ) →
  w = fold_left (Status.apply_op get_rules flush_ok) ops (sy_world σ) →
  (∀ k v, labelled w.2 k v → labelled (sy_world σ).2 k v ∨
     ∃ via ip, k = key ip ∧ (v = via ∨ v = "G") ∧ leased_by (sy_scopes σ) via ip) →
  tracks (set_world σ pending w).
Proof.
  intros [H1 H2 H3 [ops' H4]] Hp Hw Hl. split; cbn; [exact H1| | |].
  - intros via ip mac Hin. by eapply H2, Hp.
  - intros k v [?|?]%Hl; [by apply H3|done].
  - exists (ops' ++ ops). unfold Status.run_ops. rewrite fold_left_app, Hw, H4. done.
Qed.

Lemma RemoveClientByMAC_clients mac now w k v :
  labelled (ignore_error (Status.RemoveClientByMAC get_rules flush_ok mac now id) w).2 k v →
  labelled w.2 k v.
Proof.
  unfold ignore_error, Status.RemoveClientByMAC, Status.get, Status.interleaved. io_unfold.
  destruct (Status.find_by_mac w.2 mac) as [ip|]; [|done]. cbn [id].
  by intros [H _]%(RemoveClient_clients get_rules flush_ok ip now w).
Qed.

Lemma act_tracks σ a : tracks σ →
  ∃ σ', act get_rules flush_ok new_reply σ a = Ret σ' ∧ tracks σ'.
Proof.
  intros Ht. destruct a as [i r peer req|i now|i m|n now|ev now|now]; cbn [act].
  - destruct (sy_scopes σ !! i) as [sc|] eqn:Hi; [|by exists σ].
    destruct (handler_sound (sc_srv sc) r peer req) as (s' & evs & -> & H1 & H2 & H3); [by eapply tr_scopes|].
    eexists. split; [reflexivity|]. by apply issue_tracks.
  - destruct (sy_scopes σ !! i) as [sc|] eqn:Hi; [|by exists σ].
    destruct (reap_sound (sc_srv sc) now) as (H1 & H2 & H3); [by eapply tr_scopes|].
    destruct (reap (sc_srv sc) now) as [srv evs]. eexists. split; [reflexivity|].
    apply issue_tracks; try done. intros ip m Hin. by apply H3 in Hin.
  - destruct (sy_scopes σ !! i) as [sc|] eqn:Hi; [|by exists σ]. eexists. split; [reflexivity|].
    apply issue_tracks; try done; [by eapply SetReservations_sound, tr_scopes|].
    by intros ?? ?%not_elem_of_nil.
  - destruct (sy_pending σ !! n) as [[via ev]|] eqn:Hn; [|by exists σ]. eexists. split; [reflexivity|].
    assert (∀ x, x ∈ delete n (sy_pending σ) → x ∈ sy_pending σ) as Hsub.
    { intros x. rewrite list_elem_of_lookup. intros [j Hj].
      destruct (decide (j < n)%nat) as [Hlt|Hge].
      - rewrite list_lookup_delete_lt in Hj by done. by eapply list_elem_of_lookup_2.
      - rewrite list_lookup_delete_ge in Hj by lia. by eapply list_elem_of_lookup_2. }
    destruct ev as [ip mac|ip mac|]; cbn [lease_callback].
    + apply (set_world_tracks σ _ _ [Status.OpAdd ip mac via now]); [done..|]. intros k v.
      rewrite AddClient_clients. intros [?|(-> & _ & ->)]; [by left|]. right. exists via, ip.
      split_and!; [done|destruct (bool_decide _); [by right|by left]|].
      apply (tr_pending σ Ht via ip mac). by eapply list_elem_of_lookup_2.
    + apply (set_world_tracks σ _ _ [Status.OpRemove ip now]); [done..|]. intros k v.
      rewrite RemoveClient_clients. intros [? _]. by left.
    + apply (set_world_tracks σ _ _ []); [done..|]. intros k v ?. by left.
  - eexists. split; [reflexivity|]. unfold client_callback. destruct (Wifi.ev_Associated ev).
    + apply (set_world_tracks σ _ _ []); [done..|]. intros k v ?. by left.
    + apply (set_world_tracks σ _ _ [Status.OpRemoveMAC (Wifi.ev_MAC ev) now]); [done..|].
      intros k v ?%RemoveClientByMAC_clients. by left.
  - eexists. split; [reflexivity|]. apply (set_world_tracks σ _ _ [Status.OpSample now]); [done..|].
    intros k v. by left.
Qed.

Lemma run_tracks σ acts : tracks σ →
  ∃ σ', run get_rules flush_ok new_reply σ acts = Ret σ' ∧ tracks σ'.
Proof.
  induction acts as [|a acts IH] in σ |- *; intros Ht; [by exists σ|]. cbn [run].
  destruct (act_tracks σ a Ht) as (σ1 & -> & H1). by apply IH.
Qed.
End invariant.

Definition made (s : Server) : Prop :=
  ∃ iface addr rs re dns d, New iface addr rs re dns d = Ok s.

Lemma boot_tracks `{GoUnicode} `{MapOrder} `{Status.GoQuotient} get_rules flush_ok scopes addrs wan lan ports wifi :
  Forall (λ sc, made sc.1) scopes →
  let mon := Status.New addrs wan lan ports wifi in
  tracks get_rules flush_ok mon (boot scopes mon).
Proof.
  intros Hs mon. split.
  - intros i sc Hi. cbn in Hi. apply list_lookup_fmap_Some_1 in Hi as ([s via] & -> & Hi).
    rewrite Forall_lookup in Hs. destruct (Hs i _ Hi) as (iface & addr & rs & re & dns & d & E).
    cbn in E. pose proof (New_wf _ _ _ _ _ _ _ E) as (Hwf & _). split; [by destruct Hwf|].
    intros m ip Hm. unfold New in E. repeat case_match; try done. injection E as <-. done.
  - intros via ip mac []%not_elem_of_nil.
  - by intros k v (e & He & _).
  - by exists [].
Qed.


(** ** Concrete runs *)

#[local] Existing Instance ascii_unicode.
#[local] Existing Instance canonical_order.
#[local] Existing Instance Status.exact_quotient.

Definition demo_scopes (last : string) : list (Server * string) := [(demo_server last, "W")].

Definition demo_acts (last : string) (acts : list action) : outcome system :=
  run Status.demo_rules (λ _, true) (λ _ _, Some "packet") (boot (demo_scopes last) Status.demo_monitor) acts.

Definition request (n t : Z) : action := Serve 0 (instant (t * second)) demo_peer (demo_request (demo_hw n)).

(** The clients shown: address, MAC address, connected. *)
Definition shown (o : outcome system) : list (string * (string * bool)) :=
  match o with
  | Ret σ => map_to_list ((λ e, (Status.ce_MAC e, Status.ce_Connected e)) <$> Status.m_clients (sy_world σ).2)
  | _ => []
  end.

(** The live leases at a second: MAC address and address. *)
Definition live_leases (o : outcome system) (t : Z) : list (string * IP) :=
  match o with
  | Ret σ => concat (map (λ sc, omap (λ e, if t * second <? l_Expires e.2 then Some (e.1, l_IP e.2) else None)
                                  (map_to_list (s_leases (sc_srv sc)))) (sy_scopes σ))
  | _ => []
  end.

Definition gone (n : Z) : action :=
  WiFiClient {| Wifi.ev_MAC := HardwareAddr_String (demo_hw n); Wifi.ev_Associated := false |} 0.
Definition came (n : Z) : action :=
  WiFiClient {| Wifi.ev_MAC := HardwareAddr_String (demo_hw n); Wifi.ev_Associated := true |} 0.

(** A station that leaves the access point and comes back while its lease is
    live is not shown as connected again: a renewal calls nothing. *)
Example reassociated_client_hidden :
  let o := demo_acts "101" [request 1 0; Deliver 0 0; gone 1; came 1; request 1 60; Deliver 0 0] in
  shown o = [("10.0.0.100", ("02:00:00:00:00:01", false))] ∧
  live_leases o 60 = [("02:00:00:00:00:01", [10; 0; 0; 100])].
Proof. vm_compute. done. Qed.

(** The reaper disconnects an address whose earlier lease expired although a
    second client has leased it since; until then the second client is shown
    with the MAC address of the first. *)
Example live_client_disconnected :
  let acts := [request 1 0; Deliver 0 0; request 2 3601; Deliver 0 0] in
  shown (demo_acts "100" acts) = [("10.0.0.100", ("02:00:00:00:00:01", true))] ∧
  let o := demo_acts "100" (acts ++ [Reap 0 (3700 * second); Deliver 0 0]) in
  shown o = [("10.0.0.100", ("02:00:00:00:00:01", false))] ∧
  live_leases o 3700 = [("02:00:00:00:00:02", [10; 0; 0; 100])].
Proof. vm_compute. done. Qed.

(** A client that asks between the end of its lease and the next run of the
    reaper gets another address; the old one is never reported as expired and
    stays connected without a lease. *)
Example stale_client_stays :
  let o := demo_acts "101" [request 1 0; Deliver 0 0; request 1 3601; Deliver 0 0;
                            Reap 0 (3700 * second); Reap 0 (7300 * second); Deliver 0 0] in
  shown o = [("10.0.0.101", ("02:00:00:00:00:01", false)); ("10.0.0.100", ("02:00:00:00:00:01", true))] ∧
  live_leases o 7300 = [].
Proof. vm_compute. done. Qed.

