(* ===== verification/Sockets.v ===== *)
(** * pkg/dhcp and pkg/pxe: the sockets of the servers

    How the DHCP server and the TFTP server open their sockets: the system calls
    in order, with the descriptor that must be closed on every way out.  The
    kernel is a parameter that tells which calls succeed after the calls so
    far. *)

From Stdlib Require Import Ascii.
From S2P Require Import Prelude GoStrings GoNet.
From S2P Require Dhcp.
Open Scope Z_scope.

(** ** System calls *)

Inductive sockopt := SO_BROADCAST | SO_REUSEADDR | SO_REUSEPORT.

Inductive syscall :=
  | Socket                                  (* AF_INET, SOCK_DGRAM *)
  | SetsockoptInt (opt : sockopt) (value : Z)
  | BindToDevice (iface : string)
  | Bind (addr : IP) (port : Z)
  | FilePacketConn (name : string)          (* duplicates the descriptor *)
  | Close
  | ListenUDP (addr : UDPAddr).             (* net.ListenUDP, a socket of its own *)

Inductive socket_error :=
  | ErrSocket | ErrSockopt (opt : sockopt) | ErrBindToDevice | ErrBind | ErrConn | ErrListen.

Abbreviation socket_io := (io (list syscall) socket_error).

(** [defer f.Close()]: the descriptor is closed however [body] ends. *)
Definition closing {A} (body : socket_io A) : socket_io A := λ t,
  let '(t, r) := body t in (t ++ [Close], r).

Section sockets.
Context (ok : list syscall → syscall → bool).

Definition sys (c : syscall) (err : socket_error) : socket_io unit := perform c (λ t, ok t c) err.

(** [newDHCPConn] *)
Definition newDHCPConn (iface : string) : socket_io unit :=
  _ ← sys Socket ErrSocket;
  closing (
    _ ← sys (SetsockoptInt SO_BROADCAST 1) (ErrSockopt SO_BROADCAST);
    _ ← sys (SetsockoptInt SO_REUSEADDR 1) (ErrSockopt SO_REUSEADDR);
    _ ← sys (BindToDevice iface) ErrBindToDevice;
    _ ← sys (Bind [0; 0; 0; 0] 67) ErrBind;
    sys (FilePacketConn ("dhcp-" +:+ iface)) ErrConn).

(** What [Run] does with the socket: the server of the library, the goroutine of
    the reaper with the interval of its ticker, and the serve loop. *)
Inductive run_call := NewServer (iface : string) | GoReaper (interval : Z) | Serve.

Inductive run_error := ErrDHCPConn (e : socket_error) | ErrNewServer | ErrServe.

(** [Run], with what the library answers; it returns when serving ends. *)
Definition Run (s : Dhcp.Server) (server_ok serve_ok : bool)
    : io (list syscall * list run_call) run_error unit := λ '(t, calls),
  match newDHCPConn (Dhcp.s_iface s) t with
  | (t, Err e) => ((t, calls), Err (ErrDHCPConn e))
  | (t, Ok _) =>
      let calls := calls ++ [NewServer (Dhcp.s_iface s)] in
      if negb server_ok then ((t, calls), Err ErrNewServer)
      else ((t, calls ++ [GoReaper (Dhcp.reap_interval s); Serve]),
            if serve_ok then Ok () else Err ErrServe)
  end.

(** [copy(sa.Addr[:], ip4)] into four zero bytes. *)
Definition sockaddr (ip : IP) : IP :=
  match To4 ip with [] => [0; 0; 0; 0] | ip4 => ip4 end.

(** [listenUDPOn] *)
Definition listenUDPOn (addr : UDPAddr) (iface : string) : socket_io unit :=
  if String.eqb iface "" then sys (ListenUDP addr) ErrListen
  else
    _ ← sys Socket ErrSocket;
    closing (
      _ ← sys (SetsockoptInt SO_REUSEADDR 1) (ErrSockopt SO_REUSEADDR);
      _ ← sys (BindToDevice iface) ErrBindToDevice;
      _ ← sys (Bind (sockaddr (udp_IP addr)) (udp_Port addr)) ErrBind;
      sys (FilePacketConn ("pxe-" +:+ iface)) ErrConn).

(** The addresses of an interface: networks, or addresses of another kind;
    [None] for an error of the look-up. *)
Context (iface_addrs : string → option (list (option IP))).

(** [ifaceIPv4] *)
Definition ifaceIPv4 (name : string) : option IP :=
  match iface_addrs name with
  | None => None
  | Some addrs => head (filter (λ ip4, ip4 ≠ []) (map (λ a, To4 (default [] a)) addrs))
  end.

(** [listenTransfer], with the interface of the configuration. *)
Definition listenTransfer (bindInterface : string) : socket_io unit :=
  let ip := if String.eqb bindInterface "" then IPv4zero
            else default IPv4zero (ifaceIPv4 bindInterface) in
  listenUDPOn {| udp_IP := ip; udp_Port := 0; udp_Zone := "" |} bindInterface.

(** ** What opening a socket does

    The calls after [Socket], each with the error that its failure gives. *)
Abbreviation plan := (list (syscall * socket_error)).

Definition dhcp_plan (iface : string) : plan :=
  [(SetsockoptInt SO_BROADCAST 1, ErrSockopt SO_BROADCAST);
   (SetsockoptInt SO_REUSEADDR 1, ErrSockopt SO_REUSEADDR);
   (BindToDevice iface, ErrBindToDevice); (Bind [0; 0; 0; 0] 67, ErrBind);
   (FilePacketConn ("dhcp-" +:+ iface), ErrConn)].

Definition pxe_plan (iface : string) (ip : IP) (port : Z) : plan :=
  [(SetsockoptInt SO_REUSEADDR 1, ErrSockopt SO_REUSEADDR);
   (BindToDevice iface, ErrBindToDevice); (Bind ip port, ErrBind);
   (FilePacketConn ("pxe-" +:+ iface), ErrConn)].

(** The calls go as planned until one fails, the error is that of the call, and
    a descriptor that was opened is closed, once and last. *)
Inductive opened (p : plan) (t : list syscall) : list syscall → result socket_error unit → Prop :=
  | opened_socket : ok t Socket = false → opened p t (t ++ [Socket]) (Err ErrSocket)
  | opened_all :
      (∀ pre c e post, p = pre ++ (c, e) :: post → ok (t ++ Socket :: map fst pre) c = true) →
      opened p t (t ++ Socket :: map fst p ++ [Close]) (Ok ())
  | opened_until pre c e post :
      p = pre ++ (c, e) :: post → ok (t ++ Socket :: map fst pre) c = false →
      opened p t (t ++ Socket :: map fst pre ++ [c; Close]) (Err e).

Fixpoint in_order (p : plan) : socket_io unit :=
  match p with
  | [] => mret ()
  | [(c, e)] => sys c e
  | (c, e) :: p => _ ← sys c e; in_order p
  end.

Lemma in_order_spec p t : p ≠ [] →
  ((∀ pre c e post, p = pre ++ (c, e) :: post → ok (t ++ map fst pre) c = true) ∧
   in_order p t = (t ++ map fst p, Ok ())) ∨
  ∃ pre c e post, p = pre ++ (c, e) :: post ∧ ok (t ++ map fst pre) c = false ∧
    in_order p t = (t ++ map fst pre ++ [c], Err e).
Proof.
  induction p as [|[c e] p IH] in t |- *; [done|]. intros _. unfold sys, perform in *.
  destruct (ok t c) eqn:Ec; [|right; exists [], c, e, p; rewrite app_nil_r; split_and!; [done|done|];
    destruct p; cbn; unfold sys, perform; io_unfold; by rewrite Ec].
  destruct p as [|x p].
  { left. split; [|cbn; unfold sys, perform; by rewrite Ec]. intros pre c' e' post Ep.
    destruct pre as [|y pre]; cbn in Ep |- *; [|by destruct pre]. injection Ep as <- _ _. by rewrite app_nil_r. }
  assert (in_order ((c, e) :: x :: p) t = in_order (x :: p) (t ++ [c])) as ->.
  { cbn. unfold sys, perform. io_unfold. by rewrite Ec. }
  destruct (IH (t ++ [c])) as [[H ->]|(pre & c' & e' & post & E & H & ->)]; [done| |].
  - left. split; [|by rewrite <-app_assoc]. intros pre c' e' post Ep.
    destruct pre as [|y pre]; cbn in Ep |- *; injection Ep as <- Ep; [by rewrite app_nil_r|].
    specialize (H pre c' e' post Ep). by rewrite <-app_assoc in H.
  - right. exists ((c, e) :: pre), c', e', post. rewrite <-app_assoc in H.
    split_and!; [by rewrite E|exact H|]. rewrite <-app_assoc. done.
Qed.

Lemma opened_in_order p t : p ≠ [] →
  let '(t', r) := (_ ← sys Socket ErrSocket; closing (in_order p)) t in opened p t t' r.
Proof.
  intros Hp. unfold closing. unfold sys at 1, perform. io_unfold.
  destruct (ok t Socket) eqn:E; [|by constructor].
  destruct (in_order_spec p (t ++ [Socket]) Hp) as [[H ->]|(pre & c & e & post & Ep & H & ->)];
    rewrite <-!app_assoc.
  - apply opened_all. intros pre c e post Ep. specialize (H pre c e post Ep). by rewrite <-app_assoc in H.
  - rewrite <-app_assoc in H. exact (opened_until p t pre c e post Ep H).
Qed.

Lemma first_nonempty {A B} (f : A → list B) l x :
  head (filter (λ y, y ≠ []) (map f l)) = Some x ↔
  ∃ pre a post, l = pre ++ a :: post ∧ f a = x ∧ x ≠ [] ∧ Forall (λ b, f b = []) pre.
Proof.
  split.
  - induction l as [|a l IH]; [done|]. cbn [map]. rewrite filter_cons. case_decide as Ha.
    + intros [= <-]. by exists [], a, l.
    + intros (pre & a' & post & -> & <- & Hx & Hp)%IH. exists (a :: pre), a', post.
      split_and!; [done..|]. constructor; [|done]. by destruct (f a).
  - intros (pre & a & post & -> & <- & Hx & Hp). induction Hp as [|b pre Hb _ IH]; cbn [map app].
    + rewrite filter_cons. by rewrite decide_True.
    + rewrite filter_cons. rewrite decide_False; [exact IH|]. intros Hn. by apply Hn.
Qed.

Lemma ifaceIPv4_spec iface ip : ifaceIPv4 iface = Some ip ↔
  ∃ pre a post, iface_addrs iface = Some (pre ++ a :: post) ∧ To4 (default [] a) = ip ∧ ip ≠ [] ∧
    Forall (λ b, To4 (default [] b) = []) pre.
Proof.
  unfold ifaceIPv4. destruct (iface_addrs iface) as [l|]; [|split; [done|by intros (? & ? & ? & ? & _)]].
  rewrite first_nonempty. split; intros (pre & a & post & E & H); exists pre, a, post;
    (split; [congruence|exact H]).
Qed.

(** Clients are served, and leases reaped, exactly when the socket was opened
    and the library took it; the ticker gets an interval it accepts. *)
Lemma Run_spec s server_ok serve_ok t calls :
  let '((t', calls'), r) := Run s server_ok serve_ok (t, calls) in
  ∃ r0, opened (dhcp_plan (Dhcp.s_iface s)) t t' r0 ∧
  match r0 with
  | Err e => r = Err (ErrDHCPConn e) ∧ calls' = calls
  | Ok _ =>
      if server_ok then
        r = (if serve_ok then Ok () else Err ErrServe) ∧ 30 * Dhcp.second ≤ Dhcp.reap_interval s ∧
        calls' = calls ++ [NewServer (Dhcp.s_iface s); GoReaper (Dhcp.reap_interval s); Serve]
      else r = Err ErrNewServer ∧ calls' = calls ++ [NewServer (Dhcp.s_iface s)]
  end.
Proof.
  pose proof (opened_in_order (dhcp_plan (Dhcp.s_iface s)) t ltac:(done)) as H. unfold Run.
  change (newDHCPConn (Dhcp.s_iface s) t) with
    ((_ ← sys Socket ErrSocket; closing (in_order (dhcp_plan (Dhcp.s_iface s)))) t).
  destruct ((_ ← sys Socket ErrSocket; _) t) as [t' [e|[]]]; [by exists (Err e)|].
  destruct server_ok; cbn [negb]; exists (Ok ()); (split; [done|]); [|done].
  rewrite <-app_assoc. split_and!; [done| |done].
  unfold Dhcp.reap_interval. cbn zeta. case_if; to_prop; lia.
Qed.

Lemma To4_idem ip : To4 (To4 ip) = To4 ip.
Proof.
  destruct (decide (To4 ip = [])) as [E|E]; [by rewrite E|]. by apply To4_v4, To4_length.
Qed.
End sockets.

(** The sockets of the servers are opened as their comments say, and no
    descriptor leaks.  The DHCP socket may broadcast, shares its address but not
    its port, and is bound to its interface before it is bound to port 67; the
    socket of a transfer is bound to the configured interface and its first IPv4
    address, or to no address if it has none, at a port the kernel chooses.
    Whichever call fails, the later ones are not made, its error is returned and
    the descriptor is closed exactly once; without an interface there is one
    call. *)
Theorem sockets_correct ok iface_addrs iface t :
  (let '(t', r) := newDHCPConn ok iface t in opened ok (dhcp_plan iface) t t' r) ∧
  (let '(t', r) := listenTransfer ok iface_addrs iface t in
   if String.eqb iface "" then
     t' = t ++ [ListenUDP {| udp_IP := IPv4zero; udp_Port := 0; udp_Zone := "" |}] ∧
     r = if ok t (ListenUDP {| udp_IP := IPv4zero; udp_Port := 0; udp_Zone := "" |})
         then Ok () else Err ErrListen
   else opened ok (pxe_plan iface (default [0; 0; 0; 0] (ifaceIPv4 iface_addrs iface)) 0) t t' r) ∧
  (∀ ip, ifaceIPv4 iface_addrs iface = Some ip ↔
     ∃ pre a post, iface_addrs iface = Some (pre ++ a :: post) ∧ To4 (default [] a) = ip ∧ ip ≠ [] ∧
       Forall (λ b, To4 (default [] b) = []) pre).
Proof.
  split_and!.
  - apply (opened_in_order ok (dhcp_plan iface) t). done.
  - unfold listenTransfer, listenUDPOn. destruct (String.eqb iface ""); [done|]. cbn [udp_IP udp_Port].
    assert (sockaddr (default IPv4zero (ifaceIPv4 iface_addrs iface)) =
            default [0; 0; 0; 0] (ifaceIPv4 iface_addrs iface)) as ->.
    { destruct (ifaceIPv4 iface_addrs iface) as [ip|] eqn:E; [|done]. cbn [default from_option].
      unfold sockaddr, id. apply ifaceIPv4_spec in E as (_ & a & _ & _ & <- & Ha & _).
      rewrite To4_idem. by destruct (To4 (default [] a)). }
    apply (opened_in_order ok (pxe_plan iface _ 0) t). done.
  - intros ip. apply ifaceIPv4_spec.
Qed.
