(* ===== verification/Daemon.v ===== *)
(** * cmd/gokrazy-router: the order in which main starts and stops everything

    main from the disk it mounts to the signal that ends it.  NAT and isolation
    are those of Startup and are carried out on the state of the packet filter;
    the other services are calls, recorded in order, that succeed or fail as
    the parameter [ok] says.  [log.Fatalf] ends the program at once, without the
    deferred unmount. *)

From Stdlib Require Import Ascii.
From S2P Require Import Prelude GoStrings GoStrconv GoNet GoOs Config Reload Startup.
From S2P Require Dhcp NatRules Macmap Wifi Ctrl Status.
Open Scope Z_scope.

(** ** Calls *)

Inductive call :=
  | MountDisk                                    (* mount.Mount *)
  | SetupVLANs                                   (* vlan.Setup *)
  | SetupBridge                                  (* netsetup.Setup *)
  | WriteProc (path value : string)              (* a file of /proc/sys *)
  | NewMonitor (wan bridge : string) (ports : list string) (wifi : string)
  | WaitInterface (iface : string) (seconds : Z)
  | StartWiFi (bridge : string)                  (* wifi.New and its Start *)
  | SetWiFiSource
  | AssignIP (iface cidr : string)
  | ServeDHCP (iface : string)                   (* srv.Run in a goroutine *)
  | StartSMB (users : list SMBUser)
  | StartPXE
  | Handle (path : string)
  | ListenHTTP (addr : string)
  | StopSMB | StopWiFi | StopMonitor | Unmount.

Inductive main_fatal :=
  | FatalMount | FatalVLANs | FatalBridge | FatalForwarding
  | FatalStartup (e : fatal)
  | FatalWiFi (e : Wifi.wifi_error) | FatalWiFiStart | FatalAssign | FatalWiFiCIDR
  | FatalWiFiSource (e : NatRules.nat_error).

Record world := { w_calls : list call; w_nat : NatRules.nat_state }.

Abbreviation daemon_io := (io world main_fatal).

Section daemon.
Context `{U : GoUnicode} `{MO : MapOrder} `{F : GoFloat}.
Context (ok : list call → call → bool).
Context (iface_exists : string → bool) (flush_ok : list NatRules.request → bool).
Context (load : string → result Macmap.macmap_error Macmap.MapFile).

Definition record_call (c : call) (w : world) : world :=
  {| w_calls := w_calls w ++ [c]; w_nat := w_nat w |}.

(** A call whose result is used, one whose failure is fatal, and one whose
    result is not looked at. *)
Definition try (c : call) : daemon_io bool := λ w, (record_call c w, Ok (ok (w_calls w) c)).
Definition must (c : call) (err : main_fatal) : daemon_io unit :=
  b ← try c; guard_or b err.
Definition note (c : call) : daemon_io unit := λ w, (record_call c w, Ok ()).

(** An operation on the packet filter. *)
Definition on_nat {E A} (f : E → main_fatal) (m : io NatRules.nat_state E A) : daemon_io A := λ w,
  let '(n, r) := m (w_nat w) in
  ({| w_calls := w_calls w; w_nat := n |}, match r with Ok a => Ok a | Err e => Err (f e) end).

Definition unless {A} (b : bool) (a : A) (c : daemon_io A) : daemon_io A := if b then mret a else c.

(** ** Start *)

Definition EnableForwarding : daemon_io unit :=
  must (WriteProc "/proc/sys/net/ipv4/ip_forward" "1") FatalForwarding.

(** Steps 1 to 3b. *)
Definition start_network (h : heap) (cfg : Config) : daemon_io (option NatRules.Manager) :=
  _ ← match VLANs h cfg with
      | [] => must SetupBridge FatalBridge
      | _ => must SetupVLANs FatalVLANs
      end;
  _ ← EnableForwarding;
  on_nat FatalStartup (setup_network iface_exists flush_ok h cfg).

(** Step 4. *)
Definition start_monitor (cfg : Config) : daemon_io bool :=
  try (NewMonitor (n_OutInterface (cf_NAT cfg)) (lan_Bridge (cf_LAN cfg))
         (lan_Interfaces (cf_LAN cfg)) (wifi_iface cfg)).

(** The address of the access point in routed mode, and its network in NAT. *)
Definition route_wifi (cfg : Config) (mgr : option NatRules.Manager) : daemon_io unit :=
  _ ← must (AssignIP (wifi_iface cfg) (wi_Address (cf_WiFi cfg))) FatalAssign;
  match mgr with
  | None => mret ()
  | Some m =>
      match ParseCIDR (wi_Address (cf_WiFi cfg)) with
      | None => throw FatalWiFiCIDR
      | Some (_, wifiNet) => on_nat FatalWiFiSource (NatRules.AddSource flush_ok m wifiNet)
      end
  end.

(** Step 5: the access point, if it runs. *)
Definition start_wifi (h : heap) (cfg : Config) (mon : bool) (mgr : option NatRules.Manager)
    : daemon_io (option Wifi.AP) :=
  unless (negb (wi_Enabled (cf_WiFi cfg))) None (
    there ← try (WaitInterface (wifi_iface cfg) 120);
    unless (negb there) None (
      match Wifi.New load (cf_WiFi cfg) (wifi_bridge h cfg) with
      | Err e => throw (FatalWiFi e)
      | Ok ap =>
          _ ← must (StartWiFi (wifi_bridge h cfg)) FatalWiFiStart;
          _ ← (if mon then note SetWiFiSource else mret ());
          _ ← (match Wifi.ap_macMap ap with
               | None => unless (String.eqb (wi_Address (cf_WiFi cfg)) "") () (route_wifi cfg mgr)
               | Some _ => mret ()
               end);
          mret (Some ap)
      end)).

Definition has_map (ap : option Wifi.AP) : bool :=
  match ap with
  | Some ap => match Wifi.ap_macMap ap with Some _ => true | None => false end
  | None => false
  end.

(** A server is run as soon as it is made; an error ends the program with the
    servers that run already. *)
Definition serve (err : Dhcp.new_error → fatal) (made : result Dhcp.new_error dhcpEntry)
    : daemon_io dhcpEntry :=
  match made with
  | Err e => throw (FatalStartup (err e))
  | Ok e => _ ← note (ServeDHCP (Dhcp.s_iface (de_srv e))); mret e
  end.

Fixpoint serve_vlans (h : heap) (cfg : Config) (mon : bool) (i : nat) (vs : list VLANConfig)
    : daemon_io (list dhcpEntry) :=
  match vs with
  | [] => mret []
  | v :: vs =>
      if negb (d_Enabled (v_DHCP v)) then serve_vlans h cfg mon (S i) vs
      else
        e ← serve (FatalDhcpVLAN (v_ID v))
              (dhcp_entry h cfg mon (BridgeName (v_ID v)) (v_Address v) (v_DHCP v) (ScopeVLAN i));
        es ← serve_vlans h cfg mon (S i) vs;
        mret (e :: es)
  end.

(** Step 6. *)
Definition serve_wired (h : heap) (cfg : Config) (mon : bool) : daemon_io (list dhcpEntry) :=
  match VLANs h cfg with
  | [] =>
      let lan := cf_LAN cfg in
      unless (negb (d_Enabled (lan_DHCP lan))) [] (
        e ← serve FatalDhcp (dhcp_entry h cfg mon (lan_Bridge lan) (lan_Address lan) (lan_DHCP lan) ScopeLAN);
        mret [e])
  | vs => serve_vlans h cfg mon 0 vs
  end.

(** Steps 6 and 7. *)
Definition serve_dhcp (h : heap) (cfg : Config) (mon : bool) (ap : option Wifi.AP)
    : daemon_io (list dhcpEntry) :=
  es ← serve_wired h cfg mon;
  let w := cf_WiFi cfg in
  let up := match ap with Some _ => true | None => false end in
  unless (negb (up && negb (String.eqb (wi_Address w) "") && d_Enabled (wi_DHCP w) && negb (has_map ap))) es (
    e ← serve FatalDhcpWiFi (dhcp_entry h cfg mon (wifi_iface cfg) (wi_Address w) (wi_DHCP w) ScopeWiFi);
    mret (es ++ [e])).

Definition admin_addr (cfg : Config) : string :=
  let addr := a_Listen (sv_AdminAPI (cf_Services cfg)) in
  if String.eqb addr "" then "127.0.0.1:8080" else addr.

(** Steps 8 to 10; [smbServer] is set even if the start of smbd fails. *)
Definition start_services (cfg : Config) (users : list SMBUser) (mon : bool) : daemon_io bool :=
  let sv := cf_Services cfg in
  _ ← (if sm_Enabled (sv_SMB sv) then _ ← try (StartSMB users); mret () else mret ());
  _ ← (if p_Enabled (sv_PXE sv) then note StartPXE else mret ());
  _ ← (if mon then note (Handle "/status") else mret ());
  _ ← note (Handle "/api/reload");
  _ ← note (ListenHTTP (admin_addr cfg));
  mret (sm_Enabled (sv_SMB sv)).

(** What runs when main waits for a signal. *)
Record running := {
  ru_smb : bool;
  ru_ap : option Wifi.AP;
  ru_mon : bool;
  ru_mgr : option NatRules.Manager;
  ru_dhcp : list dhcpEntry
}.

Definition start_all (h : heap) (cfg : Config) (users : list SMBUser) : daemon_io running :=
  mgr ← start_network h cfg;
  mon ← start_monitor cfg;
  ap ← start_wifi h cfg mon mgr;
  es ← serve_dhcp h cfg mon ap;
  smb ← start_services cfg users mon;
  mret {| ru_smb := smb; ru_ap := ap; ru_mon := mon; ru_mgr := mgr; ru_dhcp := es |}.

(** ** Shutdown *)

Definition shutdown (r : running) : daemon_io unit :=
  _ ← (if ru_smb r then note StopSMB else mret ());
  _ ← (match ru_ap r with Some _ => note StopWiFi | None => mret () end);
  _ ← (if ru_mon r then note StopMonitor else mret ());
  on_nat FatalWiFiSource (NatRules.Cleanup flush_ok (ru_mgr r)).

(** main with the heap and the configuration after step 0; the disk is mounted
    before the extras file is read, and unmounted when main returns. *)
Definition mount_disk (cfg : Config) : daemon_io unit :=
  if mo_Enabled (sv_Mount (cf_Services cfg)) then must MountDisk FatalMount else mret ().

Definition main (h : heap) (cfg : Config) (users : list SMBUser) : daemon_io running :=
  _ ← mount_disk cfg;
  r ← start_all h cfg users;
  _ ← shutdown r;
  _ ← (if mo_Enabled (sv_Mount (cf_Services cfg)) then note Unmount else mret ());
  mret r.
End daemon.

(** ** The stations of the access point, for the monitor *)

Section stations.
Context `{A : GoInt} `{PF : Wifi.GoParseFloat}.

(** [StationInfoAll] of the adapter: [make] of a length is never nil. *)
Definition StationInfoAll {E} (answer : result E (option (list Wifi.StationInfo)))
    : result () (option (list Status.WiFiStation)) :=
  match answer with
  | Err _ => Err ()
  | Ok stations =>
      Ok (Some (map (λ s, {| Status.ws_MAC := Wifi.si_MAC s; Status.ws_Signal := Wifi.si_Signal s;
                             Status.ws_TxBitrate := Wifi.si_TxBitrate s;
                             Status.ws_RxBitrate := Wifi.si_RxBitrate s |}) (default [] stations)))
  end.

(** The poll of the monitor, from the control socket on. *)
Definition poll_stations `{Status.GoQuotient} (pid : Z) (dial_ok write_ok : list Ctrl.call → bool)
    (reply : list Ctrl.call → option string) (fuel : nat) (iface : string) (t : list Ctrl.call)
    (m : Status.Monitor) : outcome (list Ctrl.call * Status.Monitor) :=
  out ← Ctrl.ap_stations pid dial_ok write_ok reply fuel iface t;
  Ret (out.1, Status.pollWiFiStations (Some (StationInfoAll out.2)) m).
End stations.

(** ** Lemmas: what is called *)

Definition is_stop (c : call) : bool :=
  match c with StopSMB | StopWiFi | StopMonitor | Unmount => true | _ => false end.

Section calls.
Context `{U : GoUnicode} `{MO : MapOrder} `{F : GoFloat}.
Context (ok : list call → call → bool).
Context (iface_exists : string → bool) (flush_ok : list NatRules.request → bool).
Context (load : string → result Macmap.macmap_error Macmap.MapFile).

(** A step that stops nothing, whether it fails or not. *)
Definition starting {A} (c : daemon_io A) : Prop := ∀ w, ∃ cs,
  w_calls (c w).1 = w_calls w ++ cs ∧ Forall (λ x, is_stop x = false) cs.

Lemma starting_ret {A} (a : A) : starting (mret a).
Proof. intros w. exists []. by rewrite app_nil_r. Qed.

Lemma starting_throw {A} e : starting (throw (A := A) e).
Proof. intros w. exists []. by rewrite app_nil_r. Qed.

Lemma starting_bind {A B} (m : daemon_io A) (k : A → daemon_io B) :
  starting m → (∀ a, starting (k a)) → starting (m ≫= k).
Proof.
  intros Hm Hk w. destruct (Hm w) as (cs & E & Hcs). unfold mbind, io_bind.
  destruct (m w) as [w1 [e|a]]; cbn [fst] in *; [by exists cs|].
  destruct (Hk a w1) as (cs' & E' & Hcs'). exists (cs ++ cs').
  rewrite E', E, <-app_assoc. split; [done|]. by apply Forall_app.
Qed.

Lemma starting_try c : is_stop c = false → starting (try ok c).
Proof. intros H w. exists [c]. split; [done|]. by repeat constructor. Qed.

Lemma starting_note c : is_stop c = false → starting (note c).
Proof. intros H w. exists [c]. split; [done|]. by repeat constructor. Qed.

Lemma starting_must c e : is_stop c = false → starting (must ok c e).
Proof.
  intros H. apply starting_bind; [by apply starting_try|]. intros []; [apply starting_ret|apply starting_throw].
Qed.

Lemma starting_nat {E A} f (m : io NatRules.nat_state E A) : starting (on_nat f m).
Proof.
  intros w. exists []. rewrite app_nil_r. unfold on_nat. by destruct (m (w_nat w)) as [n [e|a]].
Qed.

Lemma starting_unless {A} b (a : A) c : starting c → starting (unless b a c).
Proof. intros H. destruct b; [apply starting_ret|done]. Qed.
End calls.

#[export] Hint Resolve starting_ret starting_throw starting_try starting_note starting_must
  starting_nat starting_unless : gorouter.

(** Every branch of a step. *)
Ltac starting_tac :=
  repeat first
    [ progress eauto with gorouter
    | apply starting_bind; [|intros ?]
    | apply starting_unless
    | match goal with |- starting (match ?x with _ => _ end) => destruct x end
    | progress cbn ].

Section starting.
Context `{U : GoUnicode} `{MO : MapOrder} `{F : GoFloat}.
Context (ok : list call → call → bool).
Context (iface_exists : string → bool) (flush_ok : list NatRules.request → bool).
Context (load : string → result Macmap.macmap_error Macmap.MapFile).

Lemma serve_starting err made : starting (serve err made).
Proof. unfold serve. starting_tac. Qed.
#[local] Hint Resolve serve_starting : gorouter.

Lemma serve_vlans_starting h cfg mon i vs : starting (serve_vlans h cfg mon i vs).
Proof. induction vs in i |- *; cbn [serve_vlans]; starting_tac. Qed.
#[local] Hint Resolve serve_vlans_starting : gorouter.

Lemma start_all_starting h cfg users :
  starting (start_all ok iface_exists flush_ok load h cfg users).
Proof.
  unfold start_all, start_network, EnableForwarding, start_monitor, start_wifi, route_wifi, serve_dhcp,
    serve_wired, start_services. starting_tac.
Qed.

Lemma mount_starting cfg : starting (mount_disk ok cfg).
Proof. unfold mount_disk. starting_tac. Qed.
End starting.

(** ** The calls of a run *)

Definition routed (cfg : Config) (ap : option Wifi.AP) : bool :=
  match ap with
  | Some _ => negb (has_map ap) && negb (String.eqb (wi_Address (cf_WiFi cfg)) "")
  | None => false
  end.

Definition network_calls (h : heap) (cfg : Config) : list call :=
  [match VLANs h cfg with [] => SetupBridge | _ => SetupVLANs end;
   WriteProc "/proc/sys/net/ipv4/ip_forward" "1"].

Definition monitor_call (cfg : Config) : call :=
  NewMonitor (n_OutInterface (cf_NAT cfg)) (lan_Bridge (cf_LAN cfg)) (lan_Interfaces (cf_LAN cfg))
    (wifi_iface cfg).

Definition opt {A} (b : bool) (x : A) : list A := if b then [x] else [].

Definition wifi_calls (h : heap) (cfg : Config) (mon : bool) (ap : option Wifi.AP) : list call :=
  if wi_Enabled (cf_WiFi cfg) then
    WaitInterface (wifi_iface cfg) 120 ::
    match ap with
    | None => []
    | Some _ => StartWiFi (wifi_bridge h cfg) :: opt mon SetWiFiSource ++
                opt (routed cfg ap) (AssignIP (wifi_iface cfg) (wi_Address (cf_WiFi cfg)))
    end
  else [].

Definition service_calls (cfg : Config) (users : list SMBUser) (mon : bool) : list call :=
  opt (sm_Enabled (sv_SMB (cf_Services cfg))) (StartSMB users) ++
  opt (p_Enabled (sv_PXE (cf_Services cfg))) StartPXE ++
  opt mon (Handle "/status") ++ [Handle "/api/reload"; ListenHTTP (admin_addr cfg)].

Definition is_up {A} (o : option A) : bool := match o with Some _ => true | None => false end.

(** Everything that runs is stopped, in this order. *)
Definition stop_calls (cfg : Config) (r : running) : list call :=
  opt (sm_Enabled (sv_SMB (cf_Services cfg))) StopSMB ++ opt (is_up (ru_ap r)) StopWiFi ++
  opt (ru_mon r) StopMonitor ++ opt (mo_Enabled (sv_Mount (cf_Services cfg))) Unmount.

(** The network of the access point that is masqueraded. *)
Definition wifi_nets (cfg : Config) (ap : option Wifi.AP) (mgr : option NatRules.Manager) : list IPNet :=
  if routed cfg ap && is_up mgr then
    match ParseCIDR (wi_Address (cf_WiFi cfg)) with Some (_, n) => [n] | None => [] end
  else [].

Section runs.
Context `{U : GoUnicode} `{MO : MapOrder} `{F : GoFloat}.
Context (ok : list call → call → bool).
Context (iface_exists : string → bool) (flush_ok : list NatRules.request → bool).
Context (load : string → result Macmap.macmap_error Macmap.MapFile).

Lemma must_Ok c e w w' : must ok c e w = (w', Ok ()) → w' = record_call c w.
Proof.
  unfold must, try, guard_or. io_unfold. destruct (ok (w_calls w) c); io_unfold; [|done]. congruence.
Qed.

Lemma on_nat_Ok {E A} f (m : io NatRules.nat_state E A) w w' a :
  on_nat f m w = (w', Ok a) → ∃ n, m (w_nat w) = (n, Ok a) ∧ w' = {| w_calls := w_calls w; w_nat := n |}.
Proof.
  unfold on_nat. destruct (m (w_nat w)) as [n [e|x]]; [done|]. intros [= <- <-]. by exists n.
Qed.

Lemma start_network_Ok h cfg w w' mgr :
  start_network ok iface_exists flush_ok h cfg w = (w', Ok mgr) →
  w_calls w' = w_calls w ++ network_calls h cfg ∧
  setup_network iface_exists flush_ok h cfg (w_nat w) = (w_nat w', Ok mgr).
Proof.
  unfold start_network, EnableForwarding, network_calls.
  intros (w1 & [] & H1 & (w2 & [] & ->%must_Ok & (n & H3 & ->)%on_nat_Ok)%bind_ok)%bind_ok.
  assert (w1 = record_call (match VLANs h cfg with [] => SetupBridge | _ => SetupVLANs end) w) as ->.
  { destruct (VLANs h cfg); by eapply must_Ok. }
  split; [cbn; by rewrite <-app_assoc|done].
Qed.

Lemma route_wifi_Ok cfg mgr w w' nets iso :
  manages flush_ok (w_nat w) (n_OutInterface (cf_NAT cfg)) nets iso mgr →
  route_wifi ok flush_ok cfg mgr w = (w', Ok ()) →
  w_calls w' = w_calls w ++ [AssignIP (wifi_iface cfg) (wi_Address (cf_WiFi cfg))] ∧
  manages flush_ok (w_nat w') (n_OutInterface (cf_NAT cfg))
    (nets ++ if is_up mgr then match ParseCIDR (wi_Address (cf_WiFi cfg)) with Some (_, n) => [n] | None => [] end
             else []) iso mgr.
Proof.
  intros Hm. unfold route_wifi. intros (w1 & [] & ->%must_Ok & H)%bind_ok. destruct mgr as [m|]; cbn [is_up].
  - destruct (ParseCIDR (wi_Address (cf_WiFi cfg))) as [[ip n]|]; [|done].
    apply on_nat_Ok in H as (n' & H & ->). destruct Hm as (-> & Hne & Hs).
    apply (NatRules.AddSource_set_up flush_ok _ nets iso) in H; [|done]. split; [done|].
    split_and!; [done|by destruct nets|done].
  - injection H as <-. by rewrite app_nil_r.
Qed.

Lemma start_wifi_Ok h cfg mon mgr w w' ap nets iso :
  manages flush_ok (w_nat w) (n_OutInterface (cf_NAT cfg)) nets iso mgr →
  start_wifi ok flush_ok load h cfg mon mgr w = (w', Ok ap) →
  w_calls w' = w_calls w ++ wifi_calls h cfg mon ap ∧
  manages flush_ok (w_nat w') (n_OutInterface (cf_NAT cfg)) (nets ++ wifi_nets cfg ap mgr) iso mgr ∧
  (∀ a, ap = Some a → Wifi.New load (cf_WiFi cfg) (wifi_bridge h cfg) = Ok a).
Proof.
  intros Hm. unfold start_wifi, wifi_calls, wifi_nets. destruct (wi_Enabled (cf_WiFi cfg)); cbn [negb unless].
  2:{ intros [= <- <-]. cbn. by rewrite !app_nil_r. }
  intros (w1 & there & [= <- <-] & H)%bind_ok. destruct (ok (w_calls w) _); cbn [negb unless] in H.
  2:{ injection H as <- <-. cbn. by rewrite app_nil_r. }
  destruct (Wifi.New _ _ _) as [e|a] eqn:Ea; [done|].
  apply bind_ok in H as (w2 & [] & ->%must_Ok & (w3 & [] & H3 & (w4 & [] & H4 & [= <- <-])%bind_ok)%bind_ok).
  assert (w_calls w3 = ((w_calls w ++ [WaitInterface (wifi_iface cfg) 120]) ++ [StartWiFi (wifi_bridge h cfg)])
            ++ opt mon SetWiFiSource ∧ w_nat w3 = w_nat w) as [C3 N3].
  { destruct mon; injection H3 as <-; by rewrite ?app_nil_r. }
  unfold routed, has_map. destruct (Wifi.ap_macMap a) as [mm|] eqn:Emm; cbn [negb andb opt].
  { injection H4 as <-. rewrite C3, N3, !app_nil_r, <-!app_assoc. cbn. by split_and!; [..|by intros ? [= <-]]. }
  destruct (String.eqb (wi_Address (cf_WiFi cfg)) ""); cbn [unless negb andb opt] in *.
  { injection H4 as <-. rewrite C3, N3, !app_nil_r, <-!app_assoc. by split_and!; [..|by intros ? [= <-]]. }
  apply (route_wifi_Ok _ _ _ _ nets iso) in H4 as (-> & E1); [|by rewrite N3]. rewrite C3, <-!app_assoc.
  by split_and!; [..|by intros ? [= <-]].
Qed.

(** The calls that run the servers of some entries. *)
Definition serve_calls (es : list dhcpEntry) : list call :=
  map (λ e, ServeDHCP (Dhcp.s_iface (de_srv e))) es.

(** A run of servers: the calls are those for its entries. *)
Definition served (w w' : world) (es : list dhcpEntry) : Prop :=
  w_calls w' = w_calls w ++ serve_calls es ∧ w_nat w' = w_nat w.

Lemma served_app w1 w2 w3 es es' : served w1 w2 es → served w2 w3 es' → served w1 w3 (es ++ es').
Proof.
  intros [C1 N1] [C2 N2]. split; [|congruence]. unfold serve_calls. by rewrite C2, C1, map_app, <-app_assoc.
Qed.

Lemma served_nil w : served w w [].
Proof. split; [|done]. cbn. by rewrite app_nil_r. Qed.

Lemma serve_Ok err made w w' e : serve err made w = (w', Ok e) → made = Ok e ∧ served w w' [e].
Proof. unfold serve. destruct made as [x|x]; [done|]. by intros [= <- <-]. Qed.

Lemma serve_vlans_Ok h cfg mon i vs w w' es :
  serve_vlans h cfg mon i vs w = (w', Ok es) → vlan_entries h cfg mon i vs = Ok es ∧ served w w' es.
Proof.
  induction vs as [|v vs IH] in i, w, w', es |- *; cbn [serve_vlans vlan_entries].
  { intros [= <- <-]. split; [done|apply served_nil]. }
  destruct (negb _); [apply IH|].
  intros (w1 & e & [-> H1]%serve_Ok & (w2 & es' & [-> H2]%IH & [= <- <-])%bind_ok)%bind_ok.
  split; [done|]. by apply (served_app w w1 w2 [e]).
Qed.

(** The servers are those of Startup. *)
Lemma serve_dhcp_Ok h cfg mon ap w w' es :
  serve_dhcp h cfg mon ap w = (w', Ok es) →
  start_dhcp h cfg mon (is_up ap) (has_map ap) = Ok es ∧ served w w' es.
Proof.
  intros (w1 & ws & H1 & H2)%bind_ok.
  assert (wired_entries h cfg mon = Ok ws ∧ served w w1 ws) as [E S1].
  { unfold serve_wired, wired_entries in *. destruct (VLANs h cfg); [|by apply serve_vlans_Ok].
    destruct (d_Enabled _); cbn [negb unless] in H1.
    - by apply bind_ok in H1 as (w2 & e & [-> ?]%serve_Ok & [= <- <-]).
    - injection H1 as <- <-. split; [done|apply served_nil]. }
  unfold start_dhcp. rewrite E. change (match ap with Some _ => true | None => false end) with (is_up ap) in H2.
  cbn zeta in *. revert H2. destruct (is_up ap && _ && _ && _); cbn [negb unless]; intros H2.
  - apply bind_ok in H2 as (w2 & e & [-> S2]%serve_Ok & [= <- <-]). split; [done|]. by eapply served_app.
  - by injection H2 as <- <-.
Qed.

Lemma start_services_Ok cfg users mon w w' smb :
  start_services ok cfg users mon w = (w', Ok smb) →
  w_calls w' = w_calls w ++ service_calls cfg users mon ∧ w_nat w' = w_nat w ∧
  smb = sm_Enabled (sv_SMB (cf_Services cfg)).
Proof.
  unfold start_services, service_calls, try, note, opt. io_unfold.
  destruct (sm_Enabled _), (p_Enabled _), mon; io_unfold; intros [= <- <-]; cbn; by rewrite <-?app_assoc.
Qed.

Lemma Cleanup_requests m w :
  (NatRules.Cleanup flush_ok m w).2 = Ok () ∧
  NatRules.requests (NatRules.Cleanup flush_ok m w).1 =
    NatRules.requests w ++ match m with Some m => [NatRules.DelTable (NatRules.m_table m); NatRules.Flush] | None => [] end.
Proof.
  destruct m as [m|]; [|by cbn; rewrite app_nil_r]. split; [done|].
  unfold NatRules.Cleanup, NatRules.flush_anyway, NatRules.flush, NatRules.send, NatRules.record. io_unfold.
  cbn [NatRules.requests is_up fst]. by rewrite <-app_assoc.
Qed.

Lemma shutdown_Ok r w :
  (shutdown flush_ok r w).2 = Ok () ∧
  w_calls (shutdown flush_ok r w).1 =
    w_calls w ++ opt (ru_smb r) StopSMB ++ opt (is_up (ru_ap r)) StopWiFi ++ opt (ru_mon r) StopMonitor ∧
  w_nat (shutdown flush_ok r w).1 = (NatRules.Cleanup flush_ok (ru_mgr r) (w_nat w)).1.
Proof.
  unfold shutdown, note, on_nat, opt, is_up.
  pose proof (λ w, Cleanup_requests (ru_mgr r) w) as Hc.
  destruct (ru_smb r), (ru_ap r) as [ap|], (ru_mon r); io_unfold; cbn [w_nat w_calls record_call];
    specialize (Hc (w_nat w)); destruct (NatRules.Cleanup _ _ _) as [n [e|[]]]; destruct Hc as [Hc1 _];
    try done; cbn; rewrite ?app_nil_r; try rewrite <-!app_assoc; done.
Qed.

Lemma start_all_Ok h cfg users w w' r :
  NatRules.requests (w_nat w) = [] →
  start_all ok iface_exists flush_ok load h cfg users w = (w', Ok r) →
  ∃ n1 iso, setup_network iface_exists flush_ok h cfg (w_nat w) = (n1, Ok (ru_mgr r)) ∧
    w_calls w' = w_calls w ++ network_calls h cfg ++ [monitor_call cfg] ++
      wifi_calls h cfg (ru_mon r) (ru_ap r) ++
      serve_calls (ru_dhcp r) ++ service_calls cfg users (ru_mon r) ∧
    (let nets := if n_Enabled (cf_NAT cfg) then nat_nets h cfg else [] in
     manages flush_ok n1 (n_OutInterface (cf_NAT cfg)) nets iso (ru_mgr r) ∧
     manages flush_ok (w_nat w') (n_OutInterface (cf_NAT cfg))
       (nets ++ wifi_nets cfg (ru_ap r) (ru_mgr r)) iso (ru_mgr r)) ∧
    start_dhcp h cfg (ru_mon r) (is_up (ru_ap r)) (has_map (ru_ap r)) = Ok (ru_dhcp r) ∧
    (∀ a, ru_ap r = Some a → Wifi.New load (cf_WiFi cfg) (wifi_bridge h cfg) = Ok a) ∧
    ru_smb r = sm_Enabled (sv_SMB (cf_Services cfg)).
Proof.
  intros Hw. unfold start_all. intros (w1 & mgr & [C1 N1]%start_network_Ok & H)%bind_ok.
  destruct (setup_network_manages _ _ _ _ _ _ _ Hw N1) as (iso & M1 & _).
  apply bind_ok in H as (w2 & mon & [= <- Hmon] & H).
  apply bind_ok in H as (w3 & ap & H3 & H).
  eapply start_wifi_Ok in H3 as (C3 & M3 & Hap); [|exact M1].
  apply bind_ok in H as (w4 & es & H4 & (w5 & smb & (C5 & N5 & Hs)%start_services_Ok & [= <- <-])%bind_ok).
  apply serve_dhcp_Ok in H4 as (Ed & C4 & N4).
  exists (w_nat w1), iso. cbn [ru_mgr ru_mon ru_ap ru_dhcp ru_smb w_calls w_nat record_call] in *.
  rewrite C5, C4, C3, N5, N4, C1, <-!app_assoc. by split_and!.
Qed.

Lemma main_fatal_starting h cfg users w w' e :
  main ok iface_exists flush_ok load h cfg users w = (w', Err e) →
  ∃ cs, w_calls w' = w_calls w ++ cs ∧ Forall (λ c, is_stop c = false) cs.
Proof.
  unfold main. destruct (mount_starting ok cfg w) as (cs1 & C1 & S1).
  unfold mbind, io_bind at 1. destruct (mount_disk ok cfg w) as [w1 [e1|[]]]; cbn [fst] in C1.
  { intros [= <- _]. by exists cs1. }
  destruct (start_all_starting ok iface_exists flush_ok load h cfg users w1) as (cs2 & C2 & S2).
  unfold io_bind at 1. destruct (start_all _ _ _ _ _ _ _ w1) as [w2 [e2|r]]; cbn [fst] in C2.
  { intros [= <- _]. exists (cs1 ++ cs2). rewrite C2, C1, <-app_assoc. split; [done|]. by apply Forall_app. }
  unfold io_bind at 1. destruct (shutdown_Ok r w2) as (E & _).
  destruct (shutdown flush_ok r w2) as [w3 [e3|[]]]; [done|]. by destruct (mo_Enabled _).
Qed.
End runs.

(** What the kernel does while main waits. *)
Lemma running_packets `{N : NatRules.Nft} cfg flush_ok r n1 n2 iso p nets :
  manages flush_ok n1 (n_OutInterface (cf_NAT cfg)) nets iso (ru_mgr r) →
  manages flush_ok n2 (n_OutInterface (cf_NAT cfg)) (nets ++ wifi_nets cfg (ru_ap r) (ru_mgr r)) iso (ru_mgr r) →
  NatRules.is_packet p → NatRules.is_ifname (n_OutInterface (cf_NAT cfg)) →
  (∀ ip n, ParseCIDR (wi_Address (cf_WiFi cfg)) = Some (ip, n) → length (net_Mask n) = 4%nat) →
  let kernel n := NatRules.installed flush_ok NatRules.no_rules (NatRules.requests n) in
  (NatRules.masquerades_packet (kernel n2) p ↔
   NatRules.masquerades_packet (kernel n1) p ∨
   is_up (ru_mgr r) = true ∧ routed cfg (ru_ap r) = true ∧ NatRules.pk_oif p = n_OutInterface (cf_NAT cfg) ∧
   ∃ ip n, ParseCIDR (wi_Address (cf_WiFi cfg)) = Some (ip, n) ∧ IPNet_Contains n (NatRules.source p) = true) ∧
  (NatRules.drops_packet (kernel n2) p ↔ NatRules.drops_packet (kernel n1) p).
Proof.
  intros M1 M2 Hp Ho Hn. cbn zeta. destruct (ru_mgr r) as [m|]; cbn [manages is_up] in *.
  - destruct M1 as (_ & _ & [_ ->] & _), M2 as (_ & _ & [_ ->] & _). unfold NatRules.drops_packet.
    assert (Forall NatRules.net4 (wifi_nets cfg (ru_ap r) (Some m))) as Hf.
    { unfold wifi_nets. destruct (routed _ _); [|constructor]. cbn [andb is_up].
      destruct (ParseCIDR _) as [[ip n]|] eqn:Ec; [|constructor].
      apply Forall_singleton. eapply NatRules.ParseCIDR_net4; [exact Ec|by eapply Hn]. }
    rewrite !NatRules.hook_drops, NatRules.masquerades_more by done.
    split; [|done]. unfold wifi_nets. cbn [is_up]. rewrite andb_true_r.
    destruct (routed _ _); [|set_solver]. destruct (ParseCIDR _) as [[ip n]|]; set_solver.
  - destruct M1 as ([_ ->] & _), M2 as ([_ ->] & _). naive_solver.
Qed.

(** What is left after the shutdown. *)
Lemma cleaned_up flush_ok mgr out nets iso n :
  manages flush_ok n out nets iso mgr →
  NatRules.installed flush_ok NatRules.no_rules (NatRules.requests (NatRules.Cleanup flush_ok mgr n).1) =
    if flush_ok (NatRules.requests n ++ [NatRules.DelTable NatRules.nat_table]) then NatRules.no_rules
    else NatRules.installed flush_ok NatRules.no_rules (NatRules.requests n).
Proof.
  destruct mgr as [m|]; cbn [manages].
  - intros (-> & _ & Hs). destruct (NatRules.Cleanup_set_up _ _ _ _ _ Hs) as [_ ->].
    by destruct Hs as [[_ ->] _].
  - change (NatRules.Cleanup flush_ok None n).1 with n. intros ([_ ->] & _). by destruct (flush_ok _).
Qed.

(** C30: main starts the services in one order and stops them in one order.  When
    it reaches the end, its calls are: the disk, the network, forwarding, the
    monitor, the access point (which is waited for first, and gets its address
    only in routed mode), a DHCP server for every scope, the optional services,
    the status page only with a monitor, and the API; then the stops, in the
    order of [stop_calls]: SMB when it is enabled, even if its start failed, the
    access point and the monitor when they run, and the disk when it was mounted.
    The DHCP servers, PXE and the API are not stopped: they end with the process.
    While it runs, the kernel masquerades what Startup set up and, in routed mode
    with a NAT manager, what comes from the network of the access point; it drops
    what Startup set up.  At the end its rules are gone, unless the last flush
    fails.  When a step is fatal, nothing is stopped or unmounted. *)
Theorem daemon_correct `{GoUnicode} `{MapOrder} `{GoFloat} `{N : NatRules.Nft}
    ok iface_exists flush_ok load h cfg users :
  let out := main ok iface_exists flush_ok load h cfg users {| w_calls := []; w_nat := no_requests |} in
  let kernel n := NatRules.installed flush_ok NatRules.no_rules (NatRules.requests n) in
  match out.2 with
  | Ok r =>
      w_calls out.1 =
        opt (mo_Enabled (sv_Mount (cf_Services cfg))) MountDisk ++ network_calls h cfg ++
        [monitor_call cfg] ++ wifi_calls h cfg (ru_mon r) (ru_ap r) ++
        serve_calls (ru_dhcp r) ++
        service_calls cfg users (ru_mon r) ++ stop_calls cfg r ∧
      start_dhcp h cfg (ru_mon r) (is_up (ru_ap r)) (has_map (ru_ap r)) = Ok (ru_dhcp r) ∧
      (∀ a, ru_ap r = Some a → Wifi.New load (cf_WiFi cfg) (wifi_bridge h cfg) = Ok a) ∧
      ∃ n1 n2, setup_network iface_exists flush_ok h cfg no_requests = (n1, Ok (ru_mgr r)) ∧
        (∀ p, NatRules.is_packet p → NatRules.is_ifname (n_OutInterface (cf_NAT cfg)) →
           (∀ ip n, ParseCIDR (wi_Address (cf_WiFi cfg)) = Some (ip, n) → length (net_Mask n) = 4%nat) →
           (NatRules.masquerades_packet (kernel n2) p ↔
            NatRules.masquerades_packet (kernel n1) p ∨
            is_up (ru_mgr r) = true ∧ routed cfg (ru_ap r) = true ∧
            NatRules.pk_oif p = n_OutInterface (cf_NAT cfg) ∧
            ∃ ip n, ParseCIDR (wi_Address (cf_WiFi cfg)) = Some (ip, n) ∧
              IPNet_Contains n (NatRules.source p) = true) ∧
           (NatRules.drops_packet (kernel n2) p ↔ NatRules.drops_packet (kernel n1) p)) ∧
        kernel (w_nat out.1) =
          (if flush_ok (NatRules.requests n2 ++ [NatRules.DelTable NatRules.nat_table])
           then NatRules.no_rules else kernel n2) ∧
        NatRules.requests (w_nat out.1) = NatRules.requests n2 ++
          if is_up (ru_mgr r) then [NatRules.DelTable NatRules.nat_table; NatRules.Flush] else []
  | Err _ => Forall (λ c, is_stop c = false) (w_calls out.1)
  end.
Proof.
  cbn zeta. set (w0 := {| w_calls := []; w_nat := no_requests |}).
  destruct (main _ _ _ _ h cfg users w0) as [w' [e|r]] eqn:E; cbn [fst snd].
  { apply main_fatal_starting in E as (cs & -> & Hcs). exact Hcs. }
  unfold main in E. apply bind_ok in E as (wm & [] & Em & (w1 & r' & Hr & E)%bind_ok).
  assert (w_calls wm = opt (mo_Enabled (sv_Mount (cf_Services cfg))) MountDisk ∧ w_nat wm = no_requests) as [Cm Nm].
  { unfold mount_disk in Em. destruct (mo_Enabled _); [apply must_Ok in Em as ->|injection Em as <-]; done. }
  apply start_all_Ok in Hr as (n1 & iso & N1 & C1 & [M1 M2] & D1 & A1 & S1); [|by rewrite Nm].
  apply bind_ok in E as (w2 & [] & E2 & (w3 & [] & E3 & [= <- <-])%bind_ok).
  destruct (shutdown_Ok flush_ok r' w1) as (_ & C2 & N2). rewrite E2 in C2, N2. cbn [fst] in C2, N2.
  assert (w_calls w3 = w_calls w2 ++ opt (mo_Enabled (sv_Mount (cf_Services cfg))) Unmount ∧ w_nat w3 = w_nat w2)
    as [C3 N3].
  { destruct (mo_Enabled _); injection E3 as <-; [done|]. by rewrite app_nil_r. }
  rewrite C3, N3, C2, C1, Cm, N2. rewrite Nm in N1. unfold stop_calls. rewrite <-!app_assoc, <-S1.
  split_and!; [done..|]. exists n1, (w_nat w1). split; [done|].
  destruct (Cleanup_requests flush_ok (ru_mgr r') (w_nat w1)) as [_ Hreq].
  split_and!.
  - intros p Hp Ho Hn. by apply (running_packets cfg flush_ok r' n1 (w_nat w1) iso p _ M1 M2).
  - by eapply cleaned_up.
  - rewrite Hreq. f_equal. unfold manages in M2. by destruct (ru_mgr r') as [m|]; [destruct M2 as (-> & _)|].
Qed.

(** When the control socket cannot be reached, the monitor forgets the stations
    it knew: the nil slice has become an empty one on the way, and the test for
    nil in the poll never holds. *)
Lemma unreachable_socket_clears `{GoInt} `{Wifi.GoParseFloat} `{Status.GoQuotient}
    pid dial_ok write_ok reply fuel iface t m :
  (∀ t, dial_ok t = false) →
  ∃ t', poll_stations pid dial_ok write_ok reply fuel iface t m = Ret (t', Status.set_stations m ∅).
Proof.
  intros Hd. unfold poll_stations, Ctrl.ap_stations, Ctrl.NewCtrlClient, Ctrl.note. io_unfold.
  rewrite Hd. io_unfold. by eexists.
Qed.
